(* ===== verification/_CoqProject ===== *)
-Q . S2P
Prelude.v
Text.v
Double.v
Model.v
Prices.v
OrderBook.v
Matching.v
BookSpec.v
BookInvariant.v
Fixtures.v
BookTheorems.v
BookGuarantees.v
BookClaims.v
CircuitBreaker.v
RiskEngine.v
Events.v
Json.v
MatchingEngine.v
EngineInvariant.v
EngineTheorems.v
RedisPositionCache.v
EventStore.v
Wiring.v
System.v
SystemClaims.v
EngineThreads.v
ThreadsInvariant.v
ThreadsBooks.v
ThreadsClaims.v
ThreadsProgress.v
ThreadsSolo.v
ThreadsTrail.v
ThreadsDeadlock.v
RateLimiter.v
JwtTokenService.v
HttpServer.v
HttpTheorems.v
HttpClaims.v
HttpRate.v
HttpThreads.v
HttpThreadsFacts.v
HttpThreadsClaims.v
HttpThreadsAnswers.v
RateLimiterRaces.v
OrderGenerator.v
LoadTest.v
Main.v
Shutdown.v
