(* ===== verification/Prelude.v ===== *)
(** * TitanX: a verification development of the C++ exchange backend

    TitanX (src/backend) is an order-matching exchange.  A client logs in at the HTTP
    gateway, gets a signed token and presents it with every order.  The gateway checks
    the token and the rate limit of the account, reads the order from the JSON body and
    calls [MatchingEngine::submit]: the kill switch is read, the risk engine makes its
    six pre-trade checks (the first of them asks the circuit breaker), the book of the
    order's symbol is found or created, the order is matched under the lock of that
    symbol, every trade is passed to a fill consumer and reported as an event, stop
    orders are triggered, and a limit order that did not trade is confirmed as
    resting.  [main] wires the consumers: events go to the event store, whose writer
    thread inserts them into PostgreSQL; fills go to the Redis position cache and
    back to the risk engine, which tells the circuit breaker the trade price.

    ** The files

    - [Prelude.v]: [int64_t] arithmetic with wrap-around, sums over lists, ranks for
      termination, C++ loops with fuel and the rule that discharges the fuel
      ([while_exit], [while_fuel_irrel]), the outcomes of a call (returns, throws, blocks for ever), calls on shared state with
      their postconditions ([cpp], [post]), and the environment ([Env]: clocks, random
      numbers, reads of destroyed strings).
    - [Text.v], [Double.v]: what the sources use of the standard library: [c_str],
      [stoll], [stoi], [atoi], [toupper]; IEEE doubles as exact dyadic numbers with
      rounding to nearest even, [stod] and ["%.2f"].
    - [Model.v], [Prices.v] (src/model, include/titanx/model): enumerations and parsers,
      the identifier generator, [Order], [Trade]; fixed-point prices and their
      conversions.
    - [OrderBook.v] (engine/OrderBook): the book as two price-ordered lists of FIFO
      queues with the cancel index; the nested loops of the four matching algorithms;
      cancellation, queries and snapshots.
    - [Matching.v]: the matching loops as runs of a step relation on well-formed
      levels.  [BookSpec.v]: the abstract book, a priority queue of entries per side
      with [spec_fill], [spec_insert] and [spec_cancel], and the refinement of the
      loops to it.  [BookInvariant.v], [BookTheorems.v]: the invariant of the book
      ([wf_sides]: ordered, live, uncrossed; [wf_book]: the index agrees) and its
      preservation.  [BookGuarantees.v], [BookClaims.v]: what the operations promise.
    - [CircuitBreaker.v], [RiskEngine.v] (risk/): the two components with their mutexes
      as part of the state, and [PreTradeGate], the interface through which the
      matching engine sees them.
    - [Events.v] (event/): [OrderEvent], [FillEvent] and their factories.  [Json.v]: the
      [to_json] and [to_string] members of all classes.
    - [MatchingEngine.v] (engine/MatchingEngine): the engine over any gate and any pair
      of consumers.  [EngineInvariant.v], [EngineTheorems.v]: its invariant, proved
      against the laws of the gate only, and the effect of every operation.
    - [RedisPositionCache.v], [EventStore.v] (persistence/): the cache over an arbitrary
      server, which may also leave a command without an answer; the store as interleaved
      steps of producers, writer thread and [close], with the calls that the writer makes
      on the database.
    - [Wiring.v] (main.cpp): the two consumers, the fill consumer as the list of the calls
      it makes, and the initial system.  [System.v],
      [SystemClaims.v]: what a submission logs and records, and the runs of the system.
    - [EngineThreads.v]: the calls on the engine once more, as control points of
      overlapping threads with the map mutex and the shared locks of the symbols; one
      [turn] is one step of one call.  [ThreadsInvariant.v]: who holds which lock.
      [ThreadsBooks.v]: the books, the kill switch and the history of the operations on
      them, each with the call that made it.
      [ThreadsClaims.v], [ThreadsProgress.v]: soundness, linearizability and races;
      termination.  [ThreadsSolo.v]: the two models of [submit] agree, a call that
      overlaps with none being the call of [MatchingEngine.v].  [ThreadsTrail.v]: what overlapping calls log and report, on
      the wired system.  [ThreadsDeadlock.v]: what can block them.
    - [RateLimiter.v] (gateway/TokenBucketRateLimiter): the token buckets, one call at a
      time.  [RateLimiterRaces.v]: overlapping calls on one bucket, one atomic access
      per step.
    - [JwtTokenService.v] (gateway/JwtTokenService): tokens and their validation.
    - [HttpServer.v] (gateway/HttpServer): authentication and the seven routes, on the
      state of the wired system, one request after the other.  [HttpTheorems.v],
      [HttpClaims.v], [HttpRate.v]: what the gateway promises.
    - [HttpThreads.v]: the handlers once more, as control points of overlapping requests
      over the overlapping calls of [EngineThreads.v].  [HttpThreadsFacts.v]: the
      invariant that ties every call on the engine to the request that made it.
      [HttpThreadsClaims.v], [HttpThreadsAnswers.v]: refinement, exact responses, and
      that every request is answered.
    - [OrderGenerator.v] (simulation/): the load test, its threads on the engine of
      [EngineThreads.v], and its report.  [LoadTest.v]: that it completes.
    - [Main.v] (main.cpp): the configuration and the server that [main] starts.
      [Shutdown.v]: what [main] and the destructors do when the server has stopped.
    - [Fixtures.v]: the concrete inputs of the witnesses.

    ** What the theorems show

    - The book: every matching algorithm does to the two sides what price-time
      priority prescribes on the abstract queues (functional refinement, all fills in
      order), quantity is conserved, books are never crossed, the index agrees with the
      queues, FOK is all or nothing, IOC leaves nothing behind, cancellation removes
      exactly one order, snapshots are exact, the loops terminate.
    - Risk: a check approves an order exactly when it violates none of the documented
      limits, stated in exact arithmetic apart from the code ([violates]), and otherwise
      names the first that it violates, as long as the products and sums fit ([fits]; two
      theorems show what happens where they do not); identifiers are approved at most
      once, positions are the sums of the reported fills.
    - The engine and the system, for calls that do not overlap: no account trades with
      itself, recorded positions stay within the limit, books of a running system are sound, one submission touches one
      book, its audit trail is exact, it returns when its consumers do, and the halted
      engine only rejects.
    - Overlapping calls on the engine: however they are interleaved, the books stay
      sound and no account trades with itself; the calls are linearizable, in an order
      that agrees with real time and in which every call has at most one operation, whose
      result it returns; the locks protect every book, so that the only data races are
      the unprotected map lookups of [cancel] and [getSnapshot] and the commands that
      fill consumers send on the one Redis connection; there is no deadlock and every
      call returns.  The event log is an interleaving of exact trails, one per call, and
      the recorded positions are the sums of all reported fills.  On the wired system
      nothing but a trip of the circuit breaker can block a call when Redis answers.  Two orders checked at the same time can pass the
      position limit ([position_limit_race]).
    - Persistence: events are written in order, with exactly one attempt for each, the
      queue is always drained, an orderly end of [main] loses nothing, cached positions
      are exact sums.
    - Gateway: for requests one after the other, the server refines the system of
      non-overlapping calls (every request is a sequence of its steps), an order that is
      refused gets 401, 429 or 400 and leaves no trace, an accepted one is exactly one
      submission, responses have the shape of the API, and the rate limit holds.
      Protected routes need a verified token, and a token gives back the account and the
      permissions it was made with.
    - Overlapping requests: behind the gateway the engine is always in a state that
      overlapping calls reach, so that all of the above holds there; a request makes at
      most one call, and a protected one only with a verified token; every response tells
      the result of the request's own call, at its place in the history of the engine;
      every request is answered unless the circuit breaker trips or Redis does not
      answer.
    - Overlapping calls on a bucket: the tokens stay within the capacity, a call that
      overlaps with none is [tryConsume]; a refill that overlaps can give tokens out
      twice ([refill_race_breaks_limit]).
    - Values: prices in cents survive their text form, prices below 2^50 units their
      [double] form, the JSON of an event tells the event.  The load test completes for
      every interleaving of its threads, and its report is printed with ordered
      percentiles; its source does not compile as it is (two [constexpr] prices are
      initialised by a function that is not), and the model takes their values.
    - Where the code does not do what its comments say, a theorem states what it does:
      the deadlock of the circuit breaker, lost stop orders, the index after a read of
      a destroyed identifier, the IOC order without a price, overflowing limits, the
      lost wakeup of [close], passive fills that are not recorded, administration
      without permission and cancellation without ownership, the refresh token that
      works as an access token, the book query before the first trade.

    ** Modelling decisions

    - An [int64_t] is a [Z]; every operation the code makes on it wraps
      ([Int64.wrap64]), also where the language leaves signed overflow undefined.
      Theorems that need exact arithmetic say under which bounds.
    - A [std::map] is the list of its entries in iteration order, an [unordered_map] a
      [gmap]; nothing modelled depends on the iteration order of the latter.
    - Fuel: the inner matching loop gets one iteration per queued order and one more,
      the outer one one per level and one more; [matching_loops_terminate] shows that
      the loops stop because of their conditions and that more fuel changes nothing.
    - Reading the identifier of an order after [pop_front] destroyed it yields
      [freed_string]; theorems that need it to see the old text assume
      [FreedReadsOld].
    - A mutex is a flag; a thread that takes a mutex it already holds blocks for ever
      ([Hang]), and the mutexes that it holds stay held ([check_blocked],
      [price_blocked]).  [MatchingEngine.v], [System.v] and [HttpServer.v] take one call
      after the other; [EngineThreads.v] interleaves the calls on the engine.  There a
      step lies between two accesses to shared members; a pre-trade check, the event
      consumer and each call of the fill consumer, which work under mutexes of their own
      or on the Redis connection, are one step each, and a call that blocks for ever in
      one of them is [Stuck] while the others go on.  In [HttpThreads.v] a
      step of a request lies between two calls on shared components; a call on the rate
      limiter is one step, and [RateLimiterRaces.v] looks inside it.  The history of
      operations and the owners of the calls are not part of the program.  The event
      store, the token bucket, the threads of the load test and the end of [main] are
      interleaved as well.
    - The database, the Redis server, the JSON printer and parser, the JWT library and
      the random engine are outside the program: they are arguments ([DbAnswer],
      [RedisServer], [JsonPrinter], [JsonParser], [JwtLib], [SimRandom]), with
      documented behaviour as a class where a theorem relies on it ([RedisCounters],
      [RedisReplies], [JsonParserLaws], [JsonPrinterEnds], [JwtLaws], [LibrariesEnd],
      [SimRandomLaws]).
    - A Redis command that is not answered blocks its caller for ever: the code sets a
      timeout for the connection only.  An event that cannot be printed ends the process
      from the writer thread ([W_Terminated]); the wait of the writer can wake up
      spuriously.

    ** Not modelled

    Log texts; the signal handler (it clears a flag that nothing reads) and the start of
    the Crow server; the Java services, tests and infrastructure.  The rate
    limit of the gateway ([http_rate_limit]) is stated for requests one after the other.
    What two threads do to the Redis connection when their commands overlap is not
    modelled: a command is one step. *)

From Stdlib Require Import ZArith Lia Sorted Wf_nat.
From stdpp Require Import base numbers gmap strings list sorting.

Local Open Scope Z_scope.

(** The hint database of the development. *)
Create HintDb titanx.

(** A decidable fact about concrete data, by evaluation. *)
Ltac demo_decide := apply (bool_decide_unpack _); vm_compute; exact I.

(** * Machine integers

    [int64_t] values are [Z] in the range [int64]; every C++ operation on them is
    written with its wrap-around (two's complement, as the generated code
    computes).  Division truncates, as in C++. *)
Module Int64.

Definition int64 (z : Z) : Prop := - 2 ^ 63 <= z < 2 ^ 63.

Definition wrap64 (z : Z) : Z := (z + 2 ^ 63) mod 2 ^ 64 - 2 ^ 63.

Definition add64 (a b : Z) : Z := wrap64 (a + b).
Definition sub64 (a b : Z) : Z := wrap64 (a - b).
Definition mul64 (a b : Z) : Z := wrap64 (a * b).
Definition neg64 (a : Z) : Z := wrap64 (- a).
Definition div64 (a b : Z) : Z := wrap64 (Z.quot a b).

(** [std::abs(long)]: the negation wraps at the minimum. *)
Definition abs64 (a : Z) : Z := if a <? 0 then neg64 a else a.

(** [static_cast<int>] of a wider value and [uint64_t] arithmetic. *)
Definition wrap32 (z : Z) : Z := (z + 2 ^ 31) mod 2 ^ 32 - 2 ^ 31.
Definition wrapu64 (z : Z) : Z := z mod 2 ^ 64.

(** [duration_cast<milliseconds>(tp.time_since_epoch()).count()] of a time in ns. *)
Definition to_ms (ns : Z) : Z := Z.quot ns 1000000.

#[export] Instance int64_dec z : Decision (int64 z).
Proof. unfold int64. apply _. Defined.

Lemma wrap64_int64 z : int64 (wrap64 z).
Proof.
  unfold int64, wrap64.
  pose proof (Z.mod_pos_bound (z + 2 ^ 63) (2 ^ 64) ltac:(lia)). lia.
Qed.

Lemma wrap64_small z : int64 z -> wrap64 z = z.
Proof. unfold int64, wrap64. intros. rewrite Z.mod_small; lia. Qed.

Lemma sub64_self a : sub64 a a = 0.
Proof. unfold sub64. rewrite Z.sub_diag. reflexivity. Qed.

Lemma sub64_small a b : int64 (a - b) -> sub64 a b = a - b.
Proof. apply wrap64_small. Qed.

Lemma add64_small a b : int64 (a + b) -> add64 a b = a + b.
Proof. apply wrap64_small. Qed.

Lemma mul64_small a b : int64 (a * b) -> mul64 a b = a * b.
Proof. apply wrap64_small. Qed.

Lemma abs64_small a : - 2 ^ 63 < a < 2 ^ 63 -> abs64 a = Z.abs a.
Proof.
  intros. unfold abs64, neg64. destruct (Z.ltb_spec a 0); [|lia].
  rewrite wrap64_small; unfold int64; lia.
Qed.

End Int64.
Export Int64.
#[export] Hint Resolve wrap64_int64 : titanx.

(** * Sums over lists *)

Definition sum_of {A} (f : A -> Z) (l : list A) : Z := foldr Z.add 0 (f <$> l).

Lemma sum_of_app {A} (f : A -> Z) l k : sum_of f (l ++ k) = sum_of f l + sum_of f k.
Proof. unfold sum_of. induction l as [|x l IH]; cbn; [done|]. lia. Qed.

Lemma sum_of_insert {A} (f : A -> Z) l i x y :
  l !! i = Some x -> sum_of f (<[i := y]> l) = sum_of f l + f y - f x.
Proof.
  intros Hi. rewrite insert_take_drop by (by eapply lookup_lt_Some).
  rewrite <- (take_drop_middle l i x Hi) at 3.
  rewrite !sum_of_app. unfold sum_of. cbn. lia.
Qed.

Lemma sum_of_nonneg {A} (f : A -> Z) l : (forall x, 0 <= f x) -> 0 <= sum_of f l.
Proof. intros Hf. unfold sum_of. induction l as [|x l IH]; cbn; [done|]. specialize (Hf x). lia. Qed.

Lemma sum_of_le {A} (f : A -> Z) l i x :
  (forall y, 0 <= f y) -> l !! i = Some x -> f x <= sum_of f l.
Proof.
  intros Hf Hi. rewrite <- (take_drop_middle l i x Hi), sum_of_app.
  change (x :: drop (S i) l) with ([x] ++ drop (S i) l). rewrite sum_of_app.
  pose proof (sum_of_nonneg f (take i l) Hf). pose proof (sum_of_nonneg f (drop (S i) l) Hf).
  unfold sum_of at 2. cbn. lia.
Qed.

(** Two different positions. *)
Lemma sum_of_two {A} (f : A -> Z) l i j x y :
  (forall z, 0 <= f z) -> l !! i = Some x -> l !! j = Some y -> i <> j ->
  f x + f y <= sum_of f l.
Proof.
  intros Hf. revert i j. induction l as [|z l IH]; intros [|i] [|j]; cbn; try done.
  - intros [= ->] Hj _. pose proof (sum_of_le f l j y Hf Hj). unfold sum_of in *. cbn. lia.
  - intros Hi [= ->] _. pose proof (sum_of_le f l i x Hf Hi). unfold sum_of in *. cbn. lia.
  - intros Hi Hj Hne. specialize (IH i j Hi Hj ltac:(lia)). specialize (Hf z).
    unfold sum_of in *. cbn. lia.
Qed.

Lemma sum_of_pos {A} (f : A -> Z) l :
  0 < sum_of f l -> exists i x, l !! i = Some x /\ 0 < f x.
Proof.
  unfold sum_of. induction l as [|x l IH]; cbn; [done|]. intros Hs.
  destruct (decide (0 < f x)); [by exists 0%nat, x|].
  destruct IH as (i & y & Hi & Hy); [lia|]. by exists (S i), y.
Qed.

(** ** Prefixes *)

Lemma prefix_snoc_cases {A} (k l : list A) x :
  k `prefix_of` l ++ [x] -> k `prefix_of` l \/ k = l ++ [x].
Proof.
  intros [r E]. destruct r as [|y r _] using rev_ind; [right; by rewrite app_nil_r in E|left].
  rewrite app_assoc in E. apply app_inj_tail in E as [-> _]. by exists r.
Qed.

(** ** Termination

    A run ends when every step either lowers a rank or keeps it and makes a step of a
    terminating relation on a part of the state. *)
Lemma Acc_rank {A B} (next : A -> A -> Prop) (R : B -> B -> Prop) (inv : A -> Prop) (rank : A -> Z)
    (part : A -> B) :
  (forall x, inv x -> Acc R (part x)) ->
  (forall x y, inv x -> next y x -> inv y /\ 0 <= rank y /\
     (rank y < rank x \/ rank y = rank x /\ R (part y) (part x))) ->
  forall x, inv x -> Acc next x.
Proof.
  intros Hacc Hstep x. remember (Z.to_nat (rank x)) as n eqn:Hn. revert x Hn.
  induction n as [n IHn] using lt_wf_ind. intros x Hn Hx.
  pose proof (Hacc x Hx) as Hp. remember (part x) as b eqn:Hb. revert x Hn Hx Hb.
  induction Hp as [b _ IH]. intros x -> Hx ->. constructor. intros y Hy.
  destruct (Hstep x y Hx Hy) as (Hiy & Hpos & [Hlt|[Heq HR]]).
  - eapply IHn; [|reflexivity|exact Hiy]. lia.
  - eapply IH; [exact HR|by rewrite Heq|exact Hiy|reflexivity].
Qed.

(** Three ranks, compared lexicographically. *)
Lemma Acc_lex {A} (next : A -> A -> Prop) (inv : A -> Prop) (r1 r2 r3 : A -> Z) :
  (forall x y, inv x -> next y x -> inv y /\ 0 <= r1 y /\ 0 <= r2 y /\ 0 <= r3 y /\
     (r1 y < r1 x \/ r1 y = r1 x /\ (r2 y < r2 x \/ r2 y = r2 x /\ r3 y < r3 x))) ->
  forall x, inv x -> Acc next x.
Proof.
  intros Hstep.
  apply (Acc_rank next (fun y x => next y x /\ r1 y = r1 x) inv r1 id).
  2: { intros x y Hx Hy. destruct (Hstep x y Hx Hy) as (? & ? & _ & _ & ?). split_and!; try done. tauto. }
  apply (Acc_rank _ (fun y x => next y x /\ r1 y = r1 x /\ r2 y = r2 x) inv r2 id).
  2: { intros x y Hx [Hy E]. destruct (Hstep x y Hx Hy) as (? & ? & ? & _ & Hr). unfold id.
       split_and!; try done. destruct Hr as [?|[_ [?|[? _]]]]; [lia|by left|by right]. }
  apply (Acc_rank _ (fun _ _ => False) inv r3 id); [by constructor|].
  intros x y Hx (Hy & E1 & E2). destruct (Hstep x y Hx Hy) as (? & _ & _ & ? & Hr).
  split_and!; try done. lia.
Qed.

(** * C++ loops

    [while_loop fuel cond body] runs [while (cond) body] for at most [fuel]
    iterations.  [while_exit] is the termination rule: when a measure that
    decreases at every iteration is bounded by the fuel, the loop stops because
    its condition is false, never because the fuel ran out. *)
Section While.
Context {S : Type} (cond : S -> bool) (body : S -> S).

Fixpoint while_loop (fuel : nat) (s : S) : S :=
  match fuel with
  | O => s
  | Datatypes.S fuel' => if cond s then while_loop fuel' (body s) else s
  end.

Variable Inv : S -> Prop.
Hypothesis Inv_step : forall s, Inv s -> cond s = true -> Inv (body s).

Lemma while_inv fuel s : Inv s -> Inv (while_loop fuel s).
Proof.
  revert s. induction fuel as [|fuel IH]; intros s Hs; simpl; [done|].
  destruct (cond s) eqn:E; eauto.
Qed.

Variable measure : S -> nat.
Hypothesis measure_step :
  forall s, Inv s -> cond s = true -> (measure (body s) < measure s)%nat.

Lemma while_exit fuel s :
  Inv s -> (measure s <= fuel)%nat -> cond (while_loop fuel s) = false.
Proof.
  revert s. induction fuel as [|fuel IH]; intros s Hs Hm; simpl.
  - destruct (cond s) eqn:E; [|done]. pose proof (measure_step s Hs E). lia.
  - destruct (cond s) eqn:E; [|done].
    apply IH; eauto. pose proof (measure_step s Hs E). lia.
Qed.

Lemma while_fuel_irrel f1 f2 s :
  Inv s -> (measure s <= f1)%nat -> (measure s <= f2)%nat ->
  while_loop f1 s = while_loop f2 s.
Proof.
  revert f2 s. induction f1 as [|f1 IH]; intros f2 s Hs H1 H2;
    destruct f2 as [|f2]; simpl; try done;
    destruct (cond s) eqn:E; try done;
    pose proof (measure_step s Hs E); try lia.
  apply IH; eauto; lia.
Qed.
End While.

(** * Outcomes of a call

    A C++ call returns a value, throws, or never returns: [Hang] is a thread
    blocked for ever on a mutex that it owns itself. *)
Inductive outcome (A : Type) : Type :=
| Ret (a : A)
| Throw (what : string)
| Hang.
Arguments Ret {A} a.
Arguments Throw {A} what.
Arguments Hang {A}.

Definition obind {A B} (m : outcome A) (k : A -> outcome B) : outcome B :=
  match m with
  | Ret a => k a
  | Throw e => Throw e
  | Hang => Hang
  end.

Declare Scope cpp_scope.
Delimit Scope cpp_scope with cpp.
Notation "'let!' x ':=' m 'in' k" := (obind m (fun x => k))
  (at level 10, x binder, m at level 100, k at level 200)
  : cpp_scope.

Lemma obind_Ret {A B} (m : outcome A) (k : A -> outcome B) b :
  obind m k = Ret b <-> exists a, m = Ret a /\ k a = Ret b.
Proof. destruct m; simpl; split; intros H; try discriminate; destruct_and?; eauto;
  destruct H as (a' & E & ?); congruence. Qed.

(** * Calls that change shared state

    [cpp S A] is a call that reads and changes the state [S] and returns an [A],
    throws, or never returns.  An exception keeps the changes made before it. *)
Definition cpp (S A : Type) : Type := S -> outcome A * S.

Section Calls.
Context {S : Type}.

Definition cret {A} (a : A) : cpp S A := fun s => (Ret a, s).

Definition cbind {A B} (m : cpp S A) (k : A -> cpp S B) : cpp S B := fun s =>
  match m s with
  | (Ret a, s') => k a s'
  | (Throw e, s') => (Throw e, s')
  | (Hang, s') => (Hang, s')
  end.

Definition chang {A} : cpp S A := fun s => (Hang, s).

(** [try { m } catch (const std::exception&) { }]. *)
Definition ctry (m : cpp S unit) : cpp S unit := fun s =>
  match m s with
  | (Throw _, s') => (Ret tt, s')
  | r => r
  end.

(** [try { return m; } catch (const std::exception& e) { return h(e.what()); }]. *)
Definition ccatch {A} (m : cpp S A) (h : string -> cpp S A) : cpp S A := fun s =>
  match m s with
  | (Throw e, s') => h e s'
  | r => r
  end.

(** A call that does not touch the state. *)
Definition clift {A} (r : outcome A) : cpp S A := fun s => (r, s).

(** [for (const auto& x : l) m(x)]. *)
Fixpoint cfor {A} (l : list A) (m : A -> cpp S unit) : cpp S unit :=
  match l with
  | [] => cret tt
  | x :: l => cbind (m x) (fun _ => cfor l m)
  end.

(** Calls one after the other. *)
Definition in_order (steps : list (cpp S unit)) : cpp S unit := cfor steps (fun m => m).

(** [post m s Q E N]: if the call returns, the value and the state satisfy [Q]; if
    it throws, the state satisfies [E]; it can only fail to return if [N]. *)
Definition post {A} (m : cpp S A) (s : S) (Q : A -> S -> Prop) (E : S -> Prop) (N : Prop)
    : Prop :=
  match m s with
  | (Ret a, s') => Q a s'
  | (Throw _, s') => E s'
  | (Hang, _) => N
  end.

Lemma post_bind {A B} (m : cpp S A) (k : A -> cpp S B) s Q E N :
  post m s (fun a s' => post (k a) s' Q E N) E N -> post (cbind m k) s Q E N.
Proof. unfold post, cbind. by destruct (m s) as [[a| |] s']. Qed.

Lemma post_mono {A} (m : cpp S A) s (Q Q' : A -> S -> Prop) (E E' : S -> Prop) N :
  post m s Q E N -> (forall a s', Q a s' -> Q' a s') -> (forall s', E s' -> E' s') ->
  post m s Q' E' N.
Proof. unfold post. destruct (m s) as [[a| |] s']; auto. Qed.

Lemma post_conj {A} (m : cpp S A) s (Q Q' : A -> S -> Prop) (E E' : S -> Prop) N :
  post m s Q E N -> post m s Q' E' N ->
  post m s (fun a s' => Q a s' /\ Q' a s') (fun s' => E s' /\ E' s') N.
Proof. unfold post. destruct (m s) as [[a| |] s']; auto. Qed.

(** What each of the calls keeps. *)
Lemma post_order (steps : list (cpp S unit)) (I : S -> Prop) N s :
  (forall m s, m ∈ steps -> I s -> post m s (fun _ => I) I N) -> I s ->
  post (in_order steps) s (fun _ => I) I N.
Proof.
  unfold in_order. revert s. induction steps as [|m steps IH]; intros s Hm Hi; [done|].
  apply post_bind. eapply post_mono; [apply Hm; [by left|done]| |done].
  intros [] s' Hi'. apply IH; [|done]. intros m' s'' Hin. apply Hm. by right.
Qed.

Lemma post_try (m : cpp S unit) s Q E N :
  post m s Q (Q tt) N -> post (ctry m) s Q E N.
Proof. unfold post, ctry. by destruct (m s) as [[[]| |] s']. Qed.

Lemma post_catch {A} (m : cpp S A) (h : string -> cpp S A) s Q E N :
  post m s Q (fun s' => forall e, post (h e) s' Q E N) N -> post (ccatch m h) s Q E N.
Proof.
  unfold post, ccatch. destruct (m s) as [[a|e|] s']; [done| |done]. intros Hh. apply (Hh e).
Qed.

Lemma post_lift {A} (r : outcome A) s (Q : A -> S -> Prop) (E : S -> Prop) (N : Prop) :
  (forall a, r = Ret a -> Q a s) -> E s -> (r = Hang -> N) -> post (clift r) s Q E N.
Proof. unfold post, clift. destruct r; auto. Qed.

Lemma post_returns {A} (m : cpp S A) s Q :
  post m s Q (fun _ => False) False -> exists a s', m s = (Ret a, s') /\ Q a s'.
Proof. unfold post. destruct (m s) as [[a| |] s']; [eauto|done..]. Qed.

End Calls.

Notation "'do!' x <- m ; k" := (cbind m (fun x => k))
  (at level 100, x binder, m at level 99, k at level 200, right associativity) : cpp_scope.

(** * The environment

    What the process reads from outside the program: the two clocks, the output
    of the random engine, and what reading the characters of a [std::string]
    yields after the object that owned them was destroyed (undefined by the
    language; here an arbitrary value).  Each reading takes the next position of
    the environment, so the [nat] that the operations thread is the number of
    readings made so far. *)
Class Env := {
  sys_now : nat -> Z;                       (* system_clock::now(), ns *)
  steady_now : nat -> Z;                    (* steady_clock::now(), ns *)
  rand_u64 : nat -> Z;                      (* mt19937_64 output *)
  freed_string : nat -> string -> string    (* read after destruction *)
}.

(** The readings of destroyed strings that still see the old characters. *)
Class FreedReadsOld `{Env} : Prop :=
  freed_reads_old : forall n s, freed_string n s = s.
