(* ===== verification/Text.v ===== *)
(** The texts of the standard library that the components use: C strings, decimal
    integers ([std::stoll], [std::stoi], [std::atoi]) and upper case. *)

From Stdlib Require Import ZArith Lia Ascii.
From stdpp Require Import base numbers strings list pretty.
From S2P Require Import Prelude.

Local Open Scope Z_scope.

(** * C strings and integers *)

(** What [%s] reads from [s.c_str()]: the characters before the first NUL. *)
Fixpoint c_str (s : string) : string :=
  match s with
  | EmptyString => EmptyString
  | String c s' => if Ascii.eqb c Ascii.zero then EmptyString else String c (c_str s')
  end.

(** Decimal digits and white space. *)
Definition is_space (c : ascii) : bool :=
  let n := Ascii.N_of_ascii c in ((n =? 32) || ((9 <=? n) && (n <=? 13)))%N.

Definition digit_value (c : ascii) : option Z :=
  let n := Z.of_N (Ascii.N_of_ascii c) in
  if (48 <=? n) && (n <=? 57) then Some (n - 48) else None.

Fixpoint read_digits (acc : Z) (s : string) : Z :=
  match s with
  | EmptyString => acc
  | String c s' =>
      match digit_value c with Some d => read_digits (10 * acc + d) s' | None => acc end
  end.

Definition unsigned_digits (s : string) : option Z :=
  match s with
  | EmptyString => None
  | String c _ => match digit_value c with Some _ => Some (read_digits 0 s) | None => None end
  end.

Fixpoint skip_spaces (s : string) : string :=
  match s with
  | String c s' => if is_space c then skip_spaces s' else s
  | EmptyString => s
  end.

(** The sign and the digits of an integer, after optional white space. *)
Definition signed_digits (s : string) : option Z :=
  match skip_spaces s with
  | String "-" s' => Z.opp <$> unsigned_digits s'
  | String "+" s' => unsigned_digits s'
  | s' => unsigned_digits s'
  end.

(** [std::stoll]. *)
Definition stoll (s : string) : outcome Z :=
  match signed_digits s with
  | None => Throw "std::invalid_argument"
  | Some v => if bool_decide (int64 v) then Ret v else Throw "std::out_of_range"
  end.

(** [std::stoi] and [std::atoi]; the latter has no error result: 0 without digits, and
    the value that [strtol] returns is cut to [int]. *)
Definition int32 (z : Z) : Prop := - 2 ^ 31 <= z < 2 ^ 31.

#[export] Instance int32_dec z : Decision (int32 z).
Proof. unfold int32. apply _. Defined.

Definition stoi (s : string) : outcome Z :=
  match signed_digits s with
  | None => Throw "stoi"
  | Some v => if bool_decide (int32 v) then Ret v else Throw "stoi"
  end.

Definition clamp64 (v : Z) : Z := Z.max (- 2 ^ 63) (Z.min v (2 ^ 63 - 1)).

Definition atoi (s : string) : Z :=
  match signed_digits s with
  | None => 0
  | Some v => wrap32 (clamp64 v)
  end.

(** * Upper case

    [std::toupper] in the C locale, and [std::transform] with it. *)
Definition toupper (c : ascii) : ascii :=
  let n := Ascii.N_of_ascii c in
  if ((97 <=? n) && (n <=? 122))%N then Ascii.ascii_of_N (n - 32) else c.

Fixpoint upper (s : string) : string :=
  match s with
  | EmptyString => EmptyString
  | String c s' => String (toupper c) (upper s')
  end.

Lemma toupper_idemp c : toupper (toupper c) = toupper c.
Proof. by destruct c as [[] [] [] [] [] [] [] []]. Qed.

Lemma upper_idemp s : upper (upper s) = upper s.
Proof. induction s as [|c s IH]; cbn; [done|]. by rewrite toupper_idemp, IH. Qed.

(** * Decimal numbers *)

Definition starts_digit (s : string) : Prop :=
  exists c s' d, s = String c s' /\ digit_value c = Some d.

Lemma digit_value_pretty n :
  (n < 10)%N -> digit_value (pretty_N_char n) = Some (Z.of_N n).
Proof.
  intros Hn. rewrite <- (N2Nat.id n), nat_N_Z. generalize (N.to_nat n) (ltac:(lia) : (N.to_nat n < 10)%nat).
  intros m Hm. do 10 (destruct m as [|m]; [reflexivity|]). lia.
Qed.

Lemma digit_not_special c d :
  digit_value c = Some d -> is_space c = false /\ c <> "-"%char /\ c <> "+"%char.
Proof.
  destruct c as [[] [] [] [] [] [] [] []]; vm_compute; intros [=]; split_and!; congruence.
Qed.

Lemma read_digits_pretty x s :
  read_digits 0 (pretty_N_go x s) = read_digits (Z.of_N x) s /\
  ((0 < x)%N \/ starts_digit s -> starts_digit (pretty_N_go x s)).
Proof.
  revert s. induction (N.lt_wf_0 x) as [x _ IH]; intros s.
  destruct (decide (x = 0%N)) as [->|Hx].
  { rewrite pretty_N_go_0. split; [done|]. intros [?|?]; [lia|done]. }
  rewrite pretty_N_go_step by lia.
  destruct (IH (x `div` 10)%N ltac:(apply N.div_lt; lia)
              (String (pretty_N_char (x `mod` 10)) s)) as [-> Hd].
  pose proof (digit_value_pretty (x `mod` 10) ltac:(apply N.mod_lt; lia)) as Hv.
  cbn [read_digits]. rewrite Hv. split.
  - f_equal. rewrite N2Z.inj_div, N2Z.inj_mod. pose proof (Z.div_mod (Z.of_N x) 10). lia.
  - intros _. apply Hd. right. do 3 eexists. done.
Qed.

Lemma unsigned_digits_start s :
  starts_digit s -> unsigned_digits s = Some (read_digits 0 s).
Proof. intros (c & s' & d & -> & Hd). cbn [unsigned_digits]. by rewrite Hd. Qed.

Lemma skip_spaces_start s :
  starts_digit s ->
  skip_spaces s = s /\ (forall s', s <> String "-" s') /\ (forall s', s <> String "+" s').
Proof.
  intros (c & s' & d & -> & Hd). destruct (digit_not_special c d Hd) as (Hs & ? & ?).
  cbn [skip_spaces]. rewrite Hs. split_and!; [done|congruence..].
Qed.

Lemma unsigned_digits_pretty (n : positive) :
  starts_digit (pretty n) /\ unsigned_digits (pretty n) = Some (Z.pos n).
Proof.
  unfold pretty, pretty_positive, pretty, pretty_N. rewrite decide_False by done.
  destruct (read_digits_pretty (Npos n) "") as [Hr Hs].
  assert (starts_digit (pretty_N_go (Npos n) "")) as Hd by (apply Hs; left; lia).
  split; [done|]. rewrite unsigned_digits_start, Hr by done. done.
Qed.

Lemma signed_digits_pretty z : signed_digits (pretty z) = Some z.
Proof.
  unfold signed_digits. destruct z as [|n|n]; [done| |].
  - destruct (unsigned_digits_pretty n) as [Hd E].
    change (pretty (Z.pos n)) with (pretty n).
    destruct (skip_spaces_start _ Hd) as (-> & Hm & Hp).
    destruct (pretty n) as [|c s]; [done|].
    destruct c as [[] [] [] [] [] [] [] []]; exact E || by destruct (Hm s) || by destruct (Hp s).
  - destruct (unsigned_digits_pretty n) as [_ E].
    change (pretty (Z.neg n)) with (String "-" (pretty n)). cbn [skip_spaces].
    change (is_space "-") with false. cbn. by rewrite E.
Qed.

(** [stoll] reads back what [%lld] prints. *)
Lemma stoll_pretty z : int64 z -> stoll (pretty z) = Ret z.
Proof. intros Hz. unfold stoll. by rewrite signed_digits_pretty, bool_decide_true. Qed.

Lemma stoi_pretty z : int32 z -> stoi (pretty z) = Ret z.
Proof. intros Hz. unfold stoi. by rewrite signed_digits_pretty, bool_decide_true. Qed.

(** * Characters that a text does not contain *)

Fixpoint no_char (c : ascii) (s : string) : Prop :=
  match s with
  | EmptyString => True
  | String c' s' => c' <> c /\ no_char c s'
  end.

Lemma split_at_char c s1 s2 r1 r2 :
  no_char c s1 -> no_char c s2 ->
  s1 +:+ String c r1 = s2 +:+ String c r2 -> s1 = s2 /\ r1 = r2.
Proof.
  revert s2. induction s1 as [|a s1 IH]; intros [|b s2]; cbn; intros H1 H2 E.
  - by injection E.
  - injection E as -> _. by destruct H2.
  - injection E as -> _. by destruct H1.
  - injection E as -> E. destruct (IH s2) as [-> ->]; [tauto..|done|done].
Qed.

Lemma c_str_id s : no_char Ascii.zero s -> c_str s = s.
Proof.
  induction s as [|c s IH]; [done|]. cbn. intros [Hc Hs].
  destruct (Ascii.eqb_spec c Ascii.zero); [done|]. by rewrite IH.
Qed.

Lemma no_char_app c s1 s2 : no_char c (s1 +:+ s2) <-> no_char c s1 /\ no_char c s2.
Proof.
  induction s1 as [|a s1 IH]; [cbn; tauto|].
  change (String a s1 +:+ s2) with (String a (s1 +:+ s2)). cbn [no_char]. rewrite IH. tauto.
Qed.
