(* ===== verification/Double.v ===== *)
(** Double-precision numbers as the price conversions and the load generator use
    them: every operation yields the exact result rounded to the nearest double,
    ties to even (IEEE 754, binary64).  A finite double is [m * 2 ^ e]; the sign of
    a zero, which none of the code observes, is not represented.  [std::stod] and
    the conversion [%.2f] read and print them. *)

From Stdlib Require Import ZArith Lia Ascii.
From stdpp Require Import base numbers strings list pretty.
From S2P Require Import Prelude Text.

Local Open Scope Z_scope.

Inductive double := Fin (m e : Z) | Inf (neg : bool) | NaN.

(** * Rounding *)

(** The integer nearest to [n / d], ties to even. *)
Definition div_even (n d : Z) : Z :=
  let q := n / d in
  let r := n mod d in
  if 2 * r <? d then q
  else if d <? 2 * r then q + 1
  else if Z.even q then q else q + 1.

(** The exponent [x] with [2 ^ x <= n / d < 2 ^ (x + 1)]. *)
Definition bin_exp (n d : Z) : Z :=
  let x := Z.log2 n - Z.log2 d in
  if (if 0 <=? x then d * 2 ^ x <=? n else d <=? n * 2 ^ (- x)) then x else x - 1.

(** The double nearest to [n / d]: 53 significant bits, exponents from -1074 on,
    infinite from [2 ^ 1024] on. *)
Definition round_q (n d : Z) : double :=
  if n =? 0 then Fin 0 0
  else
    let e := Z.max (- 1074) (bin_exp (Z.abs n) d - 52) in
    let m := if 0 <=? e then div_even n (d * 2 ^ e) else div_even (n * 2 ^ (- e)) d in
    if (971 <? e) || ((e =? 971) && (2 ^ 53 <=? Z.abs m)) then Inf (n <? 0) else Fin m e.

(** A finite double as a fraction with a positive denominator. *)
Definition num (m e : Z) : Z := if 0 <=? e then m * 2 ^ e else m.
Definition den (e : Z) : Z := if 0 <=? e then 1 else 2 ^ (- e).

(** * Arithmetic *)

Definition double_of_int (z : Z) : double := round_q z 1.

Definition dmul (x y : double) : double :=
  match x, y with
  | Fin m e, Fin m' e' => round_q (num m e * num m' e') (den e * den e')
  | NaN, _ | _, NaN => NaN
  | Inf s, Fin m _ | Fin m _, Inf s => if m =? 0 then NaN else Inf (xorb s (m <? 0))
  | Inf s, Inf s' => Inf (xorb s s')
  end.

Definition dadd (x y : double) : double :=
  match x, y with
  | Fin m e, Fin m' e' =>
      round_q (num m e * den e' + num m' e' * den e) (den e * den e')
  | NaN, _ | _, NaN => NaN
  | Inf s, Fin _ _ | Fin _ _, Inf s => Inf s
  | Inf s, Inf s' => if Bool.eqb s s' then Inf s else NaN
  end.

(** A divisor zero counts as positive: the zeros that the code divides by are integers. *)
Definition ddiv (x y : double) : double :=
  match x, y with
  | Fin m e, Fin m' e' =>
      if m' =? 0 then (if m =? 0 then NaN else Inf (m <? 0))
      else if m' <? 0 then round_q (- (num m e * den e')) (den e * - num m' e')
      else round_q (num m e * den e') (den e * num m' e')
  | Inf s, Fin m' _ => Inf (xorb s (m' <? 0))
  | Fin _ _, Inf _ => Fin 0 0
  | _, _ => NaN
  end.

(** [x / 0] is infinite, [0 / 0] is not a number. *)
Example division_by_zero :
  ddiv (double_of_int 10000) (double_of_int 0) = Inf false /\ ddiv (Fin 0 0) (Fin 0 0) = NaN /\
  ddiv (double_of_int 6) (double_of_int (-3)) = double_of_int (-2).
Proof. split_and!; reflexivity. Qed.

Definition dlt (x y : double) : bool :=
  match x, y with
  | Fin m e, Fin m' e' => num m e * den e' <? num m' e' * den e
  | Inf true, Fin _ _ | Inf true, Inf false | Fin _ _, Inf false => true
  | _, _ => false
  end.

(** The conversions to integer types truncate.  Out of range they are undefined by
    the language; the generated code yields the smallest [int64_t]. *)
Definition trunc (m e : Z) : Z := Z.quot (num m e) (den e).

Definition int64_of_double (x : double) : Z :=
  match x with
  | Fin m e => if bool_decide (int64 (trunc m e)) then trunc m e else - 2 ^ 63
  | _ => - 2 ^ 63
  end.

(** * [std::stod]

    White space, a sign, then a decimal number, a hexadecimal number, an infinity or
    a NaN; what follows the number is ignored. *)

Definition hex_value (c : ascii) : option Z :=
  match digit_value c with
  | Some d => Some d
  | None =>
      let n := Z.of_N (Ascii.N_of_ascii (toupper c)) in
      if (65 <=? n) && (n <=? 70) then Some (n - 55) else None
  end.

(** The digits at the front: their value on top of [acc], their number on top of
    [k], and the rest. *)
Fixpoint take_digits (value : ascii -> option Z) (base acc k : Z) (s : string)
    : Z * Z * string :=
  match s with
  | String c s' =>
      match value c with
      | Some d => take_digits value base (base * acc + d) (k + 1) s'
      | None => (acc, k, s)
      end
  | EmptyString => (acc, k, s)
  end.

(** Digits with an optional point: mantissa, digits after the point, digits in all. *)
Definition take_mantissa (value : ascii -> option Z) (base : Z) (s : string)
    : Z * Z * Z * string :=
  let '(acc, k, rest) := take_digits value base 0 0 s in
  match rest with
  | String "." rest' =>
      let '(acc', k', rest'') := take_digits value base acc 0 rest' in
      if k + k' =? 0 then (acc, 0, 0, s) else (acc', k', k + k', rest'')
  | _ => (acc, 0, k, rest)
  end.

(** The exponent after the letter [letter], 0 when it is missing. *)
Definition take_exponent (letter : ascii) (s : string) : Z :=
  match s with
  | String c s' =>
      if Ascii.eqb (toupper c) letter then
        match s' with
        | String "-" s'' => - read_digits 0 s''
        | String "+" s'' => read_digits 0 s''
        | _ => read_digits 0 s'
        end
      else 0
  | EmptyString => 0
  end.

Definition is_prefix (p s : string) : bool := String.prefix p s.

(** A finite number [n / d], an infinity or a NaN; [None] without a number. *)
Inductive parsed := Number (n d : Z) | Infinity | NotANumber.

Definition scaled (m b ex : Z) : parsed :=
  if 0 <=? ex then Number (m * b ^ ex) 1 else Number m (b ^ (- ex)).

Definition parse_unsigned (s : string) : option parsed :=
  let '(m, f, k, rest) := take_mantissa digit_value 10 s in
  let decimal := if k =? 0 then None else Some (scaled m 10 (take_exponent "E" rest - f)) in
  if is_prefix "INF" (upper s) then Some Infinity
  else if is_prefix "NAN" (upper s) then Some NotANumber
  else if is_prefix "0X" (upper s) then
    let '(m, f, k, rest) := take_mantissa hex_value 16 (String.substring 2 (String.length s) s) in
    if k =? 0 then decimal else Some (scaled m 2 (take_exponent "P" rest - 4 * f))
  else decimal.

(** The result is out of range when it overflows, or is below the normal range and
    inexact. *)
Definition stod_result (neg : bool) (p : parsed) : outcome double :=
  match p with
  | Infinity => Ret (Inf neg)
  | NotANumber => Ret NaN
  | Number n d =>
      let n := if neg then - n else n in
      match round_q n d with
      | Fin m e =>
          if (Z.abs n * 2 ^ 1022 <? d) && negb (num m e * d =? n * den e) then Throw "stod"
          else Ret (Fin m e)
      | _ => Throw "stod"
      end
  end.

Definition stod (s : string) : outcome double :=
  let '(neg, s) := match skip_spaces s with
                   | String "-" s' => (true, s')
                   | String "+" s' => (false, s')
                   | s' => (false, s')
                   end in
  match parse_unsigned s with
  | None => Throw "stod"
  | Some p => stod_result neg p
  end.

(** * The conversion [%.2f]

    The exact value rounded to hundredths, ties to even. *)
Definition two_digits (c : Z) : string :=
  String (pretty_N_char (Z.to_N (c / 10))) (String (pretty_N_char (Z.to_N (c mod 10))) "").

Definition decimal_text (c : Z) : string :=
  pretty (c / 100) +:+ "." +:+ two_digits (c mod 100).

Definition format_2f (x : double) : string :=
  match x with
  | Fin m e =>
      (if m <? 0 then "-" else "") +:+
      decimal_text (div_even (100 * Z.abs (num m e)) (den e))
  | Inf true => "-inf"
  | Inf false => "inf"
  | NaN => "nan"
  end.

(** * Rounding errors *)

Lemma div_even_spec n d : 0 < d -> Z.abs (2 * (div_even n d * d - n)) <= d.
Proof.
  intros Hd. unfold div_even.
  pose proof (Z.div_mod n d ltac:(lia)). pose proof (Z.mod_pos_bound n d Hd).
  set (q := n / d) in *. set (r := n mod d) in *.
  destruct (Z.ltb_spec (2 * r) d), (Z.ltb_spec d (2 * r)), (Z.even q); nia.
Qed.

(** An integer that is closer than one half is the result. *)
Lemma div_even_near n d k : 0 < d -> 2 * Z.abs (k * d - n) < d -> div_even n d = k.
Proof.
  intros Hd Hk. pose proof (div_even_spec n d Hd). nia.
Qed.

Lemma bin_exp_below n d j : 0 < n -> 0 < d -> 0 <= j -> n < d * 2 ^ j -> bin_exp n d < j.
Proof.
  intros Hn Hd Hj Hlt. unfold bin_exp.
  destruct (Z.log2_spec n Hn) as [Hn1 _]. destruct (Z.log2_spec d Hd) as [_ Hd2].
  pose proof (Z.log2_nonneg d).
  set (x := Z.log2 n - Z.log2 d) in *. destruct (Z.leb_spec 0 x) as [Hx|Hx].
  2: { destruct (d <=? n * 2 ^ (- x)); lia. }
  destruct (Z.leb_spec (d * 2 ^ x) n).
  - apply (Z.pow_lt_mono_r_iff 2); [lia..|]. nia.
  - destruct (Z.eq_dec x 0); [lia|]. enough (x - 1 < j) by lia.
    apply (Z.pow_lt_mono_r_iff 2); [lia..|].
    assert (2 ^ Z.log2 n = 2 ^ (x - 1) * 2 ^ Z.succ (Z.log2 d)) as E.
    { rewrite <- Z.pow_add_r by lia. f_equal. unfold x. lia. }
    rewrite E in Hn1. pose proof (Z.pow_pos_nonneg 2 (x - 1) ltac:(lia) ltac:(lia)). nia.
Qed.

(** A positive number below [2 ^ j] is rounded to [m / 2 ^ k] with an error of at most
    half of [1 / 2 ^ k], where [k] is at least [53 - j]. *)
Lemma round_q_pos n d j :
  0 < n -> 0 < d -> 0 <= j <= 53 -> n < d * 2 ^ j ->
  exists m k, round_q n d = Fin m (- k) /\ 53 - j <= k /\ 0 <= m /\
    Z.abs (2 * (m * d - n * 2 ^ k)) <= d.
Proof.
  intros Hn Hd Hj Hlt. unfold round_q. destruct (Z.eqb_spec n 0); [lia|].
  rewrite Z.abs_eq by lia. pose proof (bin_exp_below n d j Hn Hd ltac:(lia) Hlt) as Hb.
  set (e := Z.max (- 1074) (bin_exp n d - 52)).
  assert (e <= 0) by lia. cbv zeta.
  assert ((971 <? e) || ((e =? 971) &&
    (2 ^ 53 <=? Z.abs (if 0 <=? e then div_even n (d * 2 ^ e) else div_even (n * 2 ^ (- e)) d)))
    = false) as -> by (destruct (Z.ltb_spec 971 e), (Z.eqb_spec e 971); try lia; done).
  assert ((if 0 <=? e then div_even n (d * 2 ^ e) else div_even (n * 2 ^ (- e)) d) =
          div_even (n * 2 ^ (- e)) d) as ->.
  { destruct (Z.leb_spec 0 e); [|done]. assert (e = 0) as -> by lia.
    by rewrite Z.pow_0_r, !Z.mul_1_r. }
  exists (div_even (n * 2 ^ (- e)) d), (- e). rewrite Z.opp_involutive.
  pose proof (div_even_spec (n * 2 ^ (- e)) d Hd) as Hs.
  pose proof (Z.pow_pos_nonneg 2 (- e) ltac:(lia) ltac:(lia)).
  split_and!; [done|lia| |done]. nia.
Qed.

Lemma num_neg m k : 0 <= k -> num m (- k) = m.
Proof.
  intros Hk. unfold num. destruct (Z.leb_spec 0 (- k)); [|done].
  assert (k = 0) as -> by lia. apply Z.mul_1_r.
Qed.

Lemma den_neg k : 0 <= k -> den (- k) = 2 ^ k.
Proof.
  intros Hk. unfold den. destruct (Z.leb_spec 0 (- k)); [|by rewrite Z.opp_involutive].
  assert (k = 0) as -> by lia. done.
Qed.

(** Integers below [2 ^ 53] are represented exactly. *)
Lemma double_of_int_exact z :
  0 < z < 2 ^ 53 -> exists k, 0 <= k /\ double_of_int z = Fin (z * 2 ^ k) (- k).
Proof.
  intros Hz. destruct (round_q_pos z 1 53) as (m & k & E & Hk & Hm & He); [lia..|].
  exists k. split; [lia|]. unfold double_of_int. rewrite E. f_equal. lia.
Qed.
