(* ===== verification/Model.v ===== *)
(** The domain objects of TitanX (include/titanx/model, src/model): the three
    enumerations with their text forms, the identifier generator, [Order] and
    [Trade] with their factories and copy-on-modify operations. *)

From Stdlib Require Import ZArith Lia Ascii.
From stdpp Require Import base numbers gmap strings list.
From S2P Require Import Prelude.

Local Open Scope Z_scope.
Local Open Scope cpp_scope.

(** * Enumerations *)

Inductive OrderSide := BUY | SELL.

Inductive OrderType := MARKET | LIMIT | IOC | FOK | STOP_LIMIT.

Inductive OrderStatus := PENDING | PARTIALLY_FILLED | FILLED | CANCELLED | REJECTED.

#[export] Instance OrderSide_eq_dec : EqDecision OrderSide.
Proof. solve_decision. Defined.
#[export] Instance OrderType_eq_dec : EqDecision OrderType.
Proof. solve_decision. Defined.
#[export] Instance OrderStatus_eq_dec : EqDecision OrderStatus.
Proof. solve_decision. Defined.

Definition side_to_string (side : OrderSide) : string :=
  match side with BUY => "BUY" | SELL => "SELL" end.

Definition type_to_string (type : OrderType) : string :=
  match type with
  | MARKET => "MARKET" | LIMIT => "LIMIT" | IOC => "IOC" | FOK => "FOK"
  | STOP_LIMIT => "STOP_LIMIT"
  end.

Definition status_to_string (status : OrderStatus) : string :=
  match status with
  | PENDING => "PENDING" | PARTIALLY_FILLED => "PARTIALLY_FILLED"
  | FILLED => "FILLED" | CANCELLED => "CANCELLED" | REJECTED => "REJECTED"
  end.

(** The [std::invalid_argument] of the parsers is the [Throw] outcome. *)
Definition order_side_from_string (s : string) : outcome OrderSide :=
  if bool_decide (s = "BUY") then Ret BUY
  else if bool_decide (s = "SELL") then Ret SELL
  else Throw ("Invalid OrderSide: " +:+ s).

Definition order_type_from_string (s : string) : outcome OrderType :=
  if bool_decide (s = "MARKET") then Ret MARKET
  else if bool_decide (s = "LIMIT") then Ret LIMIT
  else if bool_decide (s = "IOC") then Ret IOC
  else if bool_decide (s = "FOK") then Ret FOK
  else if bool_decide (s = "STOP_LIMIT") then Ret STOP_LIMIT
  else Throw ("Invalid OrderType: " +:+ s).

(** * Identifiers *)

Definition hex_digit (d : Z) : ascii :=
  Ascii.ascii_of_N (Z.to_N (if d <? 10 then 48 + d else 87 + d)).

(** The conversion [%0wx] of a value below [16 ^ w]. *)
Fixpoint hex_pad (w : nat) (v : Z) : string :=
  match w with
  | O => ""
  | S w' => hex_pad w' (v / 16) +:+ String (hex_digit (v mod 16)) ""
  end.

(** The five fields that [generate_uuid] prints, from the two 64-bit draws. *)
Definition uuid_time_low (a : Z) : Z := Z.shiftr a 32.
Definition uuid_time_mid (a : Z) : Z := Z.land (Z.shiftr a 16) 0xFFFF.
Definition uuid_version (a : Z) : Z := Z.lor 0x4000 (Z.land a 0x0FFF).
Definition uuid_variant (b : Z) : Z := Z.lor 0x8000 (Z.land (Z.shiftr b 48) 0x3FFF).
Definition uuid_node (b : Z) : Z := Z.land b 0x0000FFFFFFFFFFFF.

Definition format_uuid (a b : Z) : string :=
  hex_pad 8 (uuid_time_low a) +:+ "-" +:+ hex_pad 4 (uuid_time_mid a) +:+ "-" +:+
  hex_pad 4 (uuid_version a) +:+ "-" +:+ hex_pad 4 (uuid_variant b) +:+ "-" +:+
  hex_pad 12 (uuid_node b).

(** [rand_u64] is reduced to the range of [uint64_t]; [t] counts the readings of
    the environment. *)
Definition generate_uuid `{Env} (t : nat) : string * nat :=
  (format_uuid (wrapu64 (rand_u64 t)) (wrapu64 (rand_u64 (S t))), S (S t)).

Definition SystemClock_now `{Env} (t : nat) : Z * nat := (sys_now t, S t).

(** * Orders *)

Definition PRICE_SCALE : Z := 100000000.

Record Order := mkOrder {
  orderId : string;
  accountId : string;
  symbol : string;
  side : OrderSide;
  type : OrderType;
  price : Z;
  stopPrice : Z;
  quantity : Z;
  remainingQuantity : Z;
  status : OrderStatus;
  createdAt : Z;
  updatedAt : Z
}.

#[export] Instance Order_eq_dec : EqDecision Order.
Proof. solve_decision. Defined.

Definition Order_create `{Env} (accountId symbol : string) (side : OrderSide)
    (type : OrderType) (price stopPrice quantity : Z) (t : nat) : Order * nat :=
  let '(now, t) := SystemClock_now t in
  let '(id, t) := generate_uuid t in
  (mkOrder id accountId symbol side type price stopPrice quantity quantity
     PENDING now now, t).

Definition withRemainingQuantity `{Env} (o : Order) (newRemaining : Z) (t : nat)
    : Order * nat :=
  let newStatus :=
    if newRemaining =? 0 then FILLED
    else if newRemaining <? quantity o then PARTIALLY_FILLED
    else status o in
  let '(now, t) := SystemClock_now t in
  (mkOrder (orderId o) (accountId o) (symbol o) (side o) (type o) (price o)
     (stopPrice o) (quantity o) newRemaining newStatus (createdAt o) now, t).

Definition withStatus `{Env} (o : Order) (newStatus : OrderStatus) (t : nat)
    : Order * nat :=
  let '(now, t) := SystemClock_now t in
  (mkOrder (orderId o) (accountId o) (symbol o) (side o) (type o) (price o)
     (stopPrice o) (quantity o) (remainingQuantity o) newStatus (createdAt o) now, t).

Definition isBuy (o : Order) : bool := bool_decide (side o = BUY).
Definition isSell (o : Order) : bool := bool_decide (side o = SELL).
Definition isMarket (o : Order) : bool := bool_decide (type o = MARKET).
Definition isActive (o : Order) : bool :=
  bool_decide (status o = PENDING) || bool_decide (status o = PARTIALLY_FILLED).

(** [operator<]: the later order is the smaller one (max-heap convention). *)
Definition Order_lt (o other : Order) : bool := createdAt other <? createdAt o.

(** * Trades *)

Record Trade := mkTrade {
  tradeId : string;
  t_symbol : string;
  aggressorOrderId : string;
  aggressorAccountId : string;
  passiveOrderId : string;
  passiveAccountId : string;
  t_price : Z;
  t_quantity : Z;
  aggressorSide : OrderSide;
  executedAt : Z
}.

Definition Trade_create `{Env} (aggressor passive : Order) (fillPrice fillQty : Z)
    (t : nat) : Trade * nat :=
  let '(id, t) := generate_uuid t in
  let '(now, t) := SystemClock_now t in
  (mkTrade id (symbol aggressor) (orderId aggressor) (accountId aggressor)
     (orderId passive) (accountId passive) fillPrice fillQty (side aggressor) now, t).

Definition notional (tr : Trade) : Z :=
  div64 (mul64 (t_price tr) (t_quantity tr)) PRICE_SCALE.

(** * Properties of the domain objects *)

Lemma side_round_trip s : order_side_from_string (side_to_string s) = Ret s.
Proof. by destruct s. Qed.

Lemma order_side_from_string_Ret s d :
  order_side_from_string s = Ret d -> s = side_to_string d.
Proof.
  unfold order_side_from_string. repeat case_bool_decide; intros [= <-]; done.
Qed.

Lemma type_round_trip ty : order_type_from_string (type_to_string ty) = Ret ty.
Proof. by destruct ty. Qed.

Lemma order_type_from_string_Ret s ty :
  order_type_from_string s = Ret ty -> s = type_to_string ty.
Proof.
  unfold order_type_from_string. repeat case_bool_decide; intros [= <-]; done.
Qed.

(** ** Identifiers *)

#[local] Arguments String.append : simpl nomatch.

Lemma string_length_app (s1 s2 : string) :
  String.length (s1 +:+ s2) = (String.length s1 + String.length s2)%nat.
Proof. induction s1 as [|c s1 IH]; [done|]. cbn. by rewrite IH. Qed.

Lemma string_app_inj_len (s1 s2 r1 r2 : string) :
  String.length s1 = String.length s2 ->
  s1 +:+ r1 = s2 +:+ r2 -> s1 = s2 /\ r1 = r2.
Proof.
  revert s2. induction s1 as [|c s1 IH]; intros [|c' s2]; simpl; try done.
  intros [= Hlen] [= -> Happ]. destruct (IH _ Hlen Happ) as [-> ->]. done.
Qed.

Lemma hex_pad_length w v : String.length (hex_pad w v) = w.
Proof.
  revert v. induction w as [|w IH]; intros v; simpl; [done|].
  rewrite string_length_app, IH. simpl. lia.
Qed.

Lemma hex_digit_inj d d' :
  0 <= d < 16 -> 0 <= d' < 16 -> hex_digit d = hex_digit d' -> d = d'.
Proof.
  intros Hd Hd' H.
  apply (f_equal Ascii.N_of_ascii) in H. unfold hex_digit in H.
  rewrite !Ascii.N_ascii_embedding in H by
    (destruct (Z.ltb_spec d 10), (Z.ltb_spec d' 10); lia).
  destruct (Z.ltb_spec d 10), (Z.ltb_spec d' 10); lia.
Qed.

Lemma hex_pad_inj w v v' :
  0 <= v < 16 ^ Z.of_nat w -> 0 <= v' < 16 ^ Z.of_nat w ->
  hex_pad w v = hex_pad w v' -> v = v'.
Proof.
  revert v v'. induction w as [|w IH]; intros v v' Hv Hv'; [simpl in *; lia|].
  rewrite Nat2Z.inj_succ, Z.pow_succ_r in Hv, Hv' by lia.
  cbn [hex_pad]. intros H.
  apply string_app_inj_len in H as [Hq Hr]; [|by rewrite !hex_pad_length].
  apply IH in Hq; [|split; [apply Z.div_pos; lia|apply Z.div_lt_upper_bound; lia]..].
  injection Hr as Hr.
  apply hex_digit_inj in Hr; [|apply Z.mod_pos_bound; lia..].
  rewrite (Z.div_mod v 16), (Z.div_mod v' 16) by lia. congruence.
Qed.

(** Every field fits the width it is printed with. *)
Lemma land_ones_bound x n : 0 <= n -> 0 <= Z.land x (Z.ones n) < 2 ^ n.
Proof. intros. rewrite Z.land_ones by done. apply Z.mod_pos_bound. lia. Qed.

Lemma lor_disjoint_bit k n x :
  0 <= n <= k -> 0 <= x < 2 ^ n -> Z.lor (2 ^ k) x = 2 ^ k + x.
Proof.
  intros Hk Hx. symmetry. rewrite <- Z.lxor_lor, Z.add_nocarry_lxor; [done| |];
    apply Z.bits_inj'; intros i Hi; rewrite Z.land_spec, Z.bits_0, Z.pow2_bits_eqb by lia;
    destruct (Z.eqb_spec k i) as [<-|]; simpl; try done;
    (destruct (decide (x = 0)) as [->|]; [apply Z.bits_0|]);
    apply Z.bits_above_log2; [lia| |lia|]; apply Z.log2_lt_pow2; try lia;
    apply Z.lt_le_trans with (2 ^ n); try lia; apply Z.pow_le_mono_r; lia.
Qed.

Definition uint64 (z : Z) : Prop := 0 <= z < 2 ^ 64.

Lemma uuid_fields_bounds a b :
  uint64 a -> uint64 b ->
  0 <= uuid_time_low a < 16 ^ 8 /\ 0 <= uuid_time_mid a < 16 ^ 4 /\
  0 <= uuid_version a < 16 ^ 4 /\ 0 <= uuid_variant b < 16 ^ 4 /\
  0 <= uuid_node b < 16 ^ 12.
Proof.
  unfold uint64. intros Ha Hb.
  pose proof (land_ones_bound (Z.shiftr a 16) 16 ltac:(lia)) as H1.
  pose proof (land_ones_bound a 12 ltac:(lia)) as H2.
  pose proof (land_ones_bound (Z.shiftr b 48) 14 ltac:(lia)) as H3.
  pose proof (land_ones_bound b 48 ltac:(lia)) as H4.
  unfold uuid_time_low, uuid_time_mid, uuid_version, uuid_variant, uuid_node.
  change 0xFFFF with (Z.ones 16). change 0x0FFF with (Z.ones 12).
  change 0x3FFF with (Z.ones 14). change 0x0000FFFFFFFFFFFF with (Z.ones 48).
  change 0x4000 with (2 ^ 14). change 0x8000 with (2 ^ 15).
  rewrite (lor_disjoint_bit 14 12), (lor_disjoint_bit 15 14) by lia.
  rewrite Z.shiftr_div_pow2 by lia.
  pose proof (Z.div_pos a (2 ^ 32) ltac:(lia) ltac:(lia)).
  pose proof (Z.div_lt_upper_bound a (2 ^ 32) (2 ^ 32) ltac:(lia) ltac:(lia)). lia.
Qed.

Lemma format_uuid_fields a b a' b' :
  uint64 a -> uint64 b -> uint64 a' -> uint64 b' ->
  format_uuid a b = format_uuid a' b' ->
  uuid_time_low a = uuid_time_low a' /\ uuid_time_mid a = uuid_time_mid a' /\
  uuid_version a = uuid_version a' /\ uuid_variant b = uuid_variant b' /\
  uuid_node b = uuid_node b'.
Proof.
  intros Ha Hb Ha' Hb' H. unfold format_uuid in H.
  destruct (uuid_fields_bounds a b Ha Hb) as (?&?&?&?&?).
  destruct (uuid_fields_bounds a' b' Ha' Hb') as (?&?&?&?&?).
  do 8 (apply string_app_inj_len in H as [?E H]; [|by rewrite ?hex_pad_length]).
  apply hex_pad_inj in H; [|done..].
  repeat match goal with E : hex_pad _ _ = hex_pad _ _ |- _ =>
    apply hex_pad_inj in E; [|done..] end.
  done.
Qed.

(** The 122 random bits that a printed identifier carries. *)
Definition uuid_bits (a b : Z) : Z * Z * Z := (a / 2 ^ 16, a mod 2 ^ 12, b mod 2 ^ 62).

Lemma split_mod x n m : 0 <= n -> 0 <= m ->
  x mod 2 ^ (n + m) = (x / 2 ^ n mod 2 ^ m) * 2 ^ n + x mod 2 ^ n.
Proof. intros. rewrite Z.pow_add_r, Z.rem_mul_r by lia. lia. Qed.

Lemma uuid_fields_bits a b :
  uuid_bits a b =
  (uuid_time_low a * 2 ^ 16 + uuid_time_mid a, uuid_version a - 2 ^ 14,
   (uuid_variant b - 2 ^ 15) * 2 ^ 48 + uuid_node b).
Proof.
  pose proof (land_ones_bound a 12 ltac:(lia)).
  pose proof (land_ones_bound (Z.shiftr b 48) 14 ltac:(lia)).
  unfold uuid_bits, uuid_time_low, uuid_time_mid, uuid_version, uuid_variant, uuid_node.
  change 0xFFFF with (Z.ones 16). change 0x0FFF with (Z.ones 12).
  change 0x3FFF with (Z.ones 14). change 0x0000FFFFFFFFFFFF with (Z.ones 48).
  change 0x4000 with (2 ^ 14). change 0x8000 with (2 ^ 15).
  rewrite (lor_disjoint_bit 14 12), (lor_disjoint_bit 15 14) by lia.
  rewrite !Z.land_ones, !Z.shiftr_div_pow2 by lia.
  change (2 ^ 62) with (2 ^ (48 + 14)). rewrite (split_mod b 48 14) by lia.
  f_equal; [f_equal; [|lia]|lia].
  change (2 ^ 32) with (2 ^ 16 * 2 ^ 16).
  rewrite <- Z.div_div by lia.
  pose proof (Z.div_mod (a / 2 ^ 16) (2 ^ 16) ltac:(lia)). lia.
Qed.

(** A printed identifier carries exactly 122 of the 128 random bits: two pairs of
    draws print the same identifier if and only if they agree outside the four
    version bits and the two variant bits, so that identifiers collide only when
    the random engine repeats itself. *)
Theorem format_uuid_injective a b a' b' :
  uint64 a -> uint64 b -> uint64 a' -> uint64 b' ->
  format_uuid a b = format_uuid a' b' <-> uuid_bits a b = uuid_bits a' b'.
Proof.
  intros Ha Hb Ha' Hb'. split.
  - intros H. rewrite !uuid_fields_bits.
    apply format_uuid_fields in H as (->&->&->&->&->); done.
  - rewrite !uuid_fields_bits. intros [= H1 H2 H3].
    destruct (uuid_fields_bounds a b Ha Hb) as (?&?&?&?&?).
    destruct (uuid_fields_bounds a' b' Ha' Hb') as (?&?&?&?&?).
    assert (uuid_time_low a = uuid_time_low a' /\ uuid_time_mid a = uuid_time_mid a')
      as [E1 E2] by lia.
    assert (uuid_version a = uuid_version a') as E3 by lia.
    assert (uuid_variant b = uuid_variant b' /\ uuid_node b = uuid_node b')
      as [E4 E5] by lia.
    unfold format_uuid. by rewrite E1, E2, E3, E4, E5.
Qed.

Lemma format_uuid_injective_witness : format_uuid 0 1 <> format_uuid 0 2.
Proof.
  intros E. assert (uuid_bits 0 1 <> uuid_bits 0 2) as Hne by (vm_compute; discriminate).
  apply Hne. apply format_uuid_injective; [unfold uint64; lia..|exact E].
Defined.

(** ** Orders *)

Lemma isBuy_side o : isBuy o = match side o with BUY => true | SELL => false end.
Proof. unfold isBuy. by destruct (side o). Qed.
