(* ===== verification/Prices.v ===== *)
(** Fixed-point prices (include/titanx/model/Order.hpp): the conversions between
    [int64_t] prices in units of 10^-8 dollars, doubles and texts. *)

From Stdlib Require Import ZArith Lia Ascii.
From stdpp Require Import base numbers strings list pretty.
From S2P Require Import Prelude Text Double Model.

Local Open Scope Z_scope.
Local Open Scope cpp_scope.

(** * The conversions *)

Definition half : double := round_q 1 2.

(** [static_cast<int64_t>(price * PRICE_SCALE + 0.5)]. *)
Definition price_to_fixed (price : double) : Z :=
  int64_of_double (dadd (dmul price (double_of_int PRICE_SCALE)) half).

Definition price_to_fixed_str (price_str : string) : outcome Z :=
  let! price := stod price_str in Ret (price_to_fixed price).

Definition fixed_to_price (fixed : Z) : double :=
  ddiv (double_of_int fixed) (double_of_int PRICE_SCALE).

(** [snprintf(buf, 32, "%.2f", ...)] keeps at most 31 characters. *)
Definition price_to_string (fixed : Z) : string :=
  String.substring 0 31 (format_2f (fixed_to_price fixed)).

(** * Texts of prices *)

#[local] Arguments String.append : simpl nomatch.

Definition decimal_char (c : ascii) : bool :=
  match digit_value c with Some _ => true | None => Ascii.eqb c "." end.

Fixpoint all_decimal (s : string) : bool :=
  match s with EmptyString => true | String c s' => decimal_char c && all_decimal s' end.

Lemma take_digits_pretty_go x s acc k :
  exists j, 0 <= j /\ ((0 < x)%N -> 0 < j) /\
    take_digits digit_value 10 acc k (pretty_N_go x s) =
    take_digits digit_value 10 (acc * 10 ^ j + Z.of_N x) (k + j) s.
Proof.
  revert s. induction (N.lt_wf_0 x) as [x _ IH]; intros s.
  destruct (decide (x = 0%N)) as [->|Hx].
  { exists 0. split_and!; [done|lia|]. rewrite pretty_N_go_0. f_equal; lia. }
  rewrite pretty_N_go_step by lia.
  destruct (IH (x `div` 10)%N ltac:(apply N.div_lt; lia)
              (String (pretty_N_char (x `mod` 10)) s)) as (j & Hj & _ & ->).
  pose proof (digit_value_pretty (x `mod` 10) ltac:(apply N.mod_lt; lia)) as Hv.
  cbn [take_digits]. rewrite Hv. exists (j + 1). split_and!; [lia..|].
  rewrite Z.pow_add_r, N2Z.inj_div, N2Z.inj_mod by lia.
  pose proof (Z.div_mod (Z.of_N x) 10). f_equal; lia.
Qed.

Lemma pretty_go_app x s t : pretty_N_go x (s +:+ t) = pretty_N_go x s +:+ t.
Proof.
  revert s. induction (N.lt_wf_0 x) as [x _ IH]; intros s.
  destruct (decide (x = 0%N)) as [->|Hx]; [by rewrite !pretty_N_go_0|].
  rewrite !(pretty_N_go_step x) by lia.
  by rewrite <- (IH (x `div` 10)%N) by (apply N.div_lt; lia).
Qed.

Lemma pretty_go_decimal x s : all_decimal s = true -> all_decimal (pretty_N_go x s) = true.
Proof.
  revert s. induction (N.lt_wf_0 x) as [x _ IH]; intros s Hs.
  destruct (decide (x = 0%N)) as [->|Hx]; [by rewrite pretty_N_go_0|].
  rewrite pretty_N_go_step by lia. apply IH; [apply N.div_lt; lia|].
  cbn. unfold decimal_char. by rewrite digit_value_pretty by (apply N.mod_lt; lia).
Qed.

Lemma pretty_go_length (w : nat) x s :
  (x < 10 ^ N.of_nat w)%N -> (String.length (pretty_N_go x s) <= w + String.length s)%nat.
Proof.
  revert x s. induction w as [|w IH]; intros x s Hx.
  { assert (x = 0%N) as -> by (cbn in Hx; lia). rewrite pretty_N_go_0. lia. }
  destruct (decide (x = 0%N)) as [->|]; [rewrite pretty_N_go_0; lia|].
  rewrite pretty_N_go_step by lia. etrans; [apply IH|cbn; lia].
  apply N.Div0.div_lt_upper_bound. rewrite Nat2N.inj_succ, N.pow_succ_r' in Hx. lia.
Qed.

(** What the three lemmas say about the text of a natural number. *)
Lemma pretty_nonneg z :
  0 <= z -> pretty z = if decide (z = 0) then "0" else pretty_N_go (Z.to_N z) "".
Proof. destruct z as [|p|p]; [done| |lia]. intros _. done. Qed.

Lemma take_digits_pretty z s :
  0 <= z -> (forall c s', s = String c s' -> digit_value c = None) ->
  exists j, 0 < j /\ take_digits digit_value 10 0 0 (pretty z +:+ s) = (z, j, s).
Proof.
  intros Hz Hs.
  assert (forall acc k, take_digits digit_value 10 acc k s = (acc, k, s)) as Hstop.
  { intros acc k. destruct s as [|c s']; [done|]. cbn. by rewrite (Hs c s'). }
  rewrite pretty_nonneg by done. case_decide as E.
  { subst. exists 1. split; [done|].
    change (take_digits digit_value 10 0 1 s = (0, 1, s)). apply Hstop. }
  rewrite <- pretty_go_app. cbn [String.append].
  destruct (take_digits_pretty_go (Z.to_N z) s 0 0) as (j & _ & Hj & ->).
  rewrite Hstop. exists j. split; [lia|]. by rewrite Z2N.id by lia.
Qed.

Lemma pretty_decimal z : 0 <= z -> all_decimal (pretty z) = true.
Proof.
  intros Hz. rewrite pretty_nonneg by done. case_decide; [done|by apply pretty_go_decimal].
Qed.

Lemma pretty_length (w : nat) z :
  0 <= z < 10 ^ Z.of_nat w -> (0 < w)%nat -> (String.length (pretty z) <= w)%nat.
Proof.
  intros Hz Hw. rewrite pretty_nonneg by lia. case_decide; [cbn; lia|].
  etrans; [apply (pretty_go_length w)|cbn; lia].
  apply N2Z.inj_lt. rewrite Z2N.id, N2Z.inj_pow, nat_N_Z by lia. apply Hz.
Qed.

Lemma all_decimal_app s t : all_decimal (s +:+ t) = all_decimal s && all_decimal t.
Proof. induction s as [|c s IH]; cbn; [done|]. by rewrite IH, andb_assoc. Qed.

(** A decimal text is read as a decimal number. *)
Lemma decimal_not_prefix s (a b : ascii) p :
  all_decimal s = true -> Ascii.eqb b "N" || Ascii.eqb b "A" || Ascii.eqb b "X" = true ->
  is_prefix (String a (String b p)) (upper s) = false.
Proof.
  intros Hs Hb. unfold is_prefix. destruct s as [|c [|c' s]]; [done| |].
  - cbn. by destruct (ascii_dec a (toupper c)).
  - cbn in Hs. apply andb_true_iff in Hs as [_ [Hc _]%andb_true_iff]. cbn.
    destruct (ascii_dec a (toupper c)); [|done]. destruct (ascii_dec b (toupper c')) as [->|];
      [exfalso|done]. revert Hc Hb. clear.
    destruct c' as [[] [] [] [] [] [] [] []]; vm_compute; discriminate.
Qed.

Lemma take_digits_two c s :
  0 <= c < 100 -> (forall c s', s = String c s' -> digit_value c = None) ->
  forall acc, take_digits digit_value 10 acc 0 (two_digits c +:+ s) = (100 * acc + c, 2, s).
Proof.
  intros Hc Hs acc. unfold two_digits. cbn [String.append take_digits].
  pose proof (Z.div_mod c 10 ltac:(lia)). pose proof (Z.mod_pos_bound c 10 ltac:(lia)).
  pose proof (Z.div_lt_upper_bound c 10 10 ltac:(lia) ltac:(lia)).
  pose proof (Z.div_pos c 10 ltac:(lia) ltac:(lia)).
  rewrite !digit_value_pretty by lia. rewrite !Z2N.id by lia.
  destruct s as [|a s']; [|cbn; rewrite (Hs a s') by done]; cbn; f_equal; f_equal; lia.
Qed.

Lemma decimal_text_mantissa c :
  0 <= c -> exists k, 0 < k /\ take_mantissa digit_value 10 (decimal_text c) = (c, 2, k, "").
Proof.
  intros Hc. unfold decimal_text, take_mantissa.
  pose proof (Z.mod_pos_bound c 100 ltac:(lia)). pose proof (Z.div_mod c 100 ltac:(lia)).
  destruct (take_digits_pretty (c / 100) ("." +:+ two_digits (c mod 100))) as (j & Hj & ->).
  - apply Z.div_pos; lia.
  - intros a s'. cbn. by intros [= <- _].
  - cbn [String.append]. change (two_digits (c mod 100)) with (two_digits (c mod 100) +:+ "").
    rewrite take_digits_two by (lia || done).
    destruct (Z.eqb_spec (j + 2) 0); [lia|]. exists (j + 2). split; [lia|].
    repeat f_equal. lia.
Qed.

Lemma decimal_text_decimal c : 0 <= c -> all_decimal (decimal_text c) = true.
Proof.
  intros Hc. unfold decimal_text. rewrite !all_decimal_app, pretty_decimal by (apply Z.div_pos; lia).
  pose proof (Z.mod_pos_bound c 100 ltac:(lia)) as Hm. unfold two_digits. cbn.
  pose proof (Z.mod_pos_bound (c mod 100) 10 ltac:(lia)).
  pose proof (Z.div_lt_upper_bound (c mod 100) 10 10 ltac:(lia) ltac:(lia)).
  pose proof (Z.div_pos (c mod 100) 10 ltac:(lia) ltac:(lia)).
  unfold decimal_char. rewrite !digit_value_pretty by lia. done.
Qed.

(** [stod] reads the decimal text of [c] cents as the double nearest to [c / 100]. *)
Lemma stod_decimal_text c :
  0 < c -> stod (decimal_text c) = stod_result false (Number c 100).
Proof.
  intros Hc. pose proof (decimal_text_decimal c ltac:(lia)) as Hd.
  destruct (decimal_text_mantissa c ltac:(lia)) as (k & Hk & Hm). unfold stod.
  assert (skip_spaces (decimal_text c) = decimal_text c /\
          (forall s, decimal_text c ≠ String "-" s) /\ (forall s, decimal_text c ≠ String "+" s))
    as (-> & Hminus & Hplus).
  { destruct (decimal_text c) as [|a s]; [done|]. cbn in Hd.
    apply andb_true_iff in Hd as [Ha _].
    destruct a as [[] [] [] [] [] [] [] []]; vm_compute in Ha; done. }
  assert (parse_unsigned (decimal_text c) = Some (Number c 100)) as Hp.
  { unfold parse_unsigned. rewrite Hm, !decimal_not_prefix by done.
    destruct (Z.eqb_spec k 0); [lia|]. done. }
  destruct (decimal_text c) as [|a s]; [done|].
  destruct a as [[] [] [] [] [] [] [] []]; try (by rewrite Hp);
    [by destruct (Hplus s)|by destruct (Hminus s)].
Qed.

(** * Prices in range *)

(** Prices below 2^50 units, that is below $11.2 million. *)
Definition price_ok (p : Z) : Prop := 0 <= p < 2 ^ 50.

(** A double next to [p / 10^8]: [m / 2 ^ k] with an error of at most 2^-30. *)
Definition near_price (p m k : Z) : Prop :=
  29 <= k /\ 0 <= m /\ Z.abs (2 * (m * 100000000 - p * 2 ^ k)) <= 100000000.

Lemma round_cents c :
  0 < c -> price_ok (c * 1000000) ->
  exists m k, round_q c 100 = Fin m (- k) /\ near_price (c * 1000000) m k.
Proof.
  unfold price_ok. intros Hc Hr.
  destruct (round_q_pos c 100 24) as (m & k & E & Hk & Hm & He); [lia..|].
  exists m, k. split; [done|]. split; [lia|]. split; [done|].
  set (K := 2 ^ k) in *. lia.
Qed.

Lemma scale_double : double_of_int PRICE_SCALE = Fin (100000000 * 2 ^ 26) (- 26).
Proof. vm_compute. reflexivity. Qed.

Lemma dmul_scale m k :
  0 <= k -> dmul (Fin m (- k)) (double_of_int PRICE_SCALE) =
            round_q (m * (100000000 * 2 ^ 26)) (2 ^ k * 2 ^ 26).
Proof. intros Hk. rewrite scale_double. unfold dmul. by rewrite num_neg, den_neg by lia. Qed.

Lemma dadd_half m k :
  0 <= k -> dadd (Fin m (- k)) half = round_q (m * 2 ^ 53 + 2 ^ 52 * 2 ^ k) (2 ^ k * 2 ^ 53).
Proof.
  intros Hk. change half with (Fin (2 ^ 52) (- 53)). unfold dadd.
  by rewrite num_neg, den_neg by lia.
Qed.

Lemma fixed_to_price_near p :
  0 < p -> price_ok p ->
  exists m k, fixed_to_price p = Fin m (- k) /\ near_price p m k.
Proof.
  unfold price_ok. intros Hp Hr. unfold fixed_to_price.
  destruct (double_of_int_exact p) as (k0 & Hk0 & ->); [lia|].
  rewrite scale_double. unfold ddiv. rewrite (proj2 (Z.eqb_neq _ 0)), (proj2 (Z.ltb_ge _ 0)) by lia.
  rewrite !num_neg, !den_neg by lia.
  pose proof (Z.pow_pos_nonneg 2 k0 ltac:(lia) ltac:(lia)) as HK0. set (K0 := 2 ^ k0) in *.
  destruct (round_q_pos (p * K0 * 2 ^ 26) (K0 * (100000000 * 2 ^ 26)) 24)
    as (m & k & E & Hk & Hm & He); [nia|lia|lia|nia|].
  exists m, k. split; [done|]. split; [lia|]. split; [done|].
  set (K := 2 ^ k) in *. set (x := m * 100000000 - p * K) in *.
  assert (m * (K0 * (100000000 * 2 ^ 26)) - p * K0 * 2 ^ 26 * K = K0 * 2 ^ 26 * x)
    as Ex by (unfold x; ring).
  rewrite Ex in He. apply (Z.mul_le_mono_pos_r _ _ (K0 * 2 ^ 26)); [lia|].
  rewrite <- (Z.abs_eq (K0 * 2 ^ 26)) at 1 by lia. rewrite <- Z.abs_mul.
  replace (2 * x * (K0 * 2 ^ 26)) with (2 * (K0 * 2 ^ 26 * x)) by ring. lia.
Qed.

Lemma near_price_scale p m k :
  near_price p m k -> 0 < 2 ^ k /\ 8 * Z.abs (m * 100000000 - p * 2 ^ k) <= 2 ^ k.
Proof.
  intros (Hk & _ & He). pose proof (Z.pow_le_mono_r 2 29 k ltac:(lia) ltac:(lia)). lia.
Qed.

(** The text of a double next to a price is that of the cent next to the price. *)
Lemma format_near_price p m k c :
  near_price p m k -> 2 * Z.abs (p - c * 1000000) <= 1000000 - 2 ->
  format_2f (Fin m (- k)) = decimal_text c.
Proof.
  intros (Hk & Hm & He) Hc.
  pose proof (Z.pow_le_mono_r 2 29 k ltac:(lia) ltac:(lia)). unfold format_2f.
  destruct (Z.ltb_spec m 0); [lia|]. rewrite num_neg, den_neg by lia. set (K := 2 ^ k) in *.
  rewrite (div_even_near _ _ c); [done|lia|].
  assert (2 * Z.abs (p * K - c * 1000000 * K) <= 999998 * K) by nia. lia.
Qed.

Lemma decimal_text_length c :
  0 <= c < 10 ^ 18 -> (String.length (decimal_text c) <= 19)%nat.
Proof.
  intros Hc. unfold decimal_text. rewrite !string_length_app.
  pose proof (pretty_length 16 (c / 100)) as Hl. cbn [String.length two_digits].
  pose proof (Z.div_pos c 100 ltac:(lia) ltac:(lia)).
  pose proof (Z.div_lt_upper_bound c 100 (10 ^ 16) ltac:(lia) ltac:(lia)).
  specialize (Hl ltac:(cbn; lia) ltac:(lia)). lia.
Qed.

Lemma substring_whole (n : nat) s : (String.length s <= n)%nat -> String.substring 0 n s = s.
Proof.
  revert n. induction s as [|c s IH]; intros [|n] Hn; cbn in *; try done; [lia|].
  rewrite IH by lia. done.
Qed.

(** Multiplying by the scale, adding one half and truncating recovers the price. *)
Lemma price_to_fixed_near p m k :
  0 < p -> price_ok p -> near_price p m k -> price_to_fixed (Fin m (- k)) = p.
Proof.
  unfold price_ok. intros Hp Hr Hn. pose proof (near_price_scale _ _ _ Hn) as [HK H1].
  destruct Hn as (Hk & Hm & _). unfold price_to_fixed.
  rewrite dmul_scale by lia.
  set (K := 2 ^ k) in *.
  destruct (round_q_pos (m * (100000000 * 2 ^ 26)) (K * 2 ^ 26) 51)
    as (m1 & k1 & -> & Hk1 & Hm1 & H2); [nia|nia|lia|nia|].
  rewrite dadd_half by lia.
  pose proof (Z.pow_le_mono_r 2 2 k1 ltac:(lia) ltac:(lia)) as HK1. set (K1 := 2 ^ k1) in *.
  assert (4 * Z.abs (m1 - p * K1) <= K1) as H3.
  { assert (2 * Z.abs (m1 * K - m * 100000000 * K1) <= K) as H2' by lia.
    assert (8 * Z.abs (m * 100000000 * K1 - p * K * K1) <= K * K1) as H1' by nia.
    assert (8 * Z.abs (m1 * K - p * K * K1) <= 4 * K + K * K1) by lia.
    assert (8 * Z.abs (m1 - p * K1) <= 4 + K1) by nia. lia. }
  destruct (round_q_pos (m1 * 2 ^ 53 + 2 ^ 52 * K1) (K1 * 2 ^ 53) 51)
    as (m2 & k2 & -> & Hk2 & Hm2 & H4); [nia|nia|lia|nia|].
  pose proof (Z.pow_le_mono_r 2 2 k2 ltac:(lia) ltac:(lia)) as HK2.
  unfold int64_of_double, trunc. rewrite num_neg, den_neg by lia. set (K2 := 2 ^ k2) in *.
  assert (p * K2 <= m2 < (p + 1) * K2) as H5.
  { assert (Z.abs (2 * m2 * K1 - (2 * m1 + K1) * K2) <= K1) as H4' by lia.
    assert (4 * Z.abs ((2 * m1 + K1) * K2 - (2 * p + 1) * K1 * K2) <= 2 * K1 * K2) as H3' by nia.
    assert (4 * Z.abs (2 * m2 * K1 - (2 * p + 1) * K1 * K2) <= 4 * K1 + 2 * K1 * K2) by lia.
    assert (4 * Z.abs (2 * m2 - (2 * p + 1) * K2) <= 4 + 2 * K2) by nia. lia. }
  assert (Z.quot m2 K2 = p) as ->.
  { rewrite Z.quot_div_nonneg by lia. symmetry. apply (Z.div_unique _ _ _ (m2 - p * K2)); lia. }
  rewrite bool_decide_true by (unfold int64; lia). done.
Qed.

(** * The properties *)

(** Fixed-point prices survive the detour over doubles: for every price from 0 to
    2^50 units of 10^-8 dollars (about $11.2 million), converting it to a double and
    back yields the same price, although the division, the multiplication and the
    addition of one half all round. *)
Theorem price_double_round_trip p : price_ok p -> price_to_fixed (fixed_to_price p) = p.
Proof.
  intros Hp. destruct (Z.eq_dec p 0) as [->|Hne]; [vm_compute; reflexivity|].
  assert (0 < p) as Hpos by (unfold price_ok in Hp; lia).
  destruct (fixed_to_price_near p Hpos Hp) as (m & k & -> & Hn).
  by apply price_to_fixed_near.
Qed.

(** C34: prices in whole cents survive the text form that the interface uses: below
    $11.2 million, [price_to_string] prints exactly the cents, within its buffer of
    32 characters, and [price_to_fixed] reads the printed text back as the same
    price. *)
Theorem price_text_round_trip c :
  price_ok (c * 1000000) ->
  price_to_string (c * 1000000) = decimal_text c /\
  price_to_fixed_str (price_to_string (c * 1000000)) = Ret (c * 1000000).
Proof.
  intros Hp. assert (0 <= c < 2 ^ 50) as Hc by (unfold price_ok in Hp; lia).
  assert (price_to_string (c * 1000000) = decimal_text c) as Es.
  { destruct (Z.eq_dec c 0) as [->|Hne]; [vm_compute; reflexivity|].
    destruct (fixed_to_price_near (c * 1000000)) as (m & k & E & Hn); [lia|done|].
    unfold price_to_string. rewrite E, (format_near_price _ _ _ c Hn) by lia.
    apply substring_whole. pose proof (decimal_text_length c ltac:(lia)). lia. }
  split; [done|]. rewrite Es. destruct (Z.eq_dec c 0) as [->|Hne]; [vm_compute; reflexivity|].
  destruct (round_cents c) as (m & k & E & Hn); [lia|done|].
  unfold price_to_fixed_str. rewrite stod_decimal_text by lia. unfold stod_result. rewrite E.
  destruct (Z.ltb_spec (Z.abs c * 2 ^ 1022) 100) as [Hl|_]; [exfalso|].
  { pose proof (Z.pow_le_mono_r 2 7 1022 ltac:(lia) ltac:(lia)).
    change (2 ^ 7) with 128 in *. set (B := 2 ^ 1022) in *. nia. }
  cbn [andb obind]. f_equal. apply price_to_fixed_near; [lia|done..].
Qed.

(** Negative prices are moved up by one unit: the truncation after adding one half
    rounds to the nearest only from 0 on. *)
Lemma negative_price_off_by_one :
  price_to_fixed_str "-150.00" = Ret (- 14999999999).
Proof. vm_compute. reflexivity. Qed.

(** * Witnesses *)

Lemma price_double_round_trip_witness : price_to_fixed (fixed_to_price 15012345678) = 15012345678.
Proof. apply price_double_round_trip. unfold price_ok. lia. Defined.

Lemma price_text_round_trip_witness :
  price_to_string 15025000000 = "150.25" /\ price_to_fixed_str "150.25" = Ret 15025000000.
Proof.
  destruct (price_text_round_trip 15025) as [E1 E2]; [unfold price_ok; lia|].
  assert (decimal_text 15025 = "150.25") as Et by (vm_compute; reflexivity).
  change (15025 * 1000000) with 15025000000 in E1, E2.
  rewrite E1, Et in E2. rewrite E1. split; [exact Et|exact E2].
Defined.
