(* ===== verification/OrderBook.v ===== *)
(** The order book (include/titanx/engine/OrderBook.hpp, src/engine/OrderBook.cpp):
    the two price-ordered maps of FIFO queues, the cancel index, the four
    matching algorithms, cancellation and the queries. *)

From Stdlib Require Import ZArith Lia.
From stdpp Require Import base numbers gmap strings list sorting.
From S2P Require Import Prelude Model.

Local Open Scope Z_scope.

(** * [std::map<int64_t, std::deque<Order>>]

    A map is the list of its entries in iteration order.  [key_before] is the
    comparator: [std::greater] for the bids, [std::less] for the asks. *)
Abbreviation Levels := (list (Z * list Order)).

Definition key_before (s : OrderSide) (p q : Z) : bool :=
  match s with BUY => q <? p | SELL => p <? q end.

(** [m[p].push_back(o)]: [operator[]] creates the level when it is missing. *)
Fixpoint map_push_back (s : OrderSide) (p : Z) (o : Order) (m : Levels) : Levels :=
  match m with
  | [] => [(p, [o])]
  | (k, q) :: m' =>
      if key_before s p k then (p, [o]) :: (k, q) :: m'
      else if key_before s k p then (k, q) :: map_push_back s p o m'
      else (k, q ++ [o]) :: m'
  end.

(** [m.find(p)]. *)
Fixpoint map_find (p : Z) (m : Levels) : option (list Order) :=
  match m with
  | [] => None
  | (k, q) :: m' => if k =? p then Some q else map_find p m'
  end.

(** The removal of one order from the level [p]: [erase(remove_if(...))] on the
    queue, then [erase(levelIt)] when the queue became empty. *)
Fixpoint map_remove_order (p : Z) (id : string) (m : Levels) : Levels :=
  match m with
  | [] => []
  | (k, q) :: m' =>
      if k =? p then
        match filter (fun o => orderId o <> id) q with
        | [] => m'
        | q' => (k, q') :: m'
        end
      else (k, q) :: map_remove_order p id m'
  end.

(** * State *)

Record OrderBook := mkBook {
  symbol_ : string;
  bids_ : Levels;
  asks_ : Levels;
  orderIndex_ : gmap string Order;
  lastTradePrice_ : option Z
}.

Record PriceLevel := mkPriceLevel {
  pl_price : Z;
  totalQuantity : Z;
  orderCount : Z
}.

Record OrderBookSnapshot := mkSnapshot {
  snap_symbol : string;
  snap_bids : list PriceLevel;
  snap_asks : list PriceLevel;
  snap_lastTradePrice : option Z
}.

Definition OrderBook_new (sym : string) : OrderBook := mkBook sym [] [] ∅ None.

(** The levels of one side. *)
Definition book_side (s : OrderSide) (b : OrderBook) : Levels :=
  match s with BUY => bids_ b | SELL => asks_ b end.

Definition opposite (s : OrderSide) : OrderSide :=
  match s with BUY => SELL | SELL => BUY end.

(** * The matching loops

    [MatchState] holds what the lambda [matchSide] reads and writes: the local
    [remainingQty], the captured [oppositeSide], [orderIndex_],
    [lastTradePrice_] and [trades], and the position in the environment. *)
Record MatchState := mkMatch {
  ms_remainingQty : Z;
  ms_oppositeSide : Levels;
  ms_orderIndex : gmap string Order;
  ms_lastTradePrice : option Z;
  ms_trades : list Trade;
  ms_t : nat
}.

Section Matching.
Context `{Env}.

(** [while (remainingQty > 0 && !levelQueue.empty())], where [levelQueue] is a
    reference to the queue of the first level. *)
Definition level_guard (st : MatchState) : bool :=
  (0 <? ms_remainingQty st) &&
  match ms_oppositeSide st with (_, _ :: _) :: _ => true | _ => false end.

(** One fill against the front of the queue.  The erase of a filled order from
    the index reads its identifier through the reference [passive] after
    [pop_front] destroyed the order. *)
Definition level_body (aggressor : Order) (st : MatchState) : MatchState :=
  match ms_oppositeSide st with
  | (bestPrice, passive :: queue) :: more =>
      let remainingQty := ms_remainingQty st in
      let fillQty := Z.min remainingQty (remainingQuantity passive) in
      let '(trade, t) := Trade_create aggressor passive bestPrice fillQty (ms_t st) in
      let '(updatedPassive, t) :=
        withRemainingQuantity passive (sub64 (remainingQuantity passive) fillQty) t in
      if 0 <? remainingQuantity updatedPassive then
        mkMatch (sub64 remainingQty fillQty)
          ((bestPrice, updatedPassive :: queue) :: more)
          (<[orderId updatedPassive := updatedPassive]> (ms_orderIndex st))
          (Some bestPrice) (ms_trades st ++ [trade]) t
      else
        mkMatch (sub64 remainingQty fillQty)
          ((bestPrice, queue) :: more)
          (delete (freed_string t (orderId passive)) (ms_orderIndex st))
          (Some bestPrice) (ms_trades st ++ [trade]) (S t)
  | _ => st
  end.

(** The iterations the inner loop can make: one per order of the queue, and one
    more for the partial fill that puts the front back. *)
Definition level_fuel (st : MatchState) : nat :=
  match ms_oppositeSide st with (_, q) :: _ => S (length q) | [] => 0%nat end.

Definition level_loop (aggressor : Order) (st : MatchState) : MatchState :=
  while_loop level_guard (level_body aggressor) (level_fuel st) st.

(** [if (levelQueue.empty()) oppositeSide.erase(bestIt)]. *)
Definition drop_empty_front (st : MatchState) : MatchState :=
  match ms_oppositeSide st with
  | (_, []) :: more =>
      mkMatch (ms_remainingQty st) more (ms_orderIndex st) (ms_lastTradePrice st)
        (ms_trades st) (ms_t st)
  | _ => st
  end.

(** [while (remainingQty > 0 && !oppositeSide.empty())], with the
    [if (!crosses) break] of the limit order as part of the guard. *)
Definition side_guard (crosses : Z -> bool) (st : MatchState) : bool :=
  (0 <? ms_remainingQty st) &&
  match ms_oppositeSide st with (bestPrice, _) :: _ => crosses bestPrice | [] => false end.

Definition side_body (aggressor : Order) (st : MatchState) : MatchState :=
  drop_empty_front (level_loop aggressor st).

Definition matchSide (crosses : Z -> bool) (aggressor : Order) (st : MatchState)
    : MatchState :=
  while_loop (side_guard crosses) (side_body aggressor)
    (S (length (ms_oppositeSide st))) st.

(** The entry and exit of the lambda: it runs on the side opposite to the
    aggressor and leaves the other one alone. *)
Definition enter_side (aggressor : Order) (b : OrderBook) (t : nat) : MatchState :=
  mkMatch (remainingQuantity aggressor)
    (if isBuy aggressor then asks_ b else bids_ b)
    (orderIndex_ b) (lastTradePrice_ b) [] t.

Definition leave_side (aggressor : Order) (b : OrderBook) (st : MatchState) : OrderBook :=
  if isBuy aggressor then
    mkBook (symbol_ b) (bids_ b) (ms_oppositeSide st) (ms_orderIndex st)
      (ms_lastTradePrice st)
  else
    mkBook (symbol_ b) (ms_oppositeSide st) (asks_ b) (ms_orderIndex st)
      (ms_lastTradePrice st).

(** * Book operations *)

Definition insertIntoBook (o : Order) (b : OrderBook) : OrderBook :=
  if isBuy o then
    mkBook (symbol_ b) (map_push_back BUY (price o) o (bids_ b)) (asks_ b)
      (<[orderId o := o]> (orderIndex_ b)) (lastTradePrice_ b)
  else
    mkBook (symbol_ b) (bids_ b) (map_push_back SELL (price o) o (asks_ b))
      (<[orderId o := o]> (orderIndex_ b)) (lastTradePrice_ b).

Definition removeFromBook (id : string) (b : OrderBook) : bool * OrderBook :=
  match orderIndex_ b !! id with
  | None => (false, b)
  | Some order =>
      let index := delete id (orderIndex_ b) in
      if price order =? 0 then
        (false, mkBook (symbol_ b) (bids_ b) (asks_ b) index (lastTradePrice_ b))
      else if isBuy order then
        match map_find (price order) (bids_ b) with
        | None =>
            (false, mkBook (symbol_ b) (bids_ b) (asks_ b) index (lastTradePrice_ b))
        | Some _ =>
            (true, mkBook (symbol_ b) (map_remove_order (price order) id (bids_ b))
                     (asks_ b) index (lastTradePrice_ b))
        end
      else
        match map_find (price order) (asks_ b) with
        | None =>
            (false, mkBook (symbol_ b) (bids_ b) (asks_ b) index (lastTradePrice_ b))
        | Some _ =>
            (true, mkBook (symbol_ b) (bids_ b)
                     (map_remove_order (price order) id (asks_ b)) index
                     (lastTradePrice_ b))
        end
  end.

(** * Matching algorithms *)

Definition matchMarket (aggressor : Order) (b : OrderBook) (t : nat)
    : list Trade * OrderBook * nat :=
  let st := matchSide (fun _ => true) aggressor (enter_side aggressor b t) in
  (ms_trades st, leave_side aggressor b st, ms_t st).

(** The crossing test of a limit order against the best opposite price. *)
Definition limit_crosses (aggressor : Order) (bestPrice : Z) : bool :=
  if isBuy aggressor then bestPrice <=? price aggressor
  else price aggressor <=? bestPrice.

Definition matchLimit (aggressor : Order) (b : OrderBook) (t : nat)
    : list Trade * OrderBook * nat :=
  let st := matchSide (limit_crosses aggressor) aggressor (enter_side aggressor b t) in
  let b := leave_side aggressor b st in
  if 0 <? ms_remainingQty st then
    let '(restingOrder, t) :=
      withRemainingQuantity aggressor (ms_remainingQty st) (ms_t st) in
    (ms_trades st, insertIntoBook restingOrder b, t)
  else (ms_trades st, b, ms_t st).

Definition matchIoc (aggressor : Order) (b : OrderBook) (t : nat)
    : list Trade * OrderBook * nat :=
  let '(trades, b, t) := matchLimit aggressor b t in
  let '(_, b) := removeFromBook (orderId aggressor) b in
  (trades, b, t).

(** [for (o : queue) total += o.remainingQuantity]. *)
Definition sum_queue (total : Z) (q : list Order) : Z :=
  fold_left (fun acc o => add64 acc (remainingQuantity o)) q total.

(** The crossing test of [availableQuantityAtOrBetter]: price 0 is no limit. *)
Definition fok_crosses (aggressor : Order) (levelPrice : Z) : bool :=
  (price aggressor =? 0) || limit_crosses aggressor levelPrice.

(** [countSide]: the [break] leaves the loop at the first level that does not
    cross. *)
Fixpoint countSide (crosses : Z -> bool) (total : Z) (m : Levels) : Z :=
  match m with
  | [] => total
  | (levelPrice, q) :: m' =>
      if crosses levelPrice then countSide crosses (sum_queue total q) m' else total
  end.

Definition availableQuantityAtOrBetter (aggressor : Order) (b : OrderBook) : Z :=
  countSide (fok_crosses aggressor) 0 (if isBuy aggressor then asks_ b else bids_ b).

Definition matchFok (aggressor : Order) (b : OrderBook) (t : nat)
    : list Trade * OrderBook * nat :=
  if availableQuantityAtOrBetter aggressor b <? quantity aggressor then ([], b, t)
  else matchMarket aggressor b t.

Definition match_ (incoming : Order) (b : OrderBook) (t : nat)
    : list Trade * OrderBook * nat :=
  match type incoming with
  | MARKET => matchMarket incoming b t
  | LIMIT => matchLimit incoming b t
  | IOC => matchIoc incoming b t
  | FOK => matchFok incoming b t
  | STOP_LIMIT => ([], b, t)
  end.
End Matching.

(** * Queries *)

Definition bestBid (b : OrderBook) : option Z := fst <$> head (bids_ b).
Definition bestAsk (b : OrderBook) : option Z := fst <$> head (asks_ b).

Definition spread (b : OrderBook) : option Z :=
  match bestBid b, bestAsk b with
  | Some bid, Some ask => Some (sub64 ask bid)
  | _, _ => None
  end.

Definition lastTradePriceValue (b : OrderBook) : option Z := lastTradePrice_ b.

Definition bidLevels (b : OrderBook) : Z := wrap32 (Z.of_nat (length (bids_ b))).
Definition askLevels (b : OrderBook) : Z := wrap32 (Z.of_nat (length (asks_ b))).
Definition totalOrders (b : OrderBook) : Z := wrap32 (Z.of_nat (size (orderIndex_ b))).

(** [if (count++ >= depth) break]. *)
Fixpoint snapshot_side (count depth : Z) (m : Levels) : list PriceLevel :=
  match m with
  | [] => []
  | (p, q) :: m' =>
      if depth <=? count then []
      else mkPriceLevel p (sum_queue 0 q) (wrap32 (Z.of_nat (length q)))
             :: snapshot_side (count + 1) depth m'
  end.

Definition snapshot (depth : Z) (b : OrderBook) : OrderBookSnapshot :=
  mkSnapshot (symbol_ b) (snapshot_side 0 depth (bids_ b))
    (snapshot_side 0 depth (asks_ b)) (lastTradePrice_ b).
