(* ===== verification/Matching.v ===== *)
(** The matching loops as a transition system.  [match_step] is one fill or the
    removal of an exhausted level; [matchSide_steps] shows that the nested
    [while] loops of [OrderBook::matchMarket] and [matchLimit] run a sequence of
    such steps and stop because nothing more can be matched.  The properties of
    the loops are then proved by induction over that sequence. *)

From Stdlib Require Import ZArith Lia.
From stdpp Require Import base numbers gmap strings list sorting relations.
From S2P Require Import Prelude Model OrderBook.

Local Open Scope Z_scope.

(** * Well-formed sides *)

(** An order resting on side [s] at price [p]. *)
Definition resting_ok (s : OrderSide) (p : Z) (o : Order) : Prop :=
  side o = s /\ price o = p /\ 0 < remainingQuantity o <= quantity o /\ quantity o < 2 ^ 63.

Definition keys_sorted (s : OrderSide) (m : Levels) : Prop :=
  StronglySorted (fun a b => key_before s a.1 b.1 = true) m.

(** Levels in comparator order holding orders of their own price; [levels_ok]
    tolerates empty queues, [levels_wf] does not. *)
Definition levels_ok (s : OrderSide) (m : Levels) : Prop :=
  keys_sorted s m /\ Forall (fun l => Forall (resting_ok s l.1) l.2) m.

Definition no_empty_queue (m : Levels) : Prop := Forall (fun l => l.2 <> []) m.

Definition levels_wf (s : OrderSide) (m : Levels) : Prop :=
  levels_ok s m /\ no_empty_queue m.

(** The resting orders of a side, in iteration order. *)
Definition orders_of (m : Levels) : list Order := concat (snd <$> m).

Section Steps.
Context `{Env}.

Definition fill_trade (a o : Order) (p q : Z) (t : nat) : Trade :=
  (Trade_create a o p q t).1.

Definition reduced (o : Order) (r : Z) (t : nat) : Order :=
  (withRemainingQuantity o r t).1.

Inductive match_step (crosses : Z -> bool) (a : Order) : MatchState -> MatchState -> Prop :=
| step_full rem p o q more idx last trs t :
    0 < rem -> crosses p = true -> remainingQuantity o <= rem ->
    match_step crosses a
      (mkMatch rem ((p, o :: q) :: more) idx last trs t)
      (mkMatch (rem - remainingQuantity o) ((p, q) :: more)
         (delete (freed_string (4 + t) (orderId o)) idx) (Some p)
         (trs ++ [fill_trade a o p (remainingQuantity o) t]) (5 + t))
| step_partial rem p o q more idx last trs t :
    0 < rem -> crosses p = true -> rem < remainingQuantity o ->
    match_step crosses a
      (mkMatch rem ((p, o :: q) :: more) idx last trs t)
      (mkMatch 0 ((p, reduced o (remainingQuantity o - rem) (3 + t) :: q) :: more)
         (<[orderId o := reduced o (remainingQuantity o - rem) (3 + t)]> idx) (Some p)
         (trs ++ [fill_trade a o p rem t]) (4 + t))
| step_drop rem p more idx last trs t :
    match_step crosses a
      (mkMatch rem ((p, []) :: more) idx last trs t)
      (mkMatch rem more idx last trs t).

(** The quantities of a loop state are in range. *)
Definition state_ok (s : OrderSide) (st : MatchState) : Prop :=
  levels_ok s (ms_oppositeSide st) /\ int64 (ms_remainingQty st).

(** * Lemmas *)

Lemma reduced_resting_ok s p o r t :
  resting_ok s p o -> 0 < r <= remainingQuantity o -> resting_ok s p (reduced o r t).
Proof. unfold resting_ok, reduced. simpl. intros (?&?&?&?) ?. split_and!; lia || done. Qed.

Lemma levels_ok_tail s l m : levels_ok s (l :: m) -> levels_ok s m.
Proof.
  intros [Hs Ho]. apply StronglySorted_inv in Hs as [Hs _].
  apply Forall_cons in Ho as [_ Ho]. by split.
Qed.

Lemma levels_ok_front s p q q' m :
  levels_ok s ((p, q) :: m) -> Forall (resting_ok s p) q' -> levels_ok s ((p, q') :: m).
Proof.
  intros [Hs Ho] Hq'. apply StronglySorted_inv in Hs as [Hs Hlt].
  apply Forall_cons in Ho as [_ Ho]. split.
  - constructor; [done|]. exact Hlt.
  - by constructor.
Qed.

Lemma match_step_ok crosses a s st st' :
  match_step crosses a st st' -> state_ok s st -> state_ok s st'.
Proof.
  unfold state_ok, int64. intros Hstep [Hl Hr].
  destruct Hstep; simpl in *; try (split; [by eapply levels_ok_tail|done]);
    pose proof Hl as [_ Ho]; apply Forall_cons in Ho as [Hq _]; simpl in Hq;
    apply Forall_cons in Hq as [Hok Hq]; pose proof Hok as (?&?&?&?).
  - split; [|lia]. by eapply levels_ok_front.
  - split; [|lia]. eapply levels_ok_front; [done|]. constructor; [|done].
    apply reduced_resting_ok; [done|lia].
Qed.

Lemma level_body_step crosses a s st :
  state_ok s st -> level_guard st = true ->
  (forall p q m, ms_oppositeSide st = (p, q) :: m -> crosses p = true) ->
  match_step crosses a st (level_body a st).
Proof.
  unfold level_guard, level_body, state_ok, int64.
  destruct st as [rem [|[p [|o q]] more] idx last trs t]; simpl;
    rewrite ?andb_false_r; try done.
  intros [Hl Hr] Hg Hc. specialize (Hc _ _ _ eq_refl).
  rewrite andb_true_r, Z.ltb_lt in Hg.
  pose proof Hl as [_ Ho]; apply Forall_cons in Ho as [Hq _]; simpl in Hq;
    apply Forall_cons in Hq as [Hok _]; pose proof Hok as (?&?&?&?).
  destruct (Z.le_gt_cases (remainingQuantity o) rem) as [Hle|Hgt].
  - rewrite Z.min_r, sub64_self by lia. simpl.
    rewrite sub64_small by (unfold int64; lia). by apply step_full.
  - rewrite Z.min_l, sub64_self by lia. rewrite sub64_small by (unfold int64; lia).
    rewrite (proj2 (Z.ltb_lt _ _)) by lia.
    apply step_partial; done || lia.
Qed.

(** A step keeps the price of the first level, so the crossing test made by
    the outer loop is still true inside the inner one. *)
Lemma level_body_front a st p q m :
  ms_oppositeSide st = (p, q) :: m ->
  exists q', ms_oppositeSide (level_body a st) = (p, q') :: m.
Proof.
  destruct st as [rem opp idx last trs t]; simpl. intros ->.
  unfold level_body; simpl. destruct q as [|o q]; simpl; [by eauto|].
  destruct (0 <? _); simpl; eauto.
Qed.

Definition level_measure (st : MatchState) : nat :=
  match ms_oppositeSide st with (_, q) :: _ => length q | [] => 0%nat end +
  (if 0 <? ms_remainingQty st then 1 else 0).

Definition side_measure (st : MatchState) : nat :=
  length (ms_oppositeSide st) + (if 0 <? ms_remainingQty st then 1 else 0).

(** What the inner loop maintains from the state [st0] in which it starts on a
    level of price [p] in front of the levels [m]. *)
Definition level_inv (crosses : Z -> bool) (a : Order) (s : OrderSide) (p : Z) (m : Levels)
    (st0 st : MatchState) : Prop :=
  state_ok s st /\ rtc (match_step crosses a) st0 st /\
  exists q, ms_oppositeSide st = (p, q) :: m.

Lemma level_inv_step crosses a s p m st0 st :
  crosses p = true ->
  level_inv crosses a s p m st0 st -> level_guard st = true ->
  level_inv crosses a s p m st0 (level_body a st).
Proof.
  intros Hc (Hok & Hrtc & q & Hq) Hg.
  assert (match_step crosses a st (level_body a st)) as Hstep.
  { eapply level_body_step; [done..|]. intros p' q' m' E. congruence. }
  split; [by eapply match_step_ok|]. split; [by eapply rtc_r|].
  by eapply level_body_front.
Qed.

Lemma level_measure_step crosses a s p m st0 st :
  crosses p = true ->
  level_inv crosses a s p m st0 st -> level_guard st = true ->
  (level_measure (level_body a st) < level_measure st)%nat.
Proof.
  intros Hc (Hok & _ & q & Hq) Hg.
  assert (match_step crosses a st (level_body a st)) as Hstep.
  { eapply level_body_step; [done..|]. intros p' q' m' E. congruence. }
  unfold level_guard in Hg. destruct Hstep; unfold level_measure; simpl in *;
    rewrite ?andb_false_r in Hg; try done;
    rewrite (proj2 (Z.ltb_lt 0 rem)) by done; [|lia].
  case_match; lia.
Qed.

(** The inner loop fills until the aggressor is done or the level is empty. *)
Lemma level_loop_spec crosses a s st p q m :
  state_ok s st -> ms_oppositeSide st = (p, q) :: m -> crosses p = true ->
  level_inv crosses a s p m st (level_loop a st) /\ level_guard (level_loop a st) = false.
Proof.
  intros Hok Hq Hc. unfold level_loop.
  assert (level_inv crosses a s p m st st) as Hinv.
  { split; [done|]. split; [done|eauto]. }
  split.
  - apply while_inv; eauto using level_inv_step.
  - eapply while_exit with (Inv := level_inv crosses a s p m st)
      (measure := level_measure); eauto using level_inv_step, level_measure_step.
    unfold level_measure, level_fuel. rewrite Hq. case_match; lia.
Qed.

Lemma drop_empty_front_step crosses a st :
  rtc (match_step crosses a) st (drop_empty_front st).
Proof.
  destruct st as [rem [|[p [|o q]] m] idx last trs t]; unfold drop_empty_front; simpl;
    try done.
  apply rtc_once, step_drop.
Qed.

Lemma side_body_steps crosses a s st :
  state_ok s st -> side_guard crosses st = true ->
  rtc (match_step crosses a) st (side_body a st) /\
  (side_measure (side_body a st) < side_measure st)%nat /\
  (no_empty_queue (ms_oppositeSide st) -> no_empty_queue (ms_oppositeSide (side_body a st))).
Proof.
  intros Hok Hg. unfold side_guard in Hg.
  apply andb_true_iff in Hg as [Hr Hc].
  destruct (ms_oppositeSide st) as [|[p q] m] eqn:Hopp; [done|].
  destruct (level_loop_spec crosses a s st p q m Hok Hopp Hc)
    as [(Hok' & Hrtc & q' & Hq') Hexit].
  unfold side_body. split; [by etrans; [|apply drop_empty_front_step]|].
  unfold side_measure, no_empty_queue. rewrite Hopp, Hr. unfold drop_empty_front.
  rewrite Hq'. unfold level_guard in Hexit. rewrite Hq' in Hexit.
  rewrite Forall_cons.
  destruct q' as [|o q']; simpl in *; [split; [case_match; lia|naive_solver]|].
  rewrite andb_true_r in Hexit. rewrite Hq', Hexit, Forall_cons. simpl.
  split; [lia|naive_solver].
Qed.

Lemma rtc_match_step_ok crosses a s st st' :
  rtc (match_step crosses a) st st' -> state_ok s st -> state_ok s st'.
Proof. induction 1; eauto using match_step_ok. Qed.

(** The outer loop runs a sequence of steps and stops because the aggressor is
    filled, the side is empty or the best price does not cross. *)
Lemma matchSide_steps crosses a s st :
  state_ok s st ->
  rtc (match_step crosses a) st (matchSide crosses a st) /\
  side_guard crosses (matchSide crosses a st) = false /\
  (no_empty_queue (ms_oppositeSide st) ->
   no_empty_queue (ms_oppositeSide (matchSide crosses a st))).
Proof.
  intros Hok. unfold matchSide.
  set (Inv := fun st' => state_ok s st' /\ rtc (match_step crosses a) st st').
  assert (forall st', Inv st' -> side_guard crosses st' = true -> Inv (side_body a st'))
    as Hstep.
  { intros st' [Hok' Hrtc] Hg.
    destruct (side_body_steps crosses a s st' Hok' Hg) as [Hsteps _].
    split; [by eapply rtc_match_step_ok|by etrans]. }
  split; [|split].
  - by eapply (while_inv _ _ Inv).
  - eapply while_exit with (Inv := Inv) (measure := side_measure); [done| |done|].
    + intros st' [Hok' _] Hg. by eapply side_body_steps.
    + unfold side_measure. case_match; lia.
  - intros Hne.
    eapply (while_inv _ _ (fun st' => Inv st' /\ no_empty_queue (ms_oppositeSide st')));
      [|done].
    intros st' [[Hok' ?] ?] Hg. split; [by apply Hstep|].
    by eapply side_body_steps.
Qed.
End Steps.
