(* ===== verification/BookSpec.v ===== *)
(** Price-time priority as an abstract specification, and the refinement of the
    order book to it.

    The abstract side of a book is one queue of entries in priority order: better
    prices first, earlier arrivals first at one price.  An aggressor consumes a
    prefix of it ([spec_fill]); a resting remainder goes behind every entry that
    is at least as good ([spec_insert]); a cancellation deletes one entry. *)

From Stdlib Require Import ZArith Lia.
From stdpp Require Import base numbers gmap strings list sorting relations.
From S2P Require Import Prelude Model OrderBook Matching.

Local Open Scope Z_scope.

(** * The specification *)

Record Entry := mkEntry {
  e_id : string;
  e_account : string;
  e_price : Z;
  e_qty : Z
}.

Definition with_qty (e : Entry) (q : Z) : Entry :=
  mkEntry (e_id e) (e_account e) (e_price e) q.

(** The fills (the entry at its own price, for the quantity in [e_qty]), the
    unfilled quantity and the entries left. *)
Fixpoint spec_fill (crosses : Z -> bool) (rem : Z) (q : list Entry)
    : list Entry * Z * list Entry :=
  match q with
  | [] => ([], rem, [])
  | e :: q' =>
      if (0 <? rem) && crosses (e_price e) then
        if e_qty e <=? rem then
          let '(fs, r, rest) := spec_fill crosses (rem - e_qty e) q' in
          (e :: fs, r, rest)
        else ([with_qty e rem], 0, with_qty e (e_qty e - rem) :: q')
      else ([], rem, q)
  end.

Fixpoint spec_insert (s : OrderSide) (e : Entry) (q : list Entry) : list Entry :=
  match q with
  | [] => [e]
  | x :: q' =>
      if key_before s (e_price e) (e_price x) then e :: x :: q'
      else x :: spec_insert s e q'
  end.

Definition spec_cancel (id : string) (q : list Entry) : list Entry :=
  filter (fun e => e_id e <> id) q.

Definition sum_qty (q : list Entry) : Z := foldr (fun e acc => e_qty e + acc) 0 q.

(** * The abstraction *)

Definition entry (o : Order) : Entry :=
  mkEntry (orderId o) (accountId o) (price o) (remainingQuantity o).

Definition abs_side (m : Levels) : list Entry := entry <$> orders_of m.

Definition fill_of (tr : Trade) : Entry :=
  mkEntry (passiveOrderId tr) (passiveAccountId tr) (t_price tr) (t_quantity tr).

(** The last trade price after some fills. *)
Definition last_price (l : option Z) (fs : list Entry) : option Z :=
  match last fs with Some e => Some (e_price e) | None => l end.

Lemma last_price_cons l e fs : last_price l (e :: fs) = last_price (Some (e_price e)) fs.
Proof. unfold last_price. rewrite last_cons. by destruct (last fs). Qed.

Section Refinement.
Context `{Env}.

(** What the specification makes of a loop state: the fills made so far
    followed by the ones it still asks for, and the final state. *)
Definition spec_run (crosses : Z -> bool) (st : MatchState)
    : list Entry * Z * list Entry * option Z :=
  let '(fs, r, rest) := spec_fill crosses (ms_remainingQty st) (abs_side (ms_oppositeSide st)) in
  ((fill_of <$> ms_trades st) ++ fs, r, rest, last_price (ms_lastTradePrice st) fs).

Lemma spec_run_step crosses a s st st' :
  match_step crosses a st st' -> state_ok s st ->
  spec_run crosses st' = spec_run crosses st.
Proof.
  intros Hstep [[_ Ho] _].
  destruct Hstep as [rem p o q more idx last trs t Hr Hc Hle
                    |rem p o q more idx last trs t Hr Hc Hlt|]; [| |done];
    apply Forall_cons in Ho as [Hq _]; apply Forall_cons in Hq as [(_&Hp&_) _];
    unfold spec_run, abs_side, orders_of; cbn [ms_remainingQty ms_oppositeSide
      ms_trades ms_lastTradePrice fmap list_fmap snd concat app spec_fill];
    rewrite (fmap_app fill_of); simpl in Hp |- *; rewrite Hp, Hc.
  - rewrite (proj2 (Z.ltb_lt 0 rem)), (proj2 (Z.leb_le _ _)) by done. simpl.
    destruct (spec_fill _ _ _) as [[fs r] rest]. simpl.
    rewrite <- app_assoc, last_price_cons. simpl. unfold fill_of, entry; simpl.
    by rewrite Hp.
  - rewrite (proj2 (Z.ltb_lt 0 rem)), (proj2 (Z.leb_gt _ _)) by done. simpl.
    rewrite app_nil_r, last_price_cons. unfold fill_of, entry, with_qty; simpl.
    by rewrite Hp.
Qed.

Lemma spec_run_steps crosses a s st st' :
  rtc (match_step crosses a) st st' -> state_ok s st ->
  spec_run crosses st' = spec_run crosses st.
Proof.
  induction 1 as [|st1 st2 st3 Hstep _ IH]; intros Hok; [done|].
  rewrite IH by (by eapply match_step_ok). by eapply spec_run_step.
Qed.

Lemma spec_fill_stop crosses s st :
  levels_wf s (ms_oppositeSide st) -> side_guard crosses st = false ->
  spec_fill crosses (ms_remainingQty st) (abs_side (ms_oppositeSide st)) =
  ([], ms_remainingQty st, abs_side (ms_oppositeSide st)).
Proof.
  unfold side_guard. intros [[_ Ho] Hne] Hg.
  destruct (ms_oppositeSide st) as [|[p [|o q]] m]; [done| |].
  - apply Forall_cons in Hne as [Hne _]. done.
  - apply Forall_cons in Ho as [Hq _]. apply Forall_cons in Hq as [(_&Hp&_) _].
    unfold abs_side, orders_of; simpl in *. rewrite Hp, Hg. done.
Qed.

(** The loops compute what the specification says. *)
Lemma matchSide_refines crosses a s st :
  levels_wf s (ms_oppositeSide st) -> int64 (ms_remainingQty st) ->
  let st' := matchSide crosses a st in
  spec_run crosses st =
    (fill_of <$> ms_trades st', ms_remainingQty st', abs_side (ms_oppositeSide st'),
     ms_lastTradePrice st') /\
  levels_wf s (ms_oppositeSide st') /\ int64 (ms_remainingQty st').
Proof.
  intros [Hl Hne] Hr st'.
  assert (state_ok s st) as Hok by done.
  destruct (matchSide_steps crosses a s st Hok) as (Hsteps & Hg & Hne').
  fold st' in Hsteps, Hg, Hne'.
  destruct (rtc_match_step_ok crosses a s st st' Hsteps Hok) as [Hl' Hr'].
  assert (levels_wf s (ms_oppositeSide st')) as Hwf' by (split; auto).
  split; [|done].
  rewrite <- (spec_run_steps _ _ _ _ _ Hsteps Hok). unfold spec_run.
  rewrite (spec_fill_stop crosses s st') by done. by rewrite app_nil_r.
Qed.
End Refinement.

(** * Theory of the specification *)

Definition positive_entries (q : list Entry) : Prop := Forall (fun e => 0 < e_qty e) q.

(** [e] has at least the priority of [x]. *)
Definition at_least_as_good (s : OrderSide) (e x : Entry) : Prop :=
  key_before s (e_price x) (e_price e) = false.

Definition priority_sorted (s : OrderSide) (q : list Entry) : Prop :=
  StronglySorted (at_least_as_good s) q.

(** [e] takes part of the quantity of [x]. *)
Definition part_of (e x : Entry) : Prop :=
  e_id e = e_id x /\ e_account e = e_account x /\ e_price e = e_price x /\
  0 < e_qty e <= e_qty x.

Ltac spec_fill_cases :=
  match goal with
  | H : context [spec_fill ?c ?r (?e :: ?q)] |- _ => cbn [spec_fill] in H
  end;
  repeat match goal with
  | H : context [(0 <? ?r) && ?c] |- _ =>
      destruct (Z.ltb_spec 0 r); [destruct c eqn:?|]; cbn [andb] in H
  | H : context [if ?a <=? ?b then _ else _] |- _ => destruct (Z.leb_spec a b)
  | H : context [let '_ := spec_fill ?c ?r ?q in _] |- _ =>
      destruct (spec_fill c r q) as [[? ?] ?] eqn:?
  | H : (_, _, _) = (_, _, _) |- _ => injection H as <- <- <-
  end.

Lemma spec_fill_conserves c rem q fs r rest :
  positive_entries q -> spec_fill c rem q = (fs, r, rest) ->
  sum_qty fs + r = rem /\ sum_qty fs + sum_qty rest = sum_qty q /\ (0 <= rem -> 0 <= r).
Proof.
  intros Hpos. revert rem fs r rest.
  induction Hpos as [|e q He Hq IH]; intros rem fs r rest Hs.
  { injection Hs as <- <- <-. simpl. lia. }
  spec_fill_cases; simpl; try lia.
  edestruct IH as (?&?&?); [eassumption|]. lia.
Qed.

Lemma spec_fill_part c rem q fs r rest :
  positive_entries q -> spec_fill c rem q = (fs, r, rest) ->
  Forall (fun e => c (e_price e) = true /\ exists x, x ∈ q /\ part_of e x) fs /\
  Forall (fun e => exists x, x ∈ q /\ part_of e x) rest.
Proof.
  intros Hpos. revert rem fs r rest.
  assert (forall q', positive_entries q' -> Forall (fun e => exists x, x ∈ q' /\ part_of e x) q')
    as Hself.
  { intros q' Hp. apply Forall_forall. intros x Hx. exists x.
    pose proof (proj1 (Forall_forall _ _) Hp x Hx). simpl in *.
    split; [done|]. unfold part_of. split_and!; lia || done. }
  assert (forall e (q' : list Entry) l, Forall (fun e => exists x, x ∈ q' /\ part_of e x) l ->
            Forall (fun e' => exists x, x ∈ e :: q' /\ part_of e' x) l) as Hcons.
  { intros e q' l Hl. eapply Forall_impl; [exact Hl|]. intros e' (x & ? & ?). exists x. split; [by right|done]. }
  induction Hpos as [|e q He Hq IH]; intros rem fs r rest Hs.
  { injection Hs as <- <- <-. done. }
  spec_fill_cases.
  - edestruct IH as [IHf IHr]; [eassumption|]. split; [|by apply Hcons].
    constructor.
    + split; [done|]. exists e. split; [by left|]. unfold part_of. split_and!; lia || done.
    + eapply Forall_impl; [exact IHf|]. intros e' (? & x & ? & ?).
      split; [done|]. exists x. split; [by right|done].
  - split; [|constructor; [|apply Hcons, Hself; done]].
    + repeat constructor; [done|]. exists e. split; [by left|].
      unfold part_of; simpl. split_and!; lia || done.
    + exists e. split; [by left|]. unfold part_of; simpl. split_and!; lia || done.
  - split; [done|]. apply Hself. by constructor.
  - split; [done|]. apply Hself. by constructor.
Qed.

(** What stops the matching: when something is left to fill, the best entry left
    does not cross. *)
Lemma spec_fill_blocked c rem q fs r rest :
  spec_fill c rem q = (fs, r, rest) -> 0 < r ->
  match rest with [] => True | e :: _ => c (e_price e) = false end.
Proof.
  revert rem fs r rest. induction q as [|e q IH]; intros rem fs r rest Hs Hr.
  { injection Hs as <- <- <-. done. }
  spec_fill_cases; try done; try lia. by eapply IH.
Qed.

(** A crossing test that is true of a price is true of every better one. *)
Definition crosses_down (s : OrderSide) (c : Z -> bool) : Prop :=
  forall p p', c p = true -> key_before s p p' = false -> c p' = true.

Lemma spec_fill_exhaustive s c rem q fs r rest :
  priority_sorted s rest -> crosses_down s c ->
  spec_fill c rem q = (fs, r, rest) -> 0 < r ->
  Forall (fun e => c (e_price e) = false) rest.
Proof.
  intros Hsort Hc Hs Hr. pose proof (spec_fill_blocked _ _ _ _ _ _ Hs Hr) as Hhd.
  destruct rest as [|e rest]; [done|]. constructor; [done|].
  apply StronglySorted_inv in Hsort as [_ Hall].
  eapply Forall_impl; [exact Hall|]. intros x Hx.
  destruct (c (e_price x)) eqn:E; [|done]. by rewrite (Hc _ _ E Hx) in Hhd.
Qed.

(** The quantity in front of the first entry that does not cross. *)
Fixpoint crossing_qty (c : Z -> bool) (q : list Entry) : Z :=
  match q with
  | [] => 0
  | e :: q' => if c (e_price e) then e_qty e + crossing_qty c q' else 0
  end.

(** When the crossing entries hold the whole quantity, matching without a limit
    touches nothing else and fills it all. *)
Lemma spec_fill_enough c rem q :
  positive_entries q -> 0 <= rem <= crossing_qty c q ->
  spec_fill (fun _ => true) rem q = spec_fill c rem q /\ (spec_fill c rem q).1.2 = 0.
Proof.
  intros Hpos. revert rem. induction Hpos as [|e q He Hq IH]; intros rem Hr; simpl in *.
  { split; [done|lia]. }
  destruct (c (e_price e)); cbn [andb].
  - destruct (Z.ltb_spec 0 rem); cbn [andb]; [|simpl; split; [done|lia]].
    destruct (Z.leb_spec (e_qty e) rem); [|done].
    destruct (IH (rem - e_qty e) ltac:(lia)) as [-> E].
    destruct (spec_fill _ _ _) as [[? ?] ?]. done.
  - assert (rem = 0) as -> by lia. done.
Qed.

(** ** Insertion and cancellation *)

Lemma key_before_trans s a b c :
  key_before s a b = true -> key_before s b c = true -> key_before s a c = true.
Proof. destruct s; simpl; rewrite ?Z.ltb_lt; lia. Qed.

Lemma key_before_asym s a b : key_before s a b = true -> key_before s b a = false.
Proof. destruct s; simpl; rewrite ?Z.ltb_lt, ?Z.ltb_ge; lia. Qed.

Lemma key_before_irrefl s a : key_before s a a = false.
Proof. destruct s; simpl; apply Z.ltb_irrefl. Qed.

Lemma key_before_total s a b :
  key_before s a b = false -> key_before s b a = false -> a = b.
Proof. destruct s; simpl; rewrite ?Z.ltb_ge; lia. Qed.

#[export] Hint Resolve key_before_trans key_before_asym key_before_irrefl : titanx.

Lemma spec_insert_skip s e q r :
  Forall (fun x => key_before s (e_price e) (e_price x) = false) q ->
  spec_insert s e (q ++ r) = q ++ spec_insert s e r.
Proof. induction 1 as [|x q Hx _ IH]; simpl; [done|]. by rewrite Hx, IH. Qed.

Lemma spec_insert_front s e q :
  Forall (fun x => key_before s (e_price e) (e_price x) = true) q ->
  spec_insert s e q = e :: q.
Proof. destruct 1 as [|x q Hx _]; simpl; [done|]. by rewrite Hx. Qed.

(** Entries of the levels of a side carry the key of their level. *)
Lemma abs_side_cons p q m : abs_side ((p, q) :: m) = (entry <$> q) ++ abs_side m.
Proof. unfold abs_side, orders_of. simpl. apply fmap_app. Qed.

Lemma level_prices s p q :
  Forall (resting_ok s p) q -> Forall (fun x => e_price x = p) (entry <$> q).
Proof. intros Hq. apply Forall_fmap. eapply Forall_impl; [exact Hq|]. by intros o (_&?&_). Qed.

Lemma levels_ok_after s p q m :
  levels_ok s ((p, q) :: m) ->
  Forall (fun x => key_before s p (e_price x) = true) (abs_side m).
Proof.
  intros [Hs Ho]. apply StronglySorted_inv in Hs as [_ Hlt].
  apply Forall_cons in Ho as [_ Ho]. simpl in Hlt.
  induction m as [|[k r] m IH]; [constructor|].
  apply Forall_cons in Hlt as [Hk Hlt]. apply Forall_cons in Ho as [Hr Ho].
  rewrite abs_side_cons. apply Forall_app. split; [|by apply IH].
  eapply Forall_impl; [eapply level_prices, Hr|]. simpl. by intros x ->.
Qed.

Lemma map_push_back_refines s o m :
  levels_ok s m -> no_empty_queue m ->
  abs_side (map_push_back s (price o) o m) = spec_insert s (entry o) (abs_side m).
Proof.
  induction m as [|[k q] m IH]; intros Hok Hne; [done|].
  pose proof (levels_ok_after _ _ _ _ Hok) as Hafter.
  pose proof Hok as [_ Ho]. apply Forall_cons in Ho as [Hq _]. simpl in Hq.
  pose proof (level_prices _ _ _ Hq) as Hk.
  apply Forall_cons in Hne as [Hq0 Hne].
  cbn [map_push_back]. destruct (key_before s (price o) k) eqn:E1;
    [|destruct (key_before s k (price o)) eqn:E2].
  - rewrite !abs_side_cons. simpl. symmetry. apply spec_insert_front.
    apply Forall_app. split.
    + eapply Forall_impl; [exact Hk|]. simpl. by intros x ->.
    + eapply Forall_impl; [exact Hafter|]. simpl. intros x Hx. by eapply key_before_trans.
  - rewrite !abs_side_cons, spec_insert_skip.
    + rewrite IH; [done|by eapply levels_ok_tail|done].
    + eapply Forall_impl; [exact Hk|]. simpl. intros x ->. done.
  - assert (k = price o) as -> by (symmetry; by eapply key_before_total).
    rewrite !abs_side_cons, spec_insert_skip, spec_insert_front; [|done|].
    + rewrite fmap_app, <- app_assoc. done.
    + eapply Forall_impl; [exact Hk|]. simpl. intros x ->. apply key_before_irrefl.
Qed.

Lemma map_push_back_keys s p o m :
  Forall (fun l : Z * list Order => key_before s p l.1 = true) m ->
  forall p', key_before s p p' = true ->
  Forall (fun l : Z * list Order => key_before s p l.1 = true) (map_push_back s p' o m).
Proof.
  intros Hm p' Hp'. induction Hm as [|[k q] m Hk Hm IH]; simpl in *; [by repeat constructor|].
  repeat case_match; repeat constructor; done.
Qed.

Lemma map_push_back_wf s o m :
  levels_wf s m -> resting_ok s (price o) o -> levels_wf s (map_push_back s (price o) o m).
Proof.
  intros [[Hs Ho] Hne] Hok. unfold levels_wf, levels_ok, keys_sorted, no_empty_queue in *.
  induction m as [|[k q] m IH]; simpl.
  { split; [split|]; repeat (apply SSorted_cons || apply Forall_cons_2); auto using SSorted_nil. }
  apply StronglySorted_inv in Hs as [Hs Hk].
  apply Forall_cons in Ho as [Hq Ho]. apply Forall_cons in Hne as [Hq0 Hne]. simpl in *.
  destruct (key_before s (price o) k) eqn:E1; [|destruct (key_before s k (price o)) eqn:E2].
  - split; [split|]; repeat (apply SSorted_cons || apply Forall_cons_2); try done.
    eapply Forall_impl; [exact Hk|]. simpl. intros l Hl. by eapply key_before_trans.
  - destruct (IH Hs Ho Hne) as [[IH1 IH2] IH3].
    split; [split|]; apply SSorted_cons || apply Forall_cons_2; try done.
    by apply map_push_back_keys.
  - assert (k = price o) as -> by (symmetry; by eapply key_before_total).
    split; [split|]; apply SSorted_cons || apply Forall_cons_2; try done; simpl.
    + apply Forall_app. split; [done|]. by apply Forall_singleton.
    + by destruct q.
Qed.

Lemma orders_of_cons p q m : orders_of ((p, q) :: m) = q ++ orders_of m.
Proof. done. Qed.

Lemma elem_of_orders_of o m : o ∈ orders_of m <-> exists l, l ∈ m /\ o ∈ l.2.
Proof.
  induction m as [|[k q] m IH].
  { unfold orders_of. simpl. split; [by intros ?%not_elem_of_nil|].
    by intros (l & ?%not_elem_of_nil & _). }
  rewrite orders_of_cons, elem_of_app, IH. split.
  - intros [?|(l & ? & ?)]; [exists (k, q)|exists l]; split; try done; set_solver.
  - intros (l & [->|?]%elem_of_cons & ?); [by left|right; eauto].
Qed.

Lemma orders_of_resting s m :
  levels_ok s m -> Forall (fun o => resting_ok s (price o) o) (orders_of m).
Proof.
  intros [_ Ho]. apply Forall_forall. intros o (l & Hl & Hol)%elem_of_orders_of.
  pose proof (proj1 (Forall_forall _ _) Ho l Hl) as Hq.
  pose proof (proj1 (Forall_forall _ _) Hq o Hol) as Hr.
  pose proof Hr as (_ & -> & _). done.
Qed.

Lemma map_push_back_orders s p o m :
  orders_of (map_push_back s p o m) ≡ₚ o :: orders_of m.
Proof.
  induction m as [|[k q] m IH]; cbn [map_push_back]; [done|].
  repeat case_match; rewrite ?orders_of_cons, ?IH; try done;
    solve_Permutation || (rewrite <- app_assoc; simpl; by rewrite <- Permutation_middle).
Qed.

Lemma filter_id {A} (P : A -> Prop) `{forall x, Decision (P x)} (l : list A) :
  Forall P l -> filter P l = l.
Proof. induction 1; [done|]. rewrite filter_cons_True by done. by f_equal. Qed.

Lemma map_remove_order_orders s p id m :
  levels_ok s m -> (forall o, o ∈ orders_of m -> orderId o = id -> price o = p) ->
  orders_of (map_remove_order p id m) = filter (fun o => orderId o <> id) (orders_of m).
Proof.
  induction m as [|[k q] m IH]; intros Hok Hid; [done|].
  pose proof (levels_ok_tail _ _ _ Hok) as Htl.
  pose proof Hok as [Hs Ho]. apply Forall_cons in Ho as [Hq _]. simpl in Hq.
  rewrite orders_of_cons in Hid |- *. rewrite filter_app. cbn [map_remove_order].
  destruct (Z.eqb_spec k p) as [->|Hne].
  - assert (Forall (fun o => orderId o <> id) (orders_of m)) as Hrest.
    { apply Forall_forall. intros o Hom Ho. 
      pose proof (levels_ok_after _ _ _ _ Hok) as Hafter.
      rewrite Forall_forall in Hafter.
      specialize (Hafter (entry o)). simpl in Hafter.
      rewrite (Hid o) in Hafter by set_solver.
      rewrite key_before_irrefl in Hafter. discriminate Hafter.
      unfold abs_side. apply list_elem_of_fmap. eauto. }
    rewrite (filter_id _ (orders_of m)) by done.
    destruct (filter _ q) eqn:E; rewrite ?orders_of_cons; done.
  - rewrite orders_of_cons, IH by (done || set_solver).
    f_equal. symmetry. apply filter_id, Forall_forall. intros o Hoq Ho.
    pose proof (proj1 (Forall_forall _ _) Hq o Hoq) as (_&Hk&_).
    rewrite (Hid o) in Hk by set_solver. congruence.
Qed.

Lemma abs_filter_ids id (os : list Order) :
  entry <$> filter (fun o => orderId o <> id) os = spec_cancel id (entry <$> os).
Proof.
  induction os as [|o os IH]; [done|]. unfold spec_cancel in *. rewrite fmap_cons.
  destruct (decide (orderId o = id)).
  - rewrite !filter_cons_False by naive_solver. done.
  - rewrite !filter_cons_True by done. rewrite fmap_cons. by f_equal.
Qed.

Lemma map_remove_order_refines s p id m :
  levels_ok s m -> (forall o, o ∈ orders_of m -> orderId o = id -> price o = p) ->
  abs_side (map_remove_order p id m) = spec_cancel id (abs_side m).
Proof.
  intros. unfold abs_side. rewrite (map_remove_order_orders s) by done.
  apply abs_filter_ids.
Qed.

Lemma map_remove_order_keys (P : Z -> Prop) p id m :
  Forall (fun l : Z * list Order => P l.1) m ->
  Forall (fun l : Z * list Order => P l.1) (map_remove_order p id m).
Proof.
  induction 1 as [|[k q] m Hk Hm IH]; simpl; [constructor|].
  repeat case_match; by repeat apply Forall_cons_2.
Qed.

Lemma map_remove_order_wf s p id m :
  levels_wf s m -> levels_wf s (map_remove_order p id m).
Proof.
  intros [[Hs Ho] Hne]. unfold levels_wf, levels_ok, keys_sorted, no_empty_queue in *.
  induction m as [|[k q] m IH]; cbn [map_remove_order]; [done|].
  apply StronglySorted_inv in Hs as [Hs Hk].
  apply Forall_cons in Ho as [Hq Ho]. apply Forall_cons in Hne as [Hq0 Hne]. simpl in *.
  destruct (Z.eqb_spec k p).
  - destruct (filter _ q) as [|o q'] eqn:E; [done|].
    split; [split|]; apply SSorted_cons || apply Forall_cons_2; try done.
    simpl. rewrite <- E. apply Forall_forall. intros x [_ Hx]%list_elem_of_filter.
    by apply (proj1 (Forall_forall _ _) Hq).
  - destruct (IH Hs Ho Hne) as [[IH1 IH2] IH3].
    split; [split|]; apply SSorted_cons || apply Forall_cons_2; try done.
    by apply (map_remove_order_keys (fun x => key_before s k x = true)).
Qed.

Lemma abs_side_positive s m : levels_ok s m -> positive_entries (abs_side m).
Proof.
  intros Hok%orders_of_resting. unfold abs_side, positive_entries.
  apply Forall_fmap. eapply Forall_impl; [exact Hok|]. intros o (_&_&?&_). simpl. lia.
Qed.

Lemma abs_side_sorted s m : levels_ok s m -> priority_sorted s (abs_side m).
Proof.
  induction m as [|[k q] m IH]; intros Hok; [constructor|].
  pose proof (levels_ok_after _ _ _ _ Hok) as Hafter.
  pose proof Hok as [_ Ho]. apply Forall_cons in Ho as [Hq _]. simpl in Hq.
  apply level_prices in Hq. rewrite abs_side_cons.
  induction Hq as [|e q' He Hq' IHq]; simpl; [by eapply IH, levels_ok_tail|].
  apply SSorted_cons; [done|]. apply Forall_app. unfold at_least_as_good. rewrite He. split.
  - eapply Forall_impl; [exact Hq'|]. simpl. intros x ->. apply key_before_irrefl.
  - eapply Forall_impl; [exact Hafter|]. simpl. intros x. apply key_before_asym.
Qed.
