(* ===== verification/BookInvariant.v ===== *)
(** The invariant of the order book and its preservation by every operation:
    both sides are price-ordered queues of live orders, the book is never
    crossed, and the cancel index agrees with the queues. *)

From Stdlib Require Import ZArith Lia.
From stdpp Require Import base numbers gmap strings list sorting relations.
From S2P Require Import Prelude Model OrderBook Matching BookSpec.

Local Open Scope Z_scope.

(** * The invariant *)

Definition book_orders (b : OrderBook) : list Order :=
  orders_of (bids_ b) ++ orders_of (asks_ b).

Definition uncrossed (b : OrderBook) : Prop :=
  forall x y, x ∈ orders_of (bids_ b) -> y ∈ orders_of (asks_ b) -> price x < price y.

Record wf_sides (b : OrderBook) : Prop := {
  wf_bids : levels_wf BUY (bids_ b);
  wf_asks : levels_wf SELL (asks_ b);
  wf_uncrossed : uncrossed b
}.

(** The index against the resting orders [os].  An order of price 0 may be
    missing from it: [removeFromBook] forgets such an order without taking it out
    of its queue. *)
Record index_ok (os : list Order) (idx : gmap string Order) : Prop := {
  idx_nodup : NoDup (orderId <$> os);
  idx_sound : forall id o, idx !! id = Some o -> orderId o = id /\ o ∈ os;
  idx_complete : forall o, o ∈ os -> price o <> 0 -> idx !! orderId o = Some o
}.

Record wf_book (b : OrderBook) : Prop := {
  wf_book_sides : wf_sides b;
  wf_book_index : index_ok (book_orders b) (orderIndex_ b)
}.

(** An order as [Order::create] builds it from [int64_t] arguments. *)
Definition incoming_ok (o : Order) : Prop :=
  remainingQuantity o = quantity o /\ int64 (quantity o).

Definition book_ids (b : OrderBook) : list string := orderId <$> book_orders b.

(** * The index *)

#[export] Instance index_ok_perm : Proper ((≡ₚ) ==> (=) ==> impl) index_ok.
Proof.
  intros os os' Hp idx idx' <- [Hn Hs Hc]. split.
  - by rewrite <- Hp.
  - intros id o Ho. destruct (Hs id o Ho). by rewrite <- Hp.
  - intros o. rewrite <- Hp. apply Hc.
Qed.

Lemma NoDup_ids_eq (os : list Order) o o' :
  NoDup (orderId <$> os) -> o ∈ os -> o' ∈ os -> orderId o = orderId o' -> o = o'.
Proof.
  induction os as [|x os IH]; [by intros _ ?%not_elem_of_nil|].
  rewrite fmap_cons, NoDup_cons. intros [Hx Hn] [->|Ho]%elem_of_cons [->|Ho']%elem_of_cons E;
    try done.
  - destruct Hx. rewrite E. by apply list_elem_of_fmap_2.
  - destruct Hx. rewrite <- E. by apply list_elem_of_fmap_2.
  - auto.
Qed.

Lemma index_ok_fill o os idx :
  index_ok (o :: os) idx -> index_ok os (delete (orderId o) idx).
Proof.
  intros [Hn Hs Hc]. rewrite fmap_cons, NoDup_cons in Hn. destruct Hn as [Hno Hn].
  assert (forall x, x ∈ os -> orderId x <> orderId o) as Hne.
  { intros x Hx E. apply Hno. rewrite <- E. by apply list_elem_of_fmap_2. }
  split; [done| |].
  - intros id x [Hid Hx]%lookup_delete_Some. destruct (Hs id x Hx) as [<- Hin].
    split; [done|]. apply elem_of_cons in Hin as [->|]; done.
  - intros x Hx Hp. rewrite lookup_delete_ne by (intros E; by apply (Hne x)).
    apply Hc; [by right|done].
Qed.

Lemma index_ok_reduce o o' os idx :
  orderId o' = orderId o -> index_ok (o :: os) idx ->
  index_ok (o' :: os) (<[orderId o := o']> idx).
Proof.
  intros Hid Hok. pose proof (idx_nodup _ _ Hok) as Hn.
  rewrite fmap_cons, NoDup_cons in Hn. destruct Hn as [Hno Hn]. split.
  - rewrite fmap_cons, Hid, NoDup_cons. done.
  - intros id x Hx. destruct (decide (id = orderId o)) as [->|Hne].
    + rewrite lookup_insert_eq in Hx. injection Hx as <-. split; [done|by left].
    + rewrite lookup_insert_ne in Hx by done. destruct (idx_sound _ _ Hok id x Hx) as [<- Hin].
      split; [done|]. apply elem_of_cons in Hin as [->|]; [done|by right].
  - intros x [->|Hx]%elem_of_cons Hp; [rewrite Hid; apply lookup_insert_eq|].
    rewrite lookup_insert_ne.
    + apply (idx_complete _ _ Hok); [by right|done].
    + intros E. apply Hno. rewrite E. by apply list_elem_of_fmap_2.
Qed.

Lemma index_ok_insert o os idx :
  orderId o ∉ (orderId <$> os) -> index_ok os idx ->
  index_ok (o :: os) (<[orderId o := o]> idx).
Proof.
  intros Hfresh [Hn Hs Hc]. split.
  - rewrite fmap_cons, NoDup_cons. done.
  - intros id x Hx. destruct (decide (id = orderId o)) as [->|Hne].
    + rewrite lookup_insert_eq in Hx. injection Hx as <-. split; [done|by left].
    + rewrite lookup_insert_ne in Hx by done. destruct (Hs id x Hx).
      split; [done|by right].
  - intros x [->|Hx]%elem_of_cons Hp; [apply lookup_insert_eq|].
    rewrite lookup_insert_ne; [by apply Hc|].
    intros E. apply Hfresh. rewrite E. by apply list_elem_of_fmap_2.
Qed.

(** Forgetting an order of price 0 keeps the (weak) agreement. *)
Lemma index_ok_forget id o os idx :
  idx !! id = Some o -> price o = 0 -> index_ok os idx -> index_ok os (delete id idx).
Proof.
  intros Hlk Hp [Hn Hs Hc]. destruct (Hs id o Hlk) as [Hid Hin]. split; [done| |].
  - intros id' x [_ Hx]%lookup_delete_Some. auto.
  - intros x Hx Hpx. rewrite lookup_delete_ne; [by apply Hc|].
    intros E. assert (x = o) as -> by (apply (NoDup_ids_eq os); congruence). done.
Qed.

(** Deleting an order from the index and its queue. *)
Lemma index_ok_remove id os idx :
  index_ok os idx ->
  index_ok (filter (fun o => orderId o <> id) os) (delete id idx).
Proof.
  intros [Hn Hs Hc]. split.
  - clear -Hn. induction os as [|o os IH]; [done|].
    rewrite fmap_cons, NoDup_cons in Hn. destruct Hn as [Hno Hn].
    rewrite filter_cons. case_decide; [|auto]. rewrite fmap_cons, NoDup_cons.
    split; [|auto]. intros (x & Hx & Hin)%list_elem_of_fmap. apply Hno.
    apply list_elem_of_filter in Hin as [_ Hin]. rewrite Hx. by apply list_elem_of_fmap_2.
  - intros id' x [Hne Hx]%lookup_delete_Some. destruct (Hs id' x Hx) as [<- Hin].
    split; [done|]. apply list_elem_of_filter. done.
  - intros x [Hne Hx]%list_elem_of_filter Hp. rewrite lookup_delete_ne by done. auto.
Qed.

(** * Matching and the invariant *)

Lemma book_orders_split s b :
  book_orders b ≡ₚ orders_of (book_side s b) ++ orders_of (book_side (opposite s) b).
Proof. unfold book_orders. destruct s; simpl; [done|]. apply Permutation_app_comm. Qed.

Lemma wf_sides_side s b : wf_sides b -> levels_wf s (book_side s b).
Proof. intros [? ? _]. by destruct s. Qed.

(** A resting order and the opposite side it must not cross. *)
Definition behind (s : OrderSide) (p q : Z) : Prop :=
  match s with BUY => p < q | SELL => q < p end.

Lemma uncrossed_sides s b :
  uncrossed b <->
  forall x y, x ∈ orders_of (book_side s b) -> y ∈ orders_of (book_side (opposite s) b) ->
    behind s (price x) (price y).
Proof. unfold uncrossed. destruct s; simpl; naive_solver. Qed.

Section Matching.
Context `{Env}.

Lemma enter_side_opposite a b t :
  ms_oppositeSide (enter_side a b t) = book_side (opposite (side a)) b.
Proof. unfold enter_side, isBuy. simpl. by destruct (side a). Qed.

Lemma leave_side_opposite a b st :
  book_side (opposite (side a)) (leave_side a b st) = ms_oppositeSide st.
Proof. unfold leave_side, isBuy. by destruct (side a). Qed.

Lemma leave_side_same a b st :
  book_side (side a) (leave_side a b st) = book_side (side a) b.
Proof. unfold leave_side, isBuy. by destruct (side a). Qed.

Lemma leave_side_index a b st : orderIndex_ (leave_side a b st) = ms_orderIndex st.
Proof. unfold leave_side. by destruct (isBuy a). Qed.

Lemma leave_side_last a b st : lastTradePrice_ (leave_side a b st) = ms_lastTradePrice st.
Proof. unfold leave_side. by destruct (isBuy a). Qed.

Lemma limit_crosses_behind a p :
  limit_crosses a p = false <-> behind (side a) (price a) p.
Proof.
  unfold limit_crosses, isBuy, behind. destruct (side a); simpl; rewrite Z.leb_gt; lia.
Qed.

Lemma limit_crosses_down a : crosses_down (opposite (side a)) (limit_crosses a).
Proof.
  intros p p'. unfold limit_crosses, isBuy, key_before.
  destruct (side a); simpl; rewrite !Z.leb_le, Z.ltb_ge; lia.
Qed.

(** Every resting order left by the loops is an old one, possibly with a smaller
    quantity. *)
Definition same_order (o o' : Order) : Prop :=
  orderId o = orderId o' /\ accountId o = accountId o' /\ symbol o = symbol o' /\
  side o = side o' /\ type o = type o' /\ price o = price o' /\
  stopPrice o = stopPrice o' /\ quantity o = quantity o' /\ createdAt o = createdAt o'.

Lemma same_order_refl o : same_order o o.
Proof. by unfold same_order. Qed.

Lemma match_step_orders crosses a st st' :
  match_step crosses a st st' ->
  forall o, o ∈ orders_of (ms_oppositeSide st') ->
  exists o', o' ∈ orders_of (ms_oppositeSide st) /\ same_order o o'.
Proof.
  destruct 1 as [rem p o q more idx last trs t|rem p o q more idx last trs t|];
    cbn [ms_oppositeSide]; rewrite ?orders_of_cons; simpl; intros x Hx.
  - exists x. split; [by right|apply same_order_refl].
  - apply elem_of_cons in Hx as [->|Hx].
    + exists o. split; [by left|done].
    + exists x. split; [by right|apply same_order_refl].
  - exists x. split; [done|apply same_order_refl].
Qed.

Lemma match_steps_orders crosses a st st' :
  rtc (match_step crosses a) st st' ->
  forall o, o ∈ orders_of (ms_oppositeSide st') ->
  exists o', o' ∈ orders_of (ms_oppositeSide st) /\ same_order o o'.
Proof.
  induction 1 as [st|st1 st2 st3 Hstep _ IH]; intros o Ho.
  - exists o. split; [done|apply same_order_refl].
  - destruct (IH o Ho) as (o2 & Ho2 & E2).
    destruct (match_step_orders _ _ _ _ Hstep o2 Ho2) as (o1 & Ho1 & E1).
    exists o1. split; [done|]. unfold same_order in *. naive_solver congruence.
Qed.

Lemma match_step_index `{!FreedReadsOld} crosses a oth st st' :
  match_step crosses a st st' ->
  index_ok (orders_of (ms_oppositeSide st) ++ oth) (ms_orderIndex st) ->
  index_ok (orders_of (ms_oppositeSide st') ++ oth) (ms_orderIndex st').
Proof.
  destruct 1; cbn [ms_oppositeSide ms_orderIndex]; rewrite ?orders_of_cons; simpl; [| |done].
  - rewrite freed_reads_old. apply index_ok_fill.
  - by apply index_ok_reduce.
Qed.

Lemma match_steps_index `{!FreedReadsOld} crosses a oth st st' :
  rtc (match_step crosses a) st st' ->
  index_ok (orders_of (ms_oppositeSide st) ++ oth) (ms_orderIndex st) ->
  index_ok (orders_of (ms_oppositeSide st') ++ oth) (ms_orderIndex st').
Proof. induction 1; eauto using match_step_index. Qed.

(** The book after the loops, before a remainder is inserted. *)
Definition after_side (crosses : Z -> bool) (a : Order) (b : OrderBook) (t : nat) : OrderBook :=
  leave_side a b (matchSide crosses a (enter_side a b t)).

Lemma after_side_ok crosses a b t :
  wf_sides b -> int64 (remainingQuantity a) ->
  rtc (match_step crosses a) (enter_side a b t) (matchSide crosses a (enter_side a b t)) /\
  levels_wf (opposite (side a)) (ms_oppositeSide (matchSide crosses a (enter_side a b t))) /\
  int64 (ms_remainingQty (matchSide crosses a (enter_side a b t))).
Proof.
  intros Hwf Hr. pose proof (wf_sides_side (opposite (side a)) b Hwf) as Hopp.
  destruct (matchSide_refines crosses a (opposite (side a)) (enter_side a b t))
    as (_ & ? & ?); [by rewrite enter_side_opposite|done|].
  split; [|done]. eapply (matchSide_steps _ _ (opposite (side a))). 
  split; [|done]. rewrite enter_side_opposite. apply Hopp.
Qed.

Lemma after_side_orders crosses a b t :
  wf_sides b -> int64 (remainingQuantity a) ->
  forall o, o ∈ orders_of (book_side (opposite (side a)) (after_side crosses a b t)) ->
  exists o', o' ∈ orders_of (book_side (opposite (side a)) b) /\ same_order o o'.
Proof.
  intros Hwf Hr o. unfold after_side. rewrite leave_side_opposite.
  rewrite <- (enter_side_opposite a b t).
  apply match_steps_orders with crosses a. by apply after_side_ok.
Qed.

Lemma after_side_wf crosses a b t :
  wf_sides b -> int64 (remainingQuantity a) -> wf_sides (after_side crosses a b t).
Proof.
  intros Hwf Hr. destruct (after_side_ok crosses a b t Hwf Hr) as (_ & Hl & _).
  assert (levels_wf (side a) (book_side (side a) (after_side crosses a b t))) as Hsame.
  { unfold after_side. rewrite leave_side_same. by apply wf_sides_side. }
  assert (levels_wf (opposite (side a))
            (book_side (opposite (side a)) (after_side crosses a b t))) as Hopp.
  { unfold after_side. by rewrite leave_side_opposite. }
  split; [by destruct (side a)|by destruct (side a)|].
  apply (uncrossed_sides (side a)). intros x y Hx Hy.
  destruct (after_side_orders crosses a b t Hwf Hr y Hy) as (y' & Hy' & E).
  assert (price y = price y') as -> by apply E.
  unfold after_side in Hx. rewrite leave_side_same in Hx.
  by apply (proj1 (uncrossed_sides (side a) b) (wf_uncrossed _ Hwf)).
Qed.

Lemma after_side_index `{!FreedReadsOld} crosses a b t :
  wf_book b -> int64 (remainingQuantity a) ->
  index_ok (book_orders (after_side crosses a b t)) (orderIndex_ (after_side crosses a b t)).
Proof.
  intros [Hwf Hidx] Hr. rewrite (book_orders_split (opposite (side a))).
  assert (opposite (opposite (side a)) = side a) as -> by by destruct (side a).
  unfold after_side. rewrite leave_side_opposite, leave_side_same, leave_side_index.
  eapply match_steps_index; [by apply after_side_ok|].
  rewrite enter_side_opposite.
  rewrite (book_orders_split (opposite (side a))) in Hidx.
  assert (opposite (opposite (side a)) = side a) as E by by destruct (side a).
  rewrite E in Hidx. by destruct (side a).
Qed.
End Matching.

(** * Insertion and removal *)

Lemma insertIntoBook_same o b :
  book_side (side o) (insertIntoBook o b) =
  map_push_back (side o) (price o) o (book_side (side o) b).
Proof. unfold insertIntoBook, isBuy. by destruct (side o). Qed.

Lemma insertIntoBook_opposite o b :
  book_side (opposite (side o)) (insertIntoBook o b) = book_side (opposite (side o)) b.
Proof. unfold insertIntoBook, isBuy. by destruct (side o). Qed.

Lemma insertIntoBook_index o b :
  orderIndex_ (insertIntoBook o b) = <[orderId o := o]> (orderIndex_ b).
Proof. unfold insertIntoBook. by destruct (isBuy o). Qed.

Lemma insertIntoBook_orders o b : book_orders (insertIntoBook o b) ≡ₚ o :: book_orders b.
Proof.
  rewrite (book_orders_split (side o) b), (book_orders_split (side o) (insertIntoBook o b)).
  by rewrite insertIntoBook_same, insertIntoBook_opposite, map_push_back_orders.
Qed.

Lemma insertIntoBook_sides o b :
  wf_sides b -> resting_ok (side o) (price o) o ->
  (forall y, y ∈ orders_of (book_side (opposite (side o)) b) ->
     behind (side o) (price o) (price y)) ->
  wf_sides (insertIntoBook o b).
Proof.
  intros Hwf Hok Hbehind.
  assert (levels_wf (side o) (book_side (side o) (insertIntoBook o b))) as Hs.
  { rewrite insertIntoBook_same. apply map_push_back_wf; [by apply wf_sides_side|done]. }
  assert (levels_wf (opposite (side o)) (book_side (opposite (side o)) (insertIntoBook o b)))
    as Ho.
  { rewrite insertIntoBook_opposite. by apply wf_sides_side. }
  split; [by destruct (side o)|by destruct (side o)|].
  apply (uncrossed_sides (side o)). intros x y.
  rewrite insertIntoBook_same, insertIntoBook_opposite, map_push_back_orders.
  intros [->|Hx]%elem_of_cons Hy; [by apply Hbehind|].
  by apply (proj1 (uncrossed_sides (side o) b) (wf_uncrossed _ Hwf)).
Qed.

Lemma insertIntoBook_wf o b :
  wf_book b -> resting_ok (side o) (price o) o -> orderId o ∉ book_ids b ->
  (forall y, y ∈ orders_of (book_side (opposite (side o)) b) ->
     behind (side o) (price o) (price y)) ->
  wf_book (insertIntoBook o b).
Proof.
  intros [Hwf Hidx] Hok Hfresh Hbehind. split; [by apply insertIntoBook_sides|].
  rewrite insertIntoBook_orders, insertIntoBook_index. by apply index_ok_insert.
Qed.

Lemma map_find_orders p o (m : Levels) s :
  levels_ok s m -> o ∈ orders_of m -> price o = p -> is_Some (map_find p m).
Proof.
  intros [_ Ho] Hin Hp. induction m as [|[k q] m IH]; [by apply not_elem_of_nil in Hin|].
  apply Forall_cons in Ho as [Hq Ho]. simpl in *.
  destruct (Z.eqb_spec k p); [eauto|]. apply IH; [done|].
  rewrite orders_of_cons in Hin. apply elem_of_app in Hin as [Hin|]; [|done].
  pose proof (proj1 (Forall_forall _ _) Hq o Hin) as (_&?&_). congruence.
Qed.

(** The removal of one order, per side. *)
Definition remove_from_sides (o : Order) (b : OrderBook) : OrderBook :=
  match side o with
  | BUY => mkBook (symbol_ b) (map_remove_order (price o) (orderId o) (bids_ b)) (asks_ b)
             (delete (orderId o) (orderIndex_ b)) (lastTradePrice_ b)
  | SELL => mkBook (symbol_ b) (bids_ b) (map_remove_order (price o) (orderId o) (asks_ b))
             (delete (orderId o) (orderIndex_ b)) (lastTradePrice_ b)
  end.

Lemma elem_of_side s b o :
  wf_sides b -> o ∈ book_orders b -> side o = s -> o ∈ orders_of (book_side s b).
Proof.
  intros Hwf Hin Hs. rewrite (book_orders_split s) in Hin.
  apply elem_of_app in Hin as [|Hin]; [done|].
  destruct (wf_sides_side (opposite s) b Hwf) as [Hok _].
  apply orders_of_resting in Hok.
  pose proof (proj1 (Forall_forall _ _) Hok o Hin) as (Hside & _). by destruct s, (side o).
Qed.

(** [removeFromBook] on a well-formed book, by cases on the index. *)
Lemma removeFromBook_cases id b :
  wf_book b ->
  match orderIndex_ b !! id with
  | None => removeFromBook id b = (false, b)
  | Some o =>
      orderId o = id /\ o ∈ book_orders b /\
      if price o =? 0
      then removeFromBook id b =
             (false, mkBook (symbol_ b) (bids_ b) (asks_ b) (delete id (orderIndex_ b))
                       (lastTradePrice_ b))
      else removeFromBook id b = (true, remove_from_sides o b)
  end.
Proof.
  intros [Hwf Hidx]. unfold removeFromBook. destruct (orderIndex_ b !! id) as [o|] eqn:E; [|done].
  destruct (idx_sound _ _ Hidx id o E) as [Hid Hin]. split_and!; [done..|].
  destruct (Z.eqb_spec (price o) 0) as [|Hp]; [done|].
  unfold remove_from_sides, isBuy.
  destruct (wf_sides_side (side o) b Hwf) as [Hok _].
  pose proof (elem_of_side (side o) b o Hwf Hin eq_refl) as Ho.
  destruct (map_find_orders (price o) o _ _ Hok Ho eq_refl) as [q Hq].
  destruct (side o); simpl in *; rewrite Hq, Hid; done.
Qed.

Lemma remove_from_sides_same o b :
  book_side (side o) (remove_from_sides o b) =
  map_remove_order (price o) (orderId o) (book_side (side o) b).
Proof. unfold remove_from_sides. by destruct (side o). Qed.

Lemma remove_from_sides_opposite o b :
  book_side (opposite (side o)) (remove_from_sides o b) = book_side (opposite (side o)) b.
Proof. unfold remove_from_sides. by destruct (side o). Qed.

Lemma book_ids_unique o x b :
  wf_book b -> o ∈ book_orders b -> x ∈ book_orders b -> orderId x = orderId o -> x = o.
Proof. intros [_ [Hn _ _]] ? ? ?. by eapply NoDup_ids_eq. Qed.

Lemma elem_of_book_side s b o : o ∈ orders_of (book_side s b) -> o ∈ book_orders b.
Proof. intros Ho. rewrite (book_orders_split s). apply elem_of_app. by left. Qed.

Lemma remove_from_sides_orders o b :
  wf_book b -> o ∈ book_orders b ->
  orders_of (book_side (side o) (remove_from_sides o b)) =
    filter (fun x => orderId x <> orderId o) (orders_of (book_side (side o) b)) /\
  orders_of (book_side (opposite (side o)) (remove_from_sides o b)) =
    filter (fun x => orderId x <> orderId o) (orders_of (book_side (opposite (side o)) b)).
Proof.
  intros Hwf Hin. rewrite remove_from_sides_same, remove_from_sides_opposite. split.
  - eapply map_remove_order_orders; [eapply wf_sides_side, Hwf|].
    intros x Hx Hid%(book_ids_unique o x b Hwf Hin (elem_of_book_side _ _ _ Hx)). by rewrite Hid.
  - symmetry. apply filter_id, Forall_forall. intros x Hx Hid.
    pose proof (book_ids_unique o x b Hwf Hin (elem_of_book_side _ _ _ Hx) Hid) as ->.
    destruct (wf_sides_side (opposite (side o)) b (wf_book_sides _ Hwf)) as [Hok _].
    apply orders_of_resting in Hok.
    pose proof (proj1 (Forall_forall _ _) Hok o Hx) as (Hside & _). by destruct (side o).
Qed.

Lemma remove_from_sides_wf o b :
  wf_book b -> o ∈ book_orders b -> wf_book (remove_from_sides o b).
Proof.
  intros Hwf Hin. destruct (remove_from_sides_orders o b Hwf Hin) as [E1 E2].
  pose proof Hwf as [Hsides Hidx]. split.
  - assert (levels_wf (side o) (book_side (side o) (remove_from_sides o b))) as Hs.
    { rewrite remove_from_sides_same. by apply map_remove_order_wf, wf_sides_side. }
    assert (levels_wf (opposite (side o)) (book_side (opposite (side o)) (remove_from_sides o b)))
      as Ho.
    { rewrite remove_from_sides_opposite. by apply wf_sides_side. }
    split; [by destruct (side o)|by destruct (side o)|].
    apply (uncrossed_sides (side o)). intros x y. rewrite E1, E2.
    intros [_ Hx]%list_elem_of_filter [_ Hy]%list_elem_of_filter.
    by apply (proj1 (uncrossed_sides (side o) b) (wf_uncrossed _ Hsides)).
  - rewrite (book_orders_split (side o)), E1, E2, <- filter_app.
    assert (orderIndex_ (remove_from_sides o b) = delete (orderId o) (orderIndex_ b)) as ->.
    { unfold remove_from_sides. by destruct (side o). }
    apply index_ok_remove. by rewrite <- (book_orders_split (side o) b).
Qed.
