(* ===== verification/Fixtures.v ===== *)
(** Concrete inputs for the witnesses: an environment whose readings of destroyed
    strings see the old characters, one whose readings do not, and a small book
    built by the modelled operations themselves. *)

From Stdlib Require Import ZArith.
From stdpp Require Import base numbers gmap strings list.
From S2P Require Import Prelude Model OrderBook.

Local Open Scope Z_scope.

Definition demo_env : Env := {|
  sys_now n := 1000 * Z.of_nat n;
  steady_now n := 1000 * Z.of_nat n;
  rand_u64 n := 6364136223846793005 * (Z.of_nat n + 1);
  freed_string _ s := s
|}.

Lemma demo_env_reads_old : @FreedReadsOld demo_env.
Proof. done. Qed.

(** The allocator has reused the memory of the destroyed string. *)
Definition reused_env : Env := {|
  sys_now n := 1000 * Z.of_nat n;
  steady_now n := 1000 * Z.of_nat n;
  rand_u64 n := 6364136223846793005 * (Z.of_nat n + 1);
  freed_string _ _ := ""
|}.

Definition dollars (d : Z) : Z := d * PRICE_SCALE.

Definition demo_order (id acct : string) (s : OrderSide) (ty : OrderType) (p q : Z) : Order :=
  mkOrder id acct "AAPL" s ty p 0 q q PENDING 0 0.

Definition ask1 := demo_order "a1" "seller1" SELL LIMIT (dollars 150) 50.
Definition ask2 := demo_order "a2" "seller2" SELL LIMIT (dollars 150) 30.
Definition ask3 := demo_order "a3" "seller1" SELL LIMIT (dollars 151) 40.
Definition bid1 := demo_order "b1" "buyer1" BUY LIMIT (dollars 149) 20.

Definition rest_all (os : list Order) (b : OrderBook) : OrderBook :=
  foldl (fun b o => (@matchLimit demo_env o b 0).1.2) b os.

(** Two asks at $150, one at $151, one bid at $149. *)
Definition demo_book : OrderBook := rest_all [ask1; ask3; ask2; bid1] (OrderBook_new "AAPL").
