(* ===== verification/BookGuarantees.v ===== *)
(** The guarantees of the order book, as its callers rely on them. *)

From Stdlib Require Import ZArith Lia.
From stdpp Require Import base numbers gmap strings list sorting relations.
From S2P Require Import Prelude Model OrderBook Matching BookSpec BookInvariant BookTheorems Fixtures.

Local Open Scope Z_scope.

(** The side of the book that an order trades against, as a priority queue. *)
Definition opposite_queue (o : Order) (b : OrderBook) : list Entry :=
  abs_side (book_side (opposite (side o)) b).

Definition own_queue (o : Order) (b : OrderBook) : list Entry :=
  abs_side (book_side (side o) b).

Definition sum_trades (trs : list Trade) : Z := sum_qty (fill_of <$> trs).

(** The limit an order type puts on the prices it trades at. *)
Definition within_limit (o : Order) (p : Z) : bool :=
  match type o with
  | MARKET => true
  | FOK => (price o =? 0) || limit_crosses o p
  | LIMIT | IOC => limit_crosses o p
  | STOP_LIMIT => false
  end.

(** * Lemmas *)

Section Lemmas.
Context `{Env}.

(** The loops against the specification, from a book. *)
Lemma run_side_refines crosses a b t :
  wf_sides b -> incoming_ok a ->
  let st := matchSide crosses a (enter_side a b t) in
  spec_fill crosses (quantity a) (opposite_queue a b) =
    (fill_of <$> ms_trades st, ms_remainingQty st, abs_side (ms_oppositeSide st)) /\
  ms_lastTradePrice st = last_price (lastTradePrice_ b) (fill_of <$> ms_trades st).
Proof.
  intros Hwf [Hq Hr] st.
  destruct (matchSide_refines crosses a (opposite (side a)) (enter_side a b t))
    as (Hrun & _ & _).
  { rewrite enter_side_opposite. by apply wf_sides_side. }
  { cbn. by rewrite Hq. }
  fold st in Hrun. clearbody st. unfold spec_run in Hrun.
  rewrite enter_side_opposite in Hrun.
  cbn [enter_side ms_remainingQty ms_trades ms_lastTradePrice] in Hrun.
  rewrite Hq in Hrun. fold (opposite_queue a b) in Hrun.
  destruct (spec_fill _ _ _) as [[fs r] rest]. cbn in Hrun.
  injection Hrun as -> -> -> <-. done.
Qed.

Lemma opposite_queue_positive a b : wf_sides b -> positive_entries (opposite_queue a b).
Proof. intros Hwf. eapply abs_side_positive, wf_sides_side, Hwf. Qed.

Definition from_aggressor (a : Order) (tr : Trade) : Prop :=
  t_symbol tr = symbol a /\ aggressorOrderId tr = orderId a /\
  aggressorAccountId tr = accountId a /\ aggressorSide tr = side a.

Lemma match_steps_aggressor crosses a st st' :
  rtc (match_step crosses a) st st' ->
  Forall (from_aggressor a) (ms_trades st) -> Forall (from_aggressor a) (ms_trades st').
Proof.
  induction 1 as [|st1 st2 st3 Hstep _ IH]; [done|]. intros Hall. apply IH.
  destruct Hstep; simpl in *; [| |done]; apply Forall_app; split; try done;
    by apply Forall_singleton.
Qed.

Lemma run_side_aggressor crosses a b t :
  wf_sides b -> incoming_ok a ->
  Forall (from_aggressor a) (ms_trades (matchSide crosses a (enter_side a b t))).
Proof.
  intros Hwf [Hq Hr].
  apply (match_steps_aggressor crosses a (enter_side a b t)); [|done].
  apply after_side_ok; [done|by rewrite Hq].
Qed.

Lemma matchLimit_trades a b t :
  (matchLimit a b t).1.1 = ms_trades (matchSide (limit_crosses a) a (enter_side a b t)).
Proof. unfold matchLimit. destruct (0 <? _); done. Qed.

Lemma matchIoc_trades a b t : (matchIoc a b t).1.1 = (matchLimit a b t).1.1.
Proof.
  unfold matchIoc. destruct (matchLimit a b t) as [[trs b'] t'].
  by destruct (removeFromBook _ _).
Qed.

(** Each algorithm, as a run of the loops with some crossing test. *)
Lemma match_trades_cases o b t :
  (match_ o b t).1.1 = [] /\ (match_ o b t).1.2 = b \/
  exists crosses,
    (match_ o b t).1.1 = ms_trades (matchSide crosses o (enter_side o b t)) /\
    match type o with
    | MARKET | FOK => (match_ o b t).1.2 = after_side crosses o b t /\ crosses = (fun _ => true)
    | LIMIT => (match_ o b t).1.2 = (matchLimit o b t).1.2 /\ crosses = limit_crosses o
    | IOC => (match_ o b t).1.2 = (removeFromBook (orderId o) (matchLimit o b t).1.2).2 /\
             crosses = limit_crosses o
    | STOP_LIMIT => False
    end.
Proof.
  unfold match_. destruct (type o) eqn:E.
  - right. exists (fun _ => true). done.
  - right. exists (limit_crosses o). by rewrite matchLimit_trades.
  - right. exists (limit_crosses o). by rewrite matchIoc_book, matchIoc_trades, matchLimit_trades.
  - unfold matchFok. case_match; [by left|]. right. exists (fun _ => true). done.
  - by left.
Qed.

Lemma sum_qty_cons e q : sum_qty (e :: q) = e_qty e + sum_qty q.
Proof. done. Qed.

Lemma sum_qty_app q r : sum_qty (q ++ r) = sum_qty q + sum_qty r.
Proof. induction q as [|e q IH]; [done|]. cbn [app]. rewrite !sum_qty_cons. lia. Qed.

Lemma sum_qty_nonneg q : positive_entries q -> 0 <= sum_qty q.
Proof. induction 1; [done|]. rewrite sum_qty_cons. lia. Qed.

Lemma queue_positive s p q :
  Forall (resting_ok s p) q -> positive_entries (entry <$> q).
Proof. intros Hq. apply Forall_fmap. eapply Forall_impl; [exact Hq|]. intros o (_&_&?&_). cbn. lia. Qed.

(** [availableQuantityAtOrBetter] without overflow. *)
Lemma sum_queue_exact s p q acc :
  Forall (resting_ok s p) q -> 0 <= acc ->
  acc + sum_qty (entry <$> q) < 2 ^ 63 ->
  sum_queue acc q = acc + sum_qty (entry <$> q).
Proof.
  intros Hq. revert acc. unfold sum_queue.
  induction Hq as [|o q (_&_&Ho&_) Hq IH]; intros acc Hacc Hsum; [cbn; lia|].
  rewrite fmap_cons, sum_qty_cons in Hsum |- *. cbn [fold_left entry e_qty] in *.
  pose proof (sum_qty_nonneg _ (queue_positive _ _ _ Hq)).
  rewrite add64_small by (unfold int64; lia). rewrite IH by lia. lia.
Qed.

Lemma crossing_qty_app c p q r :
  Forall (fun e => e_price e = p) q -> c p = true ->
  crossing_qty c (q ++ r) = sum_qty q + crossing_qty c r.
Proof.
  intros Hq Hc. induction Hq as [|e q He Hq IH]; [done|].
  cbn [app crossing_qty]. rewrite He, Hc, IH, sum_qty_cons. lia.
Qed.

Lemma countSide_exact s c m acc :
  levels_ok s m -> no_empty_queue m -> 0 <= acc ->
  acc + sum_qty (abs_side m) < 2 ^ 63 ->
  countSide c acc m = acc + crossing_qty c (abs_side m).
Proof.
  revert acc. induction m as [|[k q] m IH]; intros acc Hok Hne Hacc Hsum.
  { cbn. lia. }
  pose proof (levels_ok_tail _ _ _ Hok) as Htl.
  pose proof Hok as [_ Ho]. apply Forall_cons in Ho as [Hq _]. simpl in Hq.
  apply Forall_cons in Hne as [Hq0 Hne]. simpl in Hq0.
  pose proof (sum_qty_nonneg _ (abs_side_positive _ _ Htl)).
  pose proof (sum_qty_nonneg _ (queue_positive _ _ _ Hq)).
  rewrite abs_side_cons in Hsum |- *. rewrite sum_qty_app in Hsum.
  cbn [countSide]. destruct (c k) eqn:Hc.
  - rewrite (crossing_qty_app c k) by (try done; by eapply level_prices).
    rewrite (sum_queue_exact s k), IH by (try done; lia). lia.
  - destruct q as [|o q]; [done|]. apply Forall_cons in Hq as [(_&Hp&_) _].
    simpl. rewrite Hp, Hc. lia.
Qed.
End Lemmas.

(** * Price-time priority *)

Section PriceTime.
Context `{Env}.

Lemma matchMarket_refines a b t :
  wf_sides b -> incoming_ok a ->
  let '(trades, b', _) := matchMarket a b t in
  let '(fs, r, rest) := spec_fill (fun _ => true) (quantity a) (opposite_queue a b) in
  fill_of <$> trades = fs /\ opposite_queue a b' = rest /\ own_queue a b' = own_queue a b /\
  lastTradePrice_ b' = last_price (lastTradePrice_ b) fs.
Proof.
  intros Hwf Hin. unfold matchMarket.
  destruct (run_side_refines (fun _ => true) a b t Hwf Hin) as [-> Hlast].
  unfold opposite_queue, own_queue.
  by rewrite leave_side_opposite, leave_side_same, leave_side_last.
Qed.

Lemma matchLimit_refines a b t :
  wf_sides b -> incoming_ok a ->
  let '(trades, b', _) := matchLimit a b t in
  let '(fs, r, rest) := spec_fill (limit_crosses a) (quantity a) (opposite_queue a b) in
  fill_of <$> trades = fs /\ opposite_queue a b' = rest /\
  own_queue a b' =
    (if 0 <? r
     then spec_insert (side a) (mkEntry (orderId a) (accountId a) (price a) r) (own_queue a b)
     else own_queue a b) /\
  lastTradePrice_ b' = last_price (lastTradePrice_ b) fs.
Proof.
  intros Hwf Hin. pose proof (matchLimit_book a b t) as Hb.
  pose proof (matchLimit_trades a b t) as Htr.
  destruct (matchLimit a b t) as [[trades b'] t']. cbn [fst snd] in Hb, Htr. subst.
  destruct (run_side_refines (limit_crosses a) a b t Hwf Hin) as [-> Hlast].
  unfold opposite_queue, own_queue. destruct (0 <? _).
  - change (side a) with (side (remainder a b t)).
    rewrite insertIntoBook_opposite, insertIntoBook_same.
    change (side (remainder a b t)) with (side a).
    rewrite (map_push_back_refines (side a) (remainder a b t));
      unfold after_side; rewrite ?leave_side_opposite, ?leave_side_same;
      [|apply (wf_sides_side _ _ Hwf)..].
    split_and!; [done..|].
    unfold insertIntoBook. by case_match; rewrite ?leave_side_last.
  - unfold after_side. by rewrite leave_side_opposite, leave_side_same, leave_side_last.
Qed.

Lemma spec_cancel_insert s e q :
  e_id e ∉ (e_id <$> q) -> spec_cancel (e_id e) (spec_insert s e q) = q.
Proof.
  unfold spec_cancel. induction q as [|x q IH]; intros Hni; cbn [spec_insert].
  { by rewrite filter_cons_False by naive_solver. }
  rewrite fmap_cons, not_elem_of_cons in Hni. destruct Hni as [Hx Hq].
  assert (filter (fun e0 => e_id e0 <> e_id e) q = q) as Hid.
  { apply filter_id, Forall_forall. intros y Hy E. apply Hq. rewrite <- E.
    by apply list_elem_of_fmap_2. }
  case_match.
  - rewrite filter_cons_False by naive_solver. rewrite filter_cons_True by done. by rewrite Hid.
  - rewrite filter_cons_True by done. by rewrite IH.
Qed.

Lemma queue_ids s b : e_id <$> abs_side (book_side s b) = orderId <$> orders_of (book_side s b).
Proof. unfold abs_side. by rewrite <- list_fmap_compose. Qed.

Lemma not_in_queue s b id : id ∉ book_ids b -> id ∉ (e_id <$> abs_side (book_side s b)).
Proof.
  intros Hni Hin. apply Hni. rewrite queue_ids in Hin.
  apply list_elem_of_fmap in Hin as (o & -> & Ho).
  by apply list_elem_of_fmap_2, elem_of_book_side with s.
Qed.

Lemma spec_cancel_absent id q : id ∉ (e_id <$> q) -> spec_cancel id q = q.
Proof.
  intros Hni. apply filter_id, Forall_forall. intros e He E. apply Hni.
  rewrite <- E. by apply list_elem_of_fmap_2.
Qed.

(** Cancellation on the priority queues. *)
Lemma removeFromBook_queues id b o :
  wf_book b -> orderIndex_ b !! id = Some o -> price o <> 0 ->
  removeFromBook id b = (true, remove_from_sides o b) /\
  forall s, abs_side (book_side s (remove_from_sides o b)) =
            spec_cancel id (abs_side (book_side s b)).
Proof.
  intros Hwf Hlk Hp. pose proof (removeFromBook_cases id b Hwf) as Hcase.
  rewrite Hlk in Hcase. destruct Hcase as (<- & Hin & Hcase).
  rewrite (proj2 (Z.eqb_neq _ _)) in Hcase by done. split; [done|].
  destruct (remove_from_sides_orders o b Hwf Hin) as [E1 E2].
  intros s. unfold abs_side. destruct (decide (s = side o)) as [->|Hs].
  - rewrite E1. apply abs_filter_ids.
  - assert (s = opposite (side o)) as -> by (by destruct s, (side o)).
    rewrite E2. apply abs_filter_ids.
Qed.

(** What a removal tells and does. *)
Lemma removeFromBook_effect id b :
  wf_book b ->
  ((removeFromBook id b).1 = true <-> exists o, orderIndex_ b !! id = Some o /\ price o <> 0) /\
  forall s, abs_side (book_side s (removeFromBook id b).2) =
    (if (removeFromBook id b).1 then spec_cancel id (abs_side (book_side s b))
     else abs_side (book_side s b)).
Proof.
  intros Hwf. pose proof (removeFromBook_cases id b Hwf) as Hcase.
  destruct (orderIndex_ b !! id) as [o|] eqn:E.
  - destruct (Z.eqb_spec (price o) 0) as [Hp|Hp].
    + destruct Hcase as (_ & _ & ->). split; [split; [done|naive_solver]|by destruct s].
    + destruct (removeFromBook_queues id b o Hwf E Hp) as [-> Hq].
      split; [split; [eauto|done]|done].
  - rewrite Hcase. split; [split; [done|naive_solver]|done].
Qed.
End PriceTime.

(** * Time in force *)

Section TimeInForce.
Context `{Env}.

(** The index entry of the incoming identifier after a limit order ran. *)
Lemma matchLimit_own_index `{!FreedReadsOld} a b t :
  wf_book b -> incoming_ok a -> orderId a ∉ book_ids b ->
  orderIndex_ (matchLimit a b t).1.2 !! orderId a =
    (if 0 <? ms_remainingQty (matchSide (limit_crosses a) a (enter_side a b t))
     then Some (remainder a b t) else None).
Proof.
  intros Hwf [Hq Hr] Hfresh. rewrite matchLimit_book. rewrite <- Hq in Hr.
  pose proof (after_side_index (limit_crosses a) a b t Hwf Hr) as Hidx.
  destruct (0 <? _); [rewrite insertIntoBook_index; apply lookup_insert_eq|].
  destruct (orderIndex_ (after_side _ _ _ _) !! orderId a) as [o|] eqn:E; [|done].
  destruct (idx_sound _ _ Hidx _ _ E) as [Hid Hin].
  destruct (after_side_ids _ _ _ _ (wf_book_sides _ Hwf) Hr o Hin) as (o' & Ho' & Hid' & _).
  destruct Hfresh. rewrite <- Hid, Hid'. by apply list_elem_of_fmap_2.
Qed.

Lemma matchIoc_refines `{!FreedReadsOld} a b t :
  wf_book b -> incoming_ok a -> orderId a ∉ book_ids b -> price a <> 0 ->
  let '(trades, b', _) := matchIoc a b t in
  let '(fs, r, rest) := spec_fill (limit_crosses a) (quantity a) (opposite_queue a b) in
  fill_of <$> trades = fs /\ opposite_queue a b' = rest /\ own_queue a b' = own_queue a b /\
  orderIndex_ b' !! orderId a = None.
Proof.
  intros Hwf Hin Hfresh Hp.
  pose proof (matchLimit_refines a b t (wf_book_sides _ Hwf) Hin) as Hlim.
  pose proof (matchLimit_own_index a b t Hwf Hin Hfresh) as Hidx.
  pose proof (matchLimit_wf a b t Hwf Hin Hfresh) as Hwf'.
  destruct (run_side_refines (limit_crosses a) a b t (wf_book_sides _ Hwf) Hin) as [Hspec _].
  rewrite Hspec in Hlim |- *. unfold matchIoc.
  destruct (matchLimit a b t) as [[trades b'] t']. cbn [fst snd] in *.
  destruct Hlim as (Hf & Hopp & Hown & _).
  destruct (0 <? ms_remainingQty _).
  - destruct (removeFromBook_queues (orderId a) b' (remainder a b t) Hwf' Hidx Hp) as [-> Hq].
    unfold opposite_queue, own_queue in *. rewrite !Hq, Hown. split_and!; [done| | |].
    + rewrite <- Hopp. apply spec_cancel_absent. rewrite Hopp.
      assert (int64 (remainingQuantity a)) as Hr by (destruct Hin as [-> ?]; done).
      intros (e & He & (o & -> & Ho)%list_elem_of_fmap)%list_elem_of_fmap. apply Hfresh.
      rewrite He. cbn. destruct (after_side_orders (limit_crosses a) a b t (wf_book_sides _ Hwf) Hr o)
        as (o' & Ho' & -> & _).
      { unfold after_side. by rewrite leave_side_opposite. }
      by apply list_elem_of_fmap_2, elem_of_book_side with (opposite (side a)).
    + apply (spec_cancel_insert (side a) (mkEntry _ _ _ _)). by apply not_in_queue.
    + unfold remove_from_sides. destruct (side _); apply lookup_delete_eq.
  - pose proof (removeFromBook_cases (orderId a) b' Hwf') as Hcase.
    rewrite Hidx in Hcase. rewrite Hcase. done.
Qed.

Lemma matchIoc_zero_stays `{!FreedReadsOld} a b t :
  wf_book b -> incoming_ok a -> orderId a ∉ book_ids b -> price a = 0 ->
  0 < ms_remainingQty (matchSide (limit_crosses a) a (enter_side a b t)) ->
  let b' := (matchIoc a b t).1.2 in
  remainder a b t ∈ book_orders b' /\ removeFromBook (orderId a) b' = (false, b').
Proof.
  intros Hwf Hin Hfresh Hp Hpos b'.
  pose proof (matchLimit_own_index a b t Hwf Hin Hfresh) as Hidx.
  pose proof (matchLimit_wf a b t Hwf Hin Hfresh) as Hwf'.
  pose proof (removeFromBook_cases (orderId a) _ Hwf') as Hcase.
  rewrite Hidx, (proj2 (Z.ltb_lt _ _)) in Hcase by done.
  change (price (remainder a b t)) with (price a) in Hcase.
  rewrite Hp in Hcase. cbn [Z.eqb] in Hcase. destruct Hcase as (_ & Hin' & Hcase).
  subst b'. rewrite matchIoc_book, Hcase. cbn [snd]. split; [done|].
  unfold removeFromBook. cbn [orderIndex_]. by rewrite lookup_delete_eq.
Qed.

Lemma matchFok_cases a b t :
  wf_sides b -> incoming_ok a -> sum_qty (opposite_queue a b) < 2 ^ 63 ->
  let '(trades, b', _) := matchFok a b t in
  if crossing_qty (fok_crosses a) (opposite_queue a b) <? quantity a
  then trades = [] /\ b' = b
  else sum_trades trades = Z.max 0 (quantity a) /\
       Forall (fun tr => fok_crosses a (t_price tr) = true) trades.
Proof.
  intros Hwf Hin Hsum. unfold matchFok.
  assert (availableQuantityAtOrBetter a b = crossing_qty (fok_crosses a) (opposite_queue a b))
    as ->.
  { unfold availableQuantityAtOrBetter, opposite_queue.
    assert ((if isBuy a then asks_ b else bids_ b) = book_side (opposite (side a)) b) as ->
      by (unfold isBuy; by destruct (side a)).
    destruct (wf_sides_side (opposite (side a)) b Hwf) as [Hok Hne].
    rewrite (countSide_exact (opposite (side a))); done || lia. }
  destruct (Z.ltb_spec (crossing_qty (fok_crosses a) (opposite_queue a b)) (quantity a));
    [done|].
  unfold matchMarket.
  destruct (run_side_refines (fun _ => true) a b t Hwf Hin) as [Hspec _].
  pose proof (opposite_queue_positive a b Hwf) as Hpos.
  unfold sum_trades.
  enough (Forall (fun e => fok_crosses a (e_price e) = true)
            (fill_of <$> ms_trades (matchSide (fun _ => true) a (enter_side a b t))) /\
          sum_qty (fill_of <$> ms_trades (matchSide (fun _ => true) a (enter_side a b t))) =
            Z.max 0 (quantity a)) as [Hall ->].
  { split; [done|]. by apply Forall_fmap in Hall. }
  destruct (Z.le_gt_cases 0 (quantity a)) as [Hq|Hq].
  - destruct (spec_fill_enough (fok_crosses a) (quantity a) _ Hpos ltac:(lia)) as [E Hr].
    rewrite Hspec in E. rewrite <- E in Hr. cbn [fst snd] in Hr.
    destruct (spec_fill_conserves _ _ _ _ _ _ Hpos Hspec) as (Hc & _ & _).
    destruct (spec_fill_part _ _ _ _ _ _ Hpos (eq_sym E)) as [Hp _].
    split; [|lia]. eapply Forall_impl; [exact Hp|]. naive_solver.
  - assert (fill_of <$> ms_trades (matchSide (fun _ => true) a (enter_side a b t)) = []) as ->.
    { destruct (opposite_queue a b) as [|e q]; cbn [spec_fill] in Hspec;
        rewrite ?(proj2 (Z.ltb_ge _ _)) in Hspec by lia; cbn [andb] in Hspec;
        injection Hspec as Hf _ _; by rewrite <- Hf. }
    split; [done|]. cbn. lia.
Qed.
End TimeInForce.

(** * Fills *)

(** The order types whose unfilled quantity stays in the book. *)
Definition rests (o : Order) : bool :=
  match type o with LIMIT => true | IOC => price o =? 0 | _ => false end.

Section Fills.
Context `{Env}.

Lemma part_of_resting s b e x :
  x ∈ abs_side (book_side s b) -> part_of e x ->
  exists o, o ∈ orders_of (book_side s b) /\ e_id e = orderId o /\
    e_account e = accountId o /\ e_price e = price o /\ 0 < e_qty e <= remainingQuantity o.
Proof.
  intros (o & -> & Ho)%list_elem_of_fmap (?&?&?&?). exists o. done.
Qed.

Lemma match_trades_from o b t :
  wf_sides b -> incoming_ok o -> sum_qty (opposite_queue o b) < 2 ^ 63 ->
  Forall (fun tr =>
    from_aggressor o tr /\ within_limit o (t_price tr) = true /\
    exists x, x ∈ orders_of (book_side (opposite (side o)) b) /\
      passiveOrderId tr = orderId x /\ passiveAccountId tr = accountId x /\
      t_price tr = price x /\ 0 < t_quantity tr <= remainingQuantity x)
    (match_ o b t).1.1.
Proof.
  intros Hwf Hin Hsum.
  pose proof (matchFok_cases o b t Hwf Hin Hsum) as Hfok.
  destruct (match_trades_cases o b t) as [[-> _]|(crosses & Htr & Hty)]; [done|].
  assert (Forall (fun tr => within_limit o (t_price tr) = true) (match_ o b t).1.1 \/
          crosses = limit_crosses o /\ (type o = LIMIT \/ type o = IOC)) as Hlim.
  { unfold match_, within_limit in *. destruct (type o); try (right; tauto); try done.
    - left. by apply Forall_true.
    - left. unfold fok_crosses in Hfok. destruct (matchFok o b t) as [[trs b'] t']. cbn.
      destruct (_ <? _); [by destruct Hfok as [-> _]|]. by destruct Hfok. }
  destruct (run_side_refines crosses o b t Hwf Hin) as [Hspec _].
  destruct (spec_fill_part _ _ _ _ _ _ (opposite_queue_positive o b Hwf) Hspec) as [Hp _].
  apply Forall_fmap in Hp. rewrite <- Htr in Hp.
  pose proof (run_side_aggressor crosses o b t Hwf Hin) as Hag. rewrite <- Htr in Hag.
  rewrite Forall_forall in Hp, Hag. apply Forall_forall. intros tr Hin_tr.
  destruct (Hp tr Hin_tr) as (Hc & x & Hx & Hpart). cbn in Hc.
  split; [by apply Hag|]. split; [|by eapply (part_of_resting _ _ (fill_of tr))].
  destruct Hlim as [Hlim|[-> Hlim]].
  - rewrite Forall_forall in Hlim. by apply Hlim.
  - unfold within_limit. by destruct Hlim as [-> | ->].
Qed.

Lemma sum_qty_insert s e q : sum_qty (spec_insert s e q) = e_qty e + sum_qty q.
Proof.
  induction q as [|x q IH]; [done|]. cbn [spec_insert]. case_match; [done|].
  rewrite !sum_qty_cons, IH. lia.
Qed.

(** IOC at price 0 only forgets the index entry. *)
Lemma matchIoc_queues_zero `{!FreedReadsOld} a b t s :
  wf_book b -> incoming_ok a -> orderId a ∉ book_ids b -> price a = 0 ->
  book_side s (matchIoc a b t).1.2 = book_side s (matchLimit a b t).1.2.
Proof.
  intros Hwf Hin Hfresh Hp. rewrite matchIoc_book.
  pose proof (matchLimit_own_index a b t Hwf Hin Hfresh) as Hidx.
  pose proof (matchLimit_wf a b t Hwf Hin Hfresh) as Hwf'.
  pose proof (removeFromBook_cases (orderId a) _ Hwf') as Hcase. rewrite Hidx in Hcase.
  destruct (0 <? _); [|by rewrite Hcase].
  change (price (remainder a b t)) with (price a) in Hcase.
  rewrite Hp in Hcase. cbn [Z.eqb] in Hcase. destruct Hcase as (_ & _ & ->). by destruct s.
Qed.

Lemma spec_fill_balance c rem q :
  positive_entries q ->
  forall fs r rest, spec_fill c rem q = (fs, r, rest) ->
  sum_qty fs + sum_qty rest = sum_qty q /\ 0 <= sum_qty fs <= Z.max 0 rem /\
  (if 0 <? r then r else 0) = Z.max 0 rem - sum_qty fs.
Proof.
  intros Hpos fs r rest Hs. destruct (spec_fill_conserves _ _ _ _ _ _ Hpos Hs) as (?&?&?).
  destruct (spec_fill_part _ _ _ _ _ _ Hpos Hs) as [Hp _].
  assert (0 <= sum_qty fs).
  { apply sum_qty_nonneg. eapply Forall_impl; [exact Hp|].
    intros e (_ & x & _ & _ & _ & _ & ?). lia. }
  assert (rem < 0 -> fs = [] /\ r = rem) as Hneg.
  { intros Hlt. destruct q as [|e q]; cbn [spec_fill] in Hs;
      rewrite ?(proj2 (Z.ltb_ge 0 _)) in Hs by lia; by injection Hs as <- <- _. }
  destruct (Z.ltb_spec 0 r); destruct (Z.le_gt_cases 0 rem);
    try (destruct Hneg as [-> ->]; [lia|cbn in *]); split_and!; lia.
Qed.

Lemma match_balance `{!FreedReadsOld} o b t :
  wf_book b -> incoming_ok o -> orderId o ∉ book_ids b ->
  let '(trades, b', _) := match_ o b t in
  sum_trades trades + sum_qty (opposite_queue o b') = sum_qty (opposite_queue o b) /\
  0 <= sum_trades trades <= Z.max 0 (quantity o) /\
  sum_qty (own_queue o b') =
    sum_qty (own_queue o b) +
    (if rests o then Z.max 0 (quantity o) - sum_trades trades else 0).
Proof.
  intros Hwf Hin Hfresh. pose proof (wf_book_sides _ Hwf) as Hsides.
  pose proof (opposite_queue_positive o b Hsides) as Hpos.
  pose proof (fun c => spec_fill_balance c (quantity o) _ Hpos) as Hfill.
  pose proof (matchMarket_refines o b t Hsides Hin) as Hmk.
  pose proof (matchLimit_refines o b t Hsides Hin) as Hlm.
  unfold sum_trades, match_, rests. destruct (type o) eqn:Hty.
  - destruct (matchMarket o b t) as [[trs b'] t'].
    destruct (spec_fill (fun _ => true) _ _) as [[fs r] rest] eqn:Hs.
    destruct Hmk as (-> & -> & -> & _). specialize (Hfill _ _ _ _ Hs). lia.
  - destruct (matchLimit o b t) as [[trs b'] t'].
    destruct (spec_fill (limit_crosses o) _ _) as [[fs r] rest] eqn:Hs.
    destruct Hlm as (-> & -> & -> & _). specialize (Hfill _ _ _ _ Hs).
    destruct (0 <? r); rewrite ?sum_qty_insert; cbn [e_qty]; lia.
  - destruct (Z.eqb_spec (price o) 0) as [Hp|Hp].
    + pose proof (fun s => matchIoc_queues_zero o b t s Hwf Hin Hfresh Hp) as Hq.
      pose proof (matchIoc_trades o b t) as Htr.
      destruct (matchIoc o b t) as [[trs b'] t'], (matchLimit o b t) as [[trs1 b1] t1].
      cbn [fst snd] in Hq, Htr. subst trs1. unfold opposite_queue at 1, own_queue at 1.
      rewrite !Hq. fold (opposite_queue o b1) (own_queue o b1).
      destruct (spec_fill (limit_crosses o) _ _) as [[fs r] rest] eqn:Hs.
      destruct Hlm as (-> & -> & -> & _). specialize (Hfill _ _ _ _ Hs).
      destruct (0 <? r); rewrite ?sum_qty_insert; cbn [e_qty]; lia.
    + pose proof (matchIoc_refines o b t Hwf Hin Hfresh Hp) as Hi.
      destruct (matchIoc o b t) as [[trs b'] t'].
      destruct (spec_fill (limit_crosses o) _ _) as [[fs r] rest] eqn:Hs.
      destruct Hi as (-> & -> & -> & _). specialize (Hfill _ _ _ _ Hs). lia.
  - unfold matchFok. destruct (_ <? _); [cbn; lia|].
    destruct (matchMarket o b t) as [[trs b'] t'].
    destruct (spec_fill (fun _ => true) _ _) as [[fs r] rest] eqn:Hs.
    destruct Hmk as (-> & -> & -> & _). specialize (Hfill _ _ _ _ Hs). lia.
  - cbn. lia.
Qed.
End Fills.
