(* ===== verification/BookClaims.v ===== *)
(** The properties of the order book. *)

From Stdlib Require Import ZArith Lia.
From stdpp Require Import base numbers gmap strings list sorting relations.
From S2P Require Import Prelude Model OrderBook Matching BookSpec BookInvariant BookTheorems BookGuarantees Fixtures.

Local Open Scope Z_scope.

(** * Snapshots *)

(** The aggregated view of a side: for its best prices, the quantity and the
    number of the entries at that price. *)
Definition depth_view (depth : Z) (m : Levels) : list PriceLevel :=
  (fun p =>
     let at_p := filter (fun e => e_price e = p) (abs_side m) in
     mkPriceLevel p (sum_qty at_p) (Z.of_nat (length at_p)))
  <$> take (Z.to_nat depth) (m.*1).

Lemma entries_at_level s p q m :
  levels_ok s ((p, q) :: m) ->
  filter (fun e => e_price e = p) (abs_side ((p, q) :: m)) = entry <$> q.
Proof.
  intros Hok. pose proof (levels_ok_after _ _ _ _ Hok) as Hafter.
  pose proof Hok as [_ Ho]. apply Forall_cons in Ho as [Hq _].
  rewrite abs_side_cons, filter_app, (filter_id _ (entry <$> q)) by (by eapply level_prices).
  assert (filter (fun e => e_price e = p) (abs_side m) = []) as ->; [|by rewrite app_nil_r].
  induction Hafter as [|e q' He _ IH]; [done|]. rewrite filter_cons_False; [done|].
  intros E. by rewrite E, key_before_irrefl in He.
Qed.

Lemma entries_at_later_level s p q m p' :
  levels_ok s ((p, q) :: m) -> key_before s p p' = true ->
  filter (fun e => e_price e = p') (abs_side ((p, q) :: m)) =
  filter (fun e => e_price e = p') (abs_side m).
Proof.
  intros Hok Hp. pose proof Hok as [_ Ho]. apply Forall_cons in Ho as [Hq _]. simpl in Hq.
  rewrite abs_side_cons, filter_app.
  assert (filter (fun e => e_price e = p') (entry <$> q) = []) as ->; [|done].
  apply level_prices in Hq. induction Hq as [|e q' He _ IH]; [done|].
  rewrite filter_cons_False; [done|]. intros E. rewrite He in E. subst p'.
  by rewrite key_before_irrefl in Hp.
Qed.

Lemma depth_view_cons s p q m depth :
  levels_ok s ((p, q) :: m) -> 0 < depth ->
  depth_view depth ((p, q) :: m) =
  mkPriceLevel p (sum_qty (entry <$> q)) (Z.of_nat (length q)) :: depth_view (depth - 1) m.
Proof.
  intros Hok Hd. unfold depth_view. replace (Z.to_nat depth) with (S (Z.to_nat (depth - 1))) by lia.
  cbn [fmap list_fmap fst take]. rewrite (entries_at_level s) by done.
  rewrite length_fmap. f_equal. apply list_fmap_ext. intros i p' Hp'. cbv zeta beta.
  pose proof Hok as [Hs _]. apply StronglySorted_inv in Hs as [_ Hlt].
  assert (key_before s p p' = true) as Hk.
  { apply lookup_take_Some in Hp' as [Hp' _]. apply list_elem_of_lookup_2 in Hp'.
    apply list_elem_of_fmap in Hp' as (l & -> & Hl).
    by apply (proj1 (Forall_forall _ _) Hlt l Hl). }
  by rewrite (entries_at_later_level s p q m p').
Qed.

Lemma snapshot_side_view s m count depth :
  levels_ok s m -> sum_qty (abs_side m) < 2 ^ 63 -> Z.of_nat (length (abs_side m)) < 2 ^ 31 ->
  snapshot_side count depth m = depth_view (depth - count) m.
Proof.
  revert count. induction m as [|[p q] m IH]; intros count Hok Hsum Hlen.
  { unfold depth_view. by destruct (Z.to_nat _). }
  pose proof (levels_ok_tail _ _ _ Hok) as Htl.
  rewrite abs_side_cons in Hsum, Hlen. rewrite sum_qty_app in Hsum. rewrite length_app in Hlen.
  pose proof (sum_qty_nonneg _ (abs_side_positive _ _ Htl)).
  pose proof Hok as [_ Ho]. apply Forall_cons in Ho as [Hq _]. simpl in Hq.
  pose proof (sum_qty_nonneg _ (queue_positive _ _ _ Hq)).
  cbn [snapshot_side]. destruct (Z.leb_spec depth count).
  { unfold depth_view. replace (Z.to_nat (depth - count)) with 0%nat by lia. done. }
  rewrite (depth_view_cons s) by (done || lia).
  rewrite (sum_queue_exact s p) by (done || lia).
  rewrite length_fmap in Hlen.
  f_equal; [f_equal; unfold wrap32; rewrite Z.mod_small; lia|].
  rewrite IH by (done || lia). f_equal. lia.
Qed.

(** * The properties *)

Section Claims.
Context `{Env}.

(** C8: whatever sequence of orders (of any type, with any [int64_t] quantity) and
    cancellations a book has processed, it is never crossed: the best bid is
    strictly below the best ask.  This holds for every behaviour of the clock,
    of the random engine and of reads of destroyed strings. *)
Theorem reachable_never_crossed sym t0 b t bid ask :
  rtc book_step (OrderBook_new sym, t0) (b, t) ->
  bestBid b = Some bid -> bestAsk b = Some ask -> bid < ask.
Proof.
  intros Hrun. apply wf_sides_best. by apply (reachable_sides sym _ _ Hrun).
Qed.

(** C9: as long as reads of a destroyed identifier still see it and identifiers are
    not reused, the cancel index of a reachable book agrees with its queues:
    identifiers are unique, every indexed order is resting under its own
    identifier, and every resting order that has a price is indexed with its
    current quantity. *)
Theorem reachable_index_agrees `{!FreedReadsOld} sym t0 b t :
  rtc fresh_book_step (OrderBook_new sym, t0) (b, t) ->
  NoDup (book_ids b) /\
  (forall id o, orderIndex_ b !! id = Some o -> orderId o = id /\ o ∈ book_orders b) /\
  (forall o, o ∈ book_orders b -> price o <> 0 -> orderIndex_ b !! orderId o = Some o).
Proof.
  intros Hrun. destruct (reachable_wf sym _ _ Hrun eq_refl) as [_ [? ? ?]]. done.
Qed.

(** C31: the nested matching loops terminate on every well-formed state: they stop
    because the aggressor is filled, the side is empty or the best price does not
    cross, and more iterations would not change the result. *)
Theorem matching_loops_terminate crosses a s st fuel :
  state_ok s st -> (S (length (ms_oppositeSide st)) <= fuel)%nat ->
  side_guard crosses (matchSide crosses a st) = false /\
  while_loop (side_guard crosses) (side_body a) fuel st = matchSide crosses a st.
Proof.
  intros Hok Hfuel. split; [by eapply matchSide_steps|].
  eapply while_fuel_irrel with (Inv := state_ok s) (measure := side_measure); [..|done| |].
  - intros st' Hok' Hg. eapply rtc_match_step_ok; [|done].
    by eapply (side_body_steps crosses a s).
  - intros st' Hok' Hg. by eapply (side_body_steps crosses a s).
  - unfold side_measure. case_match; lia.
  - unfold side_measure. case_match; lia.
Qed.

(** C2: a market order consumes the opposite side exactly as price-time priority
    prescribes: its fills, in order, are the entries of the priority queue from
    the front, each at the resting price, the last one possibly in part; the
    other side and the order of what is left are untouched, and the last trade
    price is that of the last fill. *)
Theorem matchMarket_price_time a b t :
  wf_sides b -> incoming_ok a ->
  let '(trades, b', _) := matchMarket a b t in
  let '(fs, r, rest) := spec_fill (fun _ => true) (quantity a) (opposite_queue a b) in
  fill_of <$> trades = fs /\ opposite_queue a b' = rest /\ own_queue a b' = own_queue a b /\
  lastTradePrice_ b' = last_price (lastTradePrice_ b) fs.
Proof. apply matchMarket_refines. Qed.

(** C1: a limit order trades only while the best opposite price crosses its
    limit, in price-time priority, and its unfilled quantity (if any) rests
    behind every order of its own side that is at least as well priced. *)
Theorem matchLimit_price_time a b t :
  wf_sides b -> incoming_ok a ->
  let '(trades, b', _) := matchLimit a b t in
  let '(fs, r, rest) := spec_fill (limit_crosses a) (quantity a) (opposite_queue a b) in
  fill_of <$> trades = fs /\ opposite_queue a b' = rest /\
  own_queue a b' =
    (if 0 <? r
     then spec_insert (side a) (mkEntry (orderId a) (accountId a) (price a) r) (own_queue a b)
     else own_queue a b) /\
  lastTradePrice_ b' = last_price (lastTradePrice_ b) fs.
Proof. apply matchLimit_refines. Qed.


(** An immediate-or-cancel order without a price (price 0) is not taken out of
    the book again: whatever it did not fill stays in its queue, matchable, while
    the index has forgotten it, so that no cancellation can reach it. *)
Theorem matchIoc_price_zero_stays `{!FreedReadsOld} a b t :
  wf_book b -> incoming_ok a -> orderId a ∉ book_ids b -> price a = 0 ->
  0 < ms_remainingQty (matchSide (limit_crosses a) a (enter_side a b t)) ->
  let b' := (matchIoc a b t).1.2 in
  remainder a b t ∈ book_orders b' /\ removeFromBook (orderId a) b' = (false, b').
Proof. apply matchIoc_zero_stays. Qed.

(** C11: a fill-or-kill order is all or nothing.  When the quantity at or better
    than its limit is short, nothing is traded and the book is unchanged;
    otherwise it is filled completely and only at prices within its limit.  (The
    side must hold less than 2^63 units, so that the count does not overflow.) *)
Theorem matchFok_all_or_nothing a b t :
  wf_sides b -> incoming_ok a -> sum_qty (opposite_queue a b) < 2 ^ 63 ->
  let '(trades, b', _) := matchFok a b t in
  if crossing_qty (fok_crosses a) (opposite_queue a b) <? quantity a
  then trades = [] /\ b' = b
  else sum_trades trades = Z.max 0 (quantity a) /\
       Forall (fun tr => fok_crosses a (t_price tr) = true) trades.
Proof. apply matchFok_cases. Qed.

(** C10: every trade of a call names the incoming order as aggressor and, as
    passive side, an order that was resting on the opposite side: at that order's
    own limit price, for a positive quantity it still had, and within the limit
    of the incoming order. *)
Theorem match_trades_sound o b t :
  wf_sides b -> incoming_ok o -> sum_qty (opposite_queue o b) < 2 ^ 63 ->
  Forall (fun tr =>
    from_aggressor o tr /\ within_limit o (t_price tr) = true /\
    exists x, x ∈ orders_of (book_side (opposite (side o)) b) /\
      passiveOrderId tr = orderId x /\ passiveAccountId tr = accountId x /\
      t_price tr = price x /\ 0 < t_quantity tr <= remainingQuantity x)
    (match_ o b t).1.1.
Proof. apply match_trades_from. Qed.


(** C13: cancelling on a well-formed book.  It succeeds exactly for an indexed order
    that has a price, and then takes that order and nothing else out of the
    queues; when it fails the queues are unchanged. *)
Theorem removeFromBook_correct id b :
  wf_book b ->
  let '(removed, b') := removeFromBook id b in
  (removed = true <-> exists o, orderIndex_ b !! id = Some o /\ price o <> 0) /\
  forall s, abs_side (book_side s b') =
    (if removed then spec_cancel id (abs_side (book_side s b)) else abs_side (book_side s b)).
Proof.
  intros Hwf. pose proof (removeFromBook_effect id b Hwf) as He. by destruct (removeFromBook id b).
Qed.

(** C36: a snapshot shows, for each of the best [depth] prices of a side in
    priority order, the total quantity and the number of the orders resting at
    that price (totals below 2^63 and 2^31). *)
Theorem snapshot_exact b depth :
  wf_sides b ->
  sum_qty (abs_side (bids_ b)) < 2 ^ 63 -> sum_qty (abs_side (asks_ b)) < 2 ^ 63 ->
  Z.of_nat (length (abs_side (bids_ b))) < 2 ^ 31 ->
  Z.of_nat (length (abs_side (asks_ b))) < 2 ^ 31 ->
  snapshot depth b =
    mkSnapshot (symbol_ b) (depth_view depth (bids_ b)) (depth_view depth (asks_ b))
      (lastTradePrice_ b).
Proof.
  intros [[Hb _] [Ha _] _] ? ? ? ?. unfold snapshot.
  rewrite (snapshot_side_view BUY), (snapshot_side_view SELL) by done.
  by rewrite Z.sub_0_r.
Qed.
End Claims.

(** When the memory of a destroyed identifier has been reused, the erase that
    follows a complete fill misses: the filled order is gone from the queues but
    stays in the index, and cancelling it afterwards reports success. *)
Theorem destroyed_id_read_keeps_filled_order :
  let b := (@matchMarket reused_env (demo_order "m1" "buyer9" BUY MARKET 0 50) demo_book 0).1.2 in
  ("a1" ∉ book_ids b) /\ is_Some (orderIndex_ b !! "a1") /\ (removeFromBook "a1" b).1 = true.
Proof.
  split_and!; [apply (bool_decide_unpack _)| |]; vm_compute; done || eauto.
Qed.

(** * Witnesses *)

#[local] Existing Instance demo_env.
#[local] Existing Instance demo_env_reads_old.


Ltac demo_in := split; [reflexivity|demo_decide].

Lemma demo_book_wf : wf_book demo_book.
Proof.
  unfold demo_book, rest_all. cbn [foldl].
  repeat (apply matchLimit_wf; [|demo_in|demo_decide]).
  apply OrderBook_new_wf.
Qed.

Lemma demo_book_sides : wf_sides demo_book.
Proof. apply demo_book_wf. Qed.

Definition market60 := demo_order "m1" "buyer9" BUY MARKET 0 60.
Definition limit130 := demo_order "l1" "buyer9" BUY LIMIT (dollars 150) 130.
Definition ioc_zero := demo_order "i0" "buyer9" BUY IOC 0 10.
Definition fok80 := demo_order "f1" "buyer9" BUY FOK (dollars 150) 80.
Definition fok90 := demo_order "f2" "buyer9" BUY FOK (dollars 150) 90.

Lemma reachable_never_crossed_witness : dollars 149 < dollars 150.
Proof.
  apply (reachable_never_crossed "AAPL" 0
           (match_ bid1 (match_ ask1 (OrderBook_new "AAPL") 0).1.2
              (match_ ask1 (OrderBook_new "AAPL") 0).2).1.2
           (match_ bid1 (match_ ask1 (OrderBook_new "AAPL") 0).1.2
              (match_ ask1 (OrderBook_new "AAPL") 0).2).2);
    [|vm_compute; reflexivity..].
  eapply rtc_l; [apply (book_step_match ask1); demo_in|].
  apply rtc_once, (book_step_match bid1). demo_in.
Defined.

Lemma reachable_index_agrees_witness :
  orderIndex_ (match_ ask1 (OrderBook_new "AAPL") 0).1.2 !! "a1" <> None.
Proof.
  destruct (reachable_index_agrees "AAPL" 0 (match_ ask1 (OrderBook_new "AAPL") 0).1.2
              (match_ ask1 (OrderBook_new "AAPL") 0).2) as (_ & _ & Hc).
  - apply rtc_once, fresh_step_match; [demo_in|demo_decide].
  - specialize (Hc (remainder ask1 (OrderBook_new "AAPL") 0)).
    change "a1" with (orderId (remainder ask1 (OrderBook_new "AAPL") 0)).
    rewrite Hc; [done| |vm_compute; done].
    demo_decide.
Defined.

Lemma matching_loops_terminate_witness :
  side_guard (fun _ => true) (matchSide (fun _ => true) market60 (enter_side market60 demo_book 0))
  = false.
Proof.
  apply (matching_loops_terminate (fun _ => true) market60 SELL
           (enter_side market60 demo_book 0) 10).
  - split; [apply demo_book_sides|demo_decide].
  - demo_decide.
Defined.

Lemma matchMarket_price_time_witness :
  fill_of <$> (matchMarket market60 demo_book 0).1.1 =
  [mkEntry "a1" "seller1" (dollars 150) 50; mkEntry "a2" "seller2" (dollars 150) 10].
Proof.
  pose proof (matchMarket_price_time market60 demo_book 0 demo_book_sides ltac:(demo_in)) as Hw.
  destruct (matchMarket market60 demo_book 0) as [[trades b'] t'].
  destruct (spec_fill _ _ _) as [[fs r] rest] eqn:E. cbn [fst snd]. destruct Hw as (-> & _).
  apply (f_equal (fun x => x.1.1)) in E. cbn [fst snd] in E.
  rewrite <- E. vm_compute. reflexivity.
Defined.

Lemma matchLimit_price_time_witness :
  own_queue limit130 (matchLimit limit130 demo_book 0).1.2 =
  [mkEntry "l1" "buyer9" (dollars 150) 50; mkEntry "b1" "buyer1" (dollars 149) 20].
Proof.
  pose proof (matchLimit_price_time limit130 demo_book 0 demo_book_sides ltac:(demo_in)) as Hw.
  destruct (matchLimit limit130 demo_book 0) as [[trades b'] t'].
  destruct (spec_fill _ _ _) as [[fs r] rest] eqn:E. cbn [fst snd]. destruct Hw as (_ & _ & -> & _).
  apply (f_equal (fun x => x.1.2)) in E. cbn [fst snd] in E. rewrite <- E.
  vm_compute. reflexivity.
Defined.


Lemma matchIoc_price_zero_stays_witness :
  remainder ioc_zero demo_book 0 ∈ book_orders (matchIoc ioc_zero demo_book 0).1.2.
Proof.
  apply (matchIoc_price_zero_stays ioc_zero demo_book 0 demo_book_wf ltac:(demo_in)
           ltac:(demo_decide) eq_refl).
  demo_decide.
Defined.

Lemma matchFok_all_or_nothing_witness :
  sum_trades (matchFok fok80 demo_book 0).1.1 = 80 /\
  (matchFok fok90 demo_book 0).1.2 = demo_book.
Proof.
  pose proof (matchFok_all_or_nothing fok80 demo_book 0 demo_book_sides ltac:(demo_in)
                ltac:(demo_decide)) as H1.
  pose proof (matchFok_all_or_nothing fok90 demo_book 0 demo_book_sides ltac:(demo_in)
                ltac:(demo_decide)) as H2.
  assert ((crossing_qty (fok_crosses fok80) (opposite_queue fok80 demo_book) <? quantity fok80)
          = false) as E1 by (vm_compute; reflexivity).
  assert ((crossing_qty (fok_crosses fok90) (opposite_queue fok90 demo_book) <? quantity fok90)
          = true) as E2 by (vm_compute; reflexivity).
  rewrite E1 in H1. rewrite E2 in H2.
  destruct (matchFok fok80 demo_book 0) as [[trades b'] t'].
  destruct (matchFok fok90 demo_book 0) as [[trades2 b2'] t2'].
  split; [apply H1|apply H2].
Defined.

Lemma match_trades_sound_witness :
  Forall (fun tr => from_aggressor market60 tr) (match_ market60 demo_book 0).1.1 /\
  length (match_ market60 demo_book 0).1.1 = 2%nat.
Proof.
  split; [|vm_compute; reflexivity].
  eapply Forall_impl; [apply (match_trades_sound market60 demo_book 0 demo_book_sides)|].
  - demo_in.
  - demo_decide.
  - intros tr (Hw & _). exact Hw.
Defined.


Lemma removeFromBook_correct_witness :
  abs_side (asks_ (removeFromBook "a1" demo_book).2) =
  [mkEntry "a2" "seller2" (dollars 150) 30; mkEntry "a3" "seller1" (dollars 151) 40].
Proof.
  pose proof (removeFromBook_correct "a1" demo_book demo_book_wf) as Hw.
  assert ((removeFromBook "a1" demo_book).1 = true) as E by (vm_compute; reflexivity).
  destruct (removeFromBook "a1" demo_book) as [r b']. cbn [fst] in E. subst r.
  destruct Hw as [_ Hq]. specialize (Hq SELL). cbn [book_side snd] in Hq |- *.
  rewrite Hq. vm_compute. reflexivity.
Defined.

Lemma snapshot_exact_witness :
  snap_asks (snapshot 1 demo_book) = [mkPriceLevel (dollars 150) 80 2].
Proof.
  rewrite (snapshot_exact demo_book 1 demo_book_sides);
    [vm_compute; reflexivity|demo_decide..].
Defined.
