(* ===== verification/CircuitBreaker.v ===== *)
(** The circuit breaker (include/titanx/risk/CircuitBreaker.hpp,
    src/risk/CircuitBreaker.cpp).  The mutex is part of the state: taking it while
    it is held by the calling thread never returns ([Hang]).  The text passed to
    the log is not modelled. *)

From Stdlib Require Import ZArith Lia.
From stdpp Require Import base numbers gmap strings list.
From S2P Require Import Prelude Model OrderBook Fixtures.

Local Open Scope Z_scope.
Local Open Scope cpp_scope.

Record CircuitBreaker := mkCB {
  symbolHalts_ : gmap string bool;
  referencePrice_ : gmap string Z;
  windowStart_ : gmap string Z;      (* steady clock, ns *)
  cb_mutex_ : bool                   (* held *)
}.

Definition HALT_THRESHOLD_BPS : Z := 500.
Definition WINDOW_SECONDS : Z := 60.

Definition CircuitBreaker_new : CircuitBreaker := mkCB ∅ ∅ ∅ false.

(** [std::lock_guard<std::mutex> guard(mutex_)] and its destruction. *)
Definition cb_lock (cb : CircuitBreaker) : outcome CircuitBreaker :=
  if cb_mutex_ cb then Hang
  else Ret (mkCB (symbolHalts_ cb) (referencePrice_ cb) (windowStart_ cb) true).

Definition cb_unlock (cb : CircuitBreaker) : CircuitBreaker :=
  mkCB (symbolHalts_ cb) (referencePrice_ cb) (windowStart_ cb) false.

(** [symbolHalts_[symbol]->halted.store(true)], under the lock. *)
Definition haltSymbol (sym : string) (cb : CircuitBreaker) : outcome CircuitBreaker :=
  let! cb := cb_lock cb in
  Ret (cb_unlock (mkCB (<[sym := true]> (symbolHalts_ cb)) (referencePrice_ cb)
                    (windowStart_ cb) (cb_mutex_ cb))).

Definition resumeSymbol (sym : string) (cb : CircuitBreaker) : outcome CircuitBreaker :=
  let! cb := cb_lock cb in
  let halts :=
    match symbolHalts_ cb !! sym with
    | Some _ => <[sym := false]> (symbolHalts_ cb)
    | None => symbolHalts_ cb
    end in
  Ret (cb_unlock (mkCB halts (delete sym (referencePrice_ cb)) (delete sym (windowStart_ cb))
                    (cb_mutex_ cb))).

Definition isHalted (sym : string) (cb : CircuitBreaker) : outcome (bool * CircuitBreaker) :=
  let! cb := cb_lock cb in
  Ret (match symbolHalts_ cb !! sym with Some halted => halted | None => false end,
       cb_unlock cb).

Definition haltStatus (cb : CircuitBreaker) : outcome (gmap string bool * CircuitBreaker) :=
  let! cb := cb_lock cb in
  Ret (symbolHalts_ cb, cb_unlock cb).

(** A new window: the trade becomes the reference. *)
Definition start_window (sym : string) (tradePrice now : Z) (cb : CircuitBreaker)
    : CircuitBreaker :=
  mkCB (symbolHalts_ cb) (<[sym := tradePrice]> (referencePrice_ cb))
    (<[sym := now]> (windowStart_ cb)) (cb_mutex_ cb).

Definition pctMoveBps (tradePrice refPrice : Z) : Z :=
  div64 (mul64 (abs64 (sub64 tradePrice refPrice)) 10000) refPrice.

(** The call of [haltSymbol] is made while [guard] still holds the mutex. *)
Definition recordTrade `{Env} (sym : string) (tradePrice : Z) (cb : CircuitBreaker) (t : nat)
    : outcome (CircuitBreaker * nat) :=
  let! cb := cb_lock cb in
  let now := steady_now t in
  let t := S t in
  match referencePrice_ cb !! sym, windowStart_ cb !! sym with
  | Some refPrice, Some start =>
      let elapsed := Z.quot (sub64 now start) 1000000000 in
      if WINDOW_SECONDS <? elapsed then Ret (cb_unlock (start_window sym tradePrice now cb), t)
      else if refPrice =? 0 then Ret (cb_unlock cb, t)
      else if HALT_THRESHOLD_BPS <? pctMoveBps tradePrice refPrice then
        let! cb := haltSymbol sym cb in
        Ret (cb_unlock cb, t)
      else Ret (cb_unlock cb, t)
  | _, _ => Ret (cb_unlock (start_window sym tradePrice now cb), t)
  end.

(** * Properties *)

(** A reading of the halt flag, without the lock. *)
Definition halted (sym : string) (cb : CircuitBreaker) : bool :=
  default false (symbolHalts_ cb !! sym).

(** The basis-point test is exact when the product does not overflow; the division
    truncates, so the threshold is one basis point above the nominal one. *)
Lemma bps_exceeds p ref n :
  0 < ref < 2 ^ 63 -> 0 <= p < 2 ^ 63 -> Z.abs (p - ref) * 10000 < 2 ^ 63 -> 0 <= n ->
  (n <? pctMoveBps p ref) = true <-> (n + 1) * ref <= Z.abs (p - ref) * 10000.
Proof.
  intros Href Hp Hov Hn. unfold pctMoveBps.
  rewrite sub64_small, abs64_small, mul64_small by (unfold int64; lia).
  assert (0 <= Z.quot (Z.abs (p - ref) * 10000) ref <= Z.abs (p - ref) * 10000) as Hb.
  { rewrite Z.quot_div_nonneg by lia. split; [apply Z.div_pos; lia|].
    apply Z.div_le_upper_bound; [lia|]. nia. }
  unfold div64. rewrite wrap64_small by (unfold int64; lia).
  rewrite Z.quot_div_nonneg by lia. rewrite Z.ltb_lt. split.
  - intros Hlt. pose proof (Z.mul_div_le (Z.abs (p - ref) * 10000) ref ltac:(lia)). nia.
  - intros Hle. enough (n + 1 <= Z.abs (p - ref) * 10000 / ref) by lia.
    apply Z.div_le_lower_bound; lia.
Qed.

Section Facts.
Context `{Env}.

(** The outcomes of [recordTrade] on a free mutex. *)
Definition in_window (sym : string) (cb : CircuitBreaker) (now : Z) : option Z :=
  match referencePrice_ cb !! sym, windowStart_ cb !! sym with
  | Some refPrice, Some start =>
      if WINDOW_SECONDS <? Z.quot (sub64 now start) 1000000000 then None else Some refPrice
  | _, _ => None
  end.

Definition trips (sym : string) (p : Z) (cb : CircuitBreaker) (now : Z) : bool :=
  match in_window sym cb now with
  | Some refPrice =>
      negb (refPrice =? 0) && (HALT_THRESHOLD_BPS <? pctMoveBps p refPrice)
  | None => false
  end.

Lemma recordTrade_cases sym p cb t :
  cb_mutex_ cb = false ->
  recordTrade sym p cb t =
    (if trips sym p cb (steady_now t) then Hang
     else Ret (match in_window sym cb (steady_now t) with
               | Some _ => cb
               | None => start_window sym p (steady_now t) cb
               end, S t)).
Proof.
  intros Hm. destruct cb as [halts refs wins m]. cbn in Hm. subst m.
  unfold recordTrade, trips, in_window, cb_lock, start_window. cbn.
  destruct (refs !! sym) as [r|]; [|done]. destruct (wins !! sym) as [w|]; [|done].
  destruct (WINDOW_SECONDS <? _); [done|]. destruct (r =? 0); [done|]. cbn.
  by destruct (HALT_THRESHOLD_BPS <? _).
Qed.

(** Once a thread is stuck with the mutex held, no other call on the circuit
    breaker returns, so no pre-trade check does either. *)
Lemma stuck_breaker_blocks_all sym p cb t :
  cb_mutex_ cb = true ->
  isHalted sym cb = Hang /\ haltSymbol sym cb = Hang /\ resumeSymbol sym cb = Hang /\
  haltStatus cb = Hang /\ recordTrade sym p cb t = Hang.
Proof.
  intros Hm. unfold isHalted, haltSymbol, resumeSymbol, haltStatus, recordTrade, cb_lock.
  by rewrite Hm.
Qed.
End Facts.

(** ** Sequences of calls *)

Inductive cb_op :=
| CbHalt (sym : string)
| CbResume (sym : string)
| CbTrade (sym : string) (p : Z).

Section Runs.
Context `{Env}.

Definition cb_exec (op : cb_op) (cb : CircuitBreaker) (t : nat) : outcome (CircuitBreaker * nat) :=
  match op with
  | CbHalt sym => let! cb := haltSymbol sym cb in Ret (cb, t)
  | CbResume sym => let! cb := resumeSymbol sym cb in Ret (cb, t)
  | CbTrade sym p => recordTrade sym p cb t
  end.

Fixpoint cb_run (ops : list cb_op) (cb : CircuitBreaker) (t : nat)
    : outcome (CircuitBreaker * nat) :=
  match ops with
  | [] => Ret (cb, t)
  | op :: ops => let! r := cb_exec op cb t in cb_run ops r.1 r.2
  end.

(** The flag of a symbol as the commands leave it; trades do not count. *)
Definition flag_after (sym : string) (op : cb_op) (flag : bool) : bool :=
  match op with
  | CbHalt s => if decide (s = sym) then true else flag
  | CbResume s => if decide (s = sym) then false else flag
  | CbTrade _ _ => flag
  end.

Lemma cb_exec_flag op cb t cb' t' sym :
  cb_exec op cb t = Ret (cb', t') ->
  halted sym cb' = flag_after sym op (halted sym cb) /\
  cb_mutex_ cb = false /\ cb_mutex_ cb' = false.
Proof.
  destruct cb as [halts refs wins m]. unfold cb_exec, haltSymbol, resumeSymbol, halted.
  destruct op as [s|s|s p]; cbn.
  - destruct m; [done|]. cbn. intros [= <- <-]. cbn.
    rewrite lookup_insert. by case_decide.
  - destruct m; [done|]. cbn. intros [= <- <-]. cbn.
    destruct (halts !! s) eqn:E; [rewrite lookup_insert; by case_decide|].
    case_decide; [subst; by rewrite E|done].
  - destruct m; [done|]. rewrite recordTrade_cases by done.
    destruct (trips _ _ _ _); [done|]. intros [= <- <-].
    by destruct (in_window _ _ _).
Qed.

Lemma cb_run_flag ops cb t cb' t' sym :
  cb_run ops cb t = Ret (cb', t') ->
  halted sym cb' = foldl (fun f op => flag_after sym op f) (halted sym cb) ops.
Proof.
  revert cb t. induction ops as [|op ops IH]; intros cb t; cbn [cb_run].
  - by intros [= <- <-].
  - intros ([cb1 t1] & E & Hrun)%obind_Ret. cbn in Hrun.
    destruct (cb_exec_flag _ _ _ _ _ sym E) as (Hf & _ & _).
    rewrite (IH _ _ Hrun), Hf. done.
Qed.
End Runs.

(** * The properties *)

Section Claims.
Context `{Env}.

(** C39: the price limit of the circuit breaker.  While a window is open for a
    symbol with reference price [ref], a trade that moved by at least 501 basis
    points of it makes [recordTrade] call [haltSymbol] with its own mutex held, so
    the call never returns; a smaller move returns and leaves the state as it
    was.  (Prices whose product with 10000 fits an [int64_t].) *)
Theorem recordTrade_trip_deadlocks sym p ref cb t :
  cb_mutex_ cb = false -> in_window sym cb (steady_now t) = Some ref ->
  0 < ref < 2 ^ 63 -> 0 <= p < 2 ^ 63 -> Z.abs (p - ref) * 10000 < 2 ^ 63 ->
  recordTrade sym p cb t =
    (if 501 * ref <=? Z.abs (p - ref) * 10000 then Hang else Ret (cb, S t)).
Proof.
  intros Hm Hw Href Hp Hov. rewrite recordTrade_cases by done.
  unfold trips. rewrite Hw, (proj2 (Z.eqb_neq ref 0)) by lia. cbn [negb andb].
  pose proof (bps_exceeds p ref 500 Href Hp Hov ltac:(lia)) as Hb. cbn [Z.add] in Hb.
  change HALT_THRESHOLD_BPS with 500.
  destruct (500 <? pctMoveBps p ref), (Z.leb_spec (501 * ref) (Z.abs (p - ref) * 10000));
    try done; destruct Hb; exfalso; intuition (discriminate || lia).
Qed.

(** The halt flag of a symbol is what the last [haltSymbol] or [resumeSymbol]
    call on that symbol left it; calls on other symbols and trades, whatever
    their prices, never change it. *)
Theorem halt_flag_follows_commands ops cb t cb' t' sym :
  cb_mutex_ cb = false -> cb_run ops cb t = Ret (cb', t') ->
  isHalted sym cb' =
    Ret (foldl (fun f op => flag_after sym op f) (halted sym cb) ops, cb').
Proof.
  intros Hm Hrun. rewrite <- (cb_run_flag _ _ _ _ _ _ Hrun).
  assert (cb_mutex_ cb' = false) as Hm'.
  { revert cb t Hm Hrun. induction ops as [|op ops IH]; intros cb t Hm; cbn [cb_run].
    - by intros [= <- <-].
    - intros ([cb1 t1] & E & Hrun)%obind_Ret.
      destruct (cb_exec_flag _ _ _ _ _ sym E) as (_ & _ & Hm1). by eapply IH. }
  destruct cb' as [halts refs wins m]. cbn in Hm'. subst m.
  unfold isHalted, halted. cbn. by destruct (halts !! sym).
Qed.

End Claims.

(** * Witnesses *)

(** A window opened at $100 by the first trade. *)
Definition demo_cb : CircuitBreaker := start_window "AAPL" (dollars 100) 0 CircuitBreaker_new.

Lemma recordTrade_trip_deadlocks_witness :
  @recordTrade demo_env "AAPL" (dollars 106) demo_cb 1 = Hang /\
  @recordTrade demo_env "AAPL" (dollars 105) demo_cb 1 = Ret (demo_cb, 2%nat).
Proof.
  split; rewrite (@recordTrade_trip_deadlocks demo_env "AAPL" _ (dollars 100));
    (vm_compute; done) || reflexivity.
Defined.

Lemma halt_flag_follows_commands_witness :
  exists cb',
    @cb_run demo_env [CbHalt "AAPL"; CbTrade "AAPL" 5; CbResume "GOOG"] CircuitBreaker_new 0
      = Ret (cb', 1%nat) /\
    isHalted "AAPL" cb' = Ret (true, cb').
Proof.
  eexists. split; [reflexivity|].
  exact (@halt_flag_follows_commands demo_env
           [CbHalt "AAPL"; CbTrade "AAPL" 5; CbResume "GOOG"] CircuitBreaker_new 0 _ 1 "AAPL"
           eq_refl eq_refl).
Defined.
