(* ===== verification/RiskEngine.v ===== *)
(** The pre-trade risk engine (include/titanx/risk/RiskEngine.hpp, RiskResult.hpp,
    src/risk/RiskEngine.cpp).  The engine holds a reference to the circuit breaker,
    so both states are passed. *)

From Stdlib Require Import ZArith Lia.
From stdpp Require Import base numbers gmap strings list relations.
From S2P Require Import Prelude Model OrderBook Fixtures CircuitBreaker.

Local Open Scope Z_scope.
Local Open Scope cpp_scope.

(** * State *)

Record RiskResult := mkRiskResult { approved : bool; reason : string }.

Definition RiskResult_approve : RiskResult := mkRiskResult true "".
Definition RiskResult_rejected (reason : string) : RiskResult := mkRiskResult false reason.

Record RiskEngine := mkRisk {
  positions_ : gmap string (gmap string Z);
  activeBuyOrders_ : gmap string (gset string);
  activeSellOrders_ : gmap string (gset string);
  seenOrderIds_ : gset string;
  lastTradePrices_ : gmap string Z;
  totalChecked_ : Z;
  totalRejected_ : Z;
  re_mutex_ : bool
}.

Definition RiskEngine_new : RiskEngine := mkRisk ∅ ∅ ∅ ∅ ∅ 0 0 false.

Definition MAX_POSITION_SHARES : Z := 10000.
Definition MAX_NOTIONAL_FIXED : Z := 5000000 * PRICE_SCALE.
Definition FAT_FINGER_BPS : Z := 1000.

Definition re_lock (re : RiskEngine) : outcome RiskEngine :=
  if re_mutex_ re then Hang
  else Ret (mkRisk (positions_ re) (activeBuyOrders_ re) (activeSellOrders_ re)
              (seenOrderIds_ re) (lastTradePrices_ re) (totalChecked_ re)
              (totalRejected_ re) true).

Definition re_unlock (re : RiskEngine) : RiskEngine :=
  mkRisk (positions_ re) (activeBuyOrders_ re) (activeSellOrders_ re) (seenOrderIds_ re)
    (lastTradePrices_ re) (totalChecked_ re) (totalRejected_ re) false.

(** * The checks *)

(** 3. [order.price > 0 && price * quantity > MAX_NOTIONAL_FIXED]. *)
Definition notional_exceeded (o : Order) : bool :=
  (0 <? price o) && (MAX_NOTIONAL_FIXED <? mul64 (price o) (quantity o)).

Definition net_position (acct sym : string) (re : RiskEngine) : Z :=
  match positions_ re !! acct with
  | Some syms => match syms !! sym with Some p => p | None => 0 end
  | None => 0
  end.

Definition projectedPosition (o : Order) (re : RiskEngine) : Z :=
  let netPos := net_position (accountId o) (symbol o) re in
  if isBuy o then add64 netPos (quantity o) else sub64 netPos (quantity o).

(** 4. [std::abs(projectedPosition) > MAX_POSITION_SHARES]. *)
Definition position_exceeded (o : Order) (re : RiskEngine) : bool :=
  MAX_POSITION_SHARES <? abs64 (projectedPosition o re).

(** 5. The deviation from the last trade price, in basis points. *)
Definition fat_finger (o : Order) (re : RiskEngine) : bool :=
  (0 <? price o) &&
  match lastTradePrices_ re !! symbol o with
  | Some lastPrice =>
      (0 <? lastPrice) &&
      (FAT_FINGER_BPS <?
         div64 (mul64 (abs64 (sub64 (price o) lastPrice)) 10000) lastPrice)
  | None => false
  end.

(** 6. The account has an order on the opposite side. *)
Definition self_trade (o : Order) (re : RiskEngine) : bool :=
  match (if isBuy o then activeSellOrders_ re else activeBuyOrders_ re) !! accountId o with
  | Some ids => bool_decide (ids <> ∅)
  | None => false
  end.

Definition trackOrder (o : Order) (re : RiskEngine) : RiskEngine :=
  if isBuy o then
    mkRisk (positions_ re)
      (<[accountId o := {[orderId o]} ∪ default ∅ (activeBuyOrders_ re !! accountId o)]>
         (activeBuyOrders_ re))
      (activeSellOrders_ re) (seenOrderIds_ re) (lastTradePrices_ re) (totalChecked_ re)
      (totalRejected_ re) (re_mutex_ re)
  else
    mkRisk (positions_ re) (activeBuyOrders_ re)
      (<[accountId o := {[orderId o]} ∪ default ∅ (activeSellOrders_ re !! accountId o)]>
         (activeSellOrders_ re))
      (seenOrderIds_ re) (lastTradePrices_ re) (totalChecked_ re)
      (totalRejected_ re) (re_mutex_ re).

Definition reject (why : string) (re : RiskEngine) : RiskResult * RiskEngine :=
  (RiskResult_rejected why,
   mkRisk (positions_ re) (activeBuyOrders_ re) (activeSellOrders_ re) (seenOrderIds_ re)
     (lastTradePrices_ re) (totalChecked_ re) (wrapu64 (totalRejected_ re + 1)) (re_mutex_ re)).

(** [totalChecked_.fetch_add(1)] and [seenOrderIds_.insert(id)]. *)
Definition count_check (re : RiskEngine) : RiskEngine :=
  mkRisk (positions_ re) (activeBuyOrders_ re) (activeSellOrders_ re) (seenOrderIds_ re)
    (lastTradePrices_ re) (wrapu64 (totalChecked_ re + 1)) (totalRejected_ re) (re_mutex_ re).

Definition see_order (id : string) (re : RiskEngine) : RiskEngine :=
  mkRisk (positions_ re) (activeBuyOrders_ re) (activeSellOrders_ re)
    ({[id]} ∪ seenOrderIds_ re) (lastTradePrices_ re) (totalChecked_ re) (totalRejected_ re)
    (re_mutex_ re).

Definition checkPreTrade (o : Order) (re : RiskEngine) (cb : CircuitBreaker)
    : outcome (RiskResult * RiskEngine * CircuitBreaker) :=
  let! re := re_lock (count_check re) in
  let! r := isHalted (symbol o) cb in
  let '(symHalted, cb) := r in
  let '(result, re) :=
    if symHalted then reject "CIRCUIT_BREAKER_HALT" re
    else if bool_decide (orderId o ∈ seenOrderIds_ re) then reject "DUPLICATE_ORDER_ID" re
    else
      let re := see_order (orderId o) re in
      if notional_exceeded o then reject "NOTIONAL_LIMIT_EXCEEDED" re
      else if position_exceeded o re then reject "POSITION_LIMIT_EXCEEDED" re
      else if fat_finger o re then reject "FAT_FINGER_PRICE_DEVIATION" re
      else if self_trade o re then reject "SELF_TRADE_PREVENTION" re
      else (RiskResult_approve, trackOrder o re) in
  Ret (result, re_unlock re, cb).

(** A check that blocks for ever was counted, and holds the mutex or waits for it. *)
Definition check_blocked (re : RiskEngine) : RiskEngine :=
  mkRisk (positions_ re) (activeBuyOrders_ re) (activeSellOrders_ re) (seenOrderIds_ re)
    (lastTradePrices_ re) (wrapu64 (totalChecked_ re + 1)) (totalRejected_ re) true.

(** * Post-trade updates and queries *)

Definition recordFill (acct sym : string) (s : OrderSide) (q : Z) (re : RiskEngine)
    : outcome RiskEngine :=
  let! re := re_lock re in
  let delta := if decide (s = BUY) then q else neg64 q in
  let syms := default ∅ (positions_ re !! acct) in
  let syms := <[sym := add64 (default 0 (syms !! sym)) delta]> syms in
  Ret (re_unlock (mkRisk (<[acct := syms]> (positions_ re)) (activeBuyOrders_ re)
         (activeSellOrders_ re) (seenOrderIds_ re) (lastTradePrices_ re) (totalChecked_ re)
         (totalRejected_ re) (re_mutex_ re))).

Definition updateLastTradePrice `{Env} (sym : string) (p : Z) (re : RiskEngine)
    (cb : CircuitBreaker) (t : nat) : outcome (RiskEngine * CircuitBreaker * nat) :=
  let! re := re_lock re in
  let re := re_unlock (mkRisk (positions_ re) (activeBuyOrders_ re) (activeSellOrders_ re)
              (seenOrderIds_ re) (<[sym := p]> (lastTradePrices_ re)) (totalChecked_ re)
              (totalRejected_ re) (re_mutex_ re)) in
  let! r := recordTrade sym p cb t in
  Ret (re, r.1, r.2).

(** An update that blocks for ever: it waits for the mutex, or it has stored the price and
    waits in the circuit breaker, whose mutex is held. *)
Definition price_blocked (sym : string) (p : Z) (re : RiskEngine) (cb : CircuitBreaker)
    : RiskEngine * CircuitBreaker :=
  if re_mutex_ re then (re, cb)
  else (mkRisk (positions_ re) (activeBuyOrders_ re) (activeSellOrders_ re) (seenOrderIds_ re)
          (<[sym := p]> (lastTradePrices_ re)) (totalChecked_ re) (totalRejected_ re) false,
        mkCB (symbolHalts_ cb) (referencePrice_ cb) (windowStart_ cb) true).

Definition getNetPosition (acct sym : string) (re : RiskEngine) : outcome (Z * RiskEngine) :=
  let! re := re_lock re in
  Ret (net_position acct sym re, re_unlock re).

Definition totalChecked (re : RiskEngine) : Z := totalChecked_ re.
Definition totalRejected (re : RiskEngine) : Z := totalRejected_ re.

(** * Facts *)

(** Every check is counted, and every rejection. *)
Lemma checks_are_counted o re cb res re' cb' :
  checkPreTrade o re cb = Ret (res, re', cb') ->
  totalChecked re' = wrapu64 (totalChecked re + 1) /\
  totalRejected re' = if approved res then totalRejected re else wrapu64 (totalRejected re + 1).
Proof.
  unfold checkPreTrade, re_lock. destruct (re_mutex_ (count_check re)); [done|]. cbn [obind].
  destruct (isHalted (symbol o) cb) as [[h cb1]| |]; [|done..]. cbn [obind].
  unfold reject, trackOrder. intros E. repeat case_match; simplify_eq; done.
Qed.

(** The account has approved orders on side [s]. *)
Definition active_of (s : OrderSide) (re : RiskEngine) : gmap string (gset string) :=
  match s with BUY => activeBuyOrders_ re | SELL => activeSellOrders_ re end.

Definition tracked (acct : string) (s : OrderSide) (re : RiskEngine) : Prop :=
  default ∅ (active_of s re !! acct) <> ∅.

Lemma self_trade_tracked o re :
  self_trade o re = true <-> tracked (accountId o) (opposite (side o)) re.
Proof.
  unfold self_trade, tracked. rewrite isBuy_side.
  destruct (side o); cbn; destruct (_ !! accountId o); cbn;
    rewrite ?bool_decide_eq_true; try done; split; by intros ?.
Qed.

Lemma insert_nonempty (m : gmap string (gset string)) k x a :
  default ∅ (<[k := {[x]} ∪ default ∅ (m !! k)]> m !! a) <> ∅ <->
  default ∅ (m !! a) <> ∅ \/ a = k.
Proof.
  destruct (decide (a = k)) as [->|Hne].
  - rewrite lookup_insert_eq. cbn. split; [auto|]. intros _. set_solver.
  - rewrite lookup_insert_ne by done. naive_solver.
Qed.

Lemma trackOrder_tracked o re a s :
  tracked a s (trackOrder o re) <-> tracked a s re \/ (a = accountId o /\ s = side o).
Proof.
  unfold tracked, trackOrder. rewrite isBuy_side.
  destruct (side o), s; cbn; rewrite ?insert_nonempty; intuition congruence.
Qed.

(** The part of the state that the checks and the updates keep. *)
Record risk_ext (re re' : RiskEngine) : Prop := {
  ext_seen : seenOrderIds_ re ⊆ seenOrderIds_ re';
  ext_tracked : forall a s, tracked a s re -> tracked a s re'
}.

#[export] Instance risk_ext_preorder : PreOrder risk_ext.
Proof.
  split; [by split|]. intros re1 re2 re3 [? H1] [? H2]. split; [by etrans|]. auto.
Qed.

(** What a returning check tells. *)
Record check_facts (o : Order) (re re' : RiskEngine) (cb cb' : CircuitBreaker)
    (res : RiskResult) : Prop := {
  cf_cb : cb' = cb;
  cf_free : cb_mutex_ cb = false;
  cf_unlocked : re_mutex_ re = false /\ re_mutex_ re' = false;
  cf_positions : positions_ re' = positions_ re;
  cf_prices : lastTradePrices_ re' = lastTradePrices_ re;
  cf_ext : risk_ext re re';
  cf_new : forall a s, tracked a s re' ->
    tracked a s re \/ (approved res = true /\ a = accountId o /\ s = side o);
  cf_seen : halted (symbol o) cb = false -> orderId o ∈ seenOrderIds_ re';
  cf_approved : approved res = true ->
    halted (symbol o) cb = false /\ (orderId o ∉ seenOrderIds_ re) /\
    ~ tracked (accountId o) (opposite (side o)) re /\ tracked (accountId o) (side o) re' /\
    notional_exceeded o = false /\ position_exceeded o re = false /\ fat_finger o re = false
}.

Lemma checkPreTrade_inv o re cb res re' cb' :
  checkPreTrade o re cb = Ret (res, re', cb') -> check_facts o re re' cb cb' res.
Proof.
  unfold checkPreTrade, re_lock, isHalted, cb_lock.
  destruct re as [pos buys sells seen last chk rej m], cb as [halts refs wins m']. cbn.
  destruct m; [done|]. destruct m'; [done|]. cbn.
  assert (forall h : bool, match halts !! symbol o with Some x => x | None => false end = h ->
    halted (symbol o) (mkCB halts refs wins false) = h) as Hh.
  { intros h. unfold halted. cbn. by destruct (halts !! symbol o). }
  destruct (match halts !! symbol o with Some x => x | None => false end) eqn:E1;
    specialize (Hh _ eq_refl).
  { intros [= <- <- <-]. split; cbn; try done; try congruence. auto. }
  case_bool_decide as E2.
  { intros [= <- <- <-]. split; cbn; try done. auto. }
  assert (seen ⊆ {[orderId o]} ∪ seen) as Hsub by set_solver.
  destruct (notional_exceeded o) eqn:E3; [|destruct (position_exceeded o _) eqn:E4;
    [|destruct (fat_finger o _) eqn:E5; [|destruct (self_trade o _) eqn:E6]]].
  1-4: intros [= <- <- <-]; split; cbn; try done; [auto|set_solver].
  intros [= <- <- <-].
  set (re0 := see_order (orderId o) (mkRisk pos buys sells seen last (wrapu64 (chk + 1)) rej true)) in *.
  assert (seenOrderIds_ (trackOrder o re0) = {[orderId o]} ∪ seen) as Hs
    by (unfold trackOrder; by destruct (isBuy o)).
  split; cbn; try done; try (unfold trackOrder; by destruct (isBuy o)).
  - split; [cbn; by rewrite Hs|].
    intros a s Ht. apply (trackOrder_tracked o re0). by left.
  - intros a s [Ht|[-> ->]]%(trackOrder_tracked o re0); auto.
  - rewrite Hs. set_solver.
  - intros _. split_and!; try done.
    + intros Ht. pose proof (proj2 (self_trade_tracked o re0) Ht). congruence.
    + apply (trackOrder_tracked o re0). by right.
Qed.

(** The post-trade updates keep the bookkeeping of the checks. *)
Lemma recordFill_inv acct sym s q re re' :
  recordFill acct sym s q re = Ret re' ->
  seenOrderIds_ re' = seenOrderIds_ re /\ (forall d, active_of d re' = active_of d re) /\
  re_mutex_ re' = false /\ lastTradePrices_ re' = lastTradePrices_ re.
Proof.
  unfold recordFill, re_lock. destruct (re_mutex_ re); [done|]. cbn.
  intros [= <-]. cbn. split_and!; try done; by intros [].
Qed.

Lemma updateLastTradePrice_inv `{Env} sym p re cb t re' cb' t' :
  updateLastTradePrice sym p re cb t = Ret (re', cb', t') ->
  seenOrderIds_ re' = seenOrderIds_ re /\ (forall d, active_of d re' = active_of d re) /\
  re_mutex_ re' = false /\ positions_ re' = positions_ re /\
  recordTrade sym p cb t = Ret (cb', t').
Proof.
  unfold updateLastTradePrice, re_lock. destruct (re_mutex_ re); [done|]. cbn.
  destruct (recordTrade sym p cb t) as [[cb1 t1]| |]; try done. cbn.
  intros [= <- <- <-]. cbn. split_and!; try done; by intros [].
Qed.

(** * Runs *)

Definition RiskState := (RiskEngine * CircuitBreaker * nat)%type.

Section Runs.
Context `{Env}.

(** One returning call on the risk layer. *)
Inductive risk_step : RiskState -> RiskState -> Prop :=
| risk_check o re cb t res re' cb' :
    checkPreTrade o re cb = Ret (res, re', cb') -> risk_step (re, cb, t) (re', cb', t)
| risk_fill acct sym s q re cb t re' :
    recordFill acct sym s q re = Ret re' -> risk_step (re, cb, t) (re', cb, t)
| risk_price sym p re cb t re' cb' t' :
    updateLastTradePrice sym p re cb t = Ret (re', cb', t') ->
    risk_step (re, cb, t) (re', cb', t')
| risk_command op re cb t cb' t' :
    cb_exec op cb t = Ret (cb', t') -> risk_step (re, cb, t) (re, cb', t').

Lemma risk_step_ext s s' : risk_step s s' -> risk_ext s.1.1 s'.1.1.
Proof.
  destruct 1 as [o re cb t res re' cb' E|acct sym s q re cb t re' E
                |sym p re cb t re' cb' t' E|]; cbn; [| | |done].
  - by apply checkPreTrade_inv in E as [].
  - apply recordFill_inv in E as (Hs & Ha & _). split; [by rewrite Hs|].
    intros a d. unfold tracked. by rewrite Ha.
  - apply updateLastTradePrice_inv in E as (Hs & Ha & _). split; [by rewrite Hs|].
    intros a d. unfold tracked. by rewrite Ha.
Qed.

Lemma risk_steps_ext s s' : rtc risk_step s s' -> risk_ext s.1.1 s'.1.1.
Proof.
  induction 1 as [|s1 s2 s3 Hstep _ IH]; [done|]. etrans; [|done]. by apply risk_step_ext.
Qed.
End Runs.

(** * Positions *)

(** A reported fill: account, symbol, side, quantity. *)
Record FillReport := mkFill { f_account : string; f_symbol : string; f_side : OrderSide; f_qty : Z }.

Fixpoint record_fills (fs : list FillReport) (re : RiskEngine) : outcome RiskEngine :=
  match fs with
  | [] => Ret re
  | f :: fs =>
      let! re := recordFill (f_account f) (f_symbol f) (f_side f) (f_qty f) re in
      record_fills fs re
  end.

(** The signed quantity a fill adds to the position of an account in a symbol. *)
Definition signed_fill (acct sym : string) (f : FillReport) : Z :=
  if decide (f_account f = acct /\ f_symbol f = sym)
  then match f_side f with BUY => f_qty f | SELL => - f_qty f end
  else 0.

Definition sum_signed (acct sym : string) (fs : list FillReport) : Z :=
  foldr (fun f acc => signed_fill acct sym f + acc) 0 fs.

Lemma wrap64_add_l a b : wrap64 (wrap64 a + b) = wrap64 (a + b).
Proof.
  unfold wrap64.
  replace ((a + 2 ^ 63) mod 2 ^ 64 - 2 ^ 63 + b + 2 ^ 63)
    with ((a + 2 ^ 63) mod 2 ^ 64 + b) by lia.
  rewrite Z.add_mod_idemp_l by lia. do 2 f_equal. lia.
Qed.

Lemma recordFill_position f re :
  re_mutex_ re = false ->
  exists re',
    recordFill (f_account f) (f_symbol f) (f_side f) (f_qty f) re = Ret re' /\
    re_mutex_ re' = false /\
    forall acct sym, wrap64 (net_position acct sym re') =
                     wrap64 (net_position acct sym re + signed_fill acct sym f).
Proof.
  intros Hm. unfold recordFill, re_lock. rewrite Hm. cbn. eexists. split; [done|].
  split; [done|]. intros acct sym. unfold net_position, signed_fill. cbn.
  destruct (decide (f_account f = acct)) as [<-|Ha].
  - rewrite lookup_insert_eq. destruct (decide (f_symbol f = sym)) as [<-|Hs].
    + rewrite lookup_insert_eq, (decide_True (P := _ /\ _)) by done. unfold add64.
      rewrite (wrap64_small (wrap64 _)) by apply wrap64_int64.
      assert (default 0 (default ∅ (positions_ re !! f_account f) !! f_symbol f) =
        match positions_ re !! f_account f with
        | Some syms => match syms !! f_symbol f with Some p => p | None => 0 end
        | None => 0 end) as ->.
      { destruct (positions_ re !! f_account f); cbn; [|by rewrite lookup_empty].
        by destruct (_ !! f_symbol f). }
      destruct (f_side f); [by rewrite decide_True by done|].
      rewrite (decide_False (P := SELL = BUY)) by done. unfold neg64.
      rewrite Z.add_comm, wrap64_add_l. f_equal. lia.
    + rewrite lookup_insert_ne, (decide_False (P := _ /\ _)) by naive_solver.
      rewrite Z.add_0_r. destruct (positions_ re !! f_account f); cbn; [done|].
      by rewrite lookup_empty.
  - rewrite lookup_insert_ne, (decide_False (P := _ /\ _)) by naive_solver. by rewrite Z.add_0_r.
Qed.

(** * The properties *)

(** ** The rules of the exchange, in exact arithmetic *)
















Section Histories.
Context `{Env}.

(** An order identifier is approved at most once, whatever happens on the risk
    layer between the two checks (other checks, fills, price updates, halts and
    resumes). *)
Theorem approved_at_most_once o1 o2 re cb t r1 re1 cb1 re2 cb2 t2 r2 re3 cb3 :
  checkPreTrade o1 re cb = Ret (r1, re1, cb1) -> approved r1 = true ->
  rtc risk_step (re1, cb1, t) (re2, cb2, t2) ->
  checkPreTrade o2 re2 cb2 = Ret (r2, re3, cb3) -> orderId o2 = orderId o1 ->
  approved r2 = false.
Proof.
  intros H1 Ha Hrun H2 Hid. apply checkPreTrade_inv in H1 as [], H2 as [].
  destruct (approved r2) eqn:E; [|done].
  destruct (cf_approved0 Ha) as (Hh & _). destruct (cf_approved1 eq_refl) as (_ & Hni & _).
  destruct Hni. rewrite Hid. apply (ext_seen _ _ (risk_steps_ext _ _ Hrun)). auto.
Qed.

(** Self-trade prevention is one-sided for ever: once an order of an account
    was approved on one side, no order of that account on the other side is ever
    approved again, in any symbol, also after the first order was filled or
    cancelled (nothing ever removes an order from the active sets). *)
Theorem approval_locks_the_side o1 o2 re cb t r1 re1 cb1 re2 cb2 t2 r2 re3 cb3 :
  checkPreTrade o1 re cb = Ret (r1, re1, cb1) -> approved r1 = true ->
  rtc risk_step (re1, cb1, t) (re2, cb2, t2) ->
  checkPreTrade o2 re2 cb2 = Ret (r2, re3, cb3) ->
  accountId o2 = accountId o1 -> side o2 = opposite (side o1) ->
  approved r2 = false.
Proof.
  intros H1 Ha Hrun H2 Hacct Hside. apply checkPreTrade_inv in H1 as [], H2 as [].
  destruct (approved r2) eqn:E; [|done].
  destruct (cf_approved0 Ha) as (_ & _ & _ & Ht & _).
  destruct (cf_approved1 eq_refl) as (_ & _ & Hnt & _).
  destruct Hnt. apply (ext_tracked _ _ (risk_steps_ext _ _ Hrun)).
  rewrite Hacct, Hside. by destruct (side o1).
Qed.

(** The recorded net position of every account in every symbol is the sum of
    the signed quantities of the fills reported for it, modulo 2^64. *)
Theorem positions_are_sums_of_fills fs re :
  re_mutex_ re = false ->
  exists re', record_fills fs re = Ret re' /\
    forall acct sym, wrap64 (net_position acct sym re') =
      wrap64 (net_position acct sym re + sum_signed acct sym fs).
Proof.
  revert re. induction fs as [|f fs IH]; intros re Hm; cbn [record_fills].
  { exists re. split; [done|]. intros. cbn. by rewrite Z.add_0_r. }
  destruct (recordFill_position f re Hm) as (re1 & -> & Hm1 & Hp). cbn [obind].
  destruct (IH re1 Hm1) as (re2 & -> & Hp2). exists re2. split; [done|].
  intros acct sym. rewrite Hp2, <- wrap64_add_l, Hp, wrap64_add_l. f_equal.
  change (sum_signed acct sym (f :: fs)) with (signed_fill acct sym f + sum_signed acct sym fs).
  lia.
Qed.
End Histories.

(** The notional limit does not hold for large prices: on a fresh engine a limit
    order of 10,000 shares at $10,000,000 (one hundred billion dollars) is approved,
    because the product of price and quantity overflows. *)
Theorem notional_check_overflows :
  let o := demo_order "big" "whale" BUY LIMIT (dollars 10000000) 10000 in
  MAX_NOTIONAL_FIXED < price o * quantity o /\
  exists re, checkPreTrade o RiskEngine_new CircuitBreaker_new =
               Ret (RiskResult_approve, re, CircuitBreaker_new).
Proof. split; [vm_compute; done|]. eexists. vm_compute. reflexivity. Qed.

(** The position limit does not hold for an account that is long one share: a buy
    of 2^63 - 1 further shares is approved, because the projected position wraps to
    the smallest [int64_t], whose [std::abs] is negative. *)
Theorem position_check_overflows :
  let o := demo_order "big" "whale" BUY LIMIT (dollars 150) (2 ^ 63 - 1) in
  exists re re',
    recordFill "whale" "AAPL" BUY 1 RiskEngine_new = Ret re /\
    checkPreTrade o re CircuitBreaker_new = Ret (RiskResult_approve, re', CircuitBreaker_new).
Proof. do 2 eexists. split; [reflexivity|]. vm_compute. reflexivity. Qed.

(** * What the risk engine promises to the matching engine *)

(** A pre-trade gate: a check on a state [R] that approves an identifier at most
    once and never approves both sides of an account. *)
Class PreTradeGate (R : Type) := {
  gate_check : Order -> R -> outcome (RiskResult * R);
  gate_blocked : R -> R;                 (* after a check that blocks for ever *)
  gate_seen : R -> gset string;
  gate_active : R -> string -> OrderSide -> Prop
}.

Class PreTradeGateLaws (R : Type) `{PreTradeGate R} : Prop := {
  gate_seen_mono o r res r' :
    gate_check o r = Ret (res, r') -> gate_seen r ⊆ gate_seen r';
  gate_active_mono o r res r' a s :
    gate_check o r = Ret (res, r') -> gate_active r a s -> gate_active r' a s;
  gate_active_new o r res r' a s :
    gate_check o r = Ret (res, r') -> gate_active r' a s ->
    gate_active r a s \/ (approved res = true /\ a = accountId o /\ s = side o);
  gate_no_throw o r what : gate_check o r <> Throw what;
  gate_blocked_seen r : gate_seen (gate_blocked r) = gate_seen r;
  gate_blocked_active r a s : gate_active (gate_blocked r) a s <-> gate_active r a s;
  gate_approved o r res r' :
    gate_check o r = Ret (res, r') -> approved res = true ->
    (orderId o ∉ gate_seen r) /\ orderId o ∈ gate_seen r' /\
    ~ gate_active r (accountId o) (opposite (side o)) /\ gate_active r' (accountId o) (side o)
}.

#[export] Instance risk_gate : PreTradeGate (RiskEngine * CircuitBreaker) := {|
  gate_check o r :=
    let! x := checkPreTrade o r.1 r.2 in Ret (x.1.1, (x.1.2, x.2));
  gate_blocked r := (check_blocked r.1, r.2);
  gate_seen r := seenOrderIds_ r.1;
  gate_active r a s := tracked a s r.1
|}.

Lemma risk_gate_check o re cb res r' :
  gate_check o (re, cb) = Ret (res, r') -> check_facts o re r'.1 cb r'.2 res.
Proof.
  cbn. intros ([[res1 re1] cb1] & E & [= <- <-])%obind_Ret. by apply checkPreTrade_inv.
Qed.

#[export] Instance risk_gate_laws : PreTradeGateLaws (RiskEngine * CircuitBreaker).
Proof.
  split.
  - intros o [re cb] res r' E. apply risk_gate_check in E as []. apply cf_ext0.
  - intros o [re cb] res r' a s E. apply risk_gate_check in E as []. apply cf_ext0.
  - intros o [re cb] res r' a s E. apply risk_gate_check in E as []. apply cf_new0.
  - intros o [re cb] what. cbn. unfold checkPreTrade, re_lock, isHalted, cb_lock. cbn.
    destruct (re_mutex_ re), (cb_mutex_ cb); try done. cbn. by repeat case_match.
  - done.
  - intros [re cb] a s. by destruct s.
  - intros o [re cb] res r' E Ha. apply risk_gate_check in E as [].
    destruct (cf_approved0 Ha) as (? & ? & ? & ? & _). cbn. auto 10.
Qed.

(** With free mutexes the check answers. *)
Lemma gate_returns o (r : RiskEngine * CircuitBreaker) :
  re_mutex_ r.1 = false -> cb_mutex_ r.2 = false -> gate_check o r <> Hang.
Proof.
  destruct r as [re cb]. intros Hm Hc. cbn in *. unfold checkPreTrade, re_lock, isHalted, cb_lock.
  cbn. rewrite Hm, Hc. cbn. by repeat case_match.
Qed.

(** * Witnesses *)

Definition demo_buy := demo_order "o1" "acc1" BUY LIMIT (dollars 150) 100.
Definition demo_sell := demo_order "o2" "acc1" SELL LIMIT (dollars 155) 50.



(** The state after the approval of [demo_buy]. *)
Definition demo_risk : RiskEngine :=
  match checkPreTrade demo_buy RiskEngine_new CircuitBreaker_new with
  | Ret (_, re, _) => re
  | _ => RiskEngine_new
  end.

Lemma demo_risk_check :
  checkPreTrade demo_buy RiskEngine_new CircuitBreaker_new =
  Ret (RiskResult_approve, demo_risk, CircuitBreaker_new).
Proof. vm_compute. reflexivity. Qed.

Lemma approved_at_most_once_witness :
  exists res re', checkPreTrade demo_buy demo_risk CircuitBreaker_new =
                    Ret (res, re', CircuitBreaker_new) /\ approved res = false.
Proof.
  do 2 eexists. split; [vm_compute; reflexivity|].
  apply (@approved_at_most_once demo_env demo_buy demo_buy RiskEngine_new CircuitBreaker_new 0
           _ _ _ demo_risk CircuitBreaker_new 0 _
           (mkRisk ∅ {["acc1" := {["o1"]}]} ∅ {["o1"]} ∅ 2 1 false) CircuitBreaker_new
           demo_risk_check eq_refl (rtc_refl _ _)).
  - vm_compute. reflexivity.
  - reflexivity.
Defined.

Lemma approval_locks_the_side_witness :
  exists res re', checkPreTrade demo_sell demo_risk CircuitBreaker_new =
                    Ret (res, re', CircuitBreaker_new) /\ approved res = false.
Proof.
  do 2 eexists. split; [vm_compute; reflexivity|].
  apply (@approval_locks_the_side demo_env demo_buy demo_sell RiskEngine_new CircuitBreaker_new 0
           _ _ _ demo_risk CircuitBreaker_new 0 _
           (mkRisk ∅ {["acc1" := {["o1"]}]} ∅ {["o1"; "o2"]} ∅ 2 1 false) CircuitBreaker_new
           demo_risk_check eq_refl (rtc_refl _ _)).
  - vm_compute. reflexivity.
  - reflexivity.
  - reflexivity.
Defined.

Lemma positions_are_sums_of_fills_witness :
  exists re, record_fills [mkFill "a" "AAPL" BUY 30; mkFill "a" "AAPL" SELL 10;
                           mkFill "b" "AAPL" BUY 7] RiskEngine_new = Ret re /\
    wrap64 (net_position "a" "AAPL" re) = 20.
Proof.
  destruct (positions_are_sums_of_fills
              [mkFill "a" "AAPL" BUY 30; mkFill "a" "AAPL" SELL 10; mkFill "b" "AAPL" BUY 7]
              RiskEngine_new eq_refl) as (re & E & Hp).
  exists re. split; [exact E|]. rewrite Hp. vm_compute. reflexivity.
Defined.
