(* ===== verification/Events.v ===== *)
(** The events of the matching engine (include/titanx/event, src/event):
    [OrderEvent], the record of one state change, with its factories, and
    [FillEvent], the fill notification. *)

From Stdlib Require Import ZArith Lia.
From stdpp Require Import base numbers gmap strings list.
From S2P Require Import Prelude Model.

Local Open Scope Z_scope.

Inductive EventType :=
| ORDER_RECEIVED
| ORDER_RESTING
| ORDER_PARTIALLY_FILLED
| ORDER_FILLED
| ORDER_CANCELLED
| ORDER_REJECTED
| CIRCUIT_BREAKER_TRIGGERED
| ENGINE_HALTED
| ENGINE_RESUMED.

#[export] Instance EventType_eq_dec : EqDecision EventType.
Proof. solve_decision. Defined.

Definition event_type_to_string (type : EventType) : string :=
  match type with
  | ORDER_RECEIVED => "ORDER_RECEIVED"
  | ORDER_RESTING => "ORDER_RESTING"
  | ORDER_PARTIALLY_FILLED => "ORDER_PARTIALLY_FILLED"
  | ORDER_FILLED => "ORDER_FILLED"
  | ORDER_CANCELLED => "ORDER_CANCELLED"
  | ORDER_REJECTED => "ORDER_REJECTED"
  | CIRCUIT_BREAKER_TRIGGERED => "CIRCUIT_BREAKER_TRIGGERED"
  | ENGINE_HALTED => "ENGINE_HALTED"
  | ENGINE_RESUMED => "ENGINE_RESUMED"
  end.

Record OrderEvent := mkEvent {
  eventId : string;
  ev_type : EventType;
  ev_orderId : string;
  ev_accountId : string;
  ev_symbol : string;
  orderSnapshot : Order;
  ev_trade : option Trade;
  rejectionReason : string;
  latencyMicros : Z;
  occurredAt : Z
}.

Record FillEvent := mkFillEvent {
  fe_trade : Trade;
  matchingLatencyMicros : Z;
  publishedAt : Z
}.

Section Factories.
Context `{Env}.

(** The members are initialised in order: the identifier is drawn before the
    clock is read. *)
Definition OrderEvent_build (type : EventType) (order : Order) (trade : option Trade)
    (reason : string) (latencyMicros : Z) (t : nat) : OrderEvent * nat :=
  let '(id, t) := generate_uuid t in
  let '(now, t) := SystemClock_now t in
  (mkEvent id type (orderId order) (accountId order) (symbol order) order trade reason
     latencyMicros now, t).

Definition OrderEvent_received (order : Order) : nat -> OrderEvent * nat :=
  OrderEvent_build ORDER_RECEIVED order None "" 0.

Definition OrderEvent_resting (order : Order) : nat -> OrderEvent * nat :=
  OrderEvent_build ORDER_RESTING order None "" 0.

Definition OrderEvent_filled (order : Order) (trade : Trade) : nat -> OrderEvent * nat :=
  OrderEvent_build ORDER_FILLED order (Some trade) "" 0.

Definition OrderEvent_partiallyFilled (order : Order) (trade : Trade)
    : nat -> OrderEvent * nat :=
  OrderEvent_build ORDER_PARTIALLY_FILLED order (Some trade) "" 0.

Definition OrderEvent_cancelled (order : Order) : nat -> OrderEvent * nat :=
  OrderEvent_build ORDER_CANCELLED order None "" 0.

Definition OrderEvent_rejected (order : Order) (reason : string) : nat -> OrderEvent * nat :=
  OrderEvent_build ORDER_REJECTED order None reason 0.

Definition FillEvent_new (trade : Trade) (latencyMicros : Z) (t : nat) : FillEvent * nat :=
  let '(now, t) := SystemClock_now t in
  (mkFillEvent trade latencyMicros now, t).
End Factories.

(** What an event says, without the identifier and the time stamp drawn for it. *)
Record EventContent := mkContent {
  ec_type : EventType;
  ec_order : Order;
  ec_trade : option Trade;
  ec_reason : string
}.

Definition content (ev : OrderEvent) : EventContent :=
  mkContent (ev_type ev) (orderSnapshot ev) (ev_trade ev) (rejectionReason ev).

Lemma content_build `{Env} ty o tr why lat t :
  content (OrderEvent_build ty o tr why lat t).1 = mkContent ty o tr why.
Proof. done. Qed.
