(* ===== verification/Json.v ===== *)
(** JSON values as the program builds them with nlohmann::json, the calls it makes on
    parsed documents, and the JSON and log texts of the domain objects and events
    ([to_json] and [to_string] in src/model, src/event and include/titanx/engine).

    The library itself is outside the program: printing ([dump]) and the documents
    that its parser yields are parameters. *)

From Stdlib Require Import ZArith Lia.
From stdpp Require Import base numbers gmap strings list pretty.
From S2P Require Import Prelude Text Double Model Prices OrderBook Events.

Local Open Scope Z_scope.
Local Open Scope cpp_scope.

(** * Values *)

(** An object is a [std::map] from its keys. *)
Inductive json :=
| JNull
| JBool (b : bool)
| JInt (z : Z)
| JString (s : string)
| JArray (l : list json)
| JObject (m : gmap string json).

(** An initializer list of pairs, or the assignments [j[key] = value] one by one. *)
Definition object (fields : list (string * json)) : json := JObject (list_to_map fields).

Definition field (key : string) (j : json) : option json :=
  match j with JObject m => m !! key | _ => None end.

(** [dump()]; it throws on texts that are not UTF-8. *)
Class JsonPrinter := dump : json -> outcome string.

(** The printer of the witnesses. *)
Definition demo_json : JsonPrinter := fun _ => Ret "{}".

(** * Parsed documents

    The calls that the handlers make on [nlohmann::json::parse(body)]: [value] with a
    default of type string or [long long], [contains], [operator[]], the type tests
    and [get]. *)
Class JsonParser := {
  document : Type;
  parse : string -> outcome document;
  value_string : document -> string -> outcome string;
  value_int : document -> string -> outcome Z;
  contains : document -> string -> bool;
  at_key : document -> string -> document;
  is_null : document -> bool;
  is_string : document -> bool;
  get_string : document -> outcome string;
  get_double : document -> outcome double
}.

(** * The objects of the program *)

Definition Order_to_json (o : Order) : json :=
  object [
    ("orderId", JString (orderId o));
    ("accountId", JString (accountId o));
    ("symbol", JString (symbol o));
    ("side", JString (side_to_string (side o)));
    ("type", JString (type_to_string (type o)));
    ("price", JString (price_to_string (price o)));
    ("stopPrice", JString (price_to_string (stopPrice o)));
    ("quantity", JInt (quantity o));
    ("remainingQuantity", JInt (remainingQuantity o));
    ("status", JString (status_to_string (status o)));
    ("createdAt", JInt (to_ms (createdAt o)));
    ("updatedAt", JInt (to_ms (updatedAt o)))].

Definition Trade_to_json (tr : Trade) : json :=
  object [
    ("tradeId", JString (tradeId tr));
    ("symbol", JString (t_symbol tr));
    ("aggressorOrderId", JString (aggressorOrderId tr));
    ("aggressorAccountId", JString (aggressorAccountId tr));
    ("passiveOrderId", JString (passiveOrderId tr));
    ("passiveAccountId", JString (passiveAccountId tr));
    ("price", JString (price_to_string (t_price tr)));
    ("quantity", JInt (t_quantity tr));
    ("aggressorSide", JString (side_to_string (aggressorSide tr)));
    ("executedAt", JInt (to_ms (executedAt tr)))].

Definition PriceLevel_to_json (lvl : PriceLevel) : json :=
  object [
    ("price", JString (price_to_string (pl_price lvl)));
    ("totalQuantity", JInt (totalQuantity lvl));
    ("orderCount", JInt (orderCount lvl))].

(** [lastTradePrice ? price_to_string(...) : nullptr] has type [std::string]: without a
    last trade the null pointer is converted to a string, which throws. *)
Definition price_or_null (last : option Z) : outcome string :=
  match last with
  | Some p => Ret (price_to_string p)
  | None => Throw "basic_string: construction from null is not valid"
  end.

Definition OrderBookSnapshot_to_json (s : OrderBookSnapshot) : outcome json :=
  let! last := price_or_null (snap_lastTradePrice s) in
  Ret (object [
    ("symbol", JString (snap_symbol s));
    ("bids", JArray (PriceLevel_to_json <$> snap_bids s));
    ("asks", JArray (PriceLevel_to_json <$> snap_asks s));
    ("lastTradePrice", JString last)]).

Definition OrderEvent_to_json (ev : OrderEvent) : json :=
  object [
    ("eventId", JString (eventId ev));
    ("type", JString (event_type_to_string (ev_type ev)));
    ("orderId", JString (ev_orderId ev));
    ("accountId", JString (ev_accountId ev));
    ("symbol", JString (ev_symbol ev));
    ("orderSnapshot", Order_to_json (orderSnapshot ev));
    ("trade", match ev_trade ev with Some tr => Trade_to_json tr | None => JNull end);
    ("rejectionReason",
      if bool_decide (rejectionReason ev = "") then JNull else JString (rejectionReason ev));
    ("latencyMicros", JInt (latencyMicros ev));
    ("occurredAt", JInt (to_ms (occurredAt ev)))].

Definition FillEvent_to_json (f : FillEvent) : json :=
  object [
    ("trade", Trade_to_json (fe_trade f));
    ("matchingLatencyMicros", JInt (matchingLatencyMicros f));
    ("publishedAt", JInt (to_ms (publishedAt f)))].

(** * Log texts *)

Definition Order_to_string (o : Order) : string :=
  "Order{id=" +:+ String.substring 0 8 (orderId o) +:+
  ", acct=" +:+ accountId o +:+
  ", " +:+ side_to_string (side o) +:+
  " " +:+ type_to_string (type o) +:+
  " " +:+ symbol o +:+
  " qty=" +:+ pretty (remainingQuantity o) +:+ "/" +:+ pretty (quantity o) +:+
  " @ " +:+ (if bool_decide (type o = MARKET) then "MKT" else price_to_string (price o)) +:+
  "}".

Definition Trade_to_string (tr : Trade) : string :=
  "Trade{" +:+ t_symbol tr +:+
  " " +:+ side_to_string (aggressorSide tr) +:+
  " qty=" +:+ pretty (t_quantity tr) +:+
  " @ " +:+ price_to_string (t_price tr) +:+
  ", aggressor=" +:+ String.substring 0 8 (aggressorOrderId tr) +:+
  ", passive=" +:+ String.substring 0 8 (passiveOrderId tr) +:+
  "}".

(** * What the JSON texts preserve *)

(** The value of a key in the list of the fields. *)
Fixpoint assoc (key : string) (fields : list (string * json)) : option json :=
  match fields with
  | [] => None
  | (k, v) :: fields => if String.eqb key k then Some v else assoc key fields
  end.

Lemma field_object key fields : field key (object fields) = assoc key fields.
Proof.
  unfold object, field. induction fields as [|[k v] fields IH]; [done|].
  cbn [list_to_map foldr fst snd uncurry assoc].
  destruct (String.eqb_spec key k) as [->|Hne]; [apply lookup_insert_eq|].
  rewrite lookup_insert_ne by done. exact IH.
Qed.

Lemma object_fields l1 l2 key : object l1 = object l2 -> assoc key l1 = assoc key l2.
Proof. intros E. by rewrite <- !field_object, E. Qed.

Lemma side_to_string_inj s1 s2 : side_to_string s1 = side_to_string s2 -> s1 = s2.
Proof. by destruct s1, s2. Qed.

Lemma type_to_string_inj t1 t2 : type_to_string t1 = type_to_string t2 -> t1 = t2.
Proof. by destruct t1, t2. Qed.

Lemma status_to_string_inj s1 s2 : status_to_string s1 = status_to_string s2 -> s1 = s2.
Proof. by destruct s1, s2. Qed.

Lemma event_type_to_string_inj t1 t2 : event_type_to_string t1 = event_type_to_string t2 -> t1 = t2.
Proof. by destruct t1, t2. Qed.

(** Equal fields of two printed objects. *)
Ltac same_value E key H :=
  pose proof (object_fields _ _ key E) as H; cbn [assoc String.eqb Ascii.eqb Bool.eqb] in H;
  apply (inj Some) in H.

Ltac same_field E key H := same_value E key H; injection H as H.

(** The trade that a JSON text tells: prices to the cent, times to the millisecond. *)
Definition trade_told (tr : Trade) :=
  (tradeId tr, t_symbol tr, (aggressorOrderId tr, aggressorAccountId tr),
   (passiveOrderId tr, passiveAccountId tr), price_to_string (t_price tr), t_quantity tr,
   aggressorSide tr, to_ms (executedAt tr)).

Lemma Trade_to_json_inj t1 t2 : Trade_to_json t1 = Trade_to_json t2 <-> trade_told t1 = trade_told t2.
Proof.
  split.
  - intros E. unfold Trade_to_json in E.
    same_field E "tradeId" H1. same_field E "symbol" H2. same_field E "aggressorOrderId" H3.
    same_field E "aggressorAccountId" H4. same_field E "passiveOrderId" H5.
    same_field E "passiveAccountId" H6. same_field E "price" H7. same_field E "quantity" H8.
    same_field E "aggressorSide" H9. same_field E "executedAt" H10.
    apply side_to_string_inj in H9. unfold trade_told. congruence.
  - unfold trade_told, Trade_to_json. intros [= -> -> -> -> -> -> -> -> -> ->]. done.
Qed.

Definition order_told (o : Order) :=
  (orderId o, accountId o, symbol o, side o, type o,
   (price_to_string (price o), price_to_string (stopPrice o)),
   (quantity o, remainingQuantity o), status o, (to_ms (createdAt o), to_ms (updatedAt o))).

Lemma Order_to_json_inj o1 o2 : Order_to_json o1 = Order_to_json o2 <-> order_told o1 = order_told o2.
Proof.
  split.
  - intros E. unfold Order_to_json in E.
    same_field E "orderId" H1. same_field E "accountId" H2. same_field E "symbol" H3.
    same_field E "side" H4. same_field E "type" H5. same_field E "price" H6.
    same_field E "stopPrice" H7. same_field E "quantity" H8. same_field E "remainingQuantity" H9.
    same_field E "status" H10. same_field E "createdAt" H11. same_field E "updatedAt" H12.
    apply side_to_string_inj in H4. apply type_to_string_inj in H5.
    apply status_to_string_inj in H10. unfold order_told. congruence.
  - unfold order_told, Order_to_json. intros [= -> -> -> -> -> -> -> -> -> -> -> ->]. done.
Qed.

(** C35: the JSON of an event tells the event.  Two events print the same JSON value if
    and only if they agree in the identifiers, the type, the order and the trade (present
    or not, with prices to the cent and times to the millisecond), the reason and the
    latency: nothing else of an event is lost, and a missing trade or reason is never
    confused with a present one. *)
Theorem event_json_faithful ev1 ev2 :
  OrderEvent_to_json ev1 = OrderEvent_to_json ev2 <->
  (eventId ev1 = eventId ev2 /\ ev_type ev1 = ev_type ev2 /\ ev_orderId ev1 = ev_orderId ev2 /\
   ev_accountId ev1 = ev_accountId ev2 /\ ev_symbol ev1 = ev_symbol ev2 /\
   order_told (orderSnapshot ev1) = order_told (orderSnapshot ev2) /\
   trade_told <$> ev_trade ev1 = trade_told <$> ev_trade ev2 /\
   rejectionReason ev1 = rejectionReason ev2 /\ latencyMicros ev1 = latencyMicros ev2 /\
   to_ms (occurredAt ev1) = to_ms (occurredAt ev2)).
Proof.
  split.
  - intros E. unfold OrderEvent_to_json in E.
    same_field E "eventId" H1. same_field E "type" H2. same_field E "orderId" H3.
    same_field E "accountId" H4. same_field E "symbol" H5. same_value E "orderSnapshot" H6.
    same_value E "trade" H7. same_value E "rejectionReason" H8. same_field E "latencyMicros" H9.
    same_field E "occurredAt" H10.
    apply event_type_to_string_inj in H2. apply Order_to_json_inj in H6.
    split_and!; try done.
    + destruct (ev_trade ev1) as [t1|], (ev_trade ev2) as [t2|]; try done; cbn.
      f_equal. by apply Trade_to_json_inj.
    + revert H8. destruct (bool_decide_reflect (rejectionReason ev1 = "")),
        (bool_decide_reflect (rejectionReason ev2 = "")); congruence.
  - intros (E1 & E2 & E3 & E4 & E5 & E6%Order_to_json_inj & E7 & E8 & E9 & E10).
    unfold OrderEvent_to_json. rewrite E1, E2, E3, E4, E5, E6, E8, E9, E10.
    assert (match ev_trade ev1 with Some tr => Trade_to_json tr | None => JNull end =
            match ev_trade ev2 with Some tr => Trade_to_json tr | None => JNull end) as ->; [|done].
    destruct (ev_trade ev1) as [t1|], (ev_trade ev2) as [t2|]; try done.
    apply Trade_to_json_inj. cbn in E7. apply (inj Some) in E7. exact E7.
Qed.
