(* ===== verification/MatchingEngine.v ===== *)
(** The matching engine (include/titanx/engine/MatchingEngine.hpp,
    src/engine/MatchingEngine.cpp): the map of books with a lock per symbol, the
    kill switch, the submission pipeline, cancellation, snapshots and the
    triggering of stop orders.

    The engine calls the risk engine through [PreTradeGate] and its two consumers
    through the functions stored in it.  [World] is what these calls can change:
    the state [R] of the risk layer, the state [X] of the consumers, and the
    position in the environment.  The consumers do not call the engine back.  The
    text passed to the log is not modelled. *)

From Stdlib Require Import ZArith Lia.
From stdpp Require Import base numbers gmap strings list.
From S2P Require Import Prelude Model OrderBook Events CircuitBreaker RiskEngine.

Local Open Scope Z_scope.
Local Open Scope cpp_scope.

(** * State *)

Record World (R X : Type) := mkWorld { w_risk : R; w_ext : X; w_t : nat }.
Arguments mkWorld {R X}.
Arguments w_risk {R X}.
Arguments w_ext {R X}.
Arguments w_t {R X}.

Record MatchingEngine (W : Type) := mkEngine {
  books_ : gmap string OrderBook;
  locks_ : gmap string bool;                 (* held exclusively *)
  stopOrders_ : gmap string (list Order);
  mapMutex_ : bool;                          (* held *)
  eventConsumer_ : OrderEvent -> cpp W unit;
  fillConsumer_ : FillEvent -> list (cpp W unit);   (* its calls, one after the other *)
  halted_ : bool
}.
Arguments mkEngine {W}.
Arguments books_ {W}.
Arguments locks_ {W}.
Arguments stopOrders_ {W}.
Arguments mapMutex_ {W}.
Arguments eventConsumer_ {W}.
Arguments fillConsumer_ {W}.
Arguments halted_ {W}.

Definition MatchingEngine_new {W} : MatchingEngine W :=
  mkEngine ∅ ∅ ∅ false (fun _ => cret tt) (fun _ => []) false.

Section Engine.
Context `{Env} {R X : Type} `{PreTradeGate R}.

Abbreviation W := (World R X).
Abbreviation State := (MatchingEngine W * W)%type.
Abbreviation M := (cpp State).

(** * Access to the parts of the state *)

Definition set_books (books : gmap string OrderBook) (e : MatchingEngine W) :=
  mkEngine books (locks_ e) (stopOrders_ e) (mapMutex_ e) (eventConsumer_ e)
    (fillConsumer_ e) (halted_ e).
Definition set_locks (locks : gmap string bool) (e : MatchingEngine W) :=
  mkEngine (books_ e) locks (stopOrders_ e) (mapMutex_ e) (eventConsumer_ e)
    (fillConsumer_ e) (halted_ e).
Definition set_stopOrders (stops : gmap string (list Order)) (e : MatchingEngine W) :=
  mkEngine (books_ e) (locks_ e) stops (mapMutex_ e) (eventConsumer_ e)
    (fillConsumer_ e) (halted_ e).
Definition set_mapMutex (held : bool) (e : MatchingEngine W) :=
  mkEngine (books_ e) (locks_ e) (stopOrders_ e) held (eventConsumer_ e)
    (fillConsumer_ e) (halted_ e).
Definition set_halted (h : bool) (e : MatchingEngine W) :=
  mkEngine (books_ e) (locks_ e) (stopOrders_ e) (mapMutex_ e) (eventConsumer_ e)
    (fillConsumer_ e) h.

Definition engine_get {A} (f : MatchingEngine W -> A) : M A := fun s => (Ret (f s.1), s).
Definition engine_upd (f : MatchingEngine W -> MatchingEngine W) : M unit :=
  fun s => (Ret tt, (f s.1, s.2)).

(** A call that only changes the world, and a reading of the environment. *)
Definition in_world {A} (m : cpp W A) : M A :=
  fun s => let '(r, w) := m s.2 in (r, (s.1, w)).
Definition read_env {A} (f : nat -> A * nat) : M A := fun s =>
  let '(a, t) := f (w_t s.2) in
  (Ret a, (s.1, mkWorld (w_risk s.2) (w_ext s.2) t)).

Definition riskEngine_checkPreTrade (o : Order) : M RiskResult := fun s =>
  match gate_check o (w_risk s.2) with
  | Ret (res, r) => (Ret res, (s.1, mkWorld r (w_ext s.2) (w_t s.2)))
  | Throw e => (Throw e, s)
  | Hang => (Hang, (s.1, mkWorld (gate_blocked (w_risk s.2)) (w_ext s.2) (w_t s.2)))
  end.

(** [std::lock_guard<std::mutex> guard(mapMutex_)] around a block that neither
    throws nor blocks. *)
Definition with_mapMutex (f : MatchingEngine W -> MatchingEngine W) : M unit :=
  do! held <- engine_get mapMutex_;
  if held then chang
  else
    do! _ <- engine_upd (set_mapMutex true);
    do! _ <- engine_upd f;
    engine_upd (set_mapMutex false).

(** [std::unique_lock<std::shared_mutex> writeLock(lock)] around a block that
    neither throws nor blocks. *)
Definition with_writeLock {A} (sym : string) (m : M A) : M A :=
  do! locks <- engine_get locks_;
  if default false (locks !! sym) then chang
  else
    do! _ <- engine_upd (fun e => set_locks (<[sym := true]> (locks_ e)) e);
    do! a <- m;
    do! _ <- engine_upd (fun e => set_locks (<[sym := false]> (locks_ e)) e);
    cret a.

(** * Books and locks *)

(** The blocks under [mapMutex_]: find, and emplace when nothing was found. *)
Definition create_book (sym : string) (e : MatchingEngine W) : MatchingEngine W :=
  match books_ e !! sym with
  | None => set_books (<[sym := OrderBook_new sym]> (books_ e)) e
  | Some _ => e
  end.

Definition create_lock (sym : string) (e : MatchingEngine W) : MatchingEngine W :=
  match locks_ e !! sym with
  | None => set_locks (<[sym := false]> (locks_ e)) e
  | Some _ => e
  end.

Definition getOrCreateBook (sym : string) : M unit := with_mapMutex (create_book sym).

Definition getOrCreateLock (sym : string) : M unit := with_mapMutex (create_lock sym).

(** [book.match(order)] through the reference that [getOrCreateBook] returned. *)
Definition book_match (sym : string) (o : Order) : M (list Trade) := fun s =>
  let b := default (OrderBook_new sym) (books_ s.1 !! sym) in
  let '(trades, b', t) := match_ o b (w_t s.2) in
  (Ret trades,
   (set_books (<[sym := b']> (books_ s.1)) s.1, mkWorld (w_risk s.2) (w_ext s.2) t)).

(** * Events *)

Definition emit (ev : OrderEvent) : M unit :=
  do! consumer <- engine_get eventConsumer_;
  ctry (in_world (consumer ev)).

Definition notify_fill (fill : FillEvent) : M unit :=
  do! consumer <- engine_get fillConsumer_;
  in_world (in_order (consumer fill)).

(** * Stop orders *)

Definition stop_triggered (lastPrice : Z) (stop : Order) : bool :=
  if isBuy stop then stopPrice stop <=? lastPrice else lastPrice <=? stopPrice stop.

Definition activate_stop (sym : string) (stop : Order) : M unit :=
  do! limitOrder <- read_env (Order_create (accountId stop) (symbol stop) (side stop) LIMIT
                                (price stop) 0 (remainingQuantity stop));
  do! _ <- book_match sym limitOrder;
  cret tt.

Definition checkStopTriggers (sym : string) : M unit :=
  do! stops <- engine_get stopOrders_;
  do! books <- engine_get books_;
  match stops !! sym with
  | None => cret tt
  | Some pending =>
      match lastTradePriceValue (default (OrderBook_new sym) (books !! sym)) with
      | None => cret tt
      | Some lastPrice =>
          do! _ <- engine_upd (fun e =>
            set_stopOrders
              (<[sym := filter (fun o => stop_triggered lastPrice o = false) pending]>
                 (stopOrders_ e)) e);
          cfor (filter (fun o => stop_triggered lastPrice o = true) pending)
            (activate_stop sym)
      end
  end.

(** * Submission *)

Definition report_fill (o : Order) (latency : Z) (trade : Trade) : M unit :=
  do! fill <- read_env (FillEvent_new trade latency);
  do! _ <- notify_fill fill;
  do! ev <- read_env (OrderEvent_filled o trade);
  emit ev.

Definition steadyClock : M Z := read_env (fun t => (steady_now t, S t)).

Definition submit (o : Order) : M (list Trade) :=
  do! stopped <- engine_get halted_;
  if (stopped : bool) then
    do! ev <- read_env (OrderEvent_rejected o "ENGINE_HALTED");
    do! _ <- emit ev;
    cret []
  else
    do! riskResult <- riskEngine_checkPreTrade o;
    if negb (approved riskResult) then
      do! ev <- read_env (OrderEvent_rejected o (reason riskResult));
      do! _ <- emit ev;
      cret []
    else
      do! _ <- getOrCreateBook (symbol o);
      do! _ <- getOrCreateLock (symbol o);
      do! ev <- read_env (OrderEvent_received o);
      do! _ <- emit ev;
      do! startTime <- steadyClock;
      do! trades <- with_writeLock (symbol o) (book_match (symbol o) o);
      do! endTime <- steadyClock;
      let latency := Z.quot (sub64 endTime startTime) 1000 in
      do! _ <- cfor trades (report_fill o latency);
      do! _ <- (match trades with
                | [] => cret tt
                | _ => with_writeLock (symbol o) (checkStopTriggers (symbol o))
                end);
      do! _ <- (if bool_decide (type o = LIMIT) && bool_decide (trades = []) then
                  do! ev <- read_env (OrderEvent_resting o);
                  emit ev
                else cret tt);
      cret trades.

(** * Cancellation and queries *)

Definition cancel (sym id : string) : M bool :=
  do! books <- engine_get books_;
  do! locks <- engine_get locks_;
  match books !! sym, locks !! sym with
  | Some b, Some _ =>
      with_writeLock sym (
        let '(removed, b') := removeFromBook id b in
        do! _ <- engine_upd (fun e => set_books (<[sym := b']> (books_ e)) e);
        cret removed)
  | _, _ => cret false
  end.

(** The shared lock is only refused while the lock is held exclusively. *)
Definition getSnapshot (sym : string) (depth : Z) : M (option OrderBookSnapshot) :=
  do! books <- engine_get books_;
  do! locks <- engine_get locks_;
  match books !! sym, locks !! sym with
  | Some b, Some held =>
      if (held : bool) then chang else cret (Some (snapshot depth b))
  | _, _ => cret None
  end.

(** * Control *)

Definition halt : M unit := engine_upd (set_halted true).
Definition resume : M unit := engine_upd (set_halted false).
Definition engine_isHalted : M bool := engine_get halted_.
Definition getBooks : M (gmap string OrderBook) := engine_get books_.

Definition setEventConsumer (consumer : OrderEvent -> cpp W unit) : M unit :=
  engine_upd (fun e => mkEngine (books_ e) (locks_ e) (stopOrders_ e) (mapMutex_ e)
                         consumer (fillConsumer_ e) (halted_ e)).

Definition setFillConsumer (consumer : FillEvent -> list (cpp W unit)) : M unit :=
  engine_upd (fun e => mkEngine (books_ e) (locks_ e) (stopOrders_ e) (mapMutex_ e)
                         (eventConsumer_ e) consumer (halted_ e)).
End Engine.
