(* ===== verification/EngineInvariant.v ===== *)
(** The invariant of the matching engine and its preservation by every operation,
    proved against the interface of the pre-trade gate. *)

From Stdlib Require Import ZArith Lia.
From stdpp Require Import base numbers gmap strings list relations.
From S2P Require Import Prelude Model OrderBook Matching BookSpec BookInvariant BookTheorems BookGuarantees Events CircuitBreaker RiskEngine MatchingEngine.

Local Open Scope Z_scope.
Local Open Scope cpp_scope.

(** * What matching leaves in the book *)

Section BookLemmas.
Context `{Env}.

Lemma insertIntoBook_symbol o b : symbol_ (insertIntoBook o b) = symbol_ b.
Proof. unfold insertIntoBook. by destruct (isBuy o). Qed.

Lemma removeFromBook_symbol id b : symbol_ (removeFromBook id b).2 = symbol_ b.
Proof. unfold removeFromBook. by repeat case_match. Qed.

Lemma after_side_symbol crosses a b t : symbol_ (after_side crosses a b t) = symbol_ b.
Proof. unfold after_side, leave_side. by destruct (isBuy a). Qed.

Lemma matchLimit_symbol a b t : symbol_ (matchLimit a b t).1.2 = symbol_ b.
Proof.
  rewrite matchLimit_book.
  case_match; rewrite ?insertIntoBook_symbol; apply after_side_symbol.
Qed.

Lemma match_symbol o b t : symbol_ (match_ o b t).1.2 = symbol_ b.
Proof.
  unfold match_. destruct (type o).
  - apply (after_side_symbol (fun _ => true)).
  - apply matchLimit_symbol.
  - rewrite matchIoc_book, removeFromBook_symbol. apply matchLimit_symbol.
  - unfold matchFok. case_match; [done|]. apply (after_side_symbol (fun _ => true)).
  - done.
Qed.

Lemma removeFromBook_subset id b x :
  x ∈ book_orders (removeFromBook id b).2 -> x ∈ book_orders b.
Proof.
  unfold removeFromBook, book_orders.
  repeat (case_match; cbn; try done); rewrite !elem_of_app;
    intros [?|?]; eauto using map_remove_order_subset.
Qed.

Lemma matchLimit_orders a b t x :
  wf_sides b -> incoming_ok a -> x ∈ book_orders (matchLimit a b t).1.2 ->
  (exists x', x' ∈ book_orders b /\ same_order x x') \/ same_order x a.
Proof.
  intros Hwf [Hq Hr]. rewrite <- Hq in Hr. rewrite matchLimit_book. case_match.
  - rewrite insertIntoBook_orders, elem_of_cons. intros [->|Hx]; [by right|].
    left. by eapply after_side_ids.
  - left. by eapply after_side_ids.
Qed.

(** Every order in the book after a call was there before or is the rest of the
    incoming one; only quantity, status and time stamp can have changed. *)
Lemma match_orders o b t x :
  wf_sides b -> incoming_ok o -> x ∈ book_orders (match_ o b t).1.2 ->
  (exists x', x' ∈ book_orders b /\ same_order x x') \/ same_order x o.
Proof.
  intros Hwf Hin. pose proof Hin as [Hq Hr]. rewrite <- Hq in Hr.
  unfold match_. destruct (type o).
  - intros Hx. left. exact (after_side_ids (fun _ => true) o b t Hwf Hr x Hx).
  - by apply matchLimit_orders.
  - rewrite matchIoc_book. intros Hx%removeFromBook_subset. by eapply matchLimit_orders.
  - unfold matchFok. case_match; [eauto using same_order_refl|].
    intros Hx. left. exact (after_side_ids (fun _ => true) o b t Hwf Hr x Hx).
  - eauto using same_order_refl.
Qed.

Lemma side_of_resting s b x : wf_sides b -> x ∈ orders_of (book_side s b) -> side x = s.
Proof.
  intros Hwf Hx. destruct (wf_sides_side s b Hwf) as [Hok _].
  apply orders_of_resting in Hok. rewrite Forall_forall in Hok. by apply Hok.
Qed.

(** The passive side of a trade, without the assumption that quantities fit. *)
Lemma match_trades_passive o b t :
  wf_sides b -> incoming_ok o ->
  Forall (fun tr => from_aggressor o tr /\
    exists x, x ∈ orders_of (book_side (opposite (side o)) b) /\
      passiveOrderId tr = orderId x /\ passiveAccountId tr = accountId x /\
      t_price tr = price x /\ 0 < t_quantity tr <= remainingQuantity x)
    (match_ o b t).1.1.
Proof.
  intros Hwf Hin. destruct (match_trades_cases o b t) as [[-> _]|(crosses & -> & _)]; [done|].
  destruct (run_side_refines crosses o b t Hwf Hin) as [Hspec _].
  destruct (spec_fill_part _ _ _ _ _ _ (opposite_queue_positive o b Hwf) Hspec) as [Hp _].
  apply Forall_fmap in Hp. pose proof (run_side_aggressor crosses o b t Hwf Hin) as Hag.
  rewrite Forall_forall in Hp, Hag. apply Forall_forall. intros tr Htr.
  destruct (Hp tr Htr) as (_ & x & Hx & Hpart). split; [by apply Hag|].
  by eapply (part_of_resting _ _ (fill_of tr)).
Qed.
End BookLemmas.

(** * The invariant *)

Section Invariant.
Context `{Env} {R X : Type} `{PreTradeGateLaws R}.

Abbreviation W := (World R X).
Abbreviation State := (MatchingEngine W * W)%type.

Implicit Types (e : MatchingEngine W) (w : W).

(** The part of the gate's state that a consumer must leave alone. *)
Definition gate_kept (r r' : R) : Prop :=
  gate_seen r ⊆ gate_seen r' /\ forall a s, gate_active r' a s <-> gate_active r a s.

#[export] Instance gate_kept_preorder : PreOrder gate_kept.
Proof.
  split; [by split|]. intros r1 r2 r3 [? E1] [? E2]. split; [by etrans|].
  intros a s. by rewrite E2.
Qed.

(** [throws]: the fill consumer may throw (an exception of the event consumer is
    caught); [hangs]: a consumer may never return. *)
Variables throws hangs : Prop.

Definition consumer_kept {E} (throws : Prop) (consumer : E -> cpp W unit) : Prop :=
  forall ev w, post (consumer ev) w (fun _ w' => gate_kept (w_risk w) (w_risk w'))
                 (fun w' => throws /\ gate_kept (w_risk w) (w_risk w')) hangs.

Record book_in (r : R) (sym : string) (b : OrderBook) : Prop := {
  bi_symbol : symbol_ b = sym;
  bi_sides : wf_sides b;
  bi_index : FreedReadsOld -> index_ok (book_orders b) (orderIndex_ b);
  bi_orders : forall x, x ∈ book_orders b ->
    symbol x = sym /\ orderId x ∈ gate_seen r /\ gate_active r (accountId x) (side x)
}.

Record engine_ok (s : State) : Prop := {
  eo_books : forall sym b, books_ s.1 !! sym = Some b -> book_in (w_risk s.2) sym b;
  eo_locks : forall sym h, locks_ s.1 !! sym = Some h -> h = false;
  eo_pairs : forall sym, is_Some (books_ s.1 !! sym) <-> is_Some (locks_ s.1 !! sym);
  eo_mutex : mapMutex_ s.1 = false;
  eo_stops : stopOrders_ s.1 = ∅;
  eo_event : consumer_kept True (eventConsumer_ s.1);
  eo_fill : consumer_kept throws (fun fill => in_order (fillConsumer_ s.1 fill));
  eo_one_side : forall a, ~ (gate_active (w_risk s.2) a BUY /\ gate_active (w_risk s.2) a SELL)
}.

Lemma book_in_kept r r' sym b :
  gate_seen r ⊆ gate_seen r' ->
  (forall a s, gate_active r a s -> gate_active r' a s) ->
  book_in r sym b -> book_in r' sym b.
Proof.
  intros Hs Ha [? ? ? Ho]. split; try done. intros x Hx.
  destruct (Ho x Hx) as (?&?&?). auto.
Qed.

(** ** Changes of the world *)

Definition kept (s s' : State) : Prop :=
  s'.1 = s.1 /\ gate_kept (w_risk s.2) (w_risk s'.2).

#[export] Instance kept_preorder : PreOrder kept.
Proof.
  split; [by split|]. intros s1 s2 s3 [E1 K1] [E2 K2]. split; [congruence|by etrans].
Qed.

Lemma engine_ok_kept s s' : kept s s' -> engine_ok s -> engine_ok s'.
Proof.
  intros [E [Hs Ha]] []. split; rewrite ?E; try done.
  - intros sym b Hb. eapply book_in_kept; [done| |by apply eo_books0].
    intros a d. apply Ha.
  - intros a. rewrite !Ha. apply eo_one_side0.
Qed.

(** A call that leaves the engine alone and keeps what the gate relies on. *)
Definition keeps {A} (m : cpp State A) (throws : Prop) (s : State) : Prop :=
  post m s (fun _ => kept s) (fun s' => throws /\ kept s s') hangs.

Lemma keeps_bind {A B} (m : cpp State A) (k : A -> cpp State B) T s :
  engine_ok s -> keeps m T s ->
  (forall a s', engine_ok s' -> keeps (k a) T s') -> keeps (cbind m k) T s.
Proof.
  intros Hok Hm Hk. apply post_bind. eapply post_mono; [exact Hm| |done].
  intros a s1 K. eapply post_mono; [exact (Hk a s1 (engine_ok_kept _ _ K Hok))|..]; cbn.
  - intros _ s2 K2. exact (transitivity K K2).
  - intros s2 [HT K2]. split; [done|]. exact (transitivity K K2).
Qed.

Lemma keeps_read_env {A} (f : nat -> A * nat) T s : keeps (read_env f) T s.
Proof. unfold keeps, post, read_env. by destruct (f _). Qed.

Lemma keeps_in_world {Ev} (consumer : Ev -> cpp W unit) ev T s :
  consumer_kept T consumer -> keeps (in_world (consumer ev)) T s.
Proof.
  intros Hc. specialize (Hc ev s.2). unfold keeps, post, in_world in *.
  destruct (consumer ev s.2) as [[| |] w]; [done| |done]. by destruct Hc.
Qed.

Lemma keeps_consumed ev T s :
  consumer_kept True (eventConsumer_ s.1) -> keeps (emit ev) T s.
Proof.
  intros Hc. apply post_bind, post_try. cbn.
  eapply post_mono; [apply keeps_in_world, Hc|done|]. by intros s' [].
Qed.

Lemma keeps_emit ev T s : engine_ok s -> keeps (emit ev) T s.
Proof. intros Hok. apply keeps_consumed, Hok. Qed.

Lemma keeps_notified fill s :
  consumer_kept throws (fun fill => in_order (fillConsumer_ s.1 fill)) ->
  keeps (notify_fill fill) throws s.
Proof. intros Hc. apply post_bind. exact (keeps_in_world _ fill _ s Hc). Qed.

Lemma keeps_notify_fill fill s : engine_ok s -> keeps (notify_fill fill) throws s.
Proof. intros Hok. apply keeps_notified, Hok. Qed.

#[local] Hint Resolve keeps_read_env keeps_emit keeps_notify_fill : titanx.

(** An event is built, then emitted. *)
Lemma keeps_emit_new (f : nat -> OrderEvent * nat) T s :
  engine_ok s -> keeps (do! ev <- read_env f; emit ev) T s.
Proof. intros. apply keeps_bind; auto with titanx. Qed.

#[local] Hint Resolve keeps_emit_new : titanx.

Lemma keeps_report_fill o lat trade s :
  engine_ok s -> keeps (report_fill o lat trade) throws s.
Proof.
  intros Hok. apply keeps_bind; auto with titanx. intros fill s1 Hok1.
  apply keeps_bind; auto with titanx.
Qed.

#[local] Hint Resolve keeps_report_fill : titanx.

Lemma keeps_report_fills o lat trades s :
  engine_ok s -> keeps (cfor trades (report_fill o lat)) throws s.
Proof.
  revert s. induction trades as [|tr trades IH]; intros s Hok; [done|].
  cbn [cfor]. apply keeps_bind; auto with titanx.
Qed.

(** ** The calls on a free engine *)

Definition ensure_symbol (sym : string) (e : MatchingEngine W) : MatchingEngine W :=
  mkEngine
    (match books_ e !! sym with
     | None => <[sym := OrderBook_new sym]> (books_ e) | Some _ => books_ e end)
    (match locks_ e !! sym with
     | None => <[sym := false]> (locks_ e) | Some _ => locks_ e end)
    (stopOrders_ e) (mapMutex_ e) (eventConsumer_ e) (fillConsumer_ e) (halted_ e).

(** The next position in the environment. *)
Definition advance {A} (f : nat -> A * nat) (w : W) : W :=
  mkWorld (w_risk w) (w_ext w) (f (w_t w)).2.

Lemma read_env_run {A} (f : nat -> A * nat) (s : State) :
  read_env f s = (Ret (f (w_t s.2)).1, (s.1, advance f s.2)).
Proof. unfold read_env, advance. by destruct (f _). Qed.

Lemma ensure_symbol_run {B} sym (k : unit -> cpp State B) e w :
  mapMutex_ e = false ->
  (do! _ <- getOrCreateBook sym; do! _ <- getOrCreateLock sym; k tt) (e, w) =
  k tt (ensure_symbol sym e, w).
Proof.
  destruct e as [bks lks sts m ec fc h]. cbn. intros ->.
  unfold cbind, getOrCreateBook, getOrCreateLock, with_mapMutex, create_book, create_lock, ensure_symbol.
  cbn.
  destruct (bks !! sym); cbn; by destruct (lks !! sym).
Qed.

Lemma writeLock_match_run sym o e w :
  locks_ e !! sym = Some false ->
  with_writeLock sym (book_match sym o) (e, w) = book_match sym o (e, w).
Proof.
  destruct e as [bks lks sts m ec fc h]. cbn. intros Hl.
  unfold with_writeLock, book_match, cbind. cbn. rewrite Hl. cbn.
  destruct (match_ _ _ _) as [[trs b'] t']. cbn.
  unfold set_locks, set_books. cbn. by rewrite insert_insert_eq, (insert_id lks).
Qed.

(** Without stored stop orders, the trigger check does nothing. *)
Lemma writeLock_stops_run sym e w :
  locks_ e !! sym = Some false -> stopOrders_ e = ∅ ->
  with_writeLock sym (checkStopTriggers sym) (e, w) = (Ret tt, (e, w)).
Proof.
  destruct e as [bks lks sts m ec fc h]. cbn. intros Hl ->.
  unfold with_writeLock, checkStopTriggers, cbind. cbn. rewrite Hl. cbn.
  rewrite lookup_empty. unfold set_locks. cbn. by rewrite insert_insert_eq, (insert_id lks).
Qed.

Lemma book_match_run sym o e w :
  book_match sym o (e, w) =
  let b := default (OrderBook_new sym) (books_ e !! sym) in
  (Ret (match_ o b (w_t w)).1.1,
   (set_books (<[sym := (match_ o b (w_t w)).1.2]> (books_ e)) e,
    mkWorld (w_risk w) (w_ext w) (match_ o b (w_t w)).2)).
Proof. unfold book_match. cbn. by destruct (match_ _ _ _) as [[trs b'] t']. Qed.

(** ** Preservation *)

Lemma new_book_in r sym : book_in r sym (OrderBook_new sym).
Proof.
  destruct (OrderBook_new_wf sym). split; try done. by intros x ?%not_elem_of_nil.
Qed.

Lemma ensure_symbol_ok sym e w :
  engine_ok (e, w) ->
  engine_ok (ensure_symbol sym e, w) /\ locks_ (ensure_symbol sym e) !! sym = Some false /\
  exists b, books_ (ensure_symbol sym e) !! sym = Some b /\
    (books_ e !! sym = Some b \/ books_ e !! sym = None /\ b = OrderBook_new sym).
Proof.
  intros []. cbn in *.
  pose proof (new_book_in (w_risk w) sym) as Hnew.
  pose proof (eo_pairs0 sym) as Hpair. unfold ensure_symbol. split_and!.
  - split; cbn; try done.
    + destruct (books_ e !! sym) eqn:E; [done|]. intros s' b.
      rewrite lookup_insert. case_decide; [by intros [= <-]; subst|auto].
    + destruct (locks_ e !! sym) eqn:E; [done|]. intros s' h.
      rewrite lookup_insert. case_decide; [by intros [= <-]|eauto].
    + intros s'. destruct (decide (s' = sym)) as [->|Hne].
      * destruct (books_ e !! sym) eqn:E, (locks_ e !! sym) eqn:E';
          rewrite ?lookup_insert_eq, ?E, ?E'; cbn; try done; naive_solver.
      * destruct (books_ e !! sym) eqn:E, (locks_ e !! sym) eqn:E';
          rewrite ?lookup_insert_ne by done; apply eo_pairs0.
  - cbn. destruct (locks_ e !! sym) as [h|] eqn:E; [|by rewrite lookup_insert_eq].
    rewrite E. f_equal. by eapply eo_locks0.
  - cbn. destruct (books_ e !! sym) as [b|] eqn:E; [eauto|].
    exists (OrderBook_new sym). rewrite lookup_insert_eq. auto.
Qed.

(** The check of the gate keeps every account on one side. *)
Lemma gate_one_side o r res r' :
  gate_check o r = Ret (res, r') ->
  (forall a, ~ (gate_active r a BUY /\ gate_active r a SELL)) ->
  forall a, ~ (gate_active r' a BUY /\ gate_active r' a SELL).
Proof.
  intros E Hone a [Hb Hs].
  destruct (gate_active_new _ _ _ _ _ _ E Hb) as [Hb'|(Happ & -> & Hside)];
    destruct (gate_active_new _ _ _ _ _ _ E Hs) as [Hs'|(Happ' & Ha & Hside')];
    [by eapply Hone|..|congruence].
  - destruct (gate_approved _ _ _ _ E Happ') as (_ & _ & Hn & _).
    rewrite <- Hside', <- Ha in Hn. done.
  - destruct (gate_approved _ _ _ _ E Happ) as (_ & _ & Hn & _).
    rewrite <- Hside in Hn. done.
Qed.

Lemma gate_book_in o r res r' sym b :
  gate_check o r = Ret (res, r') -> book_in r sym b -> book_in r' sym b.
Proof.
  intros E. apply book_in_kept; [by eapply gate_seen_mono|]. intros a d. by eapply gate_active_mono.
Qed.

(** The check of the gate. *)
Lemma gate_check_ok o e w res r :
  gate_check o (w_risk w) = Ret (res, r) -> engine_ok (e, w) ->
  engine_ok (e, mkWorld r (w_ext w) (w_t w)).
Proof.
  intros E []. cbn in *. split; try done; cbn.
  - intros sym b Hb. by eapply gate_book_in, eo_books0.
  - by eapply gate_one_side.
Qed.

(** An approved order is fresh for every book. *)
Lemma gate_check_fresh o e w res r sym b :
  gate_check o (w_risk w) = Ret (res, r) -> approved res = true -> engine_ok (e, w) ->
  books_ e !! sym = Some b -> orderId o ∉ book_ids b.
Proof.
  intros E Ha Hok Hb (x & Hid & Hx)%list_elem_of_fmap.
  destruct (gate_approved _ _ _ _ E Ha) as (Hn & _). apply Hn. rewrite Hid.
  by apply (bi_orders _ _ _ (eo_books _ Hok sym b Hb)).
Qed.

(** One operation on a sound book. *)
Lemma match_book_in r o b t :
  book_in r (symbol o) b -> incoming_ok o -> orderId o ∉ book_ids b -> orderId o ∈ gate_seen r ->
  gate_active r (accountId o) (side o) -> book_in r (symbol o) (match_ o b t).1.2.
Proof.
  intros [Hsym Hwf Hidx Hord] Hin Hfresh Hseen Hact. split.
  - by rewrite match_symbol.
  - by apply match_sides.
  - intros Hold. apply match_wf; [|done..]. split; [done|by apply Hidx].
  - intros x Hx. destruct (match_orders o b t x Hwf Hin Hx) as
      [(x' & Hx' & -> & -> & -> & -> & _)|(-> & -> & -> & -> & _)]; auto.
Qed.

Lemma remove_book_in r sym id b :
  book_in r sym b -> book_in r sym (removeFromBook id b).2.
Proof.
  intros [Hsym Hwf Hidx Hord]. split.
  - by rewrite removeFromBook_symbol.
  - by apply removeFromBook_sides.
  - intros Hold. apply removeFromBook_wf. split; [done|by apply Hidx].
  - intros x Hx. by eapply Hord, removeFromBook_subset.
Qed.

(** No trade between two orders of one account. *)
Lemma book_no_self_trade r o b t :
  (forall a, ~ (gate_active r a BUY /\ gate_active r a SELL)) ->
  book_in r (symbol o) b -> incoming_ok o -> gate_active r (accountId o) (side o) ->
  Forall (fun tr => aggressorAccountId tr <> passiveAccountId tr) (match_ o b t).1.1.
Proof.
  intros Hone [_ Hwf _ Hord] Hin Hact.
  eapply Forall_impl; [by apply match_trades_passive|].
  intros tr ((_ & _ & -> & _) & x & Hx & _ & -> & _) E.
  destruct (Hord x) as (_ & _ & Hax); [by eapply elem_of_book_side|].
  rewrite (side_of_resting _ _ _ Hwf Hx), <- E in Hax.
  apply (Hone (accountId o)). by destruct (side o).
Qed.

Lemma book_match_ok o e w b :
  engine_ok (e, w) -> incoming_ok o -> books_ e !! symbol o = Some b ->
  orderId o ∉ book_ids b -> orderId o ∈ gate_seen (w_risk w) ->
  gate_active (w_risk w) (accountId o) (side o) ->
  engine_ok (book_match (symbol o) o (e, w)).2.
Proof.
  intros Hok Hin Hb Hfresh Hseen Hact. rewrite book_match_run, Hb. cbn.
  pose proof (eo_books _ Hok _ _ Hb) as Hbk. destruct Hok. split; try done; cbn in *.
  - intros sym b'. rewrite lookup_insert. case_decide; [|by apply eo_books0].
    intros [= <-]. subst sym. by apply match_book_in.
  - intros sym. rewrite <- eo_pairs0. rewrite lookup_insert. case_decide; [|done].
    subst sym. rewrite Hb. done.
Qed.

Lemma match_no_self_trade o e w b t :
  engine_ok (e, w) -> incoming_ok o -> books_ e !! symbol o = Some b ->
  gate_active (w_risk w) (accountId o) (side o) ->
  Forall (fun tr => aggressorAccountId tr <> passiveAccountId tr) (match_ o b t).1.1.
Proof.
  intros Hok Hin Hb. by apply book_no_self_trade; [apply Hok|apply (eo_books _ Hok)|].
Qed.
End Invariant.
