(* ===== verification/EngineTheorems.v ===== *)
(** The submission pipeline, cancellation and control against the invariant of the
    engine, and the runs of an engine. *)

From Stdlib Require Import ZArith Lia.
From stdpp Require Import base numbers gmap strings list relations.
From S2P Require Import Prelude Model OrderBook Matching BookSpec BookInvariant BookTheorems BookGuarantees Events CircuitBreaker RiskEngine MatchingEngine EngineInvariant.

Local Open Scope Z_scope.
Local Open Scope cpp_scope.

Section Submission.
Context `{Env} {R X : Type} `{PreTradeGateLaws R}.
Variables throws hangs : Prop.

Abbreviation W := (World R X).
Abbreviation State := (MatchingEngine W * W)%type.
Implicit Types (e : MatchingEngine W) (w : W) (s : State).

(** What a submission does to the books: nothing, or one matching call on the book
    of the order's symbol, which is created first when it is missing. *)
Definition book_for (sym : string) (books : gmap string OrderBook) : OrderBook :=
  default (OrderBook_new sym) (books !! sym).

Inductive submit_effect (o : Order) (books : gmap string OrderBook)
    : list Trade -> gmap string OrderBook -> Prop :=
| effect_rejected : submit_effect o books [] books
| effect_matched b t :
    b = book_for (symbol o) books ->
    Forall (fun tr => aggressorAccountId tr <> passiveAccountId tr) (match_ o b t).1.1 ->
    submit_effect o books (match_ o b t).1.1 (<[symbol o := (match_ o b t).1.2]> books).

(** The part of [submit] after the order was approved. *)
Definition accepted (o : Order) : cpp State (list Trade) :=
  do! ev <- read_env (OrderEvent_received o);
  do! _ <- emit ev;
  do! startTime <- steadyClock;
  do! trades <- with_writeLock (symbol o) (book_match (symbol o) o);
  do! endTime <- steadyClock;
  let latency := Z.quot (sub64 endTime startTime) 1000 in
  do! _ <- cfor trades (report_fill o latency);
  do! _ <- (match trades with
            | [] => cret tt
            | _ => with_writeLock (symbol o) (checkStopTriggers (symbol o))
            end);
  do! _ <- (if bool_decide (type o = LIMIT) && bool_decide (trades = []) then
              do! ev <- read_env (OrderEvent_resting o);
              emit ev
            else cret tt);
  cret trades.

Definition refused (o : Order) (why : string) : cpp State (list Trade) :=
  do! ev <- read_env (OrderEvent_rejected o why);
  do! _ <- emit ev;
  cret [].

Lemma submit_run o e w :
  mapMutex_ e = false ->
  submit o (e, w) =
  if halted_ e then refused o "ENGINE_HALTED" (e, w)
  else
    match gate_check o (w_risk w) with
    | Ret (res, r) =>
        let w' := mkWorld r (w_ext w) (w_t w) in
        if approved res then accepted o (ensure_symbol (symbol o) e, w')
        else refused o (reason res) (e, w')
    | Throw what => (Throw what, (e, w))
    | Hang => (Hang, (e, mkWorld (gate_blocked (w_risk w)) (w_ext w) (w_t w)))
    end.
Proof.
  intros Hm. unfold submit. unfold cbind at 1. cbn. destruct (halted_ e); [done|].
  unfold cbind at 1. unfold riskEngine_checkPreTrade. cbn.
  destruct (gate_check o (w_risk w)) as [[res r]| |]; [|done..].
  destruct (approved res); cbn [negb]; [|done].
  by rewrite (ensure_symbol_run (symbol o) (fun _ => accepted o)) by done.
Qed.

(** The matching of an order that the gate let through. *)
Definition ready (o : Order) (b : OrderBook) (s : State) : Prop :=
  engine_ok throws hangs s /\ locks_ s.1 !! symbol o = Some false /\
  books_ s.1 !! symbol o = Some b /\ (orderId o ∉ book_ids b) /\
  orderId o ∈ gate_seen (w_risk s.2) /\ gate_active (w_risk s.2) (accountId o) (side o).

Lemma ready_kept o b s s' : kept s s' -> ready o b s -> ready o b s'.
Proof.
  intros K (Hok & Hl & Hb & Hf & Hs & Ha). pose proof (engine_ok_kept _ _ _ _ K Hok) as Hok'.
  destruct K as [E [Hseen Hact]]. unfold ready. rewrite E.
  split_and!; try done; [by apply Hseen|by apply Hact].
Qed.

(** A call on a ready engine that keeps it, followed by the rest. *)
Lemma post_keeps {A B} (m : cpp State A) (k : A -> cpp State B) T s Q E :
  keeps hangs m T s ->
  (forall a s', kept s s' -> post (k a) s' Q E hangs) ->
  (forall s', T -> kept s s' -> E s') ->
  post (cbind m k) s Q E hangs.
Proof.
  intros Hm Hk HE. apply post_bind. eapply post_mono; [exact Hm|exact Hk|].
  intros s' [? ?]. auto.
Qed.

(** The tail of the pipeline leaves the engine alone. *)
Lemma report_keeps o trades lat s :
  engine_ok throws hangs s -> locks_ s.1 !! symbol o = Some false ->
  post (do! _ <- cfor trades (report_fill o lat);
        do! _ <- (match trades with
                  | [] => cret tt
                  | _ => with_writeLock (symbol o) (checkStopTriggers (symbol o))
                  end);
        do! _ <- (if bool_decide (type o = LIMIT) && bool_decide (trades = []) then
                    do! ev <- read_env (OrderEvent_resting o);
                    emit ev
                  else cret tt);
        cret trades) s
    (fun trs s' => trs = trades /\ kept s s') (fun s' => throws /\ kept s s') hangs.
Proof.
  intros Hok Hl. eapply post_keeps; [by apply keeps_report_fills| |done].
  intros [] s1 K1. pose proof (engine_ok_kept _ _ _ _ K1 Hok) as Hok1.
  apply post_bind.
  assert ((match trades with [] => cret tt | _ :: _ =>
            with_writeLock (symbol o) (checkStopTriggers (symbol o)) end) s1 = (Ret tt, s1))
    as Est.
  { destruct trades; [done|]. destruct s1 as [e1 w1], K1 as [E1 _]. cbn in E1. subst e1.
    apply writeLock_stops_run; [done|apply Hok]. }
  unfold post at 1. rewrite Est. apply (post_keeps _ _ throws).
  - destruct (_ && _); [by eapply keeps_emit_new|done].
  - intros [] s2 K2. split; [done|]. exact (transitivity K1 K2).
  - intros s2 HT K2. split; [done|]. exact (transitivity K1 K2).
Qed.

Lemma accepted_post o b s :
  incoming_ok o -> ready o b s ->
  post (accepted o) s
    (fun trades s' => engine_ok throws hangs s' /\ exists t, trades = (match_ o b t).1.1 /\
       books_ s'.1 = <[symbol o := (match_ o b t).1.2]> (books_ s.1))
    (fun s' => throws /\ engine_ok throws hangs s' /\ exists t,
       books_ s'.1 = <[symbol o := (match_ o b t).1.2]> (books_ s.1)) hangs.
Proof.
  intros Hin Hr. eapply (post_keeps _ _ False); [apply keeps_read_env| |done].
  intros ev s1 K1. pose proof (ready_kept _ _ _ _ K1 Hr) as Hr1.
  eapply (post_keeps _ _ False); [eapply keeps_emit, Hr1| |done].
  intros [] s2 K2. pose proof (ready_kept _ _ _ _ K2 Hr1) as Hr2.
  eapply (post_keeps _ _ False); [apply keeps_read_env| |done].
  intros start s3 K3. pose proof (ready_kept _ _ _ _ K3 Hr2) as Hr3.
  assert (books_ s3.1 = books_ s.1) as Hbooks.
  { destruct K1 as [? _], K2 as [? _], K3 as [? _]. congruence. }
  destruct s3 as [e3 w3]. destruct Hr3 as (Hok & Hl & Hb & Hf & Hs & Ha). cbn in *.
  pose proof (book_match_ok _ _ o e3 w3 b Hok Hin Hb Hf Hs Ha) as Hok4.
  apply post_bind. unfold post at 1. rewrite writeLock_match_run by done.
  rewrite book_match_run, Hb in Hok4 |- *. cbn [default fst snd] in Hok4 |- *.
  eapply (post_keeps _ _ False); [apply keeps_read_env| |done].
  intros fin s5 K5. pose proof (engine_ok_kept _ _ _ _ K5 Hok4) as Hok5.
  eapply post_mono; [apply report_keeps; [done|]|..]; cbn.
  - destruct K5 as [-> _]. done.
  - intros trades s6 [-> K6]. split; [by eapply engine_ok_kept|].
    exists (w_t w3). split; [done|]. destruct K6 as [-> _], K5 as [-> _]. cbn. by rewrite Hbooks.
  - intros s6 [HT K6]. split; [done|]. split; [by eapply engine_ok_kept|].
    exists (w_t w3). destruct K6 as [-> _], K5 as [-> _]. cbn. by rewrite Hbooks.
Qed.

Lemma refused_keeps o why s :
  engine_ok throws hangs s ->
  post (refused o why) s (fun trades s' => trades = [] /\ kept s s') (fun _ => False) hangs.
Proof.
  intros Hok. eapply (post_keeps _ _ False); [apply keeps_read_env| |done].
  intros ev s1 K1. eapply (post_keeps _ _ False);
    [eapply keeps_emit, (engine_ok_kept _ _ _ _ K1 Hok)| |done].
  intros [] s2 K2. split; [done|]. exact (transitivity K1 K2).
Qed.

(** The symbol of an approved order is ready for matching. *)
Lemma approved_ready o e w res r :
  engine_ok throws hangs (e, w) ->
  gate_check o (w_risk w) = Ret (res, r) -> approved res = true ->
  ready o (book_for (symbol o) (books_ e))
    (ensure_symbol (symbol o) e, mkWorld r (w_ext w) (w_t w)) /\
  books_ (ensure_symbol (symbol o) e) =
    (if decide (books_ e !! symbol o = None)
     then <[symbol o := OrderBook_new (symbol o)]> (books_ e) else books_ e).
Proof.
  intros Hok E Ha. pose proof (gate_check_ok _ _ _ _ _ _ _ E Hok) as Hok'.
  destruct (ensure_symbol_ok _ _ (symbol o) _ _ Hok') as (Hok2 & Hl & b & Hb & Hold).
  destruct (gate_approved _ _ _ _ E Ha) as (_ & Hseen & _ & Hact).
  assert (book_for (symbol o) (books_ e) = b) as ->.
  { unfold book_for. by destruct Hold as [-> | [-> ->]]. }
  split; [|unfold ensure_symbol; cbn; by destruct (books_ e !! symbol o)].
  unfold ready. split_and!; try done.
  destruct Hold as [Hold|[_ ->]]; [by eapply gate_check_fresh|by apply not_elem_of_nil].
Qed.

Lemma submit_post o e w :
  engine_ok throws hangs (e, w) -> incoming_ok o ->
  (gate_check o (w_risk w) = Hang -> hangs) ->
  post (submit o) (e, w)
    (fun trades s' => engine_ok throws hangs s' /\
       submit_effect o (books_ e) trades (books_ s'.1))
    (fun s' => throws /\ engine_ok throws hangs s' /\
       exists trades, submit_effect o (books_ e) trades (books_ s'.1)) hangs.
Proof.
  intros Hok Hin Hhang. unfold post. rewrite submit_run by apply Hok.
  destruct (halted_ e).
  { pose proof (refused_keeps o "ENGINE_HALTED" _ Hok) as Hr. unfold post in Hr.
    destruct (refused _ _ _) as [[trades| |] s']; [|done..]. destruct Hr as [-> K].
    split; [by eapply engine_ok_kept|]. destruct K as [-> _]. constructor. }
  destruct (gate_check o (w_risk w)) as [[res r]|what|] eqn:E;
    [|by destruct (gate_no_throw _ _ _ E)|auto].
  pose proof (gate_check_ok _ _ _ _ _ _ _ E Hok) as Hok'. cbv zeta.
  destruct (approved res) eqn:Ha.
  - destruct (approved_ready _ _ _ _ _ Hok E Ha) as [Hready Hbooks].
    pose proof (accepted_post _ _ _ Hin Hready) as Hpost. unfold post in Hpost.
    assert (forall b', <[symbol o := b']> (books_ (ensure_symbol (symbol o) e)) =
              <[symbol o := b']> (books_ e)) as Hins.
    { intros b'. rewrite Hbooks. case_decide; [apply insert_insert_eq|done]. }
    assert (forall t, Forall (fun tr => aggressorAccountId tr <> passiveAccountId tr)
              (match_ o (book_for (symbol o) (books_ e)) t).1.1) as Hself.
    { intros t. destruct Hready as (Hok2 & _ & Hb & _ & _ & Hact).
      by apply (match_no_self_trade _ _ _ _ _ _ _ Hok2 Hin Hb Hact). }
    destruct (accepted _ _) as [[trades| |] s']; [| |done].
    + destruct Hpost as (? & t & -> & Hb). split; [done|]. rewrite Hb. cbn. rewrite Hins.
      by constructor.
    + destruct Hpost as (? & ? & t & Hb). split_and!; [done..|]. eexists. rewrite Hb. cbn.
      rewrite Hins. by constructor.
  - pose proof (refused_keeps o (reason res) _ Hok') as Hr. unfold post in Hr.
    destruct (refused _ _ _) as [[trades| |] s']; [|done..]. destruct Hr as [-> K].
    split; [by eapply engine_ok_kept|]. destruct K as [-> _]. constructor.
Qed.

(** ** Cancellation *)

Lemma cancel_run sym id e w :
  engine_ok throws hangs (e, w) ->
  cancel sym id (e, w) =
  match books_ e !! sym with
  | None => (Ret false, (e, w))
  | Some b =>
      (Ret (removeFromBook id b).1,
       (set_books (<[sym := (removeFromBook id b).2]> (books_ e)) e, w))
  end.
Proof.
  intros [_ Hlocks Hpairs _ _ _ _ _]. cbn in *. unfold cancel, with_writeLock, cbind. cbn.
  destruct (books_ e !! sym) as [b|] eqn:Hb; [|done].
  destruct (proj1 (Hpairs sym)) as [h Hl]; [by rewrite Hb|].
  pose proof (Hlocks _ _ Hl) as ->. rewrite Hl. cbn. rewrite Hl. destruct e as [bks lks sts m ec fc hl]. cbn in *.
  destruct (removeFromBook id b) as [r b']. cbn.
  unfold set_locks, set_books. cbn. by rewrite insert_insert_eq, (insert_id lks).
Qed.

Lemma cancel_ok sym id e w :
  engine_ok throws hangs (e, w) -> engine_ok throws hangs (cancel sym id (e, w)).2.
Proof.
  intros Hok. rewrite cancel_run by done.
  destruct (books_ e !! sym) as [b|] eqn:Hb; [|done]. cbn.
  pose proof (eo_books _ _ _ Hok _ _ Hb) as Hbk.
  destruct Hok as [Hbooks ? Hpairs]. cbn in *. split; try done; cbn.
  - intros sym' b'. rewrite lookup_insert. case_decide; [|by apply Hbooks].
    intros [= <-]. subst sym'. by apply remove_book_in.
  - intros sym'. rewrite <- Hpairs, lookup_insert. case_decide; [|done].
    subst sym'. by rewrite Hb.
Qed.

(** ** Runs *)

(** One call on the engine: a submission that returns or throws, a cancellation,
    the kill switch, or a change of the world by another component. *)
Inductive engine_step : State -> State -> Prop :=
| step_submit o s s' :
    incoming_ok o -> (submit o s).2 = s' -> (submit o s).1 <> Hang -> engine_step s s'
| step_cancel sym id s : engine_step s (cancel sym id s).2
| step_halt s : engine_step s (halt s).2
| step_resume s : engine_step s (resume s).2
| step_world s w' :
    gate_kept (w_risk s.2) (w_risk w') -> engine_step s (s.1, w').

Lemma engine_step_ok s s' :
  (hangs <-> True) -> engine_step s s' -> engine_ok throws hangs s -> engine_ok throws hangs s'.
Proof.
  intros HN Hstep Hok.
  destruct Hstep as [o [e w] s' Hin <- Hret|sym id [e w]|[e w]|[e w]|s w' K].
  - pose proof (submit_post o e w Hok Hin ltac:(tauto)) as Hp. unfold post in Hp.
    destruct (submit o (e, w)) as [[trades| |] s'']; [by apply Hp..|done].
  - by apply cancel_ok.
  - destruct Hok. by split.
  - destruct Hok. by split.
  - apply (engine_ok_kept _ _ s); [by split|done].
Qed.

(** A new engine with the consumers installed. *)
Definition wired (ec : OrderEvent -> cpp W unit) (fc : FillEvent -> list (cpp W unit))
    : MatchingEngine W :=
  mkEngine ∅ ∅ ∅ false ec fc false.

Lemma wired_ok ec fc w :
  consumer_kept hangs True ec -> consumer_kept hangs throws (fun fill => in_order (fc fill)) ->
  (forall a, ~ (gate_active (w_risk w) a BUY /\ gate_active (w_risk w) a SELL)) ->
  engine_ok throws hangs (wired ec fc, w).
Proof.
  intros. split; cbn; try done.
  intros sym. rewrite !lookup_empty. done.
Qed.
End Submission.
