(* ===== verification/RedisPositionCache.v ===== *)
(** The position cache (include/titanx/persistence/RedisPositionCache.hpp,
    src/persistence/RedisPositionCache.cpp).  The Redis server is outside the
    program: what it replies is a function of the commands sent to it.  The connection has
    no timeout for commands, so a command that is not answered blocks for ever. *)

From Stdlib Require Import ZArith Lia Ascii.
From stdpp Require Import base numbers gmap strings list pretty.
From S2P Require Import Prelude Text Model.

Local Open Scope Z_scope.
Local Open Scope cpp_scope.

(** * The server *)

Inductive RedisReply :=
| REDIS_REPLY_STRING (str : string)
| REDIS_REPLY_INTEGER (integer : Z)
| REDIS_REPLY_NIL
| REDIS_REPLY_ERROR (str : string).

(** A null reply stands for a broken connection. *)
Inductive RedisAnswer := Reply (r : RedisReply) | NullReply | NoAnswer.

(** What the last of the commands gets. *)
Class RedisServer := redis_reply : list (list string) -> RedisAnswer.

(** Every command gets a reply or finds the connection broken. *)
Class RedisReplies `{RedisServer} : Prop := redis_replies : forall h, redis_reply h <> NoAnswer.

(** * The cache *)

Record RedisPositionCache := mkRedis {
  ctx_ : bool;                       (* connected *)
  sent_ : list (list string)         (* the commands sent on the connection *)
}.

Definition RedisPositionCache_new (connected : bool) : RedisPositionCache :=
  mkRedis connected [].

Definition positionKey (accountId symbol : string) : string :=
  "pos:" +:+ accountId +:+ ":" +:+ symbol.

Definition orderKey (orderId : string) : string := "order:" +:+ orderId +:+ ":status".

Section Cache.
Context `{RedisServer}.

Definition redisCommand (args : list string) : cpp RedisPositionCache (option RedisReply) :=
  fun c =>
    let c := mkRedis (ctx_ c) (sent_ c ++ [args]) in
    match redis_reply (sent_ c) with
    | Reply r => (Ret (Some r), c)
    | NullReply => (Ret None, c)
    | NoAnswer => (Hang, c)
    end.

(** [if (!ctx_) return none;] and the rest. *)
Definition if_connected {A} (none : A) (rest : cpp RedisPositionCache A)
    : cpp RedisPositionCache A :=
  fun c => if negb (ctx_ c) then (Ret none, c) else rest c.

Definition updatePosition (accountId symbol : string) (delta : Z) : cpp RedisPositionCache unit :=
  if_connected tt
    (do! _ <- redisCommand ["INCRBY"; c_str (positionKey accountId symbol); pretty delta];
     cret tt).

Definition getPosition (accountId symbol : string) : cpp RedisPositionCache Z :=
  if_connected 0
    (do! reply <- redisCommand ["GET"; c_str (positionKey accountId symbol)];
     match reply with
     | Some (REDIS_REPLY_STRING str) => clift (stoll str)
     | _ => cret 0
     end).

Definition setOrderStatus (orderId status : string) : cpp RedisPositionCache unit :=
  if_connected tt
    (do! _ <- redisCommand ["SETEX"; c_str (orderKey orderId); "3600"; c_str status];
     cret tt).

Definition getOrderStatus (orderId : string) : cpp RedisPositionCache string :=
  if_connected ""
    (do! reply <- redisCommand ["GET"; c_str (orderKey orderId)];
     match reply with
     | Some (REDIS_REPLY_STRING str) => cret str
     | _ => cret ""
     end).

Definition publishFill (symbol tradeJson : string) : cpp RedisPositionCache unit :=
  if_connected tt
    (do! _ <- redisCommand ["PUBLISH"; c_str ("fills:" +:+ symbol); c_str tradeJson];
     cret tt).

Definition redis_close (c : RedisPositionCache) : RedisPositionCache :=
  if ctx_ c then mkRedis false (sent_ c) else c.
End Cache.

(** * Keys *)

(** Accounts without a colon have distinct keys. *)
Lemma positionKey_inj a1 s1 a2 s2 :
  no_char ":" a1 -> no_char ":" a2 -> positionKey a1 s1 = positionKey a2 s2 ->
  a1 = a2 /\ s1 = s2.
Proof.
  intros H1 H2 E. unfold positionKey in E. cbn in E. injection E as E.
  by apply split_at_char in E.
Qed.

(** * Counters

    The documented behaviour of [INCRBY] and [GET]: a key holds the sum of its
    increments as long as no prefix of them overflows, and increments are answered. *)

Definition is_incr (key : string) (cmd : list string) : bool :=
  match cmd with
  | [op; k; _] => bool_decide (op = "INCRBY" /\ k = key)
  | _ => false
  end.

Definition incr_value (key : string) (cmd : list string) : Z :=
  match cmd with
  | [op; k; d] =>
      if bool_decide (op = "INCRBY" /\ k = key)
      then match stoll d with Ret v => v | _ => 0 end else 0
  | _ => 0
  end.

Definition incr_total (key : string) (h : list (list string)) : Z :=
  foldr (fun cmd acc => incr_value key cmd + acc) 0 h.

Definition overwrites (key : string) (cmd : list string) : bool :=
  match cmd with
  | op :: k :: _ => bool_decide (op = "SETEX" /\ k = key)
  | _ => false
  end.

Class RedisCounters `{RedisServer} : Prop := {
  redis_get_counter : forall h key,
    (forall h', h' `prefix_of` h -> int64 (incr_total key h')) ->
    existsb (overwrites key) h = false ->
    redis_reply (h ++ [["GET"; key]]) =
      Reply (if existsb (is_incr key) h then REDIS_REPLY_STRING (pretty (incr_total key h))
             else REDIS_REPLY_NIL);
  redis_incr_answered : forall h key delta, redis_reply (h ++ [["INCRBY"; key; delta]]) <> NoAnswer
}.

(** A position update: account, symbol, signed quantity. *)
Record PositionUpdate := mkUpdate { u_account : string; u_symbol : string; u_delta : Z }.

Definition update_sum (acct sym : string) (us : list PositionUpdate) : Z :=
  foldr (fun u acc =>
    (if decide (u_account u = acct /\ u_symbol u = sym) then u_delta u else 0) + acc) 0 us.

Definition plain_key (acct sym : string) : Prop :=
  no_char ":" acct /\ no_char Ascii.zero acct /\ no_char Ascii.zero sym.

Lemma plain_key_c_str acct sym :
  plain_key acct sym -> c_str (positionKey acct sym) = positionKey acct sym.
Proof.
  intros (_ & Ha & Hs). apply c_str_id. unfold positionKey.
  rewrite !no_char_app. cbn. split_and!; done.
Qed.

Section Ledger.
Context `{RedisCounters}.

Definition apply_updates (us : list PositionUpdate) : cpp RedisPositionCache unit :=
  cfor us (fun u => updatePosition (u_account u) (u_symbol u) (u_delta u)).

Definition update_cmd (u : PositionUpdate) : list string :=
  ["INCRBY"; c_str (positionKey (u_account u) (u_symbol u)); pretty (u_delta u)].

Lemma updatePosition_run acct sym delta sent :
  updatePosition acct sym delta (mkRedis true sent) =
  (Ret tt, mkRedis true (sent ++ [update_cmd (mkUpdate acct sym delta)])).
Proof.
  unfold updatePosition, if_connected, redisCommand, cbind, cret. cbn.
  pose proof (redis_incr_answered sent (c_str (positionKey acct sym)) (pretty delta)) as Ha.
  by destruct (redis_reply _).
Qed.

Lemma apply_updates_run us sent :
  apply_updates us (mkRedis true sent) = (Ret tt, mkRedis true (sent ++ (update_cmd <$> us))).
Proof.
  unfold apply_updates. revert sent. induction us as [|u us IH]; intros sent.
  - cbn. by rewrite app_nil_r.
  - cbn [cfor]. unfold cbind at 1. rewrite updatePosition_run, IH, <- app_assoc. by destruct u.
Qed.

Lemma incr_total_updates us acct sym :
  plain_key acct sym ->
  Forall (fun u => plain_key (u_account u) (u_symbol u) /\ int64 (u_delta u)) us ->
  incr_total (positionKey acct sym) (update_cmd <$> us) = update_sum acct sym us /\
  (existsb (is_incr (positionKey acct sym)) (update_cmd <$> us) = false ->
   update_sum acct sym us = 0) /\
  existsb (overwrites (positionKey acct sym)) (update_cmd <$> us) = false.
Proof.
  intros Hk. induction 1 as [|u us [Hu Hd] _ (IH1 & IH2 & IH3)]; [done|].
  rewrite fmap_cons. cbn [incr_total foldr existsb update_sum].
  unfold incr_total, update_sum in IH1. rewrite IH1.
  unfold update_cmd at 1 2. cbn [incr_value is_incr].
  rewrite plain_key_c_str, stoll_pretty by done.
  assert (positionKey (u_account u) (u_symbol u) = positionKey acct sym <->
          u_account u = acct /\ u_symbol u = sym) as Hiff.
  { split; [intros E; eapply positionKey_inj; [apply Hu|apply Hk|done]|by intros [-> ->]]. }
  split_and!; [|intros [E ?%IH2]%orb_false_elim|].
  - f_equal. case_bool_decide; case_decide; tauto.
  - rewrite decide_False by (apply bool_decide_eq_false_1 in E; tauto). done.
  - by rewrite IH3.
Qed.

Lemma prefix_fmap_inv {A B} (f : A -> B) (l : list A) k :
  k `prefix_of` (f <$> l) -> exists l', k = f <$> l' /\ l' `prefix_of` l.
Proof.
  intros [r E]. apply fmap_app_inv in E as (l1 & l2 & -> & -> & ->).
  exists l1. split; [done|by exists l2].
Qed.
End Ledger.

(** * The properties *)

(** C33: the cached position of an account in a symbol is the exact sum of the signed
    quantities it was updated with, whatever the order and the interleaving with the
    updates of other accounts and symbols (accounts without colon, no NUL
    characters, partial sums within an [int64_t]); the server is assumed to behave
    as the documentation of [INCRBY] and [GET] says. *)
Theorem cached_position_is_sum `{RedisCounters} us acct sym :
  plain_key acct sym ->
  Forall (fun u => plain_key (u_account u) (u_symbol u) /\ int64 (u_delta u)) us ->
  (forall us', us' `prefix_of` us -> int64 (update_sum acct sym us')) ->
  ((do! _ <- apply_updates us; getPosition acct sym) (RedisPositionCache_new true)).1 =
    Ret (update_sum acct sym us).
Proof.
  intros Hk Hus Hpre. unfold cbind at 1. unfold RedisPositionCache_new. rewrite apply_updates_run.
  unfold getPosition, if_connected, redisCommand, cbind. cbn [ctx_ negb sent_ app].
  rewrite plain_key_c_str by done.
  destruct (incr_total_updates us acct sym Hk Hus) as (Ht & Hz & Ho).
  rewrite redis_get_counter; [|intros h' (us' & -> & Hp)%prefix_fmap_inv|done].
  - destruct (existsb (is_incr _) _) eqn:E; cbn.
    + rewrite Ht. apply stoll_pretty. by apply Hpre.
    + by rewrite Hz.
  - destruct (incr_total_updates us' acct sym Hk) as (-> & _); [|by apply Hpre].
    destruct Hp as [r ->]. by apply Forall_app in Hus as [? _].
Qed.

(** Without that restriction two accounts can share one counter: the key of
    account "a" in symbol "b:c" is the key of account "a:b" in symbol "c", so an
    update of the one is read back as a position of the other. *)
Theorem position_keys_collide `{RedisCounters} q :
  int64 q ->
  ((do! _ <- updatePosition "a" "b:c" q; getPosition "a:b" "c") (RedisPositionCache_new true)).1 =
    Ret q.
Proof.
  intros Hq. unfold cbind at 1. unfold RedisPositionCache_new. rewrite updatePosition_run.
  unfold getPosition, if_connected, redisCommand, cbind. cbn [ctx_ negb sent_ app snd].
  unfold update_cmd. cbn [u_account u_symbol u_delta].
  change (c_str (positionKey "a" "b:c")) with "pos:a:b:c".
  change (c_str (positionKey "a:b" "c")) with "pos:a:b:c".
  pose proof (redis_get_counter [["INCRBY"; "pos:a:b:c"; pretty q]] "pos:a:b:c") as E.
  assert (forall h', h' `prefix_of` [["INCRBY"; "pos:a:b:c"; pretty q]] ->
            int64 (incr_total "pos:a:b:c" h')) as Hpre.
  { intros h' [r Er]. destruct h' as [|cmd h']; [vm_compute; split; congruence|].
    injection Er as <- Er. symmetry in Er. apply app_nil in Er as [-> ->].
    unfold incr_total. cbn [foldr incr_value]. rewrite bool_decide_true by done.
    rewrite stoll_pretty by done. by rewrite Z.add_0_r. }
  specialize (E Hpre eq_refl). cbn [app] in E. rewrite E. cbn [existsb is_incr].
  rewrite bool_decide_true by done. cbn [orb fst].
  unfold incr_total. cbn [foldr incr_value]. rewrite bool_decide_true by done.
  rewrite (stoll_pretty q), Z.add_0_r by done. by apply stoll_pretty.
Qed.

(** * Witnesses *)

(** A server that keeps counters. *)
Definition counter_server : RedisServer := fun h =>
  match last h with
  | Some [op; key] =>
      if bool_decide (op = "GET")
      then Reply (if existsb (is_incr key) h then REDIS_REPLY_STRING (pretty (incr_total key h))
                  else REDIS_REPLY_NIL)
      else NullReply
  | _ => Reply (REDIS_REPLY_INTEGER 0)
  end.

Lemma counter_server_counts : @RedisCounters counter_server.
Proof.
  split; [intros h key _ _|intros h key delta]; unfold redis_reply, counter_server;
    rewrite last_snoc; [|done]. cbn.
  assert (incr_total key (h ++ [["GET"; key]]) = incr_total key h) as ->.
  { unfold incr_total. by rewrite foldr_app. }
  rewrite existsb_app. cbn. by rewrite !orb_false_r.
Qed.

Lemma counter_server_replies : @RedisReplies counter_server.
Proof. intros h. unfold redis_reply, counter_server. by repeat case_match. Qed.

Definition demo_updates : list PositionUpdate :=
  [mkUpdate "alice" "AAPL" 50; mkUpdate "bob" "AAPL" (-50); mkUpdate "alice" "AAPL" (-20)].

Lemma cached_position_is_sum_witness :
  ((do! _ <- @apply_updates counter_server demo_updates; @getPosition counter_server "alice" "AAPL")
     (RedisPositionCache_new true)).1 = Ret 30.
Proof.
  rewrite (@cached_position_is_sum counter_server counter_server_counts demo_updates).
  - reflexivity.
  - repeat split; discriminate.
  - repeat constructor; discriminate.
  - intros us' [r E]. unfold int64.
    assert (us' = [] \/ us' = take 1 demo_updates \/ us' = take 2 demo_updates \/
            us' = demo_updates) as Hus.
    { do 3 (destruct us' as [|? us']; [auto|]; injection E as <- E).
      destruct us'; [auto|discriminate]. }
    destruct_or!; subst us'; vm_compute; split; congruence.
Defined.

Lemma position_keys_collide_witness :
  ((do! _ <- @updatePosition counter_server "a" "b:c" 7; @getPosition counter_server "a:b" "c")
     (RedisPositionCache_new true)).1 = Ret 7.
Proof.
  apply (@position_keys_collide counter_server counter_server_counts 7).
  vm_compute. split; congruence.
Defined.
