(* ===== verification/EventStore.v ===== *)
(** The event store (include/titanx/persistence/EventStore.hpp,
    src/persistence/EventStore.cpp): producers append to a queue that a dedicated
    thread writes to PostgreSQL, and [close] stops that thread.

    The model interleaves three kinds of threads.  The writer is a program counter
    in [writerLoop]; [close] is another one; a call of [append] is its critical
    section followed by its notification.  The critical sections of the producers
    are atomic, so that the mutex is held exactly at the program counters of the
    writer where it owns it.  The database is outside the program: every call of
    [writeToDb] takes its answers as an argument, and [db_calls] lists the calls that
    were made on it.  An exception of the JSON printer leaves [writerLoop] and
    terminates the process. *)

From Stdlib Require Import ZArith Lia.
From stdpp Require Import base numbers gmap strings list relations.
From S2P Require Import Prelude Model Events Json Fixtures.

Local Open Scope Z_scope.

(** * State *)

(** The place of the writer thread in [writerLoop]. *)
Inductive WriterPc :=
| W_Loop                       (* while (running_.load()) *)
| W_Lock                       (* unique_lock lock(queueMutex_) *)
| W_Pred                       (* the predicate of wait, mutex held *)
| W_Block                      (* about to sleep, mutex held *)
| W_Sleep                      (* waiting on queueCV_ *)
| W_Wake                       (* notified, takes the mutex again *)
| W_Drain                      (* while (!queue_.empty()), mutex held *)
| W_Write (ev : OrderEvent)    (* writeToDb(event), mutex released *)
| W_Relock                     (* lock.lock() *)
| W_FinalLock                  (* lock_guard lock(queueMutex_) *)
| W_FinalDrain                 (* while (!queue_.empty()), mutex held *)
| W_Done
| W_Terminated (lost : list OrderEvent).   (* std::terminate, with the local event *)

Inductive CloserPc :=
| C_Idle                       (* close() not called *)
| C_Notify                     (* running_ is false *)
| C_Join                       (* writerThread_.join() *)
| C_Done.

(** A row of the table [order_events]. *)
Record PgRow := mkRow {
  event_id : string;
  event_type : string;
  order_id : string;
  account_id : string;
  row_symbol : string;
  payload : string;
  occurred_at : Z
}.

(** A call on the database and whether it succeeded: [connectToDb], [PQexecParams]. *)
Inductive DbCall := Connect (ok : bool) | Insert (row : PgRow) (ok : bool).

Record EventStore := mkStore {
  queue_ : list OrderEvent;
  running_ : bool;
  conn_ : bool;                     (* connected *)
  writer : WriterPc;
  closer : CloserPc;
  notifies : nat;                   (* producers before their notify_one() *)
  env_t : nat;
  db_calls : list DbCall;           (* history: the calls on the database *)
  appended : list OrderEvent;       (* history: the arguments of append *)
  processed : list OrderEvent       (* history: the events that writeToDb has handled *)
}.

(** What the database has stored. *)
Definition stored (calls : list DbCall) : list PgRow :=
  omap (fun c => match c with Insert row true => Some row | _ => None end) calls.

Definition rows (s : EventStore) : list PgRow := stored (db_calls s).

(** After the constructor: the writer thread is started, the first connection may
    have failed. *)
Definition EventStore_new (connected : bool) (t : nat) : EventStore :=
  mkStore [] true connected W_Loop C_Idle 0 t [Connect connected] [] [].

(** * Steps *)

(** What the database answers during one [writeToDb]: to the connection attempt of a
    disconnected store, to the INSERT, and to the reconnection after a failure. *)
Record DbAnswer := mkAnswer { connects : bool; executes : bool; reconnects : bool }.

Definition writer_holds (pc : WriterPc) : bool :=
  match pc with W_Pred | W_Block | W_Drain | W_FinalDrain => true | _ => false end.

(** The process has been terminated: no thread moves any more. *)
Definition terminated (s : EventStore) : bool :=
  match writer s with W_Terminated _ => true | _ => false end.

Definition at_writer (pc : WriterPc) (s : EventStore) : EventStore :=
  mkStore (queue_ s) (running_ s) (conn_ s) pc (closer s) (notifies s) (env_t s) (db_calls s)
    (appended s) (processed s).

(** [queueCV_.notify_one()]: without a waiter it has no effect. *)
Definition notify_one (s : EventStore) : EventStore :=
  match writer s with W_Sleep => at_writer W_Wake s | _ => s end.

(** [append]: the critical section, then the notification. *)
Definition append_push (ev : OrderEvent) (s : EventStore) : option EventStore :=
  if writer_holds (writer s) || terminated s then None
  else Some (mkStore (queue_ s ++ [ev]) (running_ s) (conn_ s) (writer s) (closer s)
               (S (notifies s)) (env_t s) (db_calls s) (appended s ++ [ev]) (processed s)).

Definition append_notify (s : EventStore) : option EventStore :=
  match notifies s with
  | O => None
  | S n =>
      if terminated s then None
      else Some (notify_one (mkStore (queue_ s) (running_ s) (conn_ s) (writer s)
                               (closer s) n (env_t s) (db_calls s) (appended s) (processed s)))
  end.

Definition connectToDb (answer : bool) (s : EventStore) : EventStore :=
  mkStore (queue_ s) (running_ s) answer (writer s) (closer s) (notifies s) (env_t s)
    (db_calls s ++ [Connect answer]) (appended s) (processed s).

Definition PQexecParams (row : PgRow) (answer : bool) (s : EventStore) : EventStore :=
  mkStore (queue_ s) (running_ s) (conn_ s) (writer s) (closer s) (notifies s) (S (env_t s))
    (db_calls s ++ [Insert row answer]) (appended s) (processed s).

Definition handled (ev : OrderEvent) (s : EventStore) : EventStore :=
  mkStore (queue_ s) (running_ s) (conn_ s) (writer s) (closer s) (notifies s) (env_t s)
    (db_calls s) (appended s) (processed s ++ [ev]).

Definition pop_queue (pc : WriterPc) (s : EventStore) : EventStore :=
  mkStore (tail (queue_ s)) (running_ s) (conn_ s) pc (closer s) (notifies s)
    (env_t s) (db_calls s) (appended s) (processed s).

(** One step of [close]. *)
Definition close_next (s : EventStore) : option EventStore :=
  let at_closer run conn pc s :=
    mkStore (queue_ s) run conn (writer s) pc (notifies s) (env_t s) (db_calls s)
      (appended s) (processed s) in
  if terminated s then None
  else match closer s with
       | C_Idle => Some (at_closer false (conn_ s) C_Notify s)
       | C_Notify => Some (at_closer (running_ s) (conn_ s) C_Join (notify_one s))
       | C_Join =>
           match writer s with
           | W_Done => Some (at_closer (running_ s) false C_Done s)
           | _ => None
           end
       | C_Done => None
       end.

Section Steps.
Context `{Env} `{JsonPrinter}.

(** The parameters of the INSERT.  The text of the event type is read through
    [titanx::to_string(event.type).c_str()] after the temporary string was
    destroyed. *)
Definition event_row (ev : OrderEvent) (text : string) (t : nat) : PgRow :=
  mkRow (eventId ev) (freed_string t (event_type_to_string (ev_type ev))) (ev_orderId ev)
    (ev_accountId ev) (ev_symbol ev) text (Z.quot (occurredAt ev) 1000000).

Definition writeToDb (ev : OrderEvent) (db : DbAnswer) : cpp EventStore unit := fun s =>
  let s := if conn_ s then s else connectToDb (connects db) s in
  if negb (conn_ s) then (Ret tt, handled ev s)
  else
    match dump (OrderEvent_to_json ev) with
    | Ret text =>
        let s := PQexecParams (event_row ev text (env_t s)) (executes db) s in
        let s := if executes db then s else connectToDb (reconnects db) s in
        (Ret tt, handled ev s)
    | Throw what => (Throw what, s)
    | Hang => (Hang, s)
    end.

(** The writer calls [writeToDb]; an exception terminates the process. *)
Definition write_event (ev : OrderEvent) (db : DbAnswer) (lost : list OrderEvent)
    (next : EventStore -> EventStore) (s : EventStore) : option EventStore :=
  let '(r, s) := writeToDb ev db s in
  match r with
  | Ret _ => Some (next s)
  | Throw _ => Some (at_writer (W_Terminated lost) s)
  | Hang => None
  end.

(** One step of [writerLoop]; [None] when the thread is blocked or has ended. *)
Definition writer_next (db : DbAnswer) (s : EventStore) : option EventStore :=
  match writer s with
  | W_Loop => Some (at_writer (if running_ s then W_Lock else W_FinalLock) s)
  | W_Lock => Some (at_writer W_Pred s)
  | W_Pred =>
      Some (at_writer
              (if negb (bool_decide (queue_ s = [])) || negb (running_ s) then W_Drain
               else W_Block) s)
  | W_Block => Some (at_writer W_Sleep s)
  | W_Sleep => None
  | W_Wake => Some (at_writer W_Pred s)
  | W_Drain =>
      match queue_ s with
      | [] => Some (at_writer W_Loop s)
      | ev :: _ => Some (pop_queue (W_Write ev) s)
      end
  | W_Write ev => write_event ev db [ev] (at_writer W_Relock) s
  | W_Relock => Some (at_writer W_Drain s)
  | W_FinalLock => Some (at_writer W_FinalDrain s)
  | W_FinalDrain =>
      match queue_ s with
      | [] => Some (at_writer W_Done s)
      | ev :: _ => write_event ev db [] (pop_queue W_FinalDrain) s
      end
  | W_Done | W_Terminated _ => None
  end.

(** A condition variable may also wake its waiter without a notification. *)
Definition spurious_wakeup (s : EventStore) : option EventStore :=
  match writer s with W_Sleep => Some (at_writer W_Wake s) | _ => None end.

Inductive store_step : EventStore -> EventStore -> Prop :=
| store_push ev s s' : append_push ev s = Some s' -> store_step s s'
| store_notify s s' : append_notify s = Some s' -> store_step s s'
| store_writer db s s' : writer_next db s = Some s' -> store_step s s'
| store_wakeup s s' : spurious_wakeup s = Some s' -> store_step s s'
| store_close s s' : close_next s = Some s' -> store_step s s'.

(** * How the database is used *)

(** The row tells the event. *)
Record row_of (ev : OrderEvent) (row : PgRow) : Prop := {
  ro_id : event_id row = eventId ev;
  ro_type : FreedReadsOld -> event_type row = event_type_to_string (ev_type ev);
  ro_order : order_id row = ev_orderId ev;
  ro_account : account_id row = ev_accountId ev;
  ro_symbol : row_symbol row = ev_symbol ev;
  ro_payload : dump (OrderEvent_to_json ev) = Ret (payload row);
  ro_time : occurred_at row = Z.quot (occurredAt ev) 1000000
}.

(** The calls on the database for one event, from being connected or not to being
    connected or not.  Without a connection one attempt to connect is made. *)
Definition opening (connected : bool) : list DbCall := if connected then [] else [Connect true].

Inductive attempt : bool -> OrderEvent -> list DbCall -> bool -> Prop :=
| attempt_unreachable ev : attempt false ev [Connect false] false
| attempt_stored c ev row :
    row_of ev row -> attempt c ev (opening c ++ [Insert row true]) true
| attempt_refused c ev row again :
    row_of ev row -> attempt c ev (opening c ++ [Insert row false; Connect again]) again.

(** The calls for one event after the other. *)
Inductive attempts (c : bool) : list OrderEvent -> list DbCall -> bool -> Prop :=
| attempts_none : attempts c [] [] c
| attempts_next evs calls c1 ev seg c2 :
    attempts c evs calls c1 -> attempt c1 ev seg c2 -> attempts c (evs ++ [ev]) (calls ++ seg) c2.
End Steps.

(** * The invariant *)

(** The event that the writer has taken from the queue. *)
Definition in_flight (pc : WriterPc) : list OrderEvent :=
  match pc with W_Write ev => [ev] | W_Terminated lost => lost | _ => [] end.

Definition finishing (pc : WriterPc) : bool :=
  match pc with W_FinalLock | W_FinalDrain | W_Done => true | _ => false end.

Section Facts.
Context `{Env} `{JsonPrinter}.

(** The calls on the database are those for the events that were handled; a process that was
    terminated may have connected for the event that it could not print. *)
Definition db_history (c : bool) (s : EventStore) : Prop :=
  exists calls rest last, db_calls s = Connect c :: calls ++ rest /\
    attempts c (processed s) calls last /\
    (terminated s = false -> rest = []) /\ (closer s <> C_Done -> terminated s = false -> last = conn_ s).

Record store_ok (c : bool) (s : EventStore) : Prop := {
  so_fifo : appended s = processed s ++ in_flight (writer s) ++ queue_ s;
  so_db : db_history c s;
  so_block : writer s = W_Block -> queue_ s = [];
  so_sleep : writer s = W_Sleep -> queue_ s = [] \/ (0 < notifies s)%nat;
  so_final : finishing (writer s) = true -> running_ s = false;
  so_joined : closer s = C_Done -> writer s = W_Done;
  so_terminated : terminated s = true ->
    exists ev what, ev ∈ appended s /\ dump (OrderEvent_to_json ev) = Throw what
}.

Lemma EventStore_new_ok c t : store_ok c (EventStore_new c t).
Proof. split; try done. exists [], [], c. split_and!; try done. constructor. Qed.

Lemma event_row_of ev text t : dump (OrderEvent_to_json ev) = Ret text -> row_of ev (event_row ev text t).
Proof. intros E. split; try done. intros Hold. apply Hold. Qed.

(** What [writeToDb] leaves alone. *)
Record store_kept (s s' : EventStore) : Prop := {
  sk_queue : queue_ s' = queue_ s;
  sk_running : running_ s' = running_ s;
  sk_writer : writer s' = writer s;
  sk_closer : closer s' = closer s;
  sk_notifies : notifies s' = notifies s;
  sk_appended : appended s' = appended s
}.

(** What [writeToDb] does, whatever the database answers. *)
Lemma writeToDb_facts ev db s r s' :
  writeToDb ev db s = (r, s') ->
  store_kept s s' /\
  match r with
  | Ret _ => processed s' = processed s ++ [ev] /\
      exists seg, db_calls s' = db_calls s ++ seg /\ attempt (conn_ s) ev seg (conn_ s')
  | Throw what => processed s' = processed s /\ (exists seg, db_calls s' = db_calls s ++ seg) /\
      dump (OrderEvent_to_json ev) = Throw what
  | Hang => exists j, dump j = Hang
  end.
Proof.
  unfold writeToDb. intros E.
  set (s1 := if conn_ s then s else connectToDb (connects db) s) in E.
  assert (store_kept s s1 /\ processed s1 = processed s) as [Hk Hp] by (unfold s1; by destruct (conn_ s)).
  assert (conn_ s1 = true -> db_calls s1 = db_calls s ++ opening (conn_ s)) as Hopen.
  { unfold s1. destruct (conn_ s); cbn; [by rewrite app_nil_r|]. by intros ->. }
  assert (conn_ s1 = false -> conn_ s = false /\ db_calls s1 = db_calls s ++ [Connect false]) as Hclosed.
  { unfold s1. destruct (conn_ s) eqn:Hc; cbn; [congruence|]. by intros ->. }
  destruct Hk. destruct (conn_ s1) eqn:Hc1; cbn [negb] in E.
  - specialize (Hopen eq_refl).
    destruct (dump (OrderEvent_to_json ev)) as [text|what|] eqn:Ed; injection E as <- <-.
    + pose proof (event_row_of ev text (env_t s1) Ed) as Hrow. destruct (executes db); cbn.
      * split; [by split|]. split; [by rewrite Hp|]. eexists. rewrite Hopen, <- app_assoc.
        split; [done|]. rewrite Hc1. by constructor.
      * split; [by split|]. split; [by rewrite Hp|]. eexists. rewrite Hopen, <- !app_assoc.
        split; [done|]. by constructor.
    + split; [by split|]. eauto.
    + split; [by split|]. eauto.
  - destruct (Hclosed eq_refl) as [Hc Hcalls]. injection E as <- <-. cbn.
    split; [by split|]. split; [by rewrite Hp|]. exists [Connect false]. rewrite Hc, Hc1.
    split; [done|]. constructor.
Qed.

(** A step that leaves the histories alone. *)
Lemma db_same c s s' :
  db_calls s' = db_calls s -> processed s' = processed s -> terminated s' = terminated s ->
  (closer s' <> C_Done -> closer s <> C_Done /\ conn_ s' = conn_ s) ->
  db_history c s -> db_history c s'.
Proof.
  intros Ec Ep Et Hl (calls & rest & last & Hcalls & Ha & Hr & Hlast).
  exists calls, rest, last. rewrite Ec, Ep, Et. split_and!; try done.
  intros Hcl Ht. destruct (Hl Hcl) as [? ->]. auto.
Qed.

Lemma append_push_ok c ev s s' : append_push ev s = Some s' -> store_ok c s -> store_ok c s'.
Proof.
  unfold append_push. destruct (writer_holds (writer s) || terminated s) eqn:Hh; [done|].
  apply orb_false_iff in Hh as [Hh Ht].
  intros [= <-] [Hf Hd Hb Hs Hn Hj Htm]. split; cbn; try done.
  - rewrite Hf. by rewrite !app_assoc.
  - intros E. by rewrite E in Hh.
  - intros _. right. lia.
  - unfold terminated in *. cbn. congruence.
Qed.

(** The writer moves on. *)
Lemma at_writer_ok c pc s :
  in_flight pc = in_flight (writer s) -> (forall lost, pc <> W_Terminated lost) ->
  terminated s = false -> (writer s = W_Done -> pc = W_Done) ->
  (pc = W_Block \/ pc = W_Sleep -> queue_ s = []) ->
  (finishing pc = true -> running_ s = false) ->
  store_ok c s -> store_ok c (at_writer pc s).
Proof.
  intros Hi Hpc Ht Hd Hb Hn [].
  assert (terminated (at_writer pc s) = false) as Ht'
    by (unfold terminated; cbn; destruct pc; try done; by destruct (Hpc lost)).
  split; cbn; try done; try (by rewrite Hi); auto.
  - eapply db_same; [..|exact so_db0]; try done. by rewrite Ht'.
  - by rewrite Ht'.
Qed.

Lemma wakeup_ok c s s' : spurious_wakeup s = Some s' -> store_ok c s -> store_ok c s'.
Proof.
  unfold spurious_wakeup. destruct (writer s) eqn:Hw; try done. intros [= <-] Hok.
  apply at_writer_ok; unfold terminated; rewrite ?Hw; naive_solver.
Qed.

Lemma notify_one_ok c s : store_ok c s -> store_ok c (notify_one s).
Proof.
  intros Hok. pose proof (wakeup_ok c s) as Hwake. unfold spurious_wakeup in Hwake. unfold notify_one.
  destruct (writer s); try done. by apply Hwake.
Qed.

Lemma append_notify_ok c s s' : append_notify s = Some s' -> store_ok c s -> store_ok c s'.
Proof.
  unfold append_notify. destruct (notifies s) as [|n] eqn:En; [done|].
  destruct (terminated s) eqn:Ht; [done|]. intros [= <-] [Hf Hd Hb Hs Hn Hj Htm].
  set (s1 := mkStore _ _ _ _ _ _ _ _ _ _).
  assert (writer s = W_Sleep \/ writer s <> W_Sleep) as [E|E] by (destruct (writer s); auto; by right).
  - assert (store_ok c (at_writer W_Wake s)) as [].
    { apply at_writer_ok; rewrite ?E; try done; naive_solver. }
    unfold notify_one, s1. cbn. rewrite E. by split.
  - assert (store_ok c s1) as Hok1.
    { by split. }
    by apply notify_one_ok.
Qed.

Lemma db_written c ev db s s' :
  db_history c s -> closer s <> C_Done -> terminated s = false ->
  writeToDb ev db s = (Ret tt, s') -> db_history c s'.
Proof.
  intros (calls & rest & last & Hcalls & Ha & Hr & Hl) Hcl Ht E.
  destruct (writeToDb_facts _ _ _ _ _ E) as [[] [Hp (seg & Hseg & Hat)]].
  rewrite (Hr Ht), app_nil_r in Hcalls. rewrite (Hl Hcl Ht) in Ha.
  exists (calls ++ seg), [], (conn_ s'). rewrite Hseg, Hcalls, app_nil_r, Hp. split_and!; try done.
  by econstructor.
Qed.

Lemma db_terminated c ev db s what s' lost :
  db_history c s -> terminated s = false ->
  writeToDb ev db s = (Throw what, s') -> db_history c (at_writer (W_Terminated lost) s').
Proof.
  intros (calls & rest & last & Hcalls & Ha & Hr & Hl) Ht E.
  destruct (writeToDb_facts _ _ _ _ _ E) as [_ (Hp & (seg & Hseg) & _)].
  exists calls, (rest ++ seg), last. cbn. rewrite Hseg, Hcalls, Hp.
  split_and!; try done. cbn. by rewrite <- app_assoc.
Qed.

(** [writeToDb] in the main loop and in the final one: the event is still in the queue or was
    taken from it. *)
Lemma write_event_ok c ev db lost next s s' :
  store_ok c s -> write_event ev db lost next s = Some s' -> ev ∈ appended s ->
  (closer s <> C_Done /\ terminated s = false /\ writer s <> W_Block /\ writer s <> W_Sleep) ->
  appended s = processed s ++ lost ++ queue_ s ->
  (forall s1, writeToDb ev db s = (Ret tt, s1) -> db_history c s1 -> store_kept s s1 ->
     processed s1 = processed s ++ [ev] -> store_ok c (next s1)) ->
  store_ok c s'.
Proof.
  intros Hok E Hev (Hcl & Ht & Hb & Hs) Hf Hnext. unfold write_event in E.
  destruct (writeToDb ev db s) as [[[]|what|] s1] eqn:Ew; [| |done]; injection E as <-;
    destruct (writeToDb_facts _ _ _ _ _ Ew) as [Hk Hfacts].
  - apply Hnext; [done| |done|apply Hfacts]. by eapply db_written; [apply Hok|..].
  - destruct Hk, Hfacts as (Hp & _ & Hd). split; cbn; try done.
    + rewrite Hp, sk_queue0, sk_appended0. done.
    + eapply db_terminated; [apply Hok|done|done].
    + by rewrite sk_closer0.
    + intros _. exists ev, what. by rewrite sk_appended0.
Qed.

Lemma joined_closer c s : store_ok c s -> writer s <> W_Done -> closer s <> C_Done.
Proof. intros Hok Hw Hc. by apply Hw, (so_joined c). Qed.

Lemma writer_next_ok c db s s' : writer_next db s = Some s' -> store_ok c s -> store_ok c s'.
Proof.
  intros E Hok. unfold writer_next in E. pose proof Hok as [Hf Hd Hb Hs Hn Hj Ht].
  pose proof (joined_closer c s Hok) as Hcl.
  assert (forall pc, (forall lost, pc <> W_Terminated lost) -> terminated s = false ->
    writer s <> W_Done -> in_flight pc = in_flight (writer s) ->
    (pc = W_Block \/ pc = W_Sleep -> queue_ s = []) -> (finishing pc = true -> running_ s = false) ->
    store_ok c (at_writer pc s)) as Hmove.
  { intros pc Hpc Htm Hw Hi Hq Hr. by apply at_writer_ok. }
  unfold terminated in Hmove. destruct (writer s) eqn:Hw; try discriminate; cbn in Hf.
  - injection E as <-. destruct (running_ s); apply Hmove; naive_solver.
  - injection E as <-. apply Hmove; naive_solver.
  - injection E as <-. case_bool_decide; destruct (running_ s); cbn; apply Hmove; naive_solver.
  - injection E as <-. apply Hmove; naive_solver.
  - injection E as <-. apply Hmove; naive_solver.
  - destruct (queue_ s) as [|ev q] eqn:Hq; injection E as <-; [apply Hmove; naive_solver|].
    split; cbn; rewrite ?Hq; try done; [|naive_solver].
    eapply db_same; [..|exact Hd]; try done. unfold terminated. by rewrite Hw.
  - eapply write_event_ok; [exact Hok|exact E| | |by rewrite Hf|].
    + rewrite Hf. set_solver.
    + unfold terminated. rewrite Hw. naive_solver.
    + intros s1 _ Hdb [] Hp. split; cbn; try done.
      * rewrite sk_appended0, Hf, Hp, sk_queue0, <- app_assoc. done.
      * eapply db_same; [..|exact Hdb]; try done. unfold terminated. by rewrite sk_writer0, Hw.
      * rewrite sk_closer0. naive_solver.
  - injection E as <-. apply Hmove; naive_solver.
  - injection E as <-. apply Hmove; naive_solver.
  - destruct (queue_ s) as [|ev q] eqn:Hq; [injection E as <-; apply Hmove; naive_solver|].
    eapply write_event_ok; [exact Hok|exact E| | |by rewrite Hf, Hq|].
    + rewrite Hf. set_solver.
    + unfold terminated. rewrite Hw. naive_solver.
    + intros s1 _ Hdb [] Hp. split; cbn; try done.
      * rewrite sk_appended0, Hf, Hp, sk_queue0, Hq, <- app_assoc. done.
      * eapply db_same; [..|exact Hdb]; try done. unfold terminated. by rewrite sk_writer0, Hw.
      * rewrite sk_running0. auto.
      * rewrite sk_closer0. naive_solver.
Qed.

Lemma close_next_ok c s s' : close_next s = Some s' -> store_ok c s -> store_ok c s'.
Proof.
  unfold close_next. intros E Hok. destruct (terminated s) eqn:Ht; [done|].
  destruct (closer s) eqn:Hc; try discriminate.
  - injection E as <-. destruct Hok. split; cbn; try done.
    eapply db_same; [..|exact so_db0]; rewrite ?Hc; done.
  - injection E as <-. pose proof (notify_one_ok c s Hok) as [].
    assert (closer (notify_one s) = C_Notify) as Hc' by (unfold notify_one; by destruct (writer s)).
    split; cbn; try done.
    + eapply db_same; [..|exact so_db0]; rewrite ?Hc'; try done.
      intros _. split; [done|]. unfold notify_one. by destruct (writer s).
    + intros Hf. destruct Hok as [_ _ _ _ Hn _ _]. apply Hn.
      unfold notify_one in Hf. destruct (writer s) eqn:Hw; cbn in Hf; try rewrite Hw in Hf; done.
  - destruct (writer s) eqn:Hw; try discriminate. injection E as <-.
    destruct Hok as [Hf Hd Hb Hs Hn Hj Htm]. rewrite Hw in *. split; cbn; rewrite ?Hw; try done.
    by eapply db_same; [..|exact Hd].
Qed.

#[local] Hint Resolve append_push_ok append_notify_ok writer_next_ok wakeup_ok close_next_ok : titanx.

Lemma store_step_ok c s s' : store_step s s' -> store_ok c s -> store_ok c s'.
Proof. destruct 1; eauto with titanx. Qed.

Lemma store_steps_ok c s s' : rtc store_step s s' -> store_ok c s -> store_ok c s'.
Proof. induction 1; eauto using store_step_ok. Qed.

End Facts.

(** * Draining

    A run in which only the writer and the pending notifications move. *)
Section Drain.
Context `{Env} `{JsonPrinter}.

Inductive drain_step : EventStore -> EventStore -> Prop :=
| drain_notify s s' : append_notify s = Some s' -> drain_step s s'
| drain_writer db s s' : writer_next db s = Some s' -> drain_step s s'.

(** The steps the writer can still make on its own. *)
Definition writer_measure (s : EventStore) : nat :=
  let n := length (queue_ s) in
  match writer s, running_ s with
  | (W_Done | W_Terminated _), _ => 0
  | W_FinalDrain, _ => n + 1
  | W_FinalLock, _ => n + 2
  | W_Sleep, _ => 3 * n
  | W_Block, _ => 3 * n + 1
  | W_Loop, false => n + 3
  | W_Loop, true => if bool_decide (queue_ s = []) then 4 else 3 * n + 8
  | W_Drain, _ => 3 * n + 5
  | W_Relock, _ => 3 * n + 6
  | W_Write _, _ => 3 * n + 7
  | W_Pred, false => 3 * n + 6
  | W_Pred, true => if bool_decide (queue_ s = []) then 2 else 3 * n + 6
  | (W_Lock | W_Wake), false => 3 * n + 7
  | (W_Lock | W_Wake), true => if bool_decide (queue_ s = []) then 3 else 3 * n + 7
  end.

Definition drain_measure (s : EventStore) : nat := writer_measure s + 10 * notifies s.

Lemma writer_next_measure c db s s' :
  store_ok c s -> writer_next db s = Some s' -> (drain_measure s' < drain_measure s)%nat.
Proof.
  intros [_ _ Hb _ Hn _ _]. unfold writer_next, drain_measure, writer_measure.
  destruct (writer s) eqn:Hw; try discriminate; cbn in Hn.
  - intros [= <-]. cbn. destruct (running_ s), (queue_ s); cbn; lia.
  - intros [= <-]. cbn. destruct (running_ s), (queue_ s); cbn; lia.
  - intros [= <-]. cbn. destruct (queue_ s), (running_ s); cbn; lia.
  - intros [= <-]. cbn. lia.
  - intros [= <-]. cbn. destruct (running_ s), (queue_ s); cbn; lia.
  - destruct (queue_ s) eqn:Hq; intros [= <-]; cbn; rewrite ?Hq; cbn; [|lia].
    destruct (running_ s); cbn; lia.
  - unfold write_event. destruct (writeToDb ev db s) as [[[]|what|] s1] eqn:E; intros [= <-];
      destruct (writeToDb_facts _ _ _ _ _ E) as [[] _]; cbn; rewrite ?sk_queue0, ?sk_notifies0; lia.
  - intros [= <-]. cbn. lia.
  - intros [= <-]. cbn. lia.
  - destruct (queue_ s) as [|ev q] eqn:Hq; [intros [= <-]; cbn; rewrite ?Hq; cbn; lia|].
    unfold write_event. destruct (writeToDb ev db s) as [[[]|what|] s1] eqn:E; intros [= <-];
      destruct (writeToDb_facts _ _ _ _ _ E) as [[] _]; cbn;
      rewrite ?sk_queue0, ?sk_notifies0, ?Hq; cbn; lia.
Qed.

Lemma append_notify_measure s s' :
  append_notify s = Some s' -> (drain_measure s' < drain_measure s)%nat.
Proof.
  unfold append_notify, drain_measure, writer_measure, notify_one.
  destruct (notifies s) as [|n] eqn:En; [done|]. destruct (terminated s); [done|]. intros [= <-]. cbn.
  destruct (writer s) eqn:Hw; cbn; rewrite ?Hw; try lia;
    destruct (running_ s), (queue_ s); cbn; lia.
Qed.

Lemma drain_step_ok c s s' : drain_step s s' -> store_ok c s -> store_ok c s'.
Proof. destruct 1; eauto using append_notify_ok, writer_next_ok with titanx. Qed.

Lemma drain_step_measure c s s' :
  store_ok c s -> drain_step s s' -> (drain_measure s' < drain_measure s)%nat.
Proof. destruct 2; eauto using append_notify_measure, writer_next_measure. Qed.

Lemma drain_terminates c s : store_ok c s -> sn drain_step s.
Proof.
  remember (drain_measure s) as n eqn:Hn. revert s Hn.
  induction (lt_wf n) as [n _ IH]; intros s -> Hok. constructor. intros s' Hstep.
  eapply IH; [by eapply drain_step_measure|done|by eapply drain_step_ok].
Qed.

(** The writer rests when it waits for work, has ended, or cannot print an event. *)
Lemma writer_stopped s :
  (forall db, writer_next db s = None) ->
  writer s = W_Sleep \/ writer s = W_Done \/ terminated s = true \/
  exists ev, ev ∈ in_flight (writer s) ++ queue_ s /\ dump (OrderEvent_to_json ev) = Hang.
Proof.
  intros Hnone. specialize (Hnone (mkAnswer true true true)). unfold writer_next in Hnone.
  assert (forall ev lost next, write_event ev (mkAnswer true true true) lost next s = None ->
            dump (OrderEvent_to_json ev) = Hang) as Hwrite.
  { intros ev lost next. unfold write_event, writeToDb. cbn. destruct (conn_ s) eqn:Hc; cbn; rewrite ?Hc;
      destruct (dump (OrderEvent_to_json ev)); done. }
  unfold terminated. destruct (writer s); auto; try discriminate.
  - by destruct (queue_ s).
  - right; right; right. exists ev. split; [set_solver|eauto].
  - destruct (queue_ s) as [|ev q]; [done|]. right; right; right. exists ev. split; [set_solver|eauto].
Qed.
End Drain.

(** * The properties *)

Section Claims.
Context `{Env} `{JsonPrinter}.


(** C30: the writer never sleeps on work.  From every reachable state, the writer
    and the pending notifications come to rest after finitely many steps; if the
    thread has not ended by then and the appended events can be printed, every
    appended event was handled by [writeToDb]. *)
Theorem queue_is_drained c t s :
  rtc store_step (EventStore_new c t) s ->
  sn drain_step s /\
  forall s', rtc drain_step s s' -> nf drain_step s' -> writer s' <> W_Done ->
    Forall (fun ev => exists text, dump (OrderEvent_to_json ev) = Ret text) (appended s') ->
    processed s' = appended s'.
Proof.
  intros Hrun. pose proof (store_steps_ok _ _ _ Hrun (EventStore_new_ok c t)) as Hok.
  split; [by eapply drain_terminates|]. intros s' Hdrain Hnf Hnd Hprint.
  assert (store_ok c s') as [Hf _ _ Hs _ _ Ht].
  { clear -Hdrain Hok. induction Hdrain; eauto using drain_step_ok. }
  rewrite Forall_forall in Hprint.
  assert (writer s' = W_Sleep) as E.
  { destruct (writer_stopped s') as [?|[?|[E|(ev & Hev & E)]]]; try done.
    - intros db. destruct (writer_next db s') eqn:E; [|done].
      destruct Hnf. eexists. by eapply drain_writer.
    - destruct (Ht E) as (ev & what & Hev & Ed). destruct (Hprint ev Hev) as [text Et]. congruence.
    - destruct (Hprint ev) as [text Et]; [|congruence]. rewrite Hf. set_solver. }
  rewrite E in *.
  destruct (Hs eq_refl) as [Hq|Hq]; [by rewrite Hf, Hq; cbn; rewrite app_nil_r|].
  destruct Hnf. unfold red. destruct (append_notify s') eqn:En.
  { eexists. by apply drain_notify. }
  unfold append_notify, terminated in En. rewrite E in En. destruct (notifies s'); [lia|done].
Qed.

(** Shutdown loses nothing that was appended before it: at the step with which
    the writer thread ends, every event appended so far was handled by
    [writeToDb], and the thread only ends after [close] was called. *)
Theorem shutdown_drains c t s db s' :
  rtc store_step (EventStore_new c t) s ->
  writer s <> W_Done -> writer_next db s = Some s' -> writer s' = W_Done ->
  processed s' = appended s' /\ running_ s' = false.
Proof.
  intros Hrun Hnd E Hd. pose proof (store_steps_ok _ _ _ Hrun (EventStore_new_ok c t)) as Hok.
  destruct (writer_next_ok _ _ _ _ E Hok) as [Hf _ _ _ Hn _ _]. rewrite Hd in *.
  split; [|by apply Hn].
  rewrite Hf. unfold writer_next, write_event in E.
  destruct (writer s) eqn:Hw; try discriminate; try (injection E as <-; by cbn in Hd).
  - injection E as <-. cbn in Hd. by destruct (running_ s).
  - injection E as <-. cbn in Hd. by destruct (_ || _).
  - destruct (queue_ s) eqn:Hq; injection E as <-; by cbn in Hd.
  - destruct (writeToDb ev db s) as [[| |] s1]; [..|done]; injection E as <-; by cbn in Hd.
  - destruct (queue_ s) eqn:Hq; [injection E as <-; cbn; rewrite Hq; by rewrite app_nil_r|].
    destruct (writeToDb o db s) as [[| |] s1]; [..|done]; injection E as <-; by cbn in Hd.
Qed.

(** [close] can hang.  It clears [running_] without holding the mutex; when
    that and its notification fall between the writer's test of the wait predicate
    and its going to sleep, the notification is lost: the writer sleeps, [close]
    waits in [join], and no thread can move unless the writer wakes up by itself. *)
Theorem close_can_lose_its_wakeup c t :
  exists s, rtc store_step (EventStore_new c t) s /\
    closer s = C_Join /\ running_ s = false /\
    (forall db, writer_next db s = None) /\ append_notify s = None /\ close_next s = None.
Proof.
  set (go := store_writer (mkAnswer true true true)).
  eexists. split.
  - eapply rtc_l; [apply go; reflexivity|]. cbn.
    eapply rtc_l; [apply go; reflexivity|]. cbn.
    eapply rtc_l; [apply go; reflexivity|]. cbn.
    eapply rtc_l; [apply store_close; reflexivity|]. cbn.
    eapply rtc_l; [apply store_close; reflexivity|]. cbn.
    eapply rtc_l; [apply go; reflexivity|]. cbn.
    reflexivity.
  - done.
Qed.
End Claims.

(** * Witnesses *)

(** A schedule: which thread makes the next step. *)
Inductive turn := T_push (ev : OrderEvent) | T_notify | T_writer (db : DbAnswer) | T_close | T_wakeup.

Fixpoint run_schedule `{Env} `{JsonPrinter} (ts : list turn) (s : EventStore) : option EventStore :=
  match ts with
  | [] => Some s
  | tn :: ts =>
      match match tn with
            | T_push ev => append_push ev s
            | T_notify => append_notify s
            | T_writer db => writer_next db s
            | T_close => close_next s
            | T_wakeup => spurious_wakeup s
            end with
      | Some s' => run_schedule ts s'
      | None => None
      end
  end.

Lemma run_schedule_steps `{Env} `{JsonPrinter} ts s s' :
  run_schedule ts s = Some s' -> rtc store_step s s'.
Proof.
  revert s. induction ts as [|tn ts IH]; intros s; cbn [run_schedule]; [by intros [= <-]|].
  intros E. destruct tn;
    match type of E with match ?x with _ => _ end = _ => destruct x eqn:E1; [|done] end;
    (eapply rtc_l; [|by apply IH]); eauto using store_step.
Qed.

Lemma run_schedule_drains `{Env} `{JsonPrinter} n db s s' :
  run_schedule (replicate n (T_writer db)) s = Some s' -> rtc drain_step s s'.
Proof.
  revert s. induction n as [|n IH]; intros s; cbn; [by intros [= <-]|].
  destruct (writer_next db s) eqn:E; [|done]. intros Hrun.
  eapply rtc_l; [by eapply drain_writer|by apply IH].
Qed.

Lemma asleep_nf `{Env} `{JsonPrinter} s : writer s = W_Sleep -> notifies s = O -> nf drain_step s.
Proof.
  intros Hw Hn [s' Hstep]. destruct Hstep as [s s' E|db s s' E].
  - unfold append_notify in E. by rewrite Hn in E.
  - unfold writer_next in E. by rewrite Hw in E.
Qed.

Section ConcreteStore.
#[local] Existing Instance demo_env.
#[local] Existing Instance demo_json.

Definition demo_event (id : string) : OrderEvent :=
  mkEvent id ORDER_RECEIVED "o1" "acc1" "AAPL" ask1 None "" 0 0.

Definition db_ok : DbAnswer := mkAnswer true true true.

(** The writer sleeps, an event is appended and written. *)
Definition demo_schedule : list turn :=
  [T_writer db_ok; T_writer db_ok; T_writer db_ok; T_writer db_ok; T_push (demo_event "e1");
   T_notify; T_writer db_ok; T_writer db_ok; T_writer db_ok; T_writer db_ok].

Definition demo_store : EventStore :=
  default (EventStore_new true 0)
    (run_schedule demo_schedule (EventStore_new true 0)).

Lemma demo_store_reachable :
  rtc store_step (EventStore_new true 0) demo_store.
Proof. apply (run_schedule_steps demo_schedule). vm_compute. reflexivity. Qed.


(** The writer of [demo_store] goes back to sleep. *)
Definition demo_rest : EventStore :=
  default demo_store
    (run_schedule (replicate 6 (T_writer db_ok)) demo_store).

Lemma queue_is_drained_witness :
  sn drain_step demo_store /\ processed demo_rest = [demo_event "e1"].
Proof.
  destruct (queue_is_drained true 0 demo_store demo_store_reachable) as [Hsn Hd].
  split; [exact Hsn|].
  rewrite Hd; [vm_compute; reflexivity| | |vm_compute; discriminate|repeat constructor; by eexists].
  - apply (run_schedule_drains 6 db_ok). vm_compute. reflexivity.
  - apply asleep_nf; vm_compute; reflexivity.
Defined.

(** [close] is called with an event in the queue; the writer is about to end. *)
Definition demo_closing : EventStore :=
  default (EventStore_new true 0)
    (run_schedule
       [T_push (demo_event "e1"); T_close; T_writer db_ok; T_writer db_ok; T_writer db_ok]
       (EventStore_new true 0)).

Lemma shutdown_drains_witness :
  exists s', writer_next db_ok demo_closing = Some s' /\
    processed s' = [demo_event "e1"] /\ running_ s' = false.
Proof.
  eexists. split; [vm_compute; reflexivity|].
  apply (shutdown_drains true 0 demo_closing db_ok);
    [|vm_compute; discriminate|vm_compute; reflexivity..].
  apply (run_schedule_steps
    [T_push (demo_event "e1"); T_close; T_writer db_ok; T_writer db_ok; T_writer db_ok]).
  vm_compute. reflexivity.
Defined.
End ConcreteStore.
