(* ===== verification/Wiring.v ===== *)
(** The wiring of the components (src/main.cpp): the risk engine and the circuit
    breaker behind the matching engine, the event consumer that appends to the
    event store, and the fill consumer that updates the position cache and the risk
    engine. *)

From Stdlib Require Import ZArith Lia.
From stdpp Require Import base numbers gmap strings list relations.
From S2P Require Import Prelude Text Model OrderBook Events Json CircuitBreaker RiskEngine RedisPositionCache MatchingEngine Matching BookSpec BookInvariant EngineInvariant EngineTheorems.

Local Open Scope Z_scope.
Local Open Scope cpp_scope.

(** [trade.to_json().dump()]. *)
Definition dump_trade `{JsonPrinter} (tr : Trade) : outcome string := dump (Trade_to_json tr).

(** What the consumers change besides the risk engine: the arguments of
    [EventStore::append] (the history variable [appended] of the event store) and
    the position cache. *)
Record Ext := mkExt { x_appended : list OrderEvent; x_redis : RedisPositionCache }.

Abbreviation System := (World (RiskEngine * CircuitBreaker) Ext).

Section Consumers.
Context `{Env} `{RedisServer} `{JsonPrinter}.

Definition event_consumer (ev : OrderEvent) : cpp System unit := fun w =>
  (Ret tt, mkWorld (w_risk w) (mkExt (x_appended (w_ext w) ++ [ev]) (x_redis (w_ext w)))
             (w_t w)).

Definition with_redis {A} (m : cpp RedisPositionCache A) : cpp System A := fun w =>
  let '(r, c) := m (x_redis (w_ext w)) in
  (r, mkWorld (w_risk w) (mkExt (x_appended (w_ext w)) c) (w_t w)).

Definition sys_recordFill (acct sym : string) (s : OrderSide) (q : Z) : cpp System unit :=
  fun w =>
    match recordFill acct sym s q (w_risk w).1 with
    | Ret re => (Ret tt, mkWorld (re, (w_risk w).2) (w_ext w) (w_t w))
    | Throw e => (Throw e, w)
    | Hang => (Hang, w)
    end.

Definition sys_updateLastTradePrice (sym : string) (p : Z) : cpp System unit := fun w =>
  match updateLastTradePrice sym p (w_risk w).1 (w_risk w).2 (w_t w) with
  | Ret (re, cb, t) => (Ret tt, mkWorld (re, cb) (w_ext w) t)
  | Throw e => (Throw e, w)
  | Hang => (Hang, mkWorld (price_blocked sym p (w_risk w).1 (w_risk w).2) (w_ext w) (w_t w))
  end.

Definition print_trade (tr : Trade) : cpp System string := fun w => (dump_trade tr, w).

(** The calls of the fill consumer on the position cache and the risk engine, in order. *)
Definition fill_consumer (fill : FillEvent) : list (cpp System unit) :=
  let tr := fe_trade fill in
  let delta := if decide (aggressorSide tr = BUY) then t_quantity tr
               else neg64 (t_quantity tr) in
  [with_redis (updatePosition (aggressorAccountId tr) (t_symbol tr) delta);
   with_redis (updatePosition (passiveAccountId tr) (t_symbol tr) (neg64 delta));
   do! json <- print_trade tr; with_redis (publishFill (t_symbol tr) json);
   sys_recordFill (aggressorAccountId tr) (t_symbol tr) (aggressorSide tr) (t_quantity tr);
   sys_updateLastTradePrice (t_symbol tr) (t_price tr)].

(** The state [main] has built when the server starts; [connected] tells whether the
    connection to Redis succeeded. *)
Definition main_engine : MatchingEngine System :=
  mkEngine ∅ ∅ ∅ false event_consumer fill_consumer false.

Definition main_world (connected : bool) (t : nat) : System :=
  mkWorld (RiskEngine_new, CircuitBreaker_new)
    (mkExt [] (RedisPositionCache_new connected)) t.

Definition main_state (connected : bool) (t : nat) : MatchingEngine System * System :=
  (setFillConsumer fill_consumer
     (setEventConsumer event_consumer (MatchingEngine_new, main_world connected t)).2).2.

Lemma main_state_eq connected t : main_state connected t = (main_engine, main_world connected t).
Proof. done. Qed.

(** * The consumers keep what the gate relies on *)

Lemma event_consumer_kept hangs : consumer_kept hangs True event_consumer.
Proof. intros ev w. unfold post, event_consumer. done. Qed.

(** The calls on the cache leave everything else alone. *)
Definition same_but_redis (w w' : System) : Prop :=
  w_risk w' = w_risk w /\ x_appended (w_ext w') = x_appended (w_ext w) /\ w_t w' = w_t w.

Definition only_redis {A} (m : cpp System A) : Prop := forall w, same_but_redis w (m w).2.

Lemma post_redis {A} (m : cpp System A) w Q (E : System -> Prop) :
  only_redis m -> (forall a w', same_but_redis w w' -> Q a w') ->
  (forall w', same_but_redis w w' -> E w') -> post m w Q E True.
Proof. intros Hm HQ HE. specialize (Hm w). unfold post. destruct (m w) as [[| |] w']; auto. Qed.

Lemma with_redis_only {A} (m : cpp RedisPositionCache A) : only_redis (with_redis m).
Proof. intros w. unfold with_redis. by destruct (m _). Qed.

Lemma publish_only tr : only_redis (do! json <- print_trade tr; with_redis (publishFill (t_symbol tr) json)).
Proof.
  intros w. unfold cbind, print_trade. destruct (dump_trade tr); [|done..]. apply with_redis_only.
Qed.

(** The five calls. *)
Lemma fill_steps fill m :
  m ∈ fill_consumer fill ->
  only_redis m \/
  m = sys_recordFill (aggressorAccountId (fe_trade fill)) (t_symbol (fe_trade fill))
        (aggressorSide (fe_trade fill)) (t_quantity (fe_trade fill)) \/
  m = sys_updateLastTradePrice (t_symbol (fe_trade fill)) (t_price (fe_trade fill)).
Proof.
  unfold fill_consumer. rewrite !elem_of_cons, elem_of_nil.
  intros [->|[->|[->|[->|[->|[]]]]]]; auto using with_redis_only, publish_only.
Qed.

Lemma recordFill_kept acct sym d q (w : System) :
  gate_kept (w_risk w) (w_risk (sys_recordFill acct sym d q w).2).
Proof.
  unfold sys_recordFill. destruct (recordFill _ _ _ _ _) as [re| |] eqn:Ef; [|done..].
  apply recordFill_inv in Ef as (Hs & Ha & _). split; cbn; [by rewrite Hs|].
  intros a s. unfold tracked. by rewrite Ha.
Qed.

Lemma updatePrice_kept sym p (w : System) :
  gate_kept (w_risk w) (w_risk (sys_updateLastTradePrice sym p w).2).
Proof.
  unfold sys_updateLastTradePrice.
  destruct (updateLastTradePrice _ _ _ _ _) as [[[re cb] t]| |] eqn:Eu;
    [|done|unfold price_blocked; cbn; by destruct (re_mutex_ _)].
  apply updateLastTradePrice_inv in Eu as (Hs & Ha & _). split; cbn; [by rewrite Hs|].
  intros a s. unfold tracked. by rewrite Ha.
Qed.

(** Every call of the fill consumer keeps what the gate relies on, also when it blocks. *)
Lemma fill_step_kept fill m w :
  m ∈ fill_consumer fill -> gate_kept (w_risk w) (w_risk (m w).2).
Proof.
  intros [Hr|[->| ->]]%fill_steps; [|apply recordFill_kept|apply updatePrice_kept].
  by rewrite (proj1 (Hr w)).
Qed.

Lemma fill_consumer_kept : consumer_kept True True (fun fill => in_order (fill_consumer fill)).
Proof.
  intros fill w.
  eapply post_mono; [apply (post_order _ (fun w' => gate_kept (w_risk w) (w_risk w')))|naive_solver..].
  - intros m w' Hm Hk. pose proof (fill_step_kept fill m w' Hm) as Hk'. unfold post.
    destruct (m w') as [[[]| |] w2]; [| |done]; exact (transitivity Hk Hk').
  - done.
Qed.

Lemma main_state_ok connected t :
  engine_ok True True (main_state connected t).
Proof.
  rewrite main_state_eq. apply wired_ok; [apply event_consumer_kept|apply fill_consumer_kept|].
  intros a [Hb _]. cbn in Hb. unfold tracked in Hb. cbn in Hb. by rewrite lookup_empty in Hb.
Qed.
End Consumers.
