(* ===== verification/System.v ===== *)
(** The wired system: what a submission appends to the event log and records in the
    risk engine, and the runs of the system. *)

From Stdlib Require Import ZArith Lia.
From stdpp Require Import base numbers gmap strings list relations.
From S2P Require Import Prelude Text Model OrderBook Matching BookSpec BookInvariant BookTheorems BookGuarantees Events Json CircuitBreaker RiskEngine RedisPositionCache MatchingEngine EngineInvariant EngineTheorems Wiring.

Local Open Scope Z_scope.
Local Open Scope cpp_scope.

(** * Effects *)

Abbreviation SysState := (MatchingEngine System * System)%type.

(** The event log without identifiers and time stamps, and the recorded positions. *)
Definition log_of (s : SysState) : list EventContent := content <$> x_appended (w_ext s.2).

Definition net_of (a sym : string) (w : System) : Z := net_position a sym (w_risk w).1.

(** The fill report that the risk engine gets for a trade. *)
Definition report_of (tr : Trade) : FillReport :=
  mkFill (aggressorAccountId tr) (t_symbol tr) (aggressorSide tr) (t_quantity tr).

Lemma sum_signed_app a sym fs gs :
  sum_signed a sym (fs ++ gs) = sum_signed a sym fs + sum_signed a sym gs.
Proof.
  induction fs as [|f fs IH]; [done|]. cbn [app sum_signed foldr].
  unfold sum_signed in *. cbn [foldr]. lia.
Qed.

Section Effects.
Context `{Env} `{RedisServer} `{JsonPrinter}.

(** Only the two consumers of [main] are installed. *)
Definition wired_sys (s : SysState) : Prop :=
  eventConsumer_ s.1 = event_consumer /\ fillConsumer_ s.1 = fill_consumer.

(** [effect s s' evs fs]: going from [s] to [s'] appended the events [evs] and
    recorded the fills [fs]. *)
Record effect (s s' : SysState) (evs : list EventContent) (fs : list FillReport) : Prop := {
  ef_wired : wired_sys s -> wired_sys s';
  ef_log : log_of s' = log_of s ++ evs;
  ef_net : (forall a sym, int64 (net_of a sym s.2)) ->
    forall a sym, net_of a sym s'.2 = wrap64 (net_of a sym s.2 + sum_signed a sym fs)
}.

(** A call with events [evs] and fills [fs]; an exception can cut both short. *)
Definition has_effect {A} (m : cpp SysState A) (s : SysState)
    (evs : A -> list EventContent) (fs : list FillReport) : Prop :=
  post m s (fun a s' => effect s s' (evs a) fs)
    (fun s' => exists evs' fs', fs' `prefix_of` fs /\ effect s s' evs' fs') True.

Lemma effect_refl s s' :
  (wired_sys s -> wired_sys s') -> log_of s' = log_of s -> (w_risk s'.2).1 = (w_risk s.2).1 ->
  effect s s' [] [].
Proof.
  intros Hw Hl Hr. split; [done|by rewrite app_nil_r|]. intros Hi a sym. cbn.
  unfold net_of in *. by rewrite Hr, Z.add_0_r, wrap64_small.
Qed.

Lemma effect_trans s1 s2 s3 e1 f1 e2 f2 :
  effect s1 s2 e1 f1 -> effect s2 s3 e2 f2 -> effect s1 s3 (e1 ++ e2) (f1 ++ f2).
Proof.
  intros [Hw Hl Hn] [Hw' Hl' Hn']. split; [auto|by rewrite Hl', Hl, app_assoc|].
  intros Hi a sym.
  assert (forall a sym, int64 (net_of a sym s2.2)) as Hi'
    by (intros; rewrite Hn by done; apply wrap64_int64).
  rewrite Hn', Hn by done.
  rewrite wrap64_add_l, sum_signed_app. f_equal. lia.
Qed.

Lemma has_effect_bind {A B} (m : cpp SysState A) (k : A -> cpp SysState B) s e1 e2 f1 f2 :
  has_effect m s (fun _ => e1) f1 ->
  (forall a s', effect s s' e1 f1 -> has_effect (k a) s' e2 f2) ->
  has_effect (cbind m k) s (fun b => e1 ++ e2 b) (f1 ++ f2).
Proof.
  intros Hm Hk. apply post_bind. eapply post_mono; [exact Hm| |].
  - intros a s1 E1. eapply post_mono; [exact (Hk a s1 E1)| |]; cbn.
    + intros b s2 E2. exact (effect_trans _ _ _ _ _ _ _ E1 E2).
    + intros s2 (evs' & fs' & Hp & E2). exists (e1 ++ evs'), (f1 ++ fs').
      split; [by apply prefix_app|]. exact (effect_trans _ _ _ _ _ _ _ E1 E2).
  - intros s1 (evs' & fs' & Hp & E1). exists evs', fs'. split; [by apply prefix_app_r|done].
Qed.

Lemma has_effect_ret {A} (a : A) s : has_effect (cret a) s (fun _ => []) [].
Proof. unfold has_effect, post, cret. by apply effect_refl. Qed.

Lemma has_effect_emit ev s :
  wired_sys s -> has_effect (emit ev) s (fun _ => [content ev]) [].
Proof.
  destruct s as [[bks lks sts m ec fc h] w]. intros [He Hf]. cbn in He, Hf. subst ec fc.
  unfold has_effect, post, emit, cbind, engine_get, ctry, in_world. cbn.
  split; [done|unfold log_of; cbn; by rewrite fmap_app|].
  intros Hi a sym. unfold net_of in *. cbn in *. by rewrite Z.add_0_r, wrap64_small.
Qed.

(** An event is built and emitted. *)
Lemma has_effect_event ty o tr why s :
  wired_sys s ->
  has_effect (do! ev <- read_env (OrderEvent_build ty o tr why 0); emit ev) s
    (fun _ => [mkContent ty o tr why]) [].
Proof.
  intros Hw. unfold has_effect. apply post_bind. rewrite (surjective_pairing s).
  unfold post at 1. rewrite read_env_run. cbn [fst snd].
  pose proof (has_effect_emit (OrderEvent_build ty o tr why 0 (w_t s.2)).1
                (s.1, advance (OrderEvent_build ty o tr why 0) s.2) Hw) as He.
  rewrite content_build in He. eapply post_mono; [exact He| |].
  - intros [] s' []. by split.
  - intros s' (evs' & fs' & Hp & []). exists evs', fs'. split; [done|by split].
Qed.

(** ** The fill consumer *)

Lemma recordFill_net f re re' :
  recordFill (f_account f) (f_symbol f) (f_side f) (f_qty f) re = Ret re' ->
  (forall a sym, int64 (net_position a sym re)) ->
  forall a sym, net_position a sym re' =
                wrap64 (net_position a sym re + signed_fill a sym f).
Proof.
  intros E Hi a sym. assert (re_mutex_ re = false) as Hm.
  { unfold recordFill, re_lock in E. by destruct (re_mutex_ re). }
  destruct (recordFill_position f re Hm) as (re1 & E1 & _ & Hp).
  rewrite E in E1. injection E1 as <-. rewrite <- Hp. symmetry. apply wrap64_small.
  unfold recordFill, re_lock in E. rewrite Hm in E. cbn in E. injection E as <-.
  specialize (Hi a sym). unfold net_position in *. cbn.
  destruct (decide (f_account f = a)) as [<-|]; [|by rewrite lookup_insert_ne].
  rewrite lookup_insert_eq. destruct (decide (f_symbol f = sym)) as [<-|];
    [rewrite lookup_insert_eq; apply wrap64_int64|rewrite lookup_insert_ne by done].
  destruct (positions_ re !! f_account f); cbn; [done|]. by rewrite lookup_empty.
Qed.

Lemma updateLastTradePrice_no_throw sym p re cb t what :
  updateLastTradePrice sym p re cb t <> Throw what.
Proof.
  unfold updateLastTradePrice, re_lock. destruct (re_mutex_ re); [done|]. cbn.
  destruct (cb_mutex_ cb) eqn:Hm.
  - unfold recordTrade, cb_lock. by rewrite Hm.
  - rewrite recordTrade_cases by done. by destruct (trips _ _ _ _).
Qed.

Lemma fill_consumer_effect fill w :
  post (in_order (fill_consumer fill)) w
    (fun _ w' => x_appended (w_ext w') = x_appended (w_ext w) /\
       ((forall a sym, int64 (net_of a sym w)) -> forall a sym,
          net_of a sym w' = wrap64 (net_of a sym w + signed_fill a sym (report_of (fe_trade fill)))))
    (fun w' => x_appended (w_ext w') = x_appended (w_ext w) /\ w_risk w' = w_risk w) True.
Proof.
  unfold net_of, in_order, fill_consumer. cbn [cfor].
  do 2 (apply post_bind, post_redis; [apply with_redis_only| |by intros ? (? & ? & _); simplify_eq];
        intros [] ? (<- & <- & _)).
  apply post_bind, post_redis; [apply publish_only| |by intros ? (? & ? & _)].
  intros [] w3 (Er & Ex & _).
  apply post_bind. unfold post at 1, sys_recordFill.
  destruct (recordFill _ _ _ _ _) as [re| |] eqn:Ef; [|done..].
  apply post_bind. unfold post at 1, sys_updateLastTradePrice. cbn.
  destruct (updateLastTradePrice _ _ _ _ _) as [[[re' cb'] t']|what|] eqn:Eu; [| |done]; cbn.
  - apply updateLastTradePrice_inv in Eu as (_ & _ & _ & Hpos & _). split; [done|].
    intros Hi a sym. rewrite Er in Ef.
    etrans; [|exact (recordFill_net (report_of (fe_trade fill)) _ _ Ef Hi a sym)].
    unfold net_position. cbn. by rewrite Hpos.
  - by destruct (updateLastTradePrice_no_throw _ _ _ _ _ _ Eu).
Qed.

Lemma has_effect_notify fill s :
  wired_sys s -> has_effect (notify_fill fill) s (fun _ => []) [report_of (fe_trade fill)].
Proof.
  destruct s as [[bks lks sts m ec fc h] w]. intros [He Hf]. cbn in He, Hf. subst ec fc.
  unfold has_effect, post, notify_fill, cbind, engine_get, in_world. cbn [fst snd fillConsumer_].
  pose proof (fill_consumer_effect fill w) as Hp. unfold post in Hp.
  destruct (in_order (fill_consumer fill) w) as [[[]|what|] w']; [| |done]; cbn.
  - destruct Hp as [Hx Hn]. split; [done|unfold log_of; cbn; by rewrite Hx, app_nil_r|].
    intros Hi a sym. cbn. rewrite Hn by done. by rewrite Z.add_0_r.
  - destruct Hp as [Hx Hr]. exists [], []. split; [apply prefix_nil|].
    apply effect_refl; [done|unfold log_of; cbn; by rewrite Hx|cbn; by rewrite Hr].
Qed.

(** ** The loop over the trades *)

Lemma has_effect_report o lat tr s :
  wired_sys s ->
  has_effect (report_fill o lat tr) s (fun _ => [mkContent ORDER_FILLED o (Some tr) ""])
    [report_of tr].
Proof.
  intros Hw. unfold report_fill, has_effect. apply post_bind.
  rewrite (surjective_pairing s). unfold post at 1. rewrite read_env_run. cbn [fst snd].
  set (s1 := (s.1, advance (FillEvent_new tr lat) s.2)).
  assert (has_effect
    (do! _ <- notify_fill (FillEvent_new tr lat (w_t s.2)).1;
     do! ev <- read_env (OrderEvent_filled o tr); emit ev) s1
    (fun _ => [] ++ [mkContent ORDER_FILLED o (Some tr) ""]) ([report_of tr] ++ [])) as He.
  { apply (has_effect_bind _ _ _ [] _ [report_of tr] []).
    - by apply (has_effect_notify (FillEvent_new tr lat (w_t s.2)).1).
    - intros [] s2 E2. apply has_effect_event. by apply E2. }
  rewrite app_nil_r in He. eapply post_mono; [exact He| |].
  - intros [] s' []. by split.
  - intros s' (evs' & fs' & Hp & []). exists evs', fs'. split; [done|by split].
Qed.

Lemma has_effect_reports o lat trades s :
  wired_sys s ->
  has_effect (cfor trades (report_fill o lat)) s
    (fun _ => (fun tr => mkContent ORDER_FILLED o (Some tr) "") <$> trades)
    (report_of <$> trades).
Proof.
  revert s. induction trades as [|tr trades IH]; intros s Hw; [apply has_effect_ret|].
  cbn [cfor]. apply (has_effect_bind _ _ _ [mkContent ORDER_FILLED o (Some tr) ""] _
                       [report_of tr]); [by apply has_effect_report|].
  intros [] s' E. apply IH. by apply E.
Qed.

(** ** The pipeline *)

(** The events of an accepted order. *)
Definition accepted_trail (o : Order) (trades : list Trade) : list EventContent :=
  mkContent ORDER_RECEIVED o None "" ::
  ((fun tr => mkContent ORDER_FILLED o (Some tr) "") <$> trades) ++
  (if bool_decide (type o = LIMIT) && bool_decide (trades = [])
   then [mkContent ORDER_RESTING o None ""] else []).

Lemma has_effect_tail o trades lat s :
  wired_sys s -> engine_ok True True s -> locks_ s.1 !! symbol o = Some false ->
  has_effect
    (do! _ <- cfor trades (report_fill o lat);
     do! _ <- (match trades with
               | [] => cret tt
               | _ => with_writeLock (symbol o) (checkStopTriggers (symbol o))
               end);
     do! _ <- (if bool_decide (type o = LIMIT) && bool_decide (trades = []) then
                 do! ev <- read_env (OrderEvent_resting o);
                 emit ev
               else cret tt);
     cret trades) s
    (fun _ => ((fun tr => mkContent ORDER_FILLED o (Some tr) "") <$> trades) ++
       (if bool_decide (type o = LIMIT) && bool_decide (trades = [])
        then [mkContent ORDER_RESTING o None ""] else []))
    (report_of <$> trades).
Proof.
  intros Hw Hok Hl. rewrite <- (app_nil_r (report_of <$> trades)).
  pose proof (keeps_report_fills True True o lat trades s Hok) as Hk.
  pose proof (has_effect_reports o lat trades s Hw) as He.
  apply post_bind. unfold post at 1. unfold keeps, has_effect, post in Hk, He.
  destruct (cfor trades (report_fill o lat) s) as [[[]|what|] s1]; [| |done].
  2: { destruct He as (evs' & fs' & ? & ?). exists evs', fs'.
       split; [by apply prefix_app_r|done]. }
  apply post_bind.
  assert ((match trades with [] => cret tt | _ :: _ =>
            with_writeLock (symbol o) (checkStopTriggers (symbol o)) end) s1 = (Ret tt, s1))
    as Est.
  { destruct trades; [done|]. destruct s1 as [e1 w1], Hk as [E1 _]. cbn in E1. subst e1.
    apply writeLock_stops_run; [done|apply Hok]. }
  unfold post at 1. rewrite Est. pose proof (ef_wired _ _ _ _ He Hw) as Hw1.
  assert (has_effect
    (do! _ <- (if bool_decide (type o = LIMIT) && bool_decide (trades = []) then
                 do! ev <- read_env (OrderEvent_resting o);
                 emit ev
               else cret tt);
     cret trades) s1
    (fun _ => (if bool_decide (type o = LIMIT) && bool_decide (trades = [])
        then [mkContent ORDER_RESTING o None ""] else []) ++ []) ([] ++ [])) as Hlast.
  { apply has_effect_bind; [|intros; apply has_effect_ret].
    destruct (_ && _); [by apply has_effect_event|apply has_effect_ret]. }
  eapply post_mono; [exact Hlast| |]; cbn.
  - intros trs s2 E2. rewrite app_nil_r in E2. exact (effect_trans _ _ _ _ _ _ _ He E2).
  - intros s2 (evs' & fs' & Hp & E2). exists (((fun tr => mkContent ORDER_FILLED o (Some tr) "")
      <$> trades) ++ evs'), ((report_of <$> trades) ++ fs').
    split; [by apply prefix_app|]. exact (effect_trans _ _ _ _ _ _ _ He E2).
Qed.

(** The receipt of an order. *)
Lemma received_effect o s :
  wired_sys s -> engine_ok True True s ->
  post (do! ev <- read_env (OrderEvent_received o); emit ev) s
    (fun _ s' => effect s s' [mkContent ORDER_RECEIVED o None ""] [] /\ kept s s')
    (fun _ => False) True.
Proof.
  intros Hw Hok.
  pose proof (keeps_emit_new True True (OrderEvent_received o) False s Hok) as Hk.
  pose proof (has_effect_event ORDER_RECEIVED o None "" s Hw) as He.
  eapply post_mono; [exact (post_conj _ _ _ _ _ _ _ He Hk)|done|]. by intros s' [_ []].
Qed.

Lemma accepted_effect o b s :
  incoming_ok o -> wired_sys s -> ready True True o b s ->
  post (accepted o) s
    (fun trades s' => exists t, trades = (match_ o b t).1.1 /\
       effect s s' (accepted_trail o trades) (report_of <$> trades))
    (fun s' => exists t evs' fs', fs' `prefix_of` (report_of <$> (match_ o b t).1.1) /\
       effect s s' evs' fs') True.
Proof.
  intros Hin Hw Hr.
  pose proof (received_effect o s Hw ltac:(apply Hr)) as Hfirst.
  unfold accepted. apply post_bind. unfold post at 1.
  unfold post, cbind in Hfirst.
  destruct (read_env (OrderEvent_received o) s) as [[ev|what|] s0];
    [|done..]. apply post_bind. unfold post at 1.
  destruct (emit ev s0) as [[[]|what|] s2]; [|done..]. destruct Hfirst as [E2 K2]. clear s0.
  pose proof (ready_kept _ _ _ _ _ _ K2 Hr) as Hr2.
  apply post_bind. unfold steadyClock. rewrite (surjective_pairing s2). unfold post at 1.
  rewrite read_env_run. cbn [fst snd].
  destruct s2 as [e w]. cbn [fst snd] in *. set (w3 := advance _ w).
  destruct Hr2 as (Hok & Hl & Hb & Hf & Hs & Ha). cbn [fst snd] in *.
  assert (engine_ok True True (e, w3)) as Hok3 by (by apply (engine_ok_kept _ _ (e, w))).
  pose proof (book_match_ok _ _ o e w3 b Hok3 Hin Hb Hf Hs Ha) as Hok4.
  apply post_bind. unfold post at 1. rewrite writeLock_match_run by done.
  rewrite book_match_run, Hb in Hok4 |- *.
  change (default (OrderBook_new (symbol o)) (Some b)) with b in Hok4 |- *.
  cbn [fst snd] in Hok4 |- *.
  apply post_bind. unfold post at 1. rewrite read_env_run. cbn [fst snd].
  set (s5 := (_, advance _ _)).
  assert (effect (e, w) s5 [] []) as E5 by (by apply effect_refl).
  pose proof (effect_trans _ _ _ _ _ _ _ E2 E5) as E25.
  assert (engine_ok True True s5) as Hok5.
  { eapply engine_ok_kept; [|exact Hok4]. by split. }
  pose proof (report_keeps True True o (match_ o b (w_t w3)).1.1
    (Z.quot (sub64 (steady_now (match_ o b (w_t w3)).2) (steady_now (w_t w))) 1000)
    s5 Hok5 Hl) as Hkeep.
  pose proof (has_effect_tail o (match_ o b (w_t w3)).1.1
    (Z.quot (sub64 (steady_now (match_ o b (w_t w3)).2) (steady_now (w_t w))) 1000)
    s5 ltac:(by apply E25) Hok5 Hl) as Htail.
  pose proof (post_conj _ _ _ _ _ _ _ Hkeep Htail) as Hboth.
  unfold post in Hboth |- *. cbn [fst snd advance w_t] in *.
  match goal with |- match ?m with _ => _ end => destruct m as [[trs|what|] s6] end; [| |done].
  - destruct Hboth as [[-> _] E6]. exists (w_t w3). split; [done|].
    exact (effect_trans _ _ _ _ _ _ _ E25 E6).
  - destruct Hboth as [_ (evs' & fs' & Hp & E6)]. exists (w_t w3).
    do 2 eexists. split; [exact Hp|]. exact (effect_trans _ _ _ _ _ _ _ E25 E6).
Qed.

(** The events of a submission. *)
Definition submit_trail (o : Order) (s : SysState) (trades : list Trade) : list EventContent :=
  if halted_ s.1 then [mkContent ORDER_REJECTED o None "ENGINE_HALTED"]
  else
    match gate_check o (w_risk s.2) with
    | Ret (res, _) =>
        if approved res then accepted_trail o trades
        else [mkContent ORDER_REJECTED o None (reason res)]
    | _ => []
    end.

(** The recorded fills: none, or those of an approved order. *)
Definition fills_ok (o : Order) (s : SysState) (fs : list FillReport) : Prop :=
  fs = [] \/
  exists res r b t, gate_check o (w_risk s.2) = Ret (res, r) /\ approved res = true /\
    wf_sides b /\ fs `prefix_of` (report_of <$> (match_ o b t).1.1).

Lemma refused_effect o why s :
  wired_sys s ->
  post (refused o why) s
    (fun trades s' => trades = [] /\ effect s s' [mkContent ORDER_REJECTED o None why] [])
    (fun s' => exists evs, effect s s' evs []) True.
Proof.
  intros Hw.
  pose proof (has_effect_event ORDER_REJECTED o None why s Hw) as He.
  unfold refused, OrderEvent_rejected, has_effect, post, cbind in *.
  destruct (read_env _ s) as [[ev|what|] s1]; [| |done].
  - destruct (emit ev s1) as [[[]|what|] s2]; [done| |done].
    destruct He as (evs & fs & ->%prefix_nil_inv & He). eauto.
  - destruct He as (evs & fs & ->%prefix_nil_inv & He). eauto.
Qed.

(** The check changes neither the log nor the positions. *)
Lemma gate_check_effect o e w res r :
  gate_check o (w_risk w) = Ret (res, r) ->
  effect (e, w) (e, mkWorld r (w_ext w) (w_t w)) [] [].
Proof.
  intros E. rewrite (surjective_pairing (w_risk w)) in E. apply risk_gate_check in E as [].
  split; [done|by rewrite app_nil_r|]. intros Hi a sym. cbn.
  unfold net_of, net_position in *. cbn. rewrite cf_positions, Z.add_0_r.
  symmetry. apply wrap64_small, (Hi a sym).
Qed.

Lemma ensure_symbol_effect sym e w : effect (e, w) (ensure_symbol sym e, w) [] [].
Proof. by apply effect_refl. Qed.

Lemma submit_system o e w :
  engine_ok True True (e, w) -> wired_sys (e, w) -> incoming_ok o ->
  post (submit o) (e, w)
    (fun trades s' => effect (e, w) s' (submit_trail o (e, w) trades) (report_of <$> trades) /\
       fills_ok o (e, w) (report_of <$> trades))
    (fun s' => exists evs fs, effect (e, w) s' evs fs /\ fills_ok o (e, w) fs) True.
Proof.
  intros Hok Hw Hin. unfold post, submit_trail. rewrite submit_run by apply Hok. cbn [fst snd].
  destruct (halted_ e).
  { pose proof (refused_effect o "ENGINE_HALTED" _ Hw) as He. unfold post in He.
    destruct (refused _ _ _) as [[trades|what|] s']; [| |done].
    - destruct He as [-> He]. split; [exact He|by left].
    - destruct He as [evs He]. exists evs, []. split; [done|by left]. }
  destruct (gate_check o (w_risk w)) as [[res r]|what|] eqn:E;
    [|by destruct (gate_no_throw _ _ _ E)|done].
  pose proof (gate_check_effect o e w res r E) as Ec. destruct (approved res) eqn:Ha.
  - destruct (approved_ready _ _ _ _ _ _ _ Hok E Ha) as [Hready _].
    pose proof (effect_trans _ _ _ _ _ _ _ Ec
                  (ensure_symbol_effect (symbol o) e (mkWorld r (w_ext w) (w_t w)))) as Ee.
    pose proof (accepted_effect o _ _ Hin (ef_wired _ _ _ _ Ee Hw) Hready) as He. unfold post in He.
    assert (wf_sides (book_for (symbol o) (books_ e))) as Hwf.
    { destruct Hready as (Hok2 & _ & Hb & _). apply (eo_books _ _ _ Hok2 _ _ Hb). }
    destruct (accepted _ _) as [[trades|what|] s']; [| |done].
    + destruct He as (t & -> & He). split; [exact (effect_trans _ _ _ _ _ _ _ Ee He)|].
      right. exists res, r, (book_for (symbol o) (books_ e)), t. done.
    + destruct He as (t & evs & fs & Hp & He). exists evs, fs.
      split; [exact (effect_trans _ _ _ _ _ _ _ Ee He)|].
      right. exists res, r, (book_for (symbol o) (books_ e)), t. done.
  - pose proof (refused_effect o (reason res) (e, mkWorld r (w_ext w) (w_t w)) Hw) as He.
    unfold post in He. destruct (refused _ _ _) as [[trades|what|] s']; [| |done].
    + destruct He as [-> He]. split; [exact (effect_trans _ _ _ _ _ _ _ Ec He)|by left].
    + destruct He as [evs He]. exists evs, [].
      split; [exact (effect_trans _ _ _ _ _ _ _ Ec He)|by left].
Qed.
End Effects.

(** * Positions *)

Section Positions.
Context `{Env}.

(** The trades of one call: positive quantities that sum up to at most the order's. *)
Lemma match_trades_total o b t :
  wf_sides b -> incoming_ok o ->
  Forall (fun tr => from_aggressor o tr /\ 0 < t_quantity tr) (match_ o b t).1.1 /\
  sum_trades (match_ o b t).1.1 <= Z.max 0 (quantity o).
Proof.
  intros Hwf Hin. split.
  - eapply Forall_impl; [by apply match_trades_passive|]. cbn.
    intros tr (Hag & x & _ & _ & _ & _ & ?). split; [done|lia].
  - destruct (match_trades_cases o b t) as [[-> _]|(crosses & -> & _)]; [cbn; lia|].
    destruct (run_side_refines crosses o b t Hwf Hin) as [Hspec _].
    by apply (spec_fill_balance crosses (quantity o) _ (opposite_queue_positive o b Hwf)
                _ _ _ Hspec).
Qed.

Definition signed (s : OrderSide) (q : Z) : Z := match s with BUY => q | SELL => - q end.

Lemma sum_signed_trades o trades :
  Forall (fun tr => from_aggressor o tr /\ 0 < t_quantity tr) trades ->
  0 <= sum_trades trades /\
  forall a sym, sum_signed a sym (report_of <$> trades) =
    if decide (a = accountId o /\ sym = symbol o) then signed (side o) (sum_trades trades) else 0.
Proof.
  induction 1 as [|tr trades ((Hs & _ & Ha & Hd) & Hq) _ [IH0 IH]].
  { split; [done|]. intros. case_decide; [|done]. by destruct (side o). }
  change (sum_trades (tr :: trades)) with (t_quantity tr + sum_trades trades).
  split; [lia|]. intros a sym. rewrite fmap_cons.
  change (sum_signed a sym (report_of tr :: (report_of <$> trades)))
    with (signed_fill a sym (report_of tr) + sum_signed a sym (report_of <$> trades)).
  rewrite IH. unfold signed_fill. cbn. rewrite Ha, Hs, Hd.
  destruct (decide (a = accountId o /\ sym = symbol o)) as [[-> ->]|Hne].
  - rewrite decide_True by done. unfold signed. destruct (side o); lia.
  - rewrite decide_False by naive_solver. lia.
Qed.

Lemma sum_trades_app l k : sum_trades (l ++ k) = sum_trades l + sum_trades k.
Proof. unfold sum_trades. by rewrite fmap_app, sum_qty_app. Qed.

(** Fills that an exception cut short lie in between. *)
Lemma prefix_fills o b t fs :
  wf_sides b -> incoming_ok o -> fs `prefix_of` (report_of <$> (match_ o b t).1.1) ->
  exists q, 0 <= q <= Z.max 0 (quantity o) /\
    forall a sym, sum_signed a sym fs =
      if decide (a = accountId o /\ sym = symbol o) then signed (side o) q else 0.
Proof.
  intros Hwf Hin (trs & -> & [rest Hrest])%prefix_fmap_inv.
  destruct (match_trades_total o b t Hwf Hin) as [Hall Hsum].
  rewrite Hrest in Hall, Hsum. apply Forall_app in Hall as [H1 H2].
  destruct (sum_signed_trades o trs H1) as [Hq Hs].
  destruct (sum_signed_trades o rest H2) as [Hq' _].
  rewrite sum_trades_app in Hsum. exists (sum_trades trs). split; [lia|done].
Qed.
End Positions.

(** * Runs of the system *)

Section Runs.
Context `{Env} `{RedisServer} `{JsonPrinter}.

(** One call on the system that returns or throws; the submitted orders satisfy
    [allowed]. *)
Inductive system_step (allowed : Order -> Prop) : SysState -> SysState -> Prop :=
| sys_submit o s :
    incoming_ok o -> allowed o -> (submit o s).1 <> Hang ->
    system_step allowed s (submit o s).2
| sys_cancel sym id s : system_step allowed s (cancel sym id s).2
| sys_halt s : system_step allowed s (halt s).2
| sys_resume s : system_step allowed s (resume s).2
| sys_breaker op e w cb t :
    cb_exec op (w_risk w).2 (w_t w) = Ret (cb, t) ->
    system_step allowed (e, w) (e, mkWorld ((w_risk w).1, cb) (w_ext w) t)
| sys_clock e w t :                    (* other readings of the environment *)
    system_step allowed (e, w) (e, mkWorld (w_risk w) (w_ext w) t).

Lemma system_engine_step allowed s s' : system_step allowed s s' -> engine_step s s'.
Proof.
  destruct 1 as [o s Hin _ Hret| | | |op e w cb t _|e w t];
    [by eapply step_submit|constructor..| |]; by apply step_world.
Qed.

Lemma system_steps_ok allowed s s' :
  rtc (system_step allowed) s s' -> engine_ok True True s -> engine_ok True True s'.
Proof.
  induction 1 as [|s1 s2 s3 Hstep _ IH]; [done|]. intros Hok. apply IH.
  eapply engine_step_ok; [done|by eapply system_engine_step|done].
Qed.

Lemma system_step_wired allowed s s' :
  system_step allowed s s' -> engine_ok True True s -> wired_sys s -> wired_sys s'.
Proof.
  intros Hstep Hok Hw. destruct Hstep as [o [e w] Hin _ Hret|sym id [e w]| | | |]; try done.
  - pose proof (submit_system o e w Hok Hw Hin) as Hp. unfold post in Hp.
    destruct (submit o (e, w)) as [[trades|what|] s']; [| |done].
    + by apply Hp.
    + destruct Hp as (evs & fs & He & _). by apply He.
  - rewrite (cancel_run _ _ _ _ _ _ Hok). by destruct (books_ e !! sym).
Qed.

Lemma system_steps_wired allowed s s' :
  rtc (system_step allowed) s s' -> engine_ok True True s -> wired_sys s -> wired_sys s'.
Proof.
  induction 1 as [|s1 s2 s3 Hstep _ IH]; [done|]. intros Hok Hw.
  apply IH; [|by eapply system_step_wired].
  eapply engine_step_ok; [done|by eapply system_engine_step|done].
Qed.

(** ** The position limit *)

Definition positions_bounded (s : SysState) : Prop :=
  forall a sym, Z.abs (net_of a sym s.2) <= 10000.

Lemma approved_position o w res r :
  gate_check o (w_risk w) = Ret (res, r) -> approved res = true ->
  Z.abs (net_of (accountId o) (symbol o) w) <= 10000 -> Z.abs (quantity o) < 2 ^ 62 ->
  Z.abs (net_of (accountId o) (symbol o) w + signed (side o) (quantity o)) <= 10000.
Proof.
  intros E Ha Hn Hq. rewrite (surjective_pairing (w_risk w)) in E.
  apply risk_gate_check in E as []. destruct (cf_approved Ha) as (_ & _ & _ & _ & _ & Hpo & _).
  unfold position_exceeded, projectedPosition in Hpo. rewrite isBuy_side in Hpo.
  apply Z.ltb_ge in Hpo. change MAX_POSITION_SHARES with 10000 in Hpo.
  unfold net_of, signed in *.
  destruct (side o);
    [rewrite add64_small in Hpo by (unfold int64; lia)
    |rewrite sub64_small in Hpo by (unfold int64; lia)];
    rewrite abs64_small in Hpo by lia; lia.
Qed.

Lemma fills_bounded o s s' evs fs :
  incoming_ok o -> Z.abs (quantity o) < 2 ^ 62 -> positions_bounded s ->
  effect s s' evs fs -> fills_ok o s fs -> positions_bounded s'.
Proof.
  intros Hin Hq Hb [_ _ Hn] Hf a sym.
  rewrite Hn by (intros a' sym'; specialize (Hb a' sym'); unfold int64; lia).
  assert (exists q, Z.abs (net_of a sym s.2 + q) <= 10000 /\ sum_signed a sym fs = q)
    as (q & Hq' & ->).
  2: { rewrite wrap64_small; unfold int64; lia. }
  specialize (Hb a sym). destruct Hf as [->|(res & r & b & t & E & Ha & Hwf & Hp)].
  { exists 0. split; [by rewrite Z.add_0_r|done]. }
  destruct (prefix_fills o b t fs Hwf Hin Hp) as (q & Hq0 & Hs). eexists. split; [|done].
  rewrite Hs. case_decide as Hd; [|by rewrite Z.add_0_r]. destruct Hd as [-> ->].
  pose proof (approved_position o s.2 res r E Ha Hb Hq). unfold signed in *.
  destruct (side o); lia.
Qed.

Lemma system_step_bounded s s' :
  system_step (fun o => Z.abs (quantity o) < 2 ^ 62) s s' ->
  engine_ok True True s -> wired_sys s -> positions_bounded s -> positions_bounded s'.
Proof.
  intros Hstep Hok Hw Hb. destruct Hstep as [o [e w] Hin Hq Hret|sym id [e w]| | | |]; try done.
  - pose proof (submit_system o e w Hok Hw Hin) as Hp. unfold post in Hp.
    destruct (submit o (e, w)) as [[trades|what|] s']; [| |done].
    + destruct Hp as [He Hf]. by eapply fills_bounded.
    + destruct Hp as (evs & fs & He & Hf). by eapply fills_bounded.
  - rewrite (cancel_run _ _ _ _ _ _ Hok). by destruct (books_ e !! sym).
Qed.

Lemma system_steps_bounded s s' :
  rtc (system_step (fun o => Z.abs (quantity o) < 2 ^ 62)) s s' ->
  engine_ok True True s -> wired_sys s -> positions_bounded s -> positions_bounded s'.
Proof.
  induction 1 as [|s1 s2 s3 Hstep _ IH]; [done|]. intros Hok Hw Hb.
  apply IH; [|by eapply system_step_wired|by eapply system_step_bounded].
  eapply engine_step_ok; [done|by eapply system_engine_step|done].
Qed.
End Runs.
