(* ===== verification/SystemClaims.v ===== *)
(** The properties of the matching engine and of the wired system. *)

From Stdlib Require Import ZArith Lia.
From stdpp Require Import base numbers gmap strings list relations.
From S2P Require Import Prelude Text Model OrderBook Matching BookSpec BookInvariant BookTheorems BookGuarantees Fixtures Events Json CircuitBreaker RiskEngine RedisPositionCache MatchingEngine EngineInvariant EngineTheorems Wiring System.

Local Open Scope Z_scope.
Local Open Scope cpp_scope.

(** * The properties *)

Section SystemClaims.
Context `{Env} `{RedisServer} `{JsonPrinter}.

(** The states that the system reaches from its start with orders that satisfy
    [allowed]. *)
Definition reachable_system (allowed : Order -> Prop) (connected : bool) (t : nat)
    (s : SysState) : Prop :=
  rtc (system_step allowed) (main_state connected t) s.

(** C3: no account ever trades with itself.  Whatever orders, cancellations, halts
    and circuit breaker commands the system has processed, also when a consumer
    threw an exception in between, every trade of a submission has different
    aggressor and passive accounts. *)
Theorem system_no_self_trade connected t s o trades s' :
  reachable_system (fun _ => True) connected t s -> incoming_ok o ->
  submit o s = (Ret trades, s') ->
  Forall (fun tr => aggressorAccountId tr <> passiveAccountId tr) trades.
Proof.
  intros Hrun Hin E. destruct s as [e w].
  pose proof (system_steps_ok _ _ _ Hrun (main_state_ok connected t)) as Hok.
  pose proof (submit_post _ _ o e w Hok Hin ltac:(done)) as Hp. unfold post in Hp.
  rewrite E in Hp. destruct Hp as [_ Heff]. by destruct Heff.
Qed.

(** The books of a running system are sound.  Every book carries the symbol it
    is filed under and holds only orders of that symbol, its bids are below its
    asks, and (as long as reads of destroyed identifiers see the old text) its
    cancel index agrees with its queues. *)
Theorem system_books_sound connected t s sym b :
  reachable_system (fun _ => True) connected t s -> books_ s.1 !! sym = Some b ->
  symbol_ b = sym /\ Forall (fun x => symbol x = sym) (book_orders b) /\
  (forall bid ask, bestBid b = Some bid -> bestAsk b = Some ask -> bid < ask) /\
  (FreedReadsOld -> wf_book b).
Proof.
  intros Hrun Hb. pose proof (system_steps_ok _ _ _ Hrun (main_state_ok connected t)) as Hok.
  destruct (eo_books _ _ _ Hok _ _ Hb) as [Hsym Hwf Hidx Hord]. split_and!; [done| | |].
  - apply Forall_forall. intros x Hx. by apply Hord.
  - intros bid ask. by apply wf_sides_best.
  - intros Hold. split; [done|by apply Hidx].
Qed.

(** Instruments are independent.  A submission, whether it returns or throws,
    leaves the book of every other symbol as it was, and the book of its own symbol
    is unchanged or is the result of one matching call on it. *)
Theorem submit_touches_one_book connected t s o :
  reachable_system (fun _ => True) connected t s -> incoming_ok o ->
  (submit o s).1 <> Hang ->
  let books' := books_ (submit o s).2.1 in
  (forall sym, sym <> symbol o -> books' !! sym = books_ s.1 !! sym) /\
  (books' !! symbol o = books_ s.1 !! symbol o \/
   exists t', books' !! symbol o =
     Some (match_ o (book_for (symbol o) (books_ s.1)) t').1.2).
Proof.
  intros Hrun Hin Hret books'. destruct s as [e w].
  pose proof (system_steps_ok _ _ _ Hrun (main_state_ok connected t)) as Hok.
  pose proof (submit_post _ _ o e w Hok Hin ltac:(done)) as Hp. unfold post in Hp.
  assert (exists trades, submit_effect o (books_ e) trades books') as [trades Heff].
  { subst books'. destruct (submit o (e, w)) as [[trades|what|] s']; [| |done]; cbn.
    - exists trades. apply Hp.
    - apply Hp. }
  destruct Heff as [|b t' -> _]; [auto|]. split.
  - intros sym Hne. cbn. by rewrite lookup_insert_ne.
  - right. exists t'. by rewrite lookup_insert_eq.
Qed.

(** C38: the kill switch.  While the engine is halted, a submission returns no
    trades, reports exactly one event, the rejection with reason ENGINE_HALTED, and
    changes neither the books nor the risk engine nor the position cache. *)
Theorem halted_engine_rejects o e w :
  wired_sys (e, w) -> halted_ e = true ->
  exists ev t, submit o (e, w) =
      (Ret [], (e, mkWorld (w_risk w)
                     (mkExt (x_appended (w_ext w) ++ [ev]) (x_redis (w_ext w))) t)) /\
    content ev = mkContent ORDER_REJECTED o None "ENGINE_HALTED".
Proof.
  destruct e as [bks lks sts m ec fc h]. intros [He Hf] Hh. cbn in *. subst.
  unfold submit, cbind, emit, ctry, in_world. cbn. do 2 eexists. split; [reflexivity|done].
Qed.

(** The audit trail of a submission that returns, in order: a rejected order has
    exactly its rejection with the reason; an accepted one its receipt, then one
    fill event per trade, then a resting event if it is a limit order that did not
    trade. *)
Theorem submit_event_trail connected t s o trades s' :
  reachable_system (fun _ => True) connected t s -> incoming_ok o ->
  submit o s = (Ret trades, s') ->
  log_of s' = log_of s ++ submit_trail o s trades.
Proof.
  intros Hrun Hin E. destruct s as [e w].
  pose proof (system_steps_ok _ _ _ Hrun (main_state_ok connected t)) as Hok.
  pose proof (system_steps_wired _ _ _ Hrun (main_state_ok connected t) ltac:(done)) as Hw.
  pose proof (submit_system o e w Hok Hw Hin) as Hp. unfold post in Hp. rewrite E in Hp.
  apply Hp.
Qed.

(** C15: the position limit holds when calls do not overlap.  As long as submitted
    quantities stay below 2^62 and every call on the system begins after the one before
    it has ended, the recorded net position of every account in every symbol is within
    10,000 shares after every call, also when the fill consumer threw in the middle of
    reporting.  (Orders that are checked at the same time can pass the limit.) *)
Theorem recorded_positions_bounded connected t s a sym :
  reachable_system (fun o => Z.abs (quantity o) < 2 ^ 62) connected t s ->
  Z.abs (net_position a sym (w_risk s.2).1) <= 10000.
Proof.
  intros Hrun.
  apply (system_steps_bounded _ _ Hrun (main_state_ok connected t)); [done|].
  intros a' sym'. cbn. unfold net_of, net_position. cbn. by rewrite lookup_empty.
Qed.

(** Stop-limit orders are lost.  No reachable state holds a stop order, and a
    stop-limit submission, also an approved one, returns no trades and leaves no
    trace of the order: neither in the stop orders nor in any book. *)
Theorem stop_limit_orders_dropped connected t s o trades s' :
  reachable_system (fun _ => True) connected t s -> incoming_ok o -> type o = STOP_LIMIT ->
  submit o s = (Ret trades, s') ->
  trades = [] /\ stopOrders_ s'.1 = ∅ /\
  forall sym, book_orders (book_for sym (books_ s'.1)) = book_orders (book_for sym (books_ s.1)).
Proof.
  intros Hrun Hin Hty E. destruct s as [e w].
  pose proof (system_steps_ok _ _ _ Hrun (main_state_ok connected t)) as Hok.
  pose proof (submit_post _ _ o e w Hok Hin ltac:(done)) as Hp. unfold post in Hp.
  rewrite E in Hp. destruct Hp as [Hok' Heff]. destruct Heff as [|b t' -> _].
  { split_and!; [done|apply Hok'|done]. }
  unfold match_. rewrite Hty. cbn. split_and!; [done|apply Hok'|].
  intros sym. unfold book_for at 1. destruct (decide (sym = symbol o)) as [->|Hne].
  - by rewrite lookup_insert_eq.
  - by rewrite lookup_insert_ne.
Qed.

(** Cancellation by symbol and identifier.  It reports whether the order was
    taken out of the book of that symbol, touches no other book, and is invisible
    to everything else: no event is emitted and the risk engine keeps the order as
    active. *)
Theorem cancel_is_silent connected t s sym id :
  reachable_system (fun _ => True) connected t s ->
  exists removed s', cancel sym id s = (Ret removed, s') /\ s'.2 = s.2 /\
    removed = match books_ s.1 !! sym with
              | Some b => (removeFromBook id b).1 | None => false end /\
    forall sym', books_ s'.1 !! sym' =
      (if decide (sym' = sym) then (fun b => (removeFromBook id b).2) <$> books_ s.1 !! sym
       else books_ s.1 !! sym').
Proof.
  intros Hrun. destruct s as [e w].
  pose proof (system_steps_ok _ _ _ Hrun (main_state_ok connected t)) as Hok.
  rewrite (cancel_run _ _ _ _ _ _ Hok). cbn.
  destruct (books_ e !! sym) as [b|] eqn:Hb; do 2 eexists; split; try reflexivity;
    split_and!; try done; cbn; intros sym'; case_decide; subst; try done.
  - by rewrite lookup_insert_eq.
  - by rewrite lookup_insert_ne.
Qed.
End SystemClaims.

(** A submission returns.  On an engine in a sound state whose consumers neither
    throw nor block, with a gate that answers, [submit] returns, leaves the engine in
    a sound state, and its effect on the books is at most one matching call. *)
Theorem submit_returns `{Env} {R X : Type} `{PreTradeGateLaws R}
    (s : MatchingEngine (World R X) * World R X) o :
  engine_ok False False s -> incoming_ok o -> gate_check o (w_risk s.2) <> Hang ->
  exists trades s', submit o s = (Ret trades, s') /\ engine_ok False False s' /\
    submit_effect o (books_ s.1) trades (books_ s'.1).
Proof.
  intros Hok Hin Hgate. destruct s as [e w].
  destruct (post_returns (submit o) (e, w) (fun trades s' => engine_ok False False s' /\
    submit_effect o (books_ e) trades (books_ s'.1))) as (trades & s' & E & Hq).
  - eapply post_mono; [apply (submit_post False False o e w Hok Hin)|done|]; [done|].
    by intros s' [].
  - exists trades, s'. done.
Qed.

(** * Concrete runs *)

Section ConcreteRuns.
#[local] Existing Instance demo_env.
#[local] Existing Instance counter_server.
#[local] Existing Instance demo_json.

Definition after (os : list Order) (s : SysState) : SysState :=
  foldl (fun s o => (submit o s).2) s os.

(** The returned trades, [None] when the call throws or hangs. *)
Definition returned {A S} (r : outcome A * S) : option A :=
  match r.1 with Ret a => Some a | _ => None end.

(** Who traded with whom, and how much. *)
Definition views (trades : list Trade) : list (string * string * Z) :=
  (fun tr => (aggressorAccountId tr, passiveAccountId tr, t_quantity tr)) <$> trades.

Fixpoint submits (os : list Order) (s : SysState) : list (option (list (string * string * Z))) :=
  match os with
  | [] => []
  | o :: os =>
      option_map views (returned (submit o s)) :: submits os (submit o s).2
  end.

Definition ask100 := demo_order "x1" "seller" SELL LIMIT (dollars 100) 10.
Definition buy100 := demo_order "x2" "buyer" BUY MARKET 0 10.
Definition ask106 := demo_order "x3" "seller" SELL LIMIT (dollars 106) 10.
Definition buy106 := demo_order "x4" "buyer" BUY MARKET 0 10.

(** A price move of 6% within a minute, which the fat-finger check lets pass,
    stops the system instead of halting the symbol: the order whose trade trips the
    circuit breaker never returns from [submit]. *)
Theorem breaker_trip_hangs_submit :
  submits [ask100; buy100; ask106] (main_state true 0) =
    [Some []; Some [("buyer", "seller", 10)]; Some []] /\
  (submit buy106 (after [ask100; buy100; ask106] (main_state true 0))).1 = Hang.
Proof. split; vm_compute; reflexivity. Qed.

Definition sell_10k (id : string) := demo_order id "seller" SELL LIMIT (dollars 1) 10000.
Definition buy_10k (id acct : string) := demo_order id acct BUY MARKET 0 10000.

(** The position limit does not see resting orders: an account that sells
    10,000 shares through a resting order, twice, ends 20,000 shares short while
    its recorded position is still 0. *)
Theorem passive_fills_not_recorded :
  let orders := [sell_10k "y1"; buy_10k "y2" "buyer1"; sell_10k "y3"; buy_10k "y4" "buyer2"] in
  submits orders (main_state true 0) =
    [Some []; Some [("buyer1", "seller", 10000)]; Some []; Some [("buyer2", "seller", 10000)]] /\
  net_of "seller" "AAPL" (after orders (main_state true 0)).2 = 0 /\
  net_of "buyer1" "AAPL" (after orders (main_state true 0)).2 = 10000.
Proof. split_and!; vm_compute; reflexivity. Qed.

(** * Witnesses *)

Definition reached : SysState := after [ask100; sell_10k "y1"] (main_state true 0).

Lemma after_reachable allowed connected t os s :
  Forall (fun o => incoming_ok o /\ allowed o) os ->
  Forall (fun r => r <> None) (submits os s) ->
  reachable_system allowed connected t s -> reachable_system allowed connected t (after os s).
Proof.
  intros Hall. revert s. induction Hall as [|o os [Hin Ha] _ IH]; intros s Hret Hreach; [done|].
  cbn [submits] in Hret. apply Forall_cons in Hret as [Hr Hret].
  apply (IH (submit o s).2 Hret). eapply rtc_r; [exact Hreach|]. apply sys_submit; [done..|].
  destruct (submit o s) as [[trs| |] s']; done.
Qed.

Lemma reached_reachable allowed :
  allowed ask100 -> allowed (sell_10k "y1") -> reachable_system allowed true 0 reached.
Proof.
  intros Ha Hb. apply after_reachable; [| |apply rtc_refl].
  - repeat constructor; done.
  - vm_compute. repeat constructor; discriminate.
Qed.

Lemma returned_run {A B S} (f : A -> B) (r : outcome A * S) v :
  option_map f (returned r) = Some v -> exists a s', r = (Ret a, s') /\ f a = v.
Proof. destruct r as [[a| |] s']; cbn; [|done..]. intros [= <-]. eauto. Qed.

(** A submission on the reached state. *)
Definition demo_limit := demo_order "m2" "buyer" BUY LIMIT (dollars 1) 4000.
Definition demo_stop := demo_order "m3" "buyer" BUY STOP_LIMIT (dollars 1) 10.

Lemma reached_any : reachable_system (fun _ => True) true 0 reached.
Proof. by apply reached_reachable. Qed.

Lemma demo_limit_in : incoming_ok demo_limit.
Proof. done. Qed.

Lemma demo_stop_in : incoming_ok demo_stop.
Proof. done. Qed.

Lemma demo_limit_run :
  exists trades s', submit demo_limit reached = (Ret trades, s') /\
    views trades = [("buyer", "seller", 4000)].
Proof. apply returned_run. vm_compute. reflexivity. Qed.

Lemma system_no_self_trade_witness :
  exists trades s', submit demo_limit reached = (Ret trades, s') /\ length trades = 1%nat /\
    Forall (fun tr => aggressorAccountId tr <> passiveAccountId tr) trades.
Proof.
  destruct demo_limit_run as (trades & s' & E & Hv). exists trades, s'. split_and!; [exact E| |].
  - apply (f_equal length) in Hv. unfold views in Hv. rewrite length_fmap in Hv. exact Hv.
  - apply (system_no_self_trade true 0 reached demo_limit trades s');
      [exact reached_any|exact demo_limit_in|exact E].
Defined.

Lemma system_books_sound_witness :
  exists b, books_ reached.1 !! "AAPL" = Some b /\ symbol_ b = "AAPL" /\ wf_book b.
Proof.
  destruct (books_ reached.1 !! "AAPL") as [b|] eqn:E.
  - exists b. split; [reflexivity|].
    destruct (system_books_sound true 0 reached "AAPL" b) as (Hs & _ & _ & Hwf);
      [exact reached_any|exact E|].
    split; [exact Hs|]. apply Hwf, demo_env_reads_old.
  - exfalso. assert (is_Some (books_ reached.1 !! "AAPL")) as [b Hb]
      by (apply (bool_decide_unpack _); vm_compute; exact I).
    rewrite E in Hb. discriminate Hb.
Defined.

Lemma submit_touches_one_book_witness :
  books_ (submit demo_limit reached).2.1 !! "GOOG" = books_ reached.1 !! "GOOG".
Proof.
  destruct demo_limit_run as (trades & s' & E & _).
  apply (submit_touches_one_book true 0 reached demo_limit);
    [exact reached_any|exact demo_limit_in|rewrite E; discriminate|discriminate].
Defined.

Lemma halted_engine_rejects_witness :
  exists ev t, submit demo_limit (halt reached).2 =
    (Ret [], ((halt reached).2.1, mkWorld (w_risk reached.2)
               (mkExt (x_appended (w_ext reached.2) ++ [ev]) (x_redis (w_ext reached.2))) t)) /\
    content ev = mkContent ORDER_REJECTED demo_limit None "ENGINE_HALTED".
Proof.
  apply (halted_engine_rejects demo_limit (halt reached).2.1 reached.2); [|reflexivity].
  split; reflexivity.
Defined.

Lemma submit_event_trail_witness :
  exists trades s', submit demo_limit reached = (Ret trades, s') /\
    log_of s' = log_of reached ++ submit_trail demo_limit reached trades /\
    ec_type <$> submit_trail demo_limit reached trades = [ORDER_RECEIVED; ORDER_FILLED].
Proof.
  destruct demo_limit_run as (trades & s' & E & Hv). exists trades, s'. split; [exact E|].
  split.
  - apply (submit_event_trail true 0 reached demo_limit trades s');
      [exact reached_any|exact demo_limit_in|exact E].
  - assert (exists res r, gate_check demo_limit (w_risk reached.2) = Ret (res, r) /\
              approved res = true) as (res & r & Eg & Ha).
    { assert (match gate_check demo_limit (w_risk reached.2) with
              | Ret (res, _) => approved res | _ => false end = true) as Hg
        by (vm_compute; reflexivity).
      destruct (gate_check demo_limit (w_risk reached.2)) as [[res r]| |]; [eauto|done..]. }
    unfold submit_trail. rewrite Eg, Ha.
    assert (halted_ reached.1 = false) as -> by (vm_compute; reflexivity).
    destruct trades as [|tr [|tr' trades]]; [discriminate Hv|reflexivity|discriminate Hv].
Defined.

Lemma recorded_positions_bounded_witness :
  Z.abs (net_position "seller" "AAPL" (w_risk reached.2).1) <= 10000.
Proof.
  apply (recorded_positions_bounded true 0 reached).
  apply reached_reachable; vm_compute; reflexivity.
Defined.

Lemma stop_limit_orders_dropped_witness :
  exists trades s', submit demo_stop reached = (Ret trades, s') /\ trades = [] /\
    stopOrders_ s'.1 = ∅.
Proof.
  destruct (returned_run views (submit demo_stop reached) []) as (trades & s' & E & _);
    [vm_compute; reflexivity|].
  exists trades, s'. split; [exact E|].
  destruct (stop_limit_orders_dropped true 0 reached demo_stop trades s') as (Ht & Hs & _);
    [exact reached_any|exact demo_stop_in|reflexivity|exact E|]. split; [exact Ht|exact Hs].
Defined.

Lemma cancel_is_silent_witness :
  exists s', cancel "AAPL" "x1" reached = (Ret true, s') /\ s'.2 = reached.2.
Proof.
  destruct (cancel_is_silent true 0 reached "AAPL" "x1") as (removed & s' & E & Hw & Hr & _);
    [exact reached_any|].
  assert (match books_ reached.1 !! "AAPL" with
          | Some b => (removeFromBook "x1" b).1 | None => false end = true) as Ht
    by (vm_compute; reflexivity).
  rewrite Ht in Hr. subst removed. exists s'. split; [exact E|exact Hw].
Defined.

Definition quiet_state : MatchingEngine (World (RiskEngine * CircuitBreaker) unit) *
                         World (RiskEngine * CircuitBreaker) unit :=
  (MatchingEngine_new, mkWorld (RiskEngine_new, CircuitBreaker_new) tt 0).

Lemma submit_returns_witness :
  exists trades s', submit ask100 quiet_state = (Ret trades, s') /\
    engine_ok False False s'.
Proof.
  destruct (submit_returns quiet_state ask100) as (trades & s' & E & Hok & _).
  - apply (wired_ok False False (fun _ => cret tt) (fun _ => [])); [by intros ? ?..|].
    intros a [Hb _]. unfold gate_active in Hb. cbn in Hb. unfold tracked in Hb. cbn in Hb.
    rewrite lookup_empty in Hb. by apply Hb.
  - done.
  - vm_compute. discriminate.
  - exists trades, s'. split; [exact E|exact Hok].
Defined.
End ConcreteRuns.
