(* ===== verification/EngineThreads.v ===== *)
(** Overlapping calls on the matching engine (src/engine/MatchingEngine.cpp): the threads
    of the HTTP server call [submit], [cancel], [getSnapshot], [halt] and [resume] at the
    same time.

    A call is a control point with its local variables; [turn] runs it to its next one
    and yields [None] while it waits for a lock.  The operations between two control
    points are those of MatchingEngine.v.  A control point lies before every operation
    on [mapMutex_], on the lock of a symbol, on the maps, on a book, on the risk engine,
    on the event consumer, and before every call that the fill consumer makes.  What the
    risk engine, the event store or one of those calls does under its own mutexes is one
    step; a call that blocks for ever on such a mutex, or on a command that is not
    answered, is [Stuck], and the others may go on.

    The lock of a symbol is held exclusively when [locks_] says so, and shared by as many
    readers as [sh_readers] counts.  [ts_history] is not part of the program: it lists
    the operations on books, the refusals and the changes of the kill switch in the order
    in which they happened, each with the number of its call. *)

From Stdlib Require Import ZArith Lia.
From stdpp Require Import base numbers gmap strings list.
From S2P Require Import Prelude Model OrderBook Events CircuitBreaker RiskEngine MatchingEngine.

Local Open Scope Z_scope.
Local Open Scope cpp_scope.

(** * Calls *)

Inductive Call :=
(* submit *)
| SubmitStart (o : Order)                              (* halted_.load() *)
| SubmitRefuse (o : Order) (why : string)              (* emit(rejected) *)
| SubmitCheck (o : Order)                              (* riskEngine_.checkPreTrade *)
| BookLock (o : Order)                                 (* getOrCreateBook: lock_guard *)
| BookFind (o : Order)                                 (* find and emplace, mapMutex_ held *)
| BookUnlock (o : Order)                               (* return, mapMutex_ held *)
| LockLock (o : Order)                                 (* getOrCreateLock: lock_guard *)
| LockFind (o : Order)
| LockUnlock (o : Order)
| SubmitReceived (o : Order)                           (* emit(received) *)
| SubmitTime (o : Order)                               (* startTime *)
| SubmitWait (o : Order) (startTime : Z)               (* unique_lock *)
| SubmitMatch (o : Order) (startTime : Z)              (* book.match, lock held *)
| SubmitUnlock (o : Order) (startTime : Z) (trades : list Trade)
| SubmitMatched (o : Order) (startTime : Z) (trades : list Trade)   (* endTime *)
| SubmitFill (o : Order) (latency : Z) (todo trades : list Trade)   (* FillEvent::from *)
| SubmitReport (o : Order) (latency : Z) (fill : FillEvent) (k : nat) (todo trades : list Trade)
                                                       (* fillConsumer_: its call k *)
| SubmitFilled (o : Order) (latency : Z) (trade : Trade) (todo trades : list Trade)
                                                       (* emit(filled) *)
| StopWait (o : Order) (trades : list Trade)           (* unique_lock *)
| StopCheck (o : Order) (trades : list Trade)          (* checkStopTriggers, lock held *)
| StopUnlock (o : Order) (trades : list Trade)
| SubmitRest (o : Order) (trades : list Trade)         (* emit(resting) *)
| Submitted (o : Order) (trades : list Trade)          (* returned *)
(* cancel *)
| CancelStart (sym id : string)                        (* books_.find *)
| CancelLock (sym id : string)                         (* locks_.find *)
| CancelWait (sym id : string)                         (* unique_lock *)
| CancelRemove (sym id : string)                       (* removeFromBook, lock held *)
| CancelUnlock (sym id : string) (removed : bool)
| Cancelled (sym id : string) (removed : bool)         (* returned *)
(* getSnapshot *)
| SnapStart (sym : string) (depth : Z)                 (* books_.find *)
| SnapLock (sym : string) (depth : Z)                  (* locks_.find *)
| SnapWait (sym : string) (depth : Z)                  (* shared_lock *)
| SnapRead (sym : string) (depth : Z)                  (* snapshot, lock shared *)
| SnapUnlock (sym : string) (depth : Z) (snap : OrderBookSnapshot)
| Snapped (sym : string) (depth : Z) (snap : option OrderBookSnapshot)   (* returned *)
(* halt and resume *)
| HaltCall (h : bool)
| HaltDone (h : bool)
(* an exception left the call; the call blocks for ever *)
| Threw (what : string)
| Stuck.

(** The operations on books, the refusals and the changes of [halted_]. *)
Inductive BookOp :=
| OpMatch (o : Order) (t : nat)
| OpRemove (sym id : string)
| OpRefuse (o : Order) (why : string)
| OpHalt (h : bool).

Section Threads.
Context `{Env} {R X : Type} `{PreTradeGate R}.

Abbreviation W := (World R X).
Abbreviation State := (MatchingEngine W * W)%type.

Record Shared := mkShared {
  sh_state : State;
  sh_readers : gmap string nat
}.

Record Threads := mkThreads {
  ts_shared : Shared;
  ts_calls : list Call;
  ts_history : list (nat * BookOp)
}.

(** * Turns *)

(** An operation of the engine, and where the call goes on with its result. *)
Definition run {A} (m : cpp State A) (next : A -> Call) (s : Shared) : option (Call * Shared) :=
  let '(r, st) := m (sh_state s) in
  Some (match r with Ret a => next a | Throw what => Threw what | Hang => Stuck end,
        mkShared st (sh_readers s)).

Definition lock_held (sym : string) (s : Shared) : bool :=
  default false (locks_ (sh_state s).1 !! sym).

Definition readers (sym : string) (s : Shared) : nat := default 0%nat (sh_readers s !! sym).

(** [lock_guard<std::mutex>(mapMutex_)]. *)
Definition take_mapMutex (next : Call) (s : Shared) : option (Call * Shared) :=
  if mapMutex_ (sh_state s).1 then None
  else run (engine_upd (set_mapMutex true)) (fun _ => next) s.

Definition release_mapMutex (next : Call) (s : Shared) : option (Call * Shared) :=
  run (engine_upd (set_mapMutex false)) (fun _ => next) s.

(** [std::unique_lock<std::shared_mutex>]. *)
Definition take_lock (sym : string) (next : Call) (s : Shared) : option (Call * Shared) :=
  if lock_held sym s || (0 <? readers sym s)%nat then None
  else run (engine_upd (fun e => set_locks (<[sym := true]> (locks_ e)) e)) (fun _ => next) s.

Definition release_lock (sym : string) (next : Call) (s : Shared) : option (Call * Shared) :=
  run (engine_upd (fun e => set_locks (<[sym := false]> (locks_ e)) e)) (fun _ => next) s.

(** [std::shared_lock<std::shared_mutex>]. *)
Definition share_lock (sym : string) (next : Call) (s : Shared) : option (Call * Shared) :=
  if lock_held sym s then None
  else Some (next, mkShared (sh_state s) (<[sym := S (readers sym s)]> (sh_readers s))).

Definition unshare_lock (sym : string) (next : Call) (s : Shared) : option (Call * Shared) :=
  Some (next, mkShared (sh_state s) (<[sym := pred (readers sym s)]> (sh_readers s))).

(** [bookIt->second->removeFromBook(orderId)] and [snapshot(depth)]. *)
Definition book_remove (sym id : string) : cpp State bool := fun s =>
  let '(removed, b) := removeFromBook id (default (OrderBook_new sym) (books_ s.1 !! sym)) in
  (Ret removed, (set_books (<[sym := b]> (books_ s.1)) s.1, s.2)).

Definition book_snapshot (sym : string) (depth : Z) : cpp State OrderBookSnapshot :=
  engine_get (fun e => snapshot depth (default (OrderBook_new sym) (books_ e !! sym))).

(** An event is built and emitted. *)
Definition emit_new (f : nat -> OrderEvent * nat) : cpp State unit :=
  do! ev <- read_env f; emit ev.

(** One turn of [submit]. *)
Definition submit_turn (c : Call) (s : Shared) : option (Call * Shared) :=
  match c with
  | SubmitStart o =>
      run (engine_get halted_)
        (fun stopped => if stopped : bool then SubmitRefuse o "ENGINE_HALTED" else SubmitCheck o) s
  | SubmitRefuse o why => run (emit_new (OrderEvent_rejected o why)) (fun _ => Submitted o []) s
  | SubmitCheck o =>
      run (riskEngine_checkPreTrade o)
        (fun res => if negb (approved res) then SubmitRefuse o (reason res) else BookLock o) s
  | BookLock o => take_mapMutex (BookFind o) s
  | BookFind o => run (engine_upd (create_book (symbol o))) (fun _ => BookUnlock o) s
  | BookUnlock o => release_mapMutex (LockLock o) s
  | LockLock o => take_mapMutex (LockFind o) s
  | LockFind o => run (engine_upd (create_lock (symbol o))) (fun _ => LockUnlock o) s
  | LockUnlock o => release_mapMutex (SubmitReceived o) s
  | SubmitReceived o => run (emit_new (OrderEvent_received o)) (fun _ => SubmitTime o) s
  | SubmitTime o => run steadyClock (SubmitWait o) s
  | SubmitWait o startTime => take_lock (symbol o) (SubmitMatch o startTime) s
  | SubmitMatch o startTime => run (book_match (symbol o) o) (SubmitUnlock o startTime) s
  | SubmitUnlock o startTime trades =>
      release_lock (symbol o) (SubmitMatched o startTime trades) s
  | SubmitMatched o startTime trades =>
      run steadyClock
        (fun endTime => SubmitFill o (Z.quot (sub64 endTime startTime) 1000) trades trades) s
  | SubmitFill o latency [] trades =>
      Some (match trades with [] => SubmitRest o trades | _ => StopWait o trades end, s)
  | SubmitFill o latency (trade :: todo) trades =>
      run (read_env (FillEvent_new trade latency))
        (fun fill => SubmitReport o latency fill 0 todo trades) s
  | SubmitReport o latency fill k todo trades =>
      match fillConsumer_ (sh_state s).1 fill !! k with
      | Some call => run (in_world call) (fun _ => SubmitReport o latency fill (S k) todo trades) s
      | None => Some (SubmitFilled o latency (fe_trade fill) todo trades, s)
      end
  | SubmitFilled o latency trade todo trades =>
      run (emit_new (OrderEvent_filled o trade)) (fun _ => SubmitFill o latency todo trades) s
  | StopWait o trades => take_lock (symbol o) (StopCheck o trades) s
  | StopCheck o trades => run (checkStopTriggers (symbol o)) (fun _ => StopUnlock o trades) s
  | StopUnlock o trades => release_lock (symbol o) (SubmitRest o trades) s
  | SubmitRest o trades =>
      run (if bool_decide (type o = LIMIT) && bool_decide (trades = [])
           then emit_new (OrderEvent_resting o) else cret tt)
        (fun _ => Submitted o trades) s
  | _ => None
  end.

(** One turn of any call; [None] when it waits for a lock or has ended. *)
Definition turn (c : Call) (s : Shared) : option (Call * Shared) :=
  match c with
  | CancelStart sym id =>
      run (engine_get books_)
        (fun books => match books !! sym with
                      | Some _ => CancelLock sym id | None => Cancelled sym id false end) s
  | CancelLock sym id =>
      run (engine_get locks_)
        (fun locks => match locks !! sym with
                      | Some _ => CancelWait sym id | None => Cancelled sym id false end) s
  | CancelWait sym id => take_lock sym (CancelRemove sym id) s
  | CancelRemove sym id => run (book_remove sym id) (CancelUnlock sym id) s
  | CancelUnlock sym id removed => release_lock sym (Cancelled sym id removed) s
  | SnapStart sym depth =>
      run (engine_get books_)
        (fun books => match books !! sym with
                      | Some _ => SnapLock sym depth | None => Snapped sym depth None end) s
  | SnapLock sym depth =>
      run (engine_get locks_)
        (fun locks => match locks !! sym with
                      | Some _ => SnapWait sym depth | None => Snapped sym depth None end) s
  | SnapWait sym depth => share_lock sym (SnapRead sym depth) s
  | SnapRead sym depth => run (book_snapshot sym depth) (SnapUnlock sym depth) s
  | SnapUnlock sym depth snap => unshare_lock sym (Snapped sym depth (Some snap)) s
  | HaltCall h => run (if h then halt else resume) (fun _ => HaltDone h) s
  | _ => submit_turn c s
  end.

(** What the turn does to a book or to [halted_], or that it refuses its order. *)
Definition turn_op (c : Call) (s : Shared) : list BookOp :=
  match c with
  | SubmitMatch o _ => [OpMatch o (w_t (sh_state s).2)]
  | CancelRemove sym id => [OpRemove sym id]
  | SubmitRefuse o why => [OpRefuse o why]
  | HaltCall h => [OpHalt h]
  | _ => []
  end.

(** Call [i] takes a turn. *)
Definition take_turn (i : nat) (s : Threads) : option Threads :=
  match ts_calls s !! i with
  | None => None
  | Some c =>
      match turn c (ts_shared s) with
      | None => None
      | Some (c', sh) =>
          Some (mkThreads sh (<[i := c']> (ts_calls s))
                  (ts_history s ++ (pair i <$> turn_op c (ts_shared s))))
      end
  end.

(** A call that begins. *)
Definition begins (c : Call) : bool :=
  match c with
  | SubmitStart _ | CancelStart _ _ | SnapStart _ _ | HaltCall _ => true
  | _ => false
  end.

(** The engine before the first call. *)
Definition threads_start (s : State) : Threads := mkThreads (mkShared s ∅) [] [].

(** A schedule: which call takes the next turn; waiting calls keep waiting. *)
Fixpoint run_turns (schedule : list nat) (s : Threads) : Threads :=
  match schedule with
  | [] => s
  | i :: schedule => run_turns schedule (default s (take_turn i s))
  end.
End Threads.
Arguments Shared : clear implicits.
Arguments Threads : clear implicits.
