(* ===== verification/ThreadsInvariant.v ===== *)
(** The locks of overlapping calls: who holds which, that every access to a book is
    protected, and which accesses to the maps are not. *)

From Stdlib Require Import ZArith Lia.
From stdpp Require Import base numbers gmap strings list relations.
From S2P Require Import Prelude Model OrderBook Matching BookSpec BookInvariant BookTheorems Events CircuitBreaker RiskEngine MatchingEngine EngineInvariant EngineTheorems EngineThreads.

Local Open Scope Z_scope.
Local Open Scope cpp_scope.

(** * What a call holds *)

(** The symbol whose lock the call holds exclusively, the one it shares, and whether it
    holds [mapMutex_]. *)
Definition exclusive (c : Call) : option string :=
  match c with
  | SubmitMatch o _ | SubmitUnlock o _ _ | StopCheck o _ | StopUnlock o _ => Some (symbol o)
  | CancelRemove sym _ | CancelUnlock sym _ _ => Some sym
  | _ => None
  end.

Definition shares (c : Call) : option string :=
  match c with SnapRead sym _ | SnapUnlock sym _ _ => Some sym | _ => None end.

Definition in_map (c : Call) : bool :=
  match c with BookFind _ | BookUnlock _ | LockFind _ | LockUnlock _ => true | _ => false end.

Definition holds (what : Call -> option string) (sym : string) (c : Call) : Z :=
  if decide (what c = Some sym) then 1 else 0.

(** * Control flow *)

(** The call has returned, thrown, or blocks for ever. *)
Definition ended (c : Call) : bool :=
  match c with
  | Submitted _ _ | Cancelled _ _ _ | Snapped _ _ _ | HaltDone _ | Threw _ | Stuck => true
  | _ => false
  end.

(** The steps of a call.  An exception or a block for ever can only come from the risk
    engine or a consumer. *)
Definition successor (c c' : Call) : Prop :=
  match c with
  | SubmitStart o => c' = SubmitRefuse o "ENGINE_HALTED" \/ c' = SubmitCheck o
  | SubmitRefuse o _ => c' = Submitted o []
  | SubmitCheck o => (exists why, c' = SubmitRefuse o why) \/ c' = BookLock o
  | BookLock o => c' = BookFind o
  | BookFind o => c' = BookUnlock o
  | BookUnlock o => c' = LockLock o
  | LockLock o => c' = LockFind o
  | LockFind o => c' = LockUnlock o
  | LockUnlock o => c' = SubmitReceived o
  | SubmitReceived o => c' = SubmitTime o
  | SubmitTime o => exists t, c' = SubmitWait o t
  | SubmitWait o t => c' = SubmitMatch o t
  | SubmitMatch o t => exists trades, c' = SubmitUnlock o t trades
  | SubmitUnlock o t trades => c' = SubmitMatched o t trades
  | SubmitMatched o _ trades => exists latency, c' = SubmitFill o latency trades trades
  | SubmitFill o _ [] [] => c' = SubmitRest o []
  | SubmitFill o _ [] trades => c' = StopWait o trades
  | SubmitFill o l (tr :: todo) trades =>
      exists fill, fe_trade fill = tr /\ c' = SubmitReport o l fill 0 todo trades
  | SubmitReport o l fill k todo trades =>
      c' = SubmitReport o l fill (S k) todo trades \/ c' = SubmitFilled o l (fe_trade fill) todo trades
  | SubmitFilled o l _ todo trades => c' = SubmitFill o l todo trades
  | StopWait o trades => c' = StopCheck o trades
  | StopCheck o trades => c' = StopUnlock o trades
  | StopUnlock o trades => c' = SubmitRest o trades
  | SubmitRest o trades => c' = Submitted o trades
  | CancelStart sym id => c' = CancelLock sym id \/ c' = Cancelled sym id false
  | CancelLock sym id => c' = CancelWait sym id \/ c' = Cancelled sym id false
  | CancelWait sym id => c' = CancelRemove sym id
  | CancelRemove sym id => exists removed, c' = CancelUnlock sym id removed
  | CancelUnlock sym id removed => c' = Cancelled sym id removed
  | SnapStart sym d => c' = SnapLock sym d \/ c' = Snapped sym d None
  | SnapLock sym d => c' = SnapWait sym d \/ c' = Snapped sym d None
  | SnapWait sym d => c' = SnapRead sym d
  | SnapRead sym d => exists snap, c' = SnapUnlock sym d snap
  | SnapUnlock sym d snap => c' = Snapped sym d (Some snap)
  | HaltCall h => c' = HaltDone h
  | _ => False
  end.

Definition calls_out (c : Call) : bool :=
  match c with
  | SubmitRefuse _ _ | SubmitCheck _ | SubmitReceived _
  | SubmitReport _ _ _ _ _ _ | SubmitFilled _ _ _ _ _ | SubmitRest _ _ => true
  | _ => false
  end.

Definition broken (c : Call) : Prop := c = Stuck \/ exists what, c = Threw what.

(** The next control point, given the outcome of the turn. *)
Definition goes_to (c c' : Call) : Prop :=
  successor c c' \/ (calls_out c = true /\ broken c').

Ltac next_call Hc :=
  unfold goes_to, broken in Hc; cbn in Hc;
  repeat match goal with
  | H : _ \/ _ |- _ => destruct H
  | H : _ /\ _ |- _ => destruct H
  | H : exists _, _ |- _ => destruct H
  | H : False |- _ => destruct H
  end; subst; try done.

Ltac by_calls c Hc :=
  destruct c as [| | | | | | | | | | | | | | |? ? [|] [|] | | | | | | | | | | | | | | | | | | | | | | |];
  next_call Hc; cbn in *.

Section Locks.
Context `{Env} {R X : Type} `{PreTradeGate R}.

Abbreviation W := (World R X).
Abbreviation State := (MatchingEngine W * W)%type.
Abbreviation Shared := (Shared R X).
Abbreviation Threads := (Threads R X).

Implicit Types (s : Shared) (st : State) (ts : Threads).

(** * What a turn changes *)

(** The engine after a turn, and the counters of the readers. *)
Definition next_engine (c : Call) (s : Shared) : MatchingEngine W :=
  let e := (sh_state s).1 in
  match c with
  | BookLock _ | LockLock _ => set_mapMutex true e
  | BookUnlock _ | LockUnlock _ => set_mapMutex false e
  | BookFind o => create_book (symbol o) e
  | LockFind o => create_lock (symbol o) e
  | SubmitWait o _ | StopWait o _ => set_locks (<[symbol o := true]> (locks_ e)) e
  | SubmitUnlock o _ _ | StopUnlock o _ => set_locks (<[symbol o := false]> (locks_ e)) e
  | CancelWait sym _ => set_locks (<[sym := true]> (locks_ e)) e
  | CancelUnlock sym _ _ => set_locks (<[sym := false]> (locks_ e)) e
  | SubmitMatch o _ =>
      set_books (<[symbol o := (match_ o (book_for (symbol o) (books_ e))
                                  (w_t (sh_state s).2)).1.2]> (books_ e)) e
  | CancelRemove sym id =>
      set_books (<[sym := (removeFromBook id (book_for sym (books_ e))).2]> (books_ e)) e
  | HaltCall h => set_halted h e
  | _ => e
  end.

Definition next_readers (c : Call) (s : Shared) : gmap string nat :=
  match c with
  | SnapWait sym _ => <[sym := S (readers sym s)]> (sh_readers s)
  | SnapUnlock sym _ _ => <[sym := pred (readers sym s)]> (sh_readers s)
  | _ => sh_readers s
  end.

(** Waiting for a lock, or ended. *)
Definition blocked (c : Call) (s : Shared) : bool :=
  match c with
  | BookLock _ | LockLock _ => mapMutex_ (sh_state s).1
  | SubmitWait o _ | StopWait o _ => lock_held (symbol o) s || (0 <? readers (symbol o) s)%nat
  | CancelWait sym _ => lock_held sym s || (0 <? readers sym s)%nat
  | SnapWait sym _ => lock_held sym s
  | _ => ended c
  end.

(** ** Operations that leave the engine alone *)

Definition engine_same {A} (m : cpp State A) : Prop := forall st, (m st).2.1 = st.1.

Lemma same_bind {A B} (m : cpp State A) (k : A -> cpp State B) :
  engine_same m -> (forall a, engine_same (k a)) -> engine_same (cbind m k).
Proof.
  intros Hm Hk st. unfold cbind. specialize (Hm st).
  destruct (m st) as [[a| |] st']; [|done..]. cbn in Hm. by rewrite Hk.
Qed.

Lemma same_ret {A} (a : A) : engine_same (cret a).
Proof. done. Qed.

Lemma same_get {A} (f : MatchingEngine W -> A) : engine_same (engine_get f).
Proof. done. Qed.

Lemma same_read {A} (f : nat -> A * nat) : engine_same (read_env f).
Proof. intros st. unfold read_env. by destruct (f _). Qed.

Lemma same_world {A} (m : cpp W A) : engine_same (in_world m).
Proof. intros st. unfold in_world. by destruct (m _). Qed.

Lemma same_try (m : cpp State unit) : engine_same m -> engine_same (ctry m).
Proof. intros Hm st. unfold ctry. specialize (Hm st). by destruct (m st) as [[| |] st']. Qed.

Lemma same_check o : engine_same (riskEngine_checkPreTrade o).
Proof.
  intros st. unfold riskEngine_checkPreTrade. by destruct (gate_check _ _) as [[]| |].
Qed.

#[local] Hint Resolve same_bind same_ret same_get same_read same_world same_try same_check : titanx.

Lemma same_emit_new f : engine_same (emit_new f).
Proof. unfold emit_new, emit. auto 10 with titanx. Qed.

Lemma same_clock : engine_same steadyClock.
Proof. apply same_read. Qed.

#[local] Hint Resolve same_emit_new same_clock : titanx.

(** Without stored stop orders the check does nothing. *)
Lemma stops_run sym st : stopOrders_ st.1 = ∅ -> checkStopTriggers sym st = (Ret tt, st).
Proof.
  intros E. unfold checkStopTriggers, cbind. cbn. by rewrite E, lookup_empty.
Qed.

Lemma run_same {A} (m : cpp State A) next s c' s' :
  engine_same m -> run m next s = Some (c', s') ->
  (sh_state s').1 = (sh_state s).1 /\ sh_readers s' = sh_readers s /\
  (c' = Stuck \/ (exists what, c' = Threw what) \/ exists a, c' = next a).
Proof.
  intros Hm. unfold run. specialize (Hm (sh_state s)).
  destruct (m (sh_state s)) as [[a|what|] st]; intros [= <- <-]; cbn in *; eauto 10.
Qed.

Lemma run_get {A} (f : MatchingEngine W -> A) next s c' s' :
  run (engine_get f) next s = Some (c', s') -> c' = next (f (sh_state s).1) /\ s' = s.
Proof. unfold run. cbn. intros [= <- <-]. by destruct s as [[e w] r]. Qed.

Lemma run_upd f next s c' s' :
  run (engine_upd f) next s = Some (c', s') ->
  c' = next tt /\ s' = mkShared (f (sh_state s).1, (sh_state s).2) (sh_readers s).
Proof. unfold run. cbn. by intros [= <- <-]. Qed.

Lemma run_clock next s c' s' :
  run steadyClock next s = Some (c', s') ->
  (exists t, c' = next t) /\ (sh_state s').1 = (sh_state s).1 /\ sh_readers s' = sh_readers s.
Proof. unfold run. cbn. intros [= <- <-]. eauto. Qed.

Lemma run_read {A} (f : nat -> A * nat) next s c' s' :
  run (read_env f) next s = Some (c', s') ->
  c' = next (f (w_t (sh_state s).2)).1 /\ (sh_state s').1 = (sh_state s).1 /\
  sh_readers s' = sh_readers s.
Proof. unfold run. rewrite (surjective_pairing (sh_state s)), read_env_run. by intros [= <- <-]. Qed.

Lemma run_match sym o next s c' s' :
  run (book_match sym o) next s = Some (c', s') ->
  let b := book_for sym (books_ (sh_state s).1) in
  let m := match_ o b (w_t (sh_state s).2) in
  c' = next m.1.1 /\
  s' = mkShared (set_books (<[sym := m.1.2]> (books_ (sh_state s).1)) (sh_state s).1,
                 mkWorld (w_risk (sh_state s).2) (w_ext (sh_state s).2) m.2) (sh_readers s).
Proof.
  unfold run. rewrite (surjective_pairing (sh_state s)), book_match_run. by intros [= <- <-].
Qed.

Lemma run_remove sym id next s c' s' :
  run (book_remove sym id) next s = Some (c', s') ->
  let rb := removeFromBook id (book_for sym (books_ (sh_state s).1)) in
  c' = next rb.1 /\
  s' = mkShared (set_books (<[sym := rb.2]> (books_ (sh_state s).1)) (sh_state s).1,
                 (sh_state s).2) (sh_readers s).
Proof.
  unfold run, book_remove, book_for. destruct (removeFromBook _ _) as [r b].
  by intros [= <- <-].
Qed.

Lemma run_stops sym next s c' s' :
  stopOrders_ (sh_state s).1 = ∅ -> run (checkStopTriggers sym) next s = Some (c', s') ->
  c' = next tt /\ s' = s.
Proof.
  intros Hst. unfold run. rewrite stops_run by done. intros [= <- <-]. by destruct s.
Qed.

Lemma turn_next c s c' s' :
  stopOrders_ (sh_state s).1 = ∅ -> turn c s = Some (c', s') ->
  blocked c s = false /\ (sh_state s').1 = next_engine c s /\ sh_readers s' = next_readers c s /\
  (successor c c' \/ (calls_out c = true /\ broken c')).
Proof.
  intros Hst E.
  assert (forall A (m : cpp State A) next, engine_same m -> calls_out c = true ->
    next_engine c s = (sh_state s).1 -> next_readers c s = sh_readers s -> blocked c s = false ->
    (forall a, successor c (next a)) -> run m next s = Some (c', s') ->
    blocked c s = false /\ (sh_state s').1 = next_engine c s /\ sh_readers s' = next_readers c s /\
    (successor c c' \/ (calls_out c = true /\ broken c'))) as Hout.
  { intros A m next Hm Hc -> -> Hb Hs (? & ? & Hc')%run_same; [|done].
    split_and!; try done. unfold broken. naive_solver. }
  destruct c as [o|o why|o|o|o|o|o|o|o|o|o|o t|o t|o t trs|o t trs|o l todo trs|o l fill k todo trs|o l tr todo trs
    |o trs|o trs|o trs|o trs|o trs|sym id|sym id|sym id|sym id|sym id r|sym id r
    |sym d|sym d|sym d|sym d|sym d snap|sym d snap|h|h|what|];
    cbn [turn submit_turn] in E; try discriminate E;
    unfold take_mapMutex, release_mapMutex, take_lock, release_lock, share_lock, unshare_lock in E;
    unfold book_snapshot in E; cbn [blocked next_engine next_readers successor ended];
    try (apply Hout in E; [exact E|solve [auto with titanx]|done..|by cbn; eauto]);
    try (apply run_get in E as [-> ->]; split_and!; try done; left; cbn; try case_match; by eauto);
    try (apply run_upd in E as [-> ->]; by eauto 10);
    try (apply run_clock in E as ([? ->] & ? & ?); by eauto 10).
  - apply Hout in E; [exact E|apply same_check|done..|]. intros res. cbn. case_match; eauto.
  - destruct (mapMutex_ _); [done|]. apply run_upd in E as [-> ->]. eauto 10.
  - destruct (mapMutex_ _); [done|]. apply run_upd in E as [-> ->]. eauto 10.
  - destruct (_ || _); [done|]. apply run_upd in E as [-> ->]. eauto 10.
  - apply run_match in E as [-> ->]. eauto 10.
  - destruct todo as [|tr todo].
    + injection E as <- <-. split_and!; try done. left. by destruct trs.
    + apply run_read in E as (-> & -> & ->). split_and!; try done. left. eexists. split; [|done]. done.
  - destruct (fillConsumer_ _ fill !! k) as [call|].
    + apply Hout in E; [exact E|apply same_world|by cbn; eauto..].
    + injection E as <- <-. split_and!; try done. left. by right.
  - destruct (_ || _); [done|]. apply run_upd in E as [-> ->]. eauto 10.
  - apply run_stops in E as [-> ->]; [|done]. eauto 10.
  - apply Hout in E; [exact E|case_match; auto with titanx|by cbn..].
  - destruct (_ || _); [done|]. apply run_upd in E as [-> ->]. eauto 10.
  - apply run_remove in E as [-> ->]. eauto 10.
  - destruct (lock_held sym s); [done|]. injection E as <- <-. eauto 10.
  - injection E as <- <-. eauto 10.
  - destruct h; apply run_upd in E as [-> ->]; eauto 10.
Qed.
(** * The locks agree with the calls *)

Record locks_ok (ts : Threads) : Prop := {
  lk_map : sum_of (fun c => Z.b2z (in_map c)) (ts_calls ts) =
    Z.b2z (mapMutex_ (sh_state (ts_shared ts)).1);
  lk_excl sym : sum_of (holds exclusive sym) (ts_calls ts) =
    Z.b2z (lock_held sym (ts_shared ts));
  lk_shared sym : sum_of (holds shares sym) (ts_calls ts) =
    Z.of_nat (readers sym (ts_shared ts));
  lk_apart sym : lock_held sym (ts_shared ts) = true -> readers sym (ts_shared ts) = 0%nat
}.

Lemma create_book_fields sym (e : MatchingEngine W) :
  mapMutex_ (create_book sym e) = mapMutex_ e /\ locks_ (create_book sym e) = locks_ e.
Proof. unfold create_book. by case_match. Qed.

Lemma create_lock_fields sym (e : MatchingEngine W) :
  mapMutex_ (create_lock sym e) = mapMutex_ e /\ books_ (create_lock sym e) = books_ e /\
  forall sym', default false (locks_ (create_lock sym e) !! sym') = default false (locks_ e !! sym').
Proof.
  unfold create_lock. case_match eqn:E; [done|]. split_and!; try done. intros sym'. cbn.
  rewrite lookup_insert. case_decide; [|done]. subst. by rewrite E.
Qed.

Lemma turn_in_map c c' s :
  goes_to c c' -> blocked c s = false -> Z.b2z (in_map c) <= Z.b2z (mapMutex_ (sh_state s).1) ->
  Z.b2z (mapMutex_ (next_engine c s)) =
    Z.b2z (mapMutex_ (sh_state s).1) + Z.b2z (in_map c') - Z.b2z (in_map c).
Proof.
  intros Hc Hb Hm. by_calls c Hc;
    rewrite ?(proj1 (create_book_fields _ _)), ?(proj1 (create_lock_fields _ _)), ?Hb;
    destruct (mapMutex_ (sh_state s).1); done || lia.
Qed.

Definition held (sym : string) (e : MatchingEngine W) : bool := default false (locks_ e !! sym).

Lemma held_insert sym sym' h (e : MatchingEngine W) :
  held sym' (set_locks (<[sym := h]> (locks_ e)) e) = if decide (sym = sym') then h else held sym' e.
Proof. unfold held. cbn. rewrite lookup_insert. by case_decide. Qed.

Lemma held_same sym (e : MatchingEngine W) :
  (forall m, held sym (set_mapMutex m e) = held sym e) /\
  (forall bs, held sym (set_books bs e) = held sym e) /\
  (forall h, held sym (set_halted h e) = held sym e) /\
  (forall sym', held sym (create_book sym' e) = held sym e) /\
  (forall sym', held sym (create_lock sym' e) = held sym e).
Proof.
  split_and!; try done; intros sym'; unfold held.
  - by rewrite (proj2 (create_book_fields sym' e)).
  - by apply create_lock_fields.
Qed.

Lemma turn_exclusive c c' s sym :
  goes_to c c' -> blocked c s = false ->
  holds exclusive sym c <= Z.b2z (held sym (sh_state s).1) ->
  Z.b2z (held sym (next_engine c s)) =
    Z.b2z (held sym (sh_state s).1) + holds exclusive sym c' - holds exclusive sym c.
Proof.
  intros Hc Hb Hm. unfold holds in *.
  destruct (held_same sym (sh_state s).1) as (E1 & E2 & E3 & E4 & E5). by_calls c Hc.
  all: rewrite ?held_insert, ?E1, ?E2, ?E3, ?E4, ?E5;
    try change (lock_held ?x s) with (held x (sh_state s).1) in Hb;
    try (apply orb_false_iff in Hb as [Hb _]).
  all: repeat case_decide; simplify_eq; rewrite ?Hb; try lia; try done.
  all: destruct (held _ _); cbn in *; lia.
Qed.

Lemma readers_insert sym sym' n (rs : gmap string nat) (st : State) :
  readers sym' (mkShared st (<[sym := n]> rs)) =
  if decide (sym = sym') then n else readers sym' (mkShared st rs).
Proof. unfold readers. cbn. rewrite lookup_insert. by case_decide. Qed.

Lemma turn_shares c c' s sym (st : State) :
  goes_to c c' -> holds shares sym c <= Z.of_nat (readers sym s) ->
  Z.of_nat (readers sym (mkShared st (next_readers c s))) =
    Z.of_nat (readers sym s) + holds shares sym c' - holds shares sym c.
Proof.
  intros Hc Hm. unfold holds in *.
  assert (forall st', readers sym (mkShared st' (sh_readers s)) = readers sym s) as Hr by done.
  by_calls c Hc; rewrite ?readers_insert, ?Hr; repeat case_decide; simplify_eq; lia.
Qed.

(** A new exclusive holder found no reader, a new reader no exclusive holder. *)
Lemma turn_apart c c' s sym (st : State) :
  goes_to c c' -> blocked c s = false ->
  (held sym (sh_state s).1 = true -> readers sym s = 0%nat) ->
  held sym (next_engine c s) = true -> readers sym (mkShared st (next_readers c s)) = 0%nat.
Proof.
  intros Hc Hb Hap.
  assert (forall st', readers sym (mkShared st' (sh_readers s)) = readers sym s) as Hr by done.
  destruct (held_same sym (sh_state s).1) as (E1 & E2 & E3 & E4 & E5).
  by_calls c Hc; rewrite ?held_insert, ?E1, ?E2, ?E3, ?E4, ?E5, ?readers_insert, ?Hr;
    repeat case_decide; simplify_eq; try done;
    try change (lock_held ?x s) with (held x (sh_state s).1) in Hb; try congruence;
    try (apply orb_false_iff in Hb as [_ Hb]; by destruct (readers _ s)).
  intros Hh%Hap. by rewrite Hh.
Qed.

Lemma holds_nonneg what sym c : 0 <= holds what sym c.
Proof. unfold holds. by case_decide. Qed.

Lemma holds_one what sym c : what c = Some sym -> holds what sym c = 1.
Proof. intros E. unfold holds. by rewrite decide_True. Qed.

Lemma b2z_nonneg b : 0 <= Z.b2z b.
Proof. by destruct b. Qed.

Lemma take_turn_inv i ts ts' :
  stopOrders_ (sh_state (ts_shared ts)).1 = ∅ -> take_turn i ts = Some ts' ->
  exists c c' sh, ts_calls ts !! i = Some c /\ turn c (ts_shared ts) = Some (c', sh) /\
    ts' = mkThreads sh (<[i := c']> (ts_calls ts))
            (ts_history ts ++ (pair i <$> turn_op c (ts_shared ts))) /\
    blocked c (ts_shared ts) = false /\ (sh_state sh).1 = next_engine c (ts_shared ts) /\
    sh_readers sh = next_readers c (ts_shared ts) /\ goes_to c c'.
Proof.
  intros Hst. unfold take_turn. destruct (ts_calls ts !! i) as [c|] eqn:Hi; [|done].
  destruct (turn c (ts_shared ts)) as [[c' sh]|] eqn:E; [|done]. intros [= <-].
  destruct (turn_next _ _ _ _ Hst E) as (? & ? & ? & ?). exists c, c', sh. done.
Qed.

Lemma locks_ok_turn i ts ts' :
  stopOrders_ (sh_state (ts_shared ts)).1 = ∅ -> take_turn i ts = Some ts' ->
  locks_ok ts -> locks_ok ts'.
Proof.
  intros Hst E [Hm He Hs Ha].
  destruct (take_turn_inv _ _ _ Hst E) as (c & c' & [st rs] & Hi & _ & -> & Hb & Hst' & Hrs & Hc).
  cbn in Hst', Hrs. subst rs. split; cbn [ts_calls ts_shared].
  - rewrite (sum_of_insert _ _ _ _ _ Hi), Hm. cbn. rewrite Hst'.
    rewrite (turn_in_map c c' _ Hc Hb); [lia|]. rewrite <- Hm.
    by apply (sum_of_le _ _ _ _ (fun c => b2z_nonneg (in_map c)) Hi).
  - intros sym. rewrite (sum_of_insert _ _ _ _ _ Hi), He.
    change (lock_held sym (mkShared st _)) with (held sym st.1). rewrite Hst'.
    rewrite (turn_exclusive c c' _ sym Hc Hb); [unfold held, lock_held; lia|].
    change (held sym _) with (lock_held sym (ts_shared ts)). rewrite <- He.
    by apply (sum_of_le _ _ _ _ (holds_nonneg _ _) Hi).
  - intros sym. rewrite (sum_of_insert _ _ _ _ _ Hi), Hs.
    rewrite (turn_shares c c' _ sym st Hc); [lia|]. rewrite <- Hs.
    by apply (sum_of_le _ _ _ _ (holds_nonneg _ _) Hi).
  - intros sym Hh. apply (turn_apart c c' _ sym st Hc Hb (Ha sym)).
    rewrite <- Hst'. exact Hh.
Qed.
End Locks.
