(* ===== verification/ThreadsBooks.v ===== *)
(** The books under overlapping calls: every book stays sound, no account trades with
    itself, and the results of the calls are those of a sequential order of the
    operations on books. *)

From Stdlib Require Import ZArith Lia.
From stdpp Require Import base numbers gmap strings list relations.
From S2P Require Import Prelude Model OrderBook Matching BookSpec BookInvariant BookTheorems Events CircuitBreaker RiskEngine MatchingEngine EngineInvariant EngineTheorems EngineThreads ThreadsInvariant.

Local Open Scope Z_scope.
Local Open Scope cpp_scope.

(** * What a call carries *)

(** The order of a submission, and the one that is approved but not yet matched. *)
Definition order_of (c : Call) : option Order :=
  match c with
  | SubmitStart o | SubmitRefuse o _ | SubmitCheck o | BookLock o | BookFind o | BookUnlock o
  | LockLock o | LockFind o | LockUnlock o | SubmitReceived o | SubmitTime o | SubmitWait o _
  | SubmitMatch o _ | SubmitUnlock o _ _ | SubmitMatched o _ _ | SubmitFill o _ _ _
  | SubmitReport o _ _ _ _ _ | SubmitFilled o _ _ _ _ | StopWait o _ | StopCheck o _
  | StopUnlock o _ | SubmitRest o _ | Submitted o _ => Some o
  | _ => None
  end.

Definition pending (c : Call) : option Order :=
  match c with
  | BookLock o | BookFind o | BookUnlock o | LockLock o | LockFind o | LockUnlock o
  | SubmitReceived o | SubmitTime o | SubmitWait o _ | SubmitMatch o _ => Some o
  | _ => None
  end.

(** The trades that a submission has made. *)
Definition trades_of (c : Call) : list Trade :=
  match c with
  | SubmitUnlock _ _ trades | SubmitMatched _ _ trades | SubmitFill _ _ _ trades
  | SubmitReport _ _ _ _ _ trades | SubmitFilled _ _ _ _ trades | StopWait _ trades | StopCheck _ trades | StopUnlock _ trades
  | SubmitRest _ trades | Submitted _ trades => trades
  | _ => []
  end.

Definition no_self_trade (tr : Trade) : Prop := aggressorAccountId tr <> passiveAccountId tr.

Section Books.
Context `{Env} {R X : Type} `{PreTradeGateLaws R}.

Abbreviation W := (World R X).
Abbreviation State := (MatchingEngine W * W)%type.
Abbreviation Shared := (Shared R X).
Abbreviation Threads := (Threads R X).

Implicit Types (s : Shared) (st : State) (ts : Threads).

(** * The world during a turn *)

(** A consumer leaves alone what the gate relies on, also when it throws or blocks. *)
Definition consumer_safe {E} (consumer : E -> cpp W unit) : Prop :=
  forall ev w, gate_kept (w_risk w) (w_risk (consumer ev w).2).

Definition steps_safe (consumer : FillEvent -> list (cpp W unit)) : Prop :=
  forall fill m w, m ∈ consumer fill -> gate_kept (w_risk w) (w_risk (m w).2).

Definition consumers_safe (e : MatchingEngine W) : Prop :=
  consumer_safe (eventConsumer_ e) /\ steps_safe (fillConsumer_ e).

Lemma emit_new_safe f st :
  consumers_safe st.1 -> gate_kept (w_risk st.2) (w_risk (emit_new f st).2.2).
Proof.
  intros [Hc _]. unfold emit_new, cbind. rewrite read_env_run. unfold emit, ctry, cbind, in_world.
  cbn. specialize (Hc (f (w_t st.2)).1 (advance f st.2)).
  by destruct (eventConsumer_ st.1 _ _) as [[| |] w].
Qed.

Lemma fill_safe fill k call st :
  consumers_safe st.1 -> fillConsumer_ st.1 fill !! k = Some call ->
  gate_kept (w_risk st.2) (w_risk (in_world call st).2.2).
Proof.
  intros [_ Hc] Hk%list_elem_of_lookup_2. specialize (Hc fill call st.2 Hk). unfold in_world.
  by destruct (call st.2).
Qed.

(** A turn either is the check of the gate or keeps what the gate relies on. *)
Definition checks (c : Call) : option Order :=
  match c with SubmitCheck o => Some o | _ => None end.

Lemma run_kept {A} (m : cpp State A) next s c' s' :
  gate_kept (w_risk (sh_state s).2) (w_risk (m (sh_state s)).2.2) ->
  run m next s = Some (c', s') ->
  gate_kept (w_risk (sh_state s).2) (w_risk (sh_state s').2).
Proof. unfold run. destruct (m (sh_state s)) as [r st]. cbn. by intros ? [= <- <-]. Qed.

Lemma turn_kept c s c' s' :
  consumers_safe (sh_state s).1 -> stopOrders_ (sh_state s).1 = ∅ -> checks c = None ->
  turn c s = Some (c', s') -> gate_kept (w_risk (sh_state s).2) (w_risk (sh_state s').2).
Proof.
  intros Hsafe Hst Hc E.
  destruct c as [o|o why|o|o|o|o|o|o|o|o|o|o t|o t|o t trs|o t trs|o l [|tr todo] trs|o l fill k todo trs|o l tr todo trs
    |o trs|o trs|o trs|o trs|o trs|sym id|sym id|sym id|sym id|sym id r|sym id r
    |sym d|sym d|sym d|sym d|sym d snap|sym d snap|h|h|what|];
    cbn [turn submit_turn] in E; try discriminate;
    unfold take_mapMutex, release_mapMutex, take_lock, release_lock, share_lock, unshare_lock in E;
    unfold book_snapshot in E;
    try (by apply run_get in E as [_ ->]); try (by apply run_upd in E as [_ ->]);
    try (by eapply run_kept in E; [exact E|auto using emit_new_safe]);
    try (by apply run_match in E as [_ ->]); try (by apply run_remove in E as [_ ->]);
    try (by injection E as _ <-);
    try (case_match; [done|]; first [by apply run_upd in E as [_ ->]|by injection E as _ <-]).
  - destruct (fillConsumer_ _ fill !! k) as [call|] eqn:Ek; [|by injection E as _ <-].
    eapply run_kept in E; [exact E|by eapply fill_safe].
  - apply run_stops in E as [_ ->]; done.
  - eapply run_kept in E; [exact E|]. case_match; [by apply emit_new_safe|done].
  - by destruct h; apply run_upd in E as [_ ->].
Qed.

Lemma blocked_kept (r : R) : gate_kept r (gate_blocked r).
Proof. split; [by rewrite gate_blocked_seen|]. intros a d. apply gate_blocked_active. Qed.

Lemma turn_check o s c' s' :
  turn (SubmitCheck o) s = Some (c', s') ->
  (exists res r, gate_check o (w_risk (sh_state s).2) = Ret (res, r) /\
     w_risk (sh_state s').2 = r /\
     c' = if approved res then BookLock o else SubmitRefuse o (reason res)) \/
  (gate_kept (w_risk (sh_state s).2) (w_risk (sh_state s').2) /\ broken c').
Proof.
  cbn [turn submit_turn]. unfold run, riskEngine_checkPreTrade, broken.
  destruct (gate_check o _) as [[res r]|what|]; intros [= <- <-]; cbn; [left|right..].
  - exists res, r. split_and!; try done. by destruct (approved res).
  - split; [done|eauto].
  - split; [apply blocked_kept|auto].
Qed.

(** What the gate knows only grows. *)
Definition gate_grows (r r' : R) : Prop :=
  gate_seen r ⊆ gate_seen r' /\ forall a d, gate_active r a d -> gate_active r' a d.

Definition one_side (r : R) : Prop :=
  forall a, ~ (gate_active r a BUY /\ gate_active r a SELL).

Lemma kept_grows r r' : gate_kept r r' -> gate_grows r r' /\ (one_side r -> one_side r').
Proof.
  intros [Hs Ha]. split; [split; [done|]; intros a d; apply Ha|].
  intros Hone a. rewrite !Ha. apply Hone.
Qed.

Lemma turn_gate c s c' s' :
  consumers_safe (sh_state s).1 -> stopOrders_ (sh_state s).1 = ∅ -> turn c s = Some (c', s') ->
  gate_grows (w_risk (sh_state s).2) (w_risk (sh_state s').2) /\
  (one_side (w_risk (sh_state s).2) -> one_side (w_risk (sh_state s').2)).
Proof.
  intros Hsafe Hst E. destruct (checks c) as [o|] eqn:Hc.
  - destruct c; try discriminate. destruct (turn_check _ _ _ _ E) as [(res & r & Eg & -> & _)|[Hk _]].
    + split; [split; [by eapply gate_seen_mono|]; intros a d; by eapply gate_active_mono|].
      intros Hone. exact (gate_one_side _ _ _ _ Eg Hone).
    + by apply kept_grows.
  - by eapply kept_grows, turn_kept.
Qed.

(** * The control points *)

Lemma goes_order c c' o : goes_to c c' -> order_of c' = Some o -> order_of c = Some o.
Proof. intros Hc. by_calls c Hc. Qed.

Lemma goes_has_order c c' o :
  goes_to c c' -> ~ broken c' -> order_of c = Some o -> order_of c' = Some o.
Proof.
  intros Hc Hb. by_calls c Hc; intros [= <-]; destruct Hb; unfold broken; eauto.
Qed.

Lemma goes_pending c c' o :
  goes_to c c' -> pending c' = Some o ->
  pending c = Some o \/ (c = SubmitCheck o /\ c' = BookLock o).
Proof. intros Hc. by_calls c Hc; auto. intros [= ->]. auto. Qed.

Lemma goes_trades c c' :
  goes_to c c' ->
  trades_of c' = trades_of c \/ trades_of c' = [] \/ exists o t, c = SubmitMatch o t.
Proof. intros Hc. by_calls c Hc; eauto. Qed.

Lemma turn_matched o t s c' s' :
  turn (SubmitMatch o t) s = Some (c', s') ->
  trades_of c' =
    (match_ o (book_for (symbol o) (books_ (sh_state s).1)) (w_t (sh_state s).2)).1.1.
Proof. intros E. apply run_match in E as [-> _]. done. Qed.

(** * The books after a turn *)

Lemma next_engine_kept c s :
  stopOrders_ (next_engine c s) = stopOrders_ (sh_state s).1 /\
  eventConsumer_ (next_engine c s) = eventConsumer_ (sh_state s).1 /\
  fillConsumer_ (next_engine c s) = fillConsumer_ (sh_state s).1.
Proof. destruct c; cbn; unfold create_book, create_lock; try case_match; done. Qed.

Inductive book_change (s : Shared) (sym : string) : Call -> OrderBook -> Prop :=
| change_none c b : books_ (sh_state s).1 !! sym = Some b -> book_change s sym c b
| change_new o : sym = symbol o -> book_change s sym (BookFind o) (OrderBook_new sym)
| change_match o t :
    sym = symbol o ->
    book_change s sym (SubmitMatch o t)
      (match_ o (book_for sym (books_ (sh_state s).1)) (w_t (sh_state s).2)).1.2
| change_remove id :
    book_change s sym (CancelRemove sym id)
      (removeFromBook id (book_for sym (books_ (sh_state s).1))).2.

Lemma next_engine_books c s sym b :
  books_ (next_engine c s) !! sym = Some b -> book_change s sym c b.
Proof.
  destruct c; cbn; try (by constructor).
  - unfold create_book. case_match; [by constructor|]. cbn. rewrite lookup_insert.
    case_decide; [|by constructor]. intros [= <-]. subst sym. by constructor.
  - rewrite (proj1 (proj2 (create_lock_fields _ _))). by constructor.
  - rewrite lookup_insert. case_decide; [|by constructor]. intros [= <-]. subst sym.
    by constructor.
  - rewrite lookup_insert. case_decide; [|by constructor]. intros [= <-]. subst. apply change_remove.
Qed.

(** * The invariant *)

Record call_ok (r : R) (c : Call) : Prop := {
  co_order o : order_of c = Some o -> incoming_ok o;
  co_pending o : pending c = Some o ->
    orderId o ∈ gate_seen r /\ gate_active r (accountId o) (side o);
  co_trades : Forall no_self_trade (trades_of c)
}.

Record books_ok (ts : Threads) : Prop := {
  bk_books sym b : books_ (sh_state (ts_shared ts)).1 !! sym = Some b ->
    book_in (w_risk (sh_state (ts_shared ts)).2) sym b;
  bk_stops : stopOrders_ (sh_state (ts_shared ts)).1 = ∅;
  bk_consumers : consumers_safe (sh_state (ts_shared ts)).1;
  bk_one_side : one_side (w_risk (sh_state (ts_shared ts)).2);
  bk_calls : Forall (call_ok (w_risk (sh_state (ts_shared ts)).2)) (ts_calls ts);
  bk_fresh i c o sym b : ts_calls ts !! i = Some c -> pending c = Some o ->
    books_ (sh_state (ts_shared ts)).1 !! sym = Some b -> orderId o ∉ book_ids b;
  bk_distinct i j c c' o o' : ts_calls ts !! i = Some c -> ts_calls ts !! j = Some c' ->
    pending c = Some o -> pending c' = Some o' -> orderId o = orderId o' -> i = j
}.

Lemma call_ok_grows r r' c : gate_grows r r' -> call_ok r c -> call_ok r' c.
Proof.
  intros [Hs Ha] [Ho Hp Ht]. split; [done| |done].
  intros o E. destruct (Hp o E). split; [by apply Hs|by apply Ha].
Qed.

Lemma book_for_in ts sym :
  books_ok ts -> book_in (w_risk (sh_state (ts_shared ts)).2) sym
                   (book_for sym (books_ (sh_state (ts_shared ts)).1)).
Proof.
  intros Hok. unfold book_for. destruct (_ !! sym) as [b|] eqn:Hb; cbn.
  - by apply (bk_books _ Hok).
  - apply new_book_in.
Qed.

Lemma book_for_fresh ts i c o sym :
  books_ok ts -> ts_calls ts !! i = Some c -> pending c = Some o ->
  orderId o ∉ book_ids (book_for sym (books_ (sh_state (ts_shared ts)).1)).
Proof.
  intros Hok Hi Hp. unfold book_for. destruct (_ !! sym) as [b|] eqn:Hb; cbn.
  - by eapply (bk_fresh _ Hok).
  - apply not_elem_of_nil.
Qed.

(** A matching call brings no identifier but that of the order into the book. *)
Lemma match_ids o b t id :
  wf_sides b -> incoming_ok o -> id ∈ book_ids (match_ o b t).1.2 ->
  id ∈ book_ids b \/ id = orderId o.
Proof.
  intros Hwf Hin (x & -> & Hx)%list_elem_of_fmap.
  destruct (match_orders o b t x Hwf Hin Hx) as [(x' & Hx' & -> & _)|[-> _]]; [|auto].
  left. apply list_elem_of_fmap. eauto.
Qed.

Lemma remove_ids id b id' :
  id' ∈ book_ids (removeFromBook id b).2 -> id' ∈ book_ids b.
Proof.
  intros (x & -> & Hx)%list_elem_of_fmap. apply list_elem_of_fmap.
  eauto using removeFromBook_subset.
Qed.

Lemma books_ok_books i c c' sh ts sym b :
  books_ok ts -> ts_calls ts !! i = Some c -> turn c (ts_shared ts) = Some (c', sh) ->
  book_change (ts_shared ts) sym c b -> book_in (w_risk (sh_state sh).2) sym b.
Proof.
  intros Hok Hi E Hb.
  destruct (turn_gate _ _ _ _ (bk_consumers _ Hok) (bk_stops _ Hok) E) as [[Hs Ha] _].
  apply (book_in_kept (w_risk (sh_state (ts_shared ts)).2)); [done..|].
  pose proof (book_for_in ts sym Hok) as Hin.
  destruct Hb as [c b Hb|o ->|o t ->|id].
  - by apply (bk_books _ Hok).
  - apply new_book_in.
  - destruct (Forall_lookup_1 _ _ _ _ (bk_calls _ Hok) Hi) as [Ho Hp _].
    destruct (Hp o eq_refl). apply match_book_in; auto. by eapply book_for_fresh.
  - by apply remove_book_in.
Qed.

Lemma books_ok_call i c c' sh ts :
  books_ok ts -> ts_calls ts !! i = Some c -> turn c (ts_shared ts) = Some (c', sh) ->
  call_ok (w_risk (sh_state sh).2) c'.
Proof.
  intros Hok Hi E. pose proof (Forall_lookup_1 _ _ _ _ (bk_calls _ Hok) Hi) as Hcall.
  destruct (turn_next _ _ _ _ (bk_stops _ Hok) E) as (_ & _ & _ & Hc).
  destruct (turn_gate _ _ _ _ (bk_consumers _ Hok) (bk_stops _ Hok) E) as [Hg _].
  pose proof (call_ok_grows _ _ _ Hg Hcall) as [Ho Hp Ht]. split.
  - intros o Eo. by eapply Ho, goes_order.
  - intros o [Ep|[-> ->]]%(goes_pending _ _ _ Hc); [by apply Hp|].
    destruct (turn_check _ _ _ _ E) as [(res & r & Eg & -> & Ec)|[_ [Ec|[what Ec]]]]; [|done..].
    destruct (approved res) eqn:Hap; [|done].
    destruct (gate_approved _ _ _ _ Eg Hap) as (_ & ? & _ & ?). done.
  - destruct (goes_trades _ _ Hc) as [->|[->|(o & t & ->)]]; [done|constructor|].
    rewrite (turn_matched _ _ _ _ _ E). destruct Hcall as [Ho' Hp' _].
    destruct (Hp' o eq_refl). eapply book_no_self_trade; [apply Hok|by apply book_for_in|auto|done].
Qed.

(** A pending order after a turn was pending before, or its identifier was new. *)
Lemma pending_after i c c' sh ts j d o :
  books_ok ts -> ts_calls ts !! i = Some c -> turn c (ts_shared ts) = Some (c', sh) ->
  <[i := c']> (ts_calls ts) !! j = Some d -> pending d = Some o ->
  (exists d0, ts_calls ts !! j = Some d0 /\ pending d0 = Some o /\ (j = i -> d = c')) \/
  (j = i /\ c = SubmitCheck o /\ orderId o ∉ gate_seen (w_risk (sh_state (ts_shared ts)).2)).
Proof.
  intros Hok Hi E Hj Hd. destruct (turn_next _ _ _ _ (bk_stops _ Hok) E) as (_ & _ & _ & Hc).
  destruct (decide (i = j)) as [<-|Hne].
  - rewrite list_lookup_insert_eq in Hj by (by eapply lookup_lt_Some). injection Hj as <-.
    destruct (goes_pending _ _ _ Hc Hd) as [Hp|[-> ->]]; [left; eauto|].
    right. split_and!; [done..|].
    destruct (turn_check _ _ _ _ E) as [(res & r & Eg & _ & Ec)|[_ [Ec|[what Ec]]]]; [|done..].
    destruct (approved res) eqn:Hap; [|done]. by apply (gate_approved _ _ _ _ Eg).
  - rewrite list_lookup_insert_ne in Hj by done. left. exists d. done.
Qed.

Lemma pending_seen ts j d o :
  books_ok ts -> ts_calls ts !! j = Some d -> pending d = Some o ->
  orderId o ∈ gate_seen (w_risk (sh_state (ts_shared ts)).2).
Proof. intros Hok Hj Hd. by apply (Forall_lookup_1 _ _ _ _ (bk_calls _ Hok) Hj). Qed.

Lemma ids_seen ts sym id :
  books_ok ts -> id ∈ book_ids (book_for sym (books_ (sh_state (ts_shared ts)).1)) ->
  id ∈ gate_seen (w_risk (sh_state (ts_shared ts)).2).
Proof.
  intros Hok (x & -> & Hx)%list_elem_of_fmap. by apply (bi_orders _ _ _ (book_for_in ts sym Hok)).
Qed.

(** The order that a call has just matched is no longer pending. *)
Lemma matched_not_pending o t c' sh ts :
  books_ok ts -> turn (SubmitMatch o t) (ts_shared ts) = Some (c', sh) -> pending c' = None.
Proof. intros Hok E. apply run_match in E as [-> _]. done. Qed.

Lemma books_ok_fresh i c c' sh ts j d o sym b :
  books_ok ts -> ts_calls ts !! i = Some c -> turn c (ts_shared ts) = Some (c', sh) ->
  <[i := c']> (ts_calls ts) !! j = Some d -> pending d = Some o ->
  book_change (ts_shared ts) sym c b -> orderId o ∉ book_ids b.
Proof.
  intros Hok Hi E Hj Hd Hb Hid.
  assert (orderId o ∉ book_ids (book_for sym (books_ (sh_state (ts_shared ts)).1))) as Hold.
  { destruct (pending_after _ _ _ _ _ _ _ _ Hok Hi E Hj Hd) as [(d0 & Hj0 & Hd0 & _)|(_ & _ & Hn)].
    - by eapply book_for_fresh.
    - intros Hin. by apply Hn, (ids_seen _ sym). }
  destruct Hb as [c b Hb|o' ->|o' t ->|id].
  - apply Hold. unfold book_for. by rewrite Hb.
  - by apply not_elem_of_nil in Hid.
  - pose proof (Forall_lookup_1 _ _ _ _ (bk_calls _ Hok) Hi) as [Ho' _ _].
    destruct (match_ids _ _ _ _ (bi_sides _ _ _ (book_for_in ts (symbol o') Hok))
                (Ho' o' eq_refl) Hid) as [?|Heq]; [done|].
    destruct (pending_after _ _ _ _ _ _ _ _ Hok Hi E Hj Hd) as [(d0 & Hj0 & Hd0 & Hij)|(_ & ? & _)];
      [|done].
    pose proof (bk_distinct _ Hok _ _ _ _ _ _ Hj0 Hi Hd0 eq_refl Heq) as ->.
    rewrite (Hij eq_refl), (matched_not_pending _ _ _ _ _ Hok E) in Hd. done.
  - exact (Hold (remove_ids _ _ _ Hid)).
Qed.

Lemma books_ok_turn i ts ts' : take_turn i ts = Some ts' -> books_ok ts -> books_ok ts'.
Proof.
  intros Et Hok.
  destruct (take_turn_inv _ _ _ (bk_stops _ Hok) Et) as
    (c & c' & sh & Hi & E & -> & Hb & Hst & Hrs & Hc).
  destruct (next_engine_kept c (ts_shared ts)) as (Hstops & Hev & Hfill).
  destruct (turn_gate _ _ _ _ (bk_consumers _ Hok) (bk_stops _ Hok) E) as [Hg Hone].
  split; cbn [ts_shared ts_calls]; rewrite ?Hst.
  - intros sym b Hbk%next_engine_books. by eapply books_ok_books.
  - rewrite Hstops. apply Hok.
  - unfold consumers_safe. rewrite Hev, Hfill. apply Hok.
  - apply Hone, Hok.
  - apply Forall_insert; [|by eapply books_ok_call].
    eapply Forall_impl; [apply (bk_calls _ Hok)|]. intros d. by apply call_ok_grows.
  - intros j d o sym b Hj Hd Hbk%next_engine_books. by eapply books_ok_fresh.
  - intros j k d d' o o' Hj Hk Hd Hd' Heq.
    destruct (pending_after _ _ _ _ _ _ _ _ Hok Hi E Hj Hd) as [(d0 & Hj0 & Hd0 & _)|(-> & _ & Hn)];
    destruct (pending_after _ _ _ _ _ _ _ _ Hok Hi E Hk Hd') as [(d1 & Hk1 & Hd1 & _)|(-> & _ & Hn')].
    + by eapply (bk_distinct _ Hok).
    + destruct Hn'. rewrite <- Heq. by eapply pending_seen.
    + destruct Hn. rewrite Heq. by eapply pending_seen.
    + done.
Qed.

(** * Replaying the history *)

Definition apply_op (books : gmap string OrderBook) (op : BookOp) : gmap string OrderBook :=
  match op with
  | OpMatch o t => <[symbol o := (match_ o (book_for (symbol o) books) t).1.2]> books
  | OpRemove sym id => <[sym := (removeFromBook id (book_for sym books)).2]> books
  | OpRefuse _ _ | OpHalt _ => books
  end.

(** The books after the operations, one after the other. *)
Definition replay (h : list (nat * BookOp)) : gmap string OrderBook := foldl apply_op ∅ h.*2.

(** The kill switch after the operations. *)
Definition apply_halt (halted : bool) (op : BookOp) : bool :=
  match op with OpHalt h => h | _ => halted end.

Definition halted_after (h : list (nat * BookOp)) : bool := foldl apply_halt false h.*2.

(** The operation of call [j] and its result, at its place in the history, after the first
    [n] operations. *)
Definition matched_in (n : nat) (h : list (nat * BookOp)) (j : nat) (o : Order)
    (trades : list Trade) : Prop :=
  exists pre t post, h = pre ++ (j, OpMatch o t) :: post /\ (n <= length pre)%nat /\
    trades = (match_ o (book_for (symbol o) (replay pre)) t).1.1.

Definition removed_in (n : nat) (h : list (nat * BookOp)) (j : nat) (sym id : string)
    (removed : bool) : Prop :=
  exists pre post, h = pre ++ (j, OpRemove sym id) :: post /\ (n <= length pre)%nat /\
    removed = (removeFromBook id (book_for sym (replay pre))).1.

Definition refused_in (n : nat) (h : list (nat * BookOp)) (j : nat) (o : Order) : Prop :=
  exists pre why post, h = pre ++ (j, OpRefuse o why) :: post /\ (n <= length pre)%nat.

Definition halted_in (n : nat) (h : list (nat * BookOp)) (j : nat) (halted : bool) : Prop :=
  exists pre post, h = pre ++ (j, OpHalt halted) :: post /\ (n <= length pre)%nat.

Definition seen_in (n : nat) (h : list (nat * BookOp)) (sym : string) (depth : Z)
    (snap : OrderBookSnapshot) : Prop :=
  exists pre post, h = pre ++ post /\ (n <= length pre)%nat /\
    snap = snapshot depth (book_for sym (replay pre)).

(** Call [j] has no operation, and there was a moment when none had been made on a book of
    the symbol. *)
Definition missed_in (n : nat) (h : list (nat * BookOp)) (j : nat) (sym : string) : Prop :=
  j ∉ h.*1 /\ exists pre post, h = pre ++ post /\ (n <= length pre)%nat /\ replay pre !! sym = None.

(** The results of call [j] are those of its operation in the history. *)
Definition explained (n : nat) (h : list (nat * BookOp)) (j : nat) (c : Call) : Prop :=
  match c with
  | SubmitUnlock o _ trades | SubmitMatched o _ trades | SubmitFill o _ _ trades
  | SubmitReport o _ _ _ _ trades | SubmitFilled o _ _ _ trades | StopWait o trades
  | StopCheck o trades | StopUnlock o trades | SubmitRest o trades => matched_in n h j o trades
  | Submitted o trades => (trades = [] /\ refused_in n h j o) \/ matched_in n h j o trades
  | CancelUnlock sym id removed => removed_in n h j sym id removed
  | Cancelled sym id removed =>
      removed_in n h j sym id removed \/ (removed = false /\ missed_in n h j sym)
  | SnapUnlock sym depth snap | Snapped sym depth (Some snap) => seen_in n h sym depth snap
  | Snapped sym depth None => missed_in n h j sym
  | HaltDone halted => halted_in n h j halted
  | _ => True
  end.

(** The call has made its operation, or makes none any more. *)
Definition past (c : Call) : bool :=
  match c with
  | SubmitUnlock _ _ _ | SubmitMatched _ _ _ | SubmitFill _ _ _ _ | SubmitReport _ _ _ _ _ _
  | SubmitFilled _ _ _ _ _
  | StopWait _ _ | StopCheck _ _ | StopUnlock _ _ | SubmitRest _ _ | Submitted _ _
  | CancelUnlock _ _ _ | Cancelled _ _ _ | HaltDone _ | Threw _ | Stuck => true
  | _ => false
  end.

Record lin_ok (ts : Threads) : Prop := {
  ln_books sym : book_for sym (books_ (sh_state (ts_shared ts)).1) =
                 book_for sym (replay (ts_history ts));
  ln_halted : halted_ (sh_state (ts_shared ts)).1 = halted_after (ts_history ts);
  ln_known sym : is_Some (replay (ts_history ts) !! sym) ->
    is_Some (books_ (sh_state (ts_shared ts)).1 !! sym) /\
    is_Some (locks_ (sh_state (ts_shared ts)).1 !! sym);
  ln_once : NoDup (ts_history ts).*1;
  ln_bound j : j ∈ (ts_history ts).*1 -> (j < length (ts_calls ts))%nat;
  ln_past j c : ts_calls ts !! j = Some c -> past c = false -> j ∉ (ts_history ts).*1;
  ln_calls j c : ts_calls ts !! j = Some c -> explained 0 (ts_history ts) j c
}.

Lemma replay_app h h' : replay (h ++ h') = foldl apply_op (replay h) h'.*2.
Proof. unfold replay. by rewrite fmap_app, foldl_app. Qed.

Lemma replay_snoc h i op : replay (h ++ [(i, op)]) = apply_op (replay h) op.
Proof. apply replay_app. Qed.

Lemma halted_snoc h i op : halted_after (h ++ [(i, op)]) = apply_halt (halted_after h) op.
Proof. unfold halted_after. by rewrite fmap_app, foldl_app. Qed.

Lemma book_for_insert sym sym' b (books : gmap string OrderBook) :
  book_for sym' (<[sym := b]> books) = if decide (sym = sym') then b else book_for sym' books.
Proof. unfold book_for. rewrite lookup_insert. by case_decide. Qed.

Lemma turn_op_once c s : turn_op c s = [] \/ exists op, turn_op c s = [op].
Proof. destruct c; cbn; eauto. Qed.

(** ** Control points and operations *)

Lemma past_no_op c s : past c = true -> turn_op c s = [].
Proof. by destruct c. Qed.

Lemma goes_past c c' s : goes_to c c' -> past c' = false -> past c = false /\ turn_op c s = [].
Proof. intros Hc. by_calls c Hc. Qed.

(** ** What is explained stays explained *)

Lemma matched_mono n h h' j o trades : matched_in n h j o trades -> matched_in n (h ++ h') j o trades.
Proof. intros (pre & t & post & -> & E). exists pre, t, (post ++ h'). by rewrite <- app_assoc. Qed.

Lemma removed_mono n h h' j sym id r : removed_in n h j sym id r -> removed_in n (h ++ h') j sym id r.
Proof. intros (pre & post & -> & E). exists pre, (post ++ h'). by rewrite <- app_assoc. Qed.

Lemma refused_mono n h h' j o : refused_in n h j o -> refused_in n (h ++ h') j o.
Proof. intros (pre & why & post & -> & E). exists pre, why, (post ++ h'). by rewrite <- app_assoc. Qed.

Lemma halted_mono n h h' j b : halted_in n h j b -> halted_in n (h ++ h') j b.
Proof. intros (pre & post & -> & E). exists pre, (post ++ h'). by rewrite <- app_assoc. Qed.

Lemma seen_mono n h h' sym d snap : seen_in n h sym d snap -> seen_in n (h ++ h') sym d snap.
Proof. intros (pre & post & -> & E). exists pre, (post ++ h'). by rewrite <- app_assoc. Qed.

Lemma missed_mono n h h' j sym :
  j ∉ h'.*1 -> missed_in n h j sym -> missed_in n (h ++ h') j sym.
Proof.
  intros Hj [Hn (pre & post & -> & E)]. split; [rewrite fmap_app; set_solver|].
  exists pre, (post ++ h'). by rewrite <- app_assoc.
Qed.

#[local] Hint Resolve matched_mono removed_mono refused_mono halted_mono seen_mono missed_mono : titanx.

(** Operations of other calls change nothing. *)
Lemma explained_mono n h h' j c : j ∉ h'.*1 -> explained n h j c -> explained n (h ++ h') j c.
Proof.
  intros Hj. destruct c; cbn; try case_match; try intros [|]; try intuition eauto with titanx.
Qed.

Lemma next_engine_replay c s sym :
  book_for sym (books_ (next_engine c s)) =
  book_for sym (foldl apply_op (books_ (sh_state s).1) (turn_op c s)).
Proof.
  destruct c; cbn; try done.
  - unfold create_book. case_match eqn:E; [done|]. cbn. rewrite book_for_insert. case_decide; [|done].
    subst. unfold book_for. by rewrite E.
  - by rewrite (proj1 (proj2 (create_lock_fields _ _))).
Qed.

Lemma next_engine_halted c s :
  halted_ (next_engine c s) = foldl apply_halt (halted_ (sh_state s).1) (turn_op c s).
Proof. destruct c; cbn; unfold create_book, create_lock; by try case_match. Qed.

(** Known symbols stay known, and an operation on a book makes its symbol known. *)
Lemma next_engine_known c s sym :
  (is_Some (books_ (sh_state s).1 !! sym) -> is_Some (books_ (next_engine c s) !! sym)) /\
  (is_Some (locks_ (sh_state s).1 !! sym) -> is_Some (locks_ (next_engine c s) !! sym)).
Proof.
  destruct c; cbn; unfold create_book, create_lock; try case_match; cbn; rewrite ?lookup_insert;
    split; try case_decide; eauto.
Qed.

Lemma next_engine_op_known c s sym (books : gmap string OrderBook) :
  is_Some (foldl apply_op books (turn_op c s) !! sym) ->
  is_Some (books !! sym) \/ (exclusive c = Some sym /\ is_Some (books_ (next_engine c s) !! sym)).
Proof.
  destruct c; cbn; auto; rewrite !lookup_insert; case_decide; subst; eauto.
Qed.

Lemma apply_op_ext b1 b2 op sym :
  (forall sym, book_for sym b1 = book_for sym b2) ->
  book_for sym (apply_op b1 op) = book_for sym (apply_op b2 op).
Proof.
  intros Hb. destruct op; cbn; rewrite ?book_for_insert, ?Hb; try case_decide; done.
Qed.

(** A symbol that has no book, or no lock, has no operation on its book. *)
Lemma unknown_missed n i c ts sym :
  lin_ok ts -> (n <= length (ts_history ts))%nat -> ts_calls ts !! i = Some c -> past c = false ->
  books_ (sh_state (ts_shared ts)).1 !! sym = None \/ locks_ (sh_state (ts_shared ts)).1 !! sym = None ->
  missed_in n (ts_history ts) i sym.
Proof.
  intros Hok Hn Hi Hp Hnone. split; [by eapply (ln_past _ Hok)|]. exists (ts_history ts), [].
  split_and!; [by rewrite app_nil_r|done|]. apply eq_None_not_Some. intros Hs.
  destruct (ln_known _ Hok _ Hs) as [[? Hb] [? Hl]], Hnone; congruence.
Qed.

(** The result of the operation of a turn. *)
Lemma turn_explained n i c c' sh ts :
  (n <= length (ts_history ts))%nat -> stopOrders_ (sh_state (ts_shared ts)).1 = ∅ -> lin_ok ts ->
  ts_calls ts !! i = Some c -> turn c (ts_shared ts) = Some (c', sh) ->
  explained n (ts_history ts) i c ->
  explained n (ts_history ts ++ (pair i <$> turn_op c (ts_shared ts))) i c'.
Proof.
  intros Hn Hst Hok Hi E Hc. destruct (turn_next _ _ _ _ Hst E) as (_ & _ & _ & Hgo).
  pose proof (fun sym => unknown_missed n i c ts sym Hok Hn Hi) as Hmiss.
  destruct c as [o|o why|o|o|o|o|o|o|o|o|o|o t|o t|o t trs|o t trs|o l [|tr todo] [|tr' trs]|o l fill k todo trs|o l tr todo trs
    |o trs|o trs|o trs|o trs|o trs|sym id|sym id|sym id|sym id|sym id r|sym id r
    |sym d|sym d|sym d|sym d|sym d snap|sym d snap|b|b|what|];
    cbn [turn_op fmap list_fmap]; rewrite ?app_nil_r;
    try (next_call Hgo; cbn; auto; done);
    try (apply run_get in E as [-> _]; case_match eqn:Eb; cbn; auto; done).
  - next_call Hgo; cbn; [|auto..]. left. split; [done|]. by exists (ts_history ts), why, [].
  - apply run_match in E as [-> _]. cbn. exists (ts_history ts), (w_t (sh_state (ts_shared ts)).2), [].
    by rewrite (ln_books _ Hok).
  - apply run_remove in E as [-> _]. cbn. exists (ts_history ts), []. by rewrite (ln_books _ Hok).
  - cbn in E. injection E as <- _. cbn. exists (ts_history ts), [].
    split; [by rewrite !app_nil_r|]. split; [done|]. by rewrite <- (ln_books _ Hok).
  - next_call Hgo. cbn. by exists (ts_history ts), [].
Qed.

Lemma excl_known ts i c sym :
  locks_ok ts -> ts_calls ts !! i = Some c -> exclusive c = Some sym ->
  is_Some (locks_ (sh_state (ts_shared ts)).1 !! sym).
Proof.
  intros Hok Hi He. pose proof (sum_of_le _ _ _ _ (holds_nonneg exclusive sym) Hi) as Hs.
  rewrite (lk_excl _ Hok), (holds_one _ _ _ He) in Hs. unfold lock_held in Hs.
  destruct (locks_ _ !! sym); [eauto|done].
Qed.

(** A turn adds at most one operation, and only of a call that has none. *)
Lemma turn_once i c ts :
  lin_ok ts -> ts_calls ts !! i = Some c ->
  NoDup (ts_history ts ++ (pair i <$> turn_op c (ts_shared ts))).*1 /\
  (forall j, j ∈ (pair i <$> turn_op c (ts_shared ts)).*1 -> j = i).
Proof.
  intros Hok Hi. rewrite fmap_app. destruct (past c) eqn:Hp.
  - rewrite (past_no_op _ _ Hp). cbn. rewrite app_nil_r. split; [apply Hok|]. set_solver.
  - pose proof (ln_past _ Hok _ _ Hi Hp) as Hn.
    destruct (turn_op_once c (ts_shared ts)) as [->|[op ->]]; cbn.
    + rewrite app_nil_r. split; [apply Hok|]. set_solver.
    + split; [|set_solver]. apply NoDup_app. split_and!; [apply Hok| |apply NoDup_singleton]. set_solver.
Qed.

Lemma lin_ok_turn i ts ts' :
  stopOrders_ (sh_state (ts_shared ts)).1 = ∅ -> locks_ok ts -> take_turn i ts = Some ts' ->
  lin_ok ts -> lin_ok ts'.
Proof.
  intros Hstops Hlk Et Hok.
  destruct (take_turn_inv _ _ _ Hstops Et) as (c & c' & sh & Hi & E & -> & _ & Hst & _ & Hgo).
  destruct (turn_once i c ts Hok Hi) as [Honce Hown].
  assert (replay (ts_history ts ++ (pair i <$> turn_op c (ts_shared ts))) =
          foldl apply_op (replay (ts_history ts)) (turn_op c (ts_shared ts))) as Hrep.
  { rewrite replay_app. f_equal. rewrite <- list_fmap_compose. apply list_fmap_id. }
  pose proof (lookup_lt_Some _ _ _ Hi) as Hlt.
  split; cbn [ts_shared ts_calls ts_history]; rewrite ?Hst, ?Hrep.
  - intros sym. rewrite next_engine_replay.
    destruct (turn_op_once c (ts_shared ts)) as [->|[op ->]]; cbn; [apply Hok|].
    apply apply_op_ext, Hok.
  - rewrite next_engine_halted, (ln_halted _ Hok). unfold halted_after.
    rewrite fmap_app, foldl_app. f_equal. rewrite <- list_fmap_compose. symmetry. apply list_fmap_id.
  - intros sym. destruct (next_engine_known c (ts_shared ts) sym) as [Hkb Hkl].
    intros [Hs|[He Hs]]%next_engine_op_known.
    + destruct (ln_known _ Hok _ Hs). auto.
    + split; [done|]. apply Hkl. by eapply excl_known.
  - exact Honce.
  - intros j. rewrite fmap_app, length_insert. intros [Hj|Hj%Hown]%elem_of_app; [by apply Hok|by subst].
  - intros j d Hj Hd. rewrite fmap_app, elem_of_app. destruct (decide (i = j)) as [<-|Hne].
    + rewrite list_lookup_insert_eq in Hj by done. injection Hj as <-.
      destruct (goes_past c c' (ts_shared ts) Hgo Hd) as [Hp ->]. cbn.
      pose proof (ln_past _ Hok _ _ Hi Hp). set_solver.
    + rewrite list_lookup_insert_ne in Hj by done. pose proof (ln_past _ Hok _ _ Hj Hd).
      intros [?|?%Hown]; congruence.
  - intros j d Hj. destruct (decide (i = j)) as [<-|Hne].
    + rewrite list_lookup_insert_eq in Hj by done. injection Hj as <-.
      eapply turn_explained; [lia|done..|by apply Hok].
    + rewrite list_lookup_insert_ne in Hj by done.
      apply explained_mono; [intros ?%Hown; congruence|by apply Hok].
Qed.
End Books.
