(* ===== verification/ThreadsClaims.v ===== *)
(** What holds when calls on the matching engine overlap: soundness of the books,
    linearizability, the absence of races on books, and the races that remain. *)

From Stdlib Require Import ZArith Lia.
From stdpp Require Import base numbers gmap strings list relations.
From S2P Require Import Prelude Text Model OrderBook Matching BookSpec BookInvariant BookTheorems BookGuarantees Fixtures Events Json CircuitBreaker RiskEngine RedisPositionCache MatchingEngine EngineInvariant EngineTheorems Wiring System SystemClaims EngineThreads ThreadsInvariant ThreadsBooks.

Local Open Scope Z_scope.
Local Open Scope cpp_scope.

(** * Accesses *)

Inductive Place := BooksMap | LocksMap | StopsMap | BookOf (sym : string) | RedisContext.

(** The first three calls of the fill consumer of [main] send a command on the Redis
    context; the two others take the mutex of the risk engine. *)
Definition redis_call (k : nat) : bool := (k <? 3)%nat.

Section Threads.
Context `{Env} {R X : Type} `{PreTradeGateLaws R}.

Abbreviation W := (World R X).
Abbreviation State := (MatchingEngine W * W)%type.
Abbreviation Shared := (Shared R X).
Abbreviation Threads := (Threads R X).

Implicit Types (s : Shared) (st : State) (ts : Threads).

(** What the next turn of a call reads and writes ([true]), apart from atomics, mutexes
    and what the risk engine and the event store protect by their mutexes. *)
Definition accesses (c : Call) (s : Shared) : list (Place * bool) :=
  let e := (sh_state s).1 in
  match c with
  | BookFind o => [(BooksMap, bool_decide (books_ e !! symbol o = None))]
  | LockFind o => [(LocksMap, bool_decide (locks_ e !! symbol o = None))]
  | SubmitMatch o _ => [(BookOf (symbol o), true)]
  | SubmitReport _ _ fill k _ _ =>
      if redis_call k && bool_decide (is_Some (fillConsumer_ e fill !! k))
      then [(RedisContext, true)] else []
  | StopCheck o _ => [(StopsMap, false); (BookOf (symbol o), true)]
  | CancelStart _ _ | SnapStart _ _ => [(BooksMap, false)]
  | CancelLock _ _ | SnapLock _ _ => [(LocksMap, false)]
  | CancelRemove sym _ => [(BookOf sym, true)]
  | SnapRead sym _ => [(BookOf sym, false)]
  | _ => []
  end.

(** Call [i] is about to write what call [j] is about to access. *)
Definition race (ts : Threads) (p : Place) (c d : Call) : Prop :=
  exists i j kind, i <> j /\ ts_calls ts !! i = Some c /\ ts_calls ts !! j = Some d /\
    (p, true) ∈ accesses c (ts_shared ts) /\ (p, kind) ∈ accesses d (ts_shared ts).

(** * Runs *)

(** A call takes a turn, a new call begins, or another component changes the world. *)
Inductive threads_step : Threads -> Threads -> Prop :=
| step_turn i ts ts' : take_turn i ts = Some ts' -> threads_step ts ts'
| step_call c ts :
    begins c = true -> (forall o, order_of c = Some o -> incoming_ok o) ->
    threads_step ts (mkThreads (ts_shared ts) (ts_calls ts ++ [c]) (ts_history ts))
| step_other w' ts :
    gate_kept (w_risk (sh_state (ts_shared ts)).2) (w_risk w') ->
    threads_step ts
      (mkThreads (mkShared ((sh_state (ts_shared ts)).1, w') (sh_readers (ts_shared ts)))
         (ts_calls ts) (ts_history ts)).

(** A new engine whose consumers do not touch what the gate relies on. *)
Record engine_start (st : State) : Prop := {
  es_books : books_ st.1 = ∅;
  es_locks : locks_ st.1 = ∅;
  es_stops : stopOrders_ st.1 = ∅;
  es_mutex : mapMutex_ st.1 = false;
  es_halted : halted_ st.1 = false;
  es_consumers : consumers_safe st.1;
  es_one_side : one_side (w_risk st.2)
}.

Definition reachable_threads (st : State) (ts : Threads) : Prop :=
  engine_start st /\ rtc threads_step (threads_start st) ts.

(** The books at every moment of the history. *)
Definition past_books_ok (ts : Threads) : Prop :=
  forall pre sym, pre `prefix_of` ts_history ts ->
    book_in (w_risk (sh_state (ts_shared ts)).2) sym (book_for sym (replay pre)).

Record threads_ok (ts : Threads) : Prop := {
  to_locks : locks_ok ts;
  to_books : books_ok ts;
  to_lin : lin_ok ts;
  to_past : past_books_ok ts
}.

Lemma threads_start_ok st : engine_start st -> threads_ok (threads_start st).
Proof.
  intros [Hb Hl Hs Hm Hh Hc Ho]. split; [split..|]; cbn; rewrite ?Hb, ?Hm, ?Hh; try done.
  - intros sym. unfold lock_held. cbn. by rewrite Hl, lookup_empty.
  - intros sym [b Hb']. by rewrite lookup_empty in Hb'.
  - constructor.
  - set_solver.
  - intros pre sym ->%prefix_nil_inv. apply new_book_in.
Qed.

Lemma call_locks c ts :
  begins c = true -> locks_ok ts ->
  locks_ok (mkThreads (ts_shared ts) (ts_calls ts ++ [c]) (ts_history ts)).
Proof.
  intros Hc [Hm He Hs Ha].
  assert (in_map c = false /\ exclusive c = None /\ shares c = None) as (Em & Ee & Es)
    by (by destruct c).
  assert (forall f, sum_of f [c] = f c) as Hone by (intros f; unfold sum_of; cbn; lia).
  assert (forall sym, holds exclusive sym c = 0 /\ holds shares sym c = 0) as Hz.
  { intros sym. unfold holds. rewrite Ee, Es. done. }
  split; cbn [ts_calls ts_shared]; [|intros sym..|done]; rewrite sum_of_app, Hone.
  - rewrite Em, Hm. cbn. lia.
  - rewrite He, (proj1 (Hz sym)). lia.
  - rewrite Hs, (proj2 (Hz sym)). lia.
Qed.

Lemma call_books c ts :
  begins c = true -> (forall o, order_of c = Some o -> incoming_ok o) -> books_ok ts ->
  books_ok (mkThreads (ts_shared ts) (ts_calls ts ++ [c]) (ts_history ts)).
Proof.
  intros Hc Ho Hok.
  assert (pending c = None /\ trades_of c = []) as [Ep Et] by (by destruct c).
  assert (forall i d o, (ts_calls ts ++ [c]) !! i = Some d -> pending d = Some o ->
            ts_calls ts !! i = Some d) as Hold.
  { intros i d o [Hi|[_ Hi]]%lookup_app_Some Hd; [done|].
    apply list_lookup_singleton_Some in Hi as [_ <-]. by rewrite Ep in Hd. }
  pose proof Hok as [Hb Hst Hcs Hone Hcalls Hf Hd]. split; cbn; try done.
  - apply Forall_app. split; [done|]. constructor; [|done]. split; [done| |by rewrite Et].
    intros o. by rewrite Ep.
  - intros i d o sym b Hi Hp. eapply Hf; eauto.
  - intros i j d d' o o' Hi Hj Hp Hp'. eapply Hd; eauto.
Qed.

Lemma other_books w' ts :
  gate_kept (w_risk (sh_state (ts_shared ts)).2) (w_risk w') -> books_ok ts ->
  books_ok (mkThreads (mkShared ((sh_state (ts_shared ts)).1, w') (sh_readers (ts_shared ts)))
              (ts_calls ts) (ts_history ts)).
Proof.
  intros [Hg Hone]%kept_grows [Hb Hst Hcs Ho Hcalls Hf Hd]. split; cbn; try done.
  - intros sym b Hbk. eapply book_in_kept; [apply Hg..|]. by apply Hb.
  - by apply Hone.
  - eapply Forall_impl; [exact Hcalls|]. intros c. by apply call_ok_grows.
Qed.

Lemma call_lin c ts :
  begins c = true -> lin_ok ts ->
  lin_ok (mkThreads (ts_shared ts) (ts_calls ts ++ [c]) (ts_history ts)).
Proof.
  intros Hbeg Hok. pose proof Hok as [Hb Hh Hk Ho Hj Hp Hc]. split; cbn; try done.
  - intros j Hin%Hj. rewrite length_app. lia.
  - intros j d [Hd|[Hge Hd]]%lookup_app_Some; [by apply Hp|]. intros _ Hin%Hj. lia.
  - intros j d [Hd|[_ Hd]]%lookup_app_Some; [by apply Hc|].
    apply list_lookup_singleton_Some in Hd as [_ <-]. by destruct c.
Qed.

Lemma past_grows ts r' :
  past_books_ok ts -> gate_grows (w_risk (sh_state (ts_shared ts)).2) r' ->
  forall pre sym, pre `prefix_of` ts_history ts -> book_in r' sym (book_for sym (replay pre)).
Proof. intros Hp [Hs Ha] pre sym Hpre. eapply book_in_kept; [done..|]. by apply Hp. Qed.

Lemma past_turn i ts ts' :
  take_turn i ts = Some ts' -> books_ok ts -> books_ok ts' -> lin_ok ts' ->
  past_books_ok ts -> past_books_ok ts'.
Proof.
  intros Et Hok Hok' Hn Hp pre sym Hpre.
  destruct (take_turn_inv _ _ _ (bk_stops _ Hok) Et) as (c & c' & sh & Hi & E & -> & _).
  destruct (turn_gate _ _ _ _ (bk_consumers _ Hok) (bk_stops _ Hok) E) as [Hg _].
  assert (pre `prefix_of` ts_history ts \/
          pre = ts_history ts ++ (pair i <$> turn_op c (ts_shared ts))) as [Hold|Hnew].
  { cbn in Hpre. destruct (turn_op_once c (ts_shared ts)) as [Eo|[op Eo]]; rewrite Eo in *; cbn in *.
    - rewrite app_nil_r in *. auto.
    - by apply prefix_snoc_cases. }
  - by apply (past_grows ts).
  - pose proof (ln_books _ Hn sym) as Eb. cbn [ts_history] in Eb. rewrite Hnew, <- Eb.
    by apply book_for_in.
Qed.

Lemma threads_step_ok ts ts' : threads_step ts ts' -> threads_ok ts -> threads_ok ts'.
Proof.
  intros Hstep [Hl Hb Hn Hp]. destruct Hstep as [i ts ts' E|c ts Hc Ho|w' ts Hk].
  - pose proof (bk_stops _ Hb) as Hst. assert (books_ok ts') by (by eapply books_ok_turn).
    assert (lin_ok ts') by (by eapply lin_ok_turn).
    split; [by eapply locks_ok_turn|done|done|by eapply past_turn].
  - split; [by apply call_locks|by apply call_books|by apply call_lin|done].
  - split; [by destruct Hl|by apply other_books|by destruct Hn|].
    intros pre sym. by apply (past_grows ts), kept_grows.
Qed.

Lemma reachable_ok st ts : reachable_threads st ts -> threads_ok ts.
Proof.
  intros [Hst Hrun]. pose proof (threads_start_ok st Hst) as Hok. clear Hst.
  induction Hrun as [|ts1 ts2 ts3 Hstep _ IH]; [done|]. by eapply IH, threads_step_ok.
Qed.

(** * Soundness *)

(** C5: books stay sound however calls overlap.  Whatever submissions, cancellations,
    queries and halts run at the same time, after every step of every call each book
    carries its symbol and only orders of that symbol, its bids are below its asks, and
    (as long as reads of destroyed identifiers see the old text) its cancel index agrees
    with its queues; and no trade of any submission has one account on both sides. *)
Theorem overlapping_calls_keep_books_sound st ts :
  reachable_threads st ts ->
  (forall sym b, books_ (sh_state (ts_shared ts)).1 !! sym = Some b ->
     symbol_ b = sym /\ Forall (fun x => symbol x = sym) (book_orders b) /\
     (forall bid ask, bestBid b = Some bid -> bestAsk b = Some ask -> bid < ask) /\
     (FreedReadsOld -> wf_book b)) /\
  Forall (fun c => Forall no_self_trade (trades_of c)) (ts_calls ts).
Proof.
  intros [_ Hok _ _]%reachable_ok. split.
  - intros sym b Hb. destruct (bk_books _ Hok _ _ Hb) as [Hsym Hwf Hidx Hord].
    split_and!; [done| | |].
    + apply Forall_forall. intros x Hx. by apply Hord.
    + intros bid ask. by apply wf_sides_best.
    + intros Hold. split; [done|by apply Hidx].
  - eapply Forall_impl; [exact (bk_calls _ Hok)|]. intros c Hc. apply Hc.
Qed.

(** A call that takes effect after [ts0]: it had not taken its first step there. *)
Definition later_call (ts0 : Threads) (j : nat) : Prop :=
  forall c, ts_calls ts0 !! j = Some c -> begins c = true.

(** What has happened since [ts0]: the history has grown at its end, and the calls that had
    not taken their first step have their operations in the new part. *)
Record since (ts0 ts : Threads) : Prop := {
  si_history : ts_history ts0 `prefix_of` ts_history ts;
  si_calls j c : ts_calls ts !! j = Some c -> later_call ts0 j ->
    explained (length (ts_history ts0)) (ts_history ts) j c
}.

Lemma since_step ts0 ts ts' : threads_ok ts -> since ts0 ts -> threads_step ts ts' -> since ts0 ts'.
Proof.
  intros [_ Hb Hn _] [Hh Hc] Hstep. destruct Hstep as [i ts ts' E|c ts Hbeg _|w' ts _].
  - pose proof (bk_stops _ Hb) as Hst.
    destruct (take_turn_inv _ _ _ Hst E) as (c & c' & sh & Hi & Et & -> & _ & _ & _ & _).
    destruct (turn_once i c ts Hn Hi) as [_ Hown].
    split; cbn; [by apply prefix_app_r|]. intros j d Hj Hl.
    destruct (decide (i = j)) as [->|Hne].
    + rewrite list_lookup_insert_eq in Hj by (by eapply lookup_lt_Some). injection Hj as <-.
      eapply turn_explained; [by apply prefix_length|done..|by eapply Hc].
    + rewrite list_lookup_insert_ne in Hj by done.
      apply explained_mono; [intros ?%Hown; congruence|by apply Hc].
  - split; cbn; [done|]. intros j d [Hj|[_ Hj]]%lookup_app_Some Hl; [by eapply Hc|].
    apply list_lookup_singleton_Some in Hj as [_ <-]. by destruct c.
  - by split.
Qed.

Lemma since_steps ts0 ts : threads_ok ts0 -> rtc threads_step ts0 ts -> threads_ok ts /\ since ts0 ts.
Proof.
  intros Hok. apply (rtc_ind_r (fun ts => threads_ok ts /\ since ts0 ts)).
  - split; [done|]. split; [done|]. intros j c Hj Hl. specialize (Hl c Hj). by destruct c.
  - intros ts1 ts2 _ Hstep [Hok1 Hs]. split; [by eapply threads_step_ok|by eapply since_step].
Qed.

(** C4: overlapping calls are linearizable.  The history orders the matching calls, the
    removals, the refusals and the changes of the kill switch, at most one for each call.
    Replaying it one operation after the other on empty books gives every book its
    current content, and the kill switch its current setting.  The trades of a submission
    are those that its own matching call yields at its place in the history (or none, at
    its refusal); a cancellation answers what its own removal yields there, or false when
    it made no removal because the symbol had no book yet; a snapshot shows the book
    between two operations, or nothing when the symbol had no book yet; a halt or a
    resumption has its place too.  The order agrees with real time: from any earlier
    state [ts0] the history only grew at its end, and a call that had not yet begun there
    has its place in the new part. *)
Theorem overlapping_calls_linearize st ts0 ts :
  reachable_threads st ts0 -> rtc threads_step ts0 ts ->
  (forall sym, book_for sym (books_ (sh_state (ts_shared ts)).1) =
               book_for sym (replay (ts_history ts))) /\
  halted_ (sh_state (ts_shared ts)).1 = halted_after (ts_history ts) /\
  NoDup (ts_history ts).*1 /\
  (forall j c, ts_calls ts !! j = Some c -> explained 0 (ts_history ts) j c) /\
  ts_history ts0 `prefix_of` ts_history ts /\
  forall j c, ts_calls ts !! j = Some c -> later_call ts0 j ->
    explained (length (ts_history ts0)) (ts_history ts) j c.
Proof.
  intros Hok%reachable_ok Hrun. destruct (since_steps _ _ Hok Hrun) as [[_ _ Hn _] [Hh Hs]].
  split_and!; try apply Hn; done.
Qed.

(** What a cancellation that has returned has done: with [removed] its order was taken out
    of the queues of the book, and nothing else; without it they are unchanged, and the
    order was not one that can be cancelled, or its symbol had no book. *)
Definition cancel_effect (h : list (nat * BookOp)) (j : nat) (sym id : string) (removed : bool) : Prop :=
  (removed = false /\ missed_in 0 h j sym) \/
  exists pre post, h = pre ++ (j, OpRemove sym id) :: post /\
    let b := book_for sym (replay pre) in
    let b' := book_for sym (replay (pre ++ [(j, OpRemove sym id)])) in
    FreedReadsOld ->
    (removed = true <-> exists o, orderIndex_ b !! id = Some o /\ price o <> 0) /\
    (removed = true -> id ∈ book_ids b) /\
    forall d, abs_side (book_side d b') =
      if removed then spec_cancel id (abs_side (book_side d b)) else abs_side (book_side d b).

Lemma indexed_in_book b id o :
  index_ok (book_orders b) (orderIndex_ b) -> orderIndex_ b !! id = Some o -> id ∈ book_ids b.
Proof. intros Hidx [<- Ho]%(idx_sound _ _ Hidx). by apply list_elem_of_fmap_2. Qed.

Lemma cancelled_effect ts j sym id removed :
  threads_ok ts -> ts_calls ts !! j = Some (Cancelled sym id removed) ->
  cancel_effect (ts_history ts) j sym id removed.
Proof.
  intros [_ _ Hn Hp] Hj. pose proof (ln_calls _ Hn _ _ Hj) as [(pre & post & Hh & _ & Hr)|Hm]; [right|by left].
  exists pre, post. split; [done|]. intros b b' Hold.
  assert (book_in (w_risk (sh_state (ts_shared ts)).2) sym b) as Hin by (apply Hp; rewrite Hh; by apply prefix_app_r).
  assert (b' = (removeFromBook id b).2) as ->.
  { unfold b'. rewrite replay_snoc. cbn. by rewrite book_for_insert, decide_True. }
  pose proof (bi_index _ _ _ Hin Hold) as Hidx.
  destruct (removeFromBook_effect id b) as [Hiff Hq]; [by split; [apply Hin|]|].
  subst removed. fold b. split_and!; [done| |done].
  intros (o & Ho & _)%Hiff. by eapply indexed_in_book.
Qed.

(** * Races *)

(** The lookups of [cancel] and [getSnapshot] that take no mutex. *)
Definition unprotected (p : Place) (d : Call) : Prop :=
  match d with
  | CancelStart _ _ | SnapStart _ _ => p = BooksMap
  | CancelLock _ _ | SnapLock _ _ => p = LocksMap
  | _ => False
  end.

(** The creation of an entry for a new symbol. *)
Definition creates (p : Place) (c : Call) : Prop :=
  match c with
  | BookFind _ => p = BooksMap
  | LockFind _ => p = LocksMap
  | _ => False
  end.

(** A fill consumer that is about to send a command to Redis. *)
Definition sends (c : Call) : Prop :=
  match c with SubmitReport _ _ _ k _ _ => redis_call k = true | _ => False end.

Lemma redis_sends c s kind : (RedisContext, kind) ∈ accesses c s -> sends c.
Proof.
  destruct c as [| | | | | | | | | | | | | | | |? ? fill k ? ?| | | | | | | | | | | | | | | | | | | | | |];
    cbn [accesses sends]; try (destruct (redis_call k); [done|]; cbn [andb]); set_solver.
Qed.

Lemma in_map_alone ts i j c d :
  locks_ok ts -> ts_calls ts !! i = Some c -> ts_calls ts !! j = Some d -> i <> j ->
  in_map c = true -> in_map d = true -> False.
Proof.
  intros Hok Hi Hj Hne Hc Hd.
  pose proof (sum_of_two _ _ _ _ _ _ (fun c => b2z_nonneg (in_map c)) Hi Hj Hne) as Hs.
  rewrite (lk_map _ Hok), Hc, Hd in Hs. destruct (mapMutex_ _); cbn in Hs; lia.
Qed.

Lemma exclusive_alone ts i j c d sym :
  locks_ok ts -> ts_calls ts !! i = Some c -> ts_calls ts !! j = Some d -> i <> j ->
  exclusive c = Some sym -> exclusive d = Some sym \/ shares d = Some sym -> False.
Proof.
  intros Hok Hi Hj Hne Hc [Hd|Hd].
  - pose proof (sum_of_two _ _ _ _ _ _ (holds_nonneg exclusive sym) Hi Hj Hne) as Hs.
    rewrite (lk_excl _ Hok), (holds_one _ _ _ Hc), (holds_one _ _ _ Hd) in Hs.
    destruct (lock_held _ _); cbn in Hs; lia.
  - pose proof (sum_of_le _ _ _ _ (holds_nonneg exclusive sym) Hi) as He.
    pose proof (sum_of_le _ _ _ _ (holds_nonneg shares sym) Hj) as Hs.
    rewrite (lk_excl _ Hok), (holds_one _ _ _ Hc) in He.
    rewrite (lk_shared _ Hok), (holds_one _ _ _ Hd) in Hs. pose proof (lk_apart _ Hok sym) as Ha.
    destruct (lock_held _ _); [|cbn in He; lia]. rewrite Ha in Hs by done. cbn in Hs. lia.
Qed.

(** C16: the locks protect every book.  In no reachable state are two calls about to
    access the same book where one of them writes.  The only races are on the two maps
    and on the Redis connection: a lookup of [cancel] or [getSnapshot], which takes no
    mutex, against the insertion of a new symbol by [submit], and the fill consumers of
    two submissions that both send a command on the one connection. *)
Theorem only_map_lookups_race st ts p c d :
  reachable_threads st ts -> race ts p c d ->
  (creates p c /\ unprotected p d) \/ (p = RedisContext /\ sends c /\ sends d).
Proof.
  intros [Hok _ _ _]%reachable_ok (i & j & kind & Hne & Hi & Hj & Hw & Ha).
  assert (forall sym, p = BookOf sym -> exclusive c = Some sym /\
            (exclusive d = Some sym \/ shares d = Some sym)) as Hbook.
  { intros sym ->. split; [destruct c|destruct d]; cbn in *; try case_match; set_solver. }
  destruct p as [| | |sym|].
  - left. destruct c; cbn in Hw; try case_match; try set_solver. split; [done|].
    destruct d; cbn in Ha; try case_match; try set_solver.
    by destruct (in_map_alone _ _ _ _ _ Hok Hi Hj Hne).
  - left. destruct c; cbn in Hw; try case_match; try set_solver. split; [done|].
    destruct d; cbn in Ha; try case_match; try set_solver.
    by destruct (in_map_alone _ _ _ _ _ Hok Hi Hj Hne).
  - exfalso. destruct c; cbn in Hw; try case_match; set_solver.
  - destruct (Hbook sym eq_refl) as [Hc Hd].
    by destruct (exclusive_alone _ _ _ _ _ _ Hok Hi Hj Hne Hc Hd).
  - right. split; [done|]. split; [eapply redis_sends, Hw|eapply redis_sends, Ha].
Qed.
(** * Schedules *)

Lemma start_calls st cs :
  engine_start st -> Forall (fun c => begins c = true /\ forall o, order_of c = Some o -> incoming_ok o) cs ->
  reachable_threads st (mkThreads (mkShared st ∅) cs []).
Proof.
  intros Hst Hcs. split; [done|]. induction cs as [|c cs IH] using rev_ind; [apply rtc_refl|].
  apply Forall_app in Hcs as [Hcs Hc]. apply Forall_singleton in Hc as [Hb Ho].
  eapply rtc_r; [exact (IH Hcs)|]. exact (step_call c _ Hb Ho).
Qed.

Lemma run_turns_steps schedule ts : rtc threads_step ts (run_turns schedule ts).
Proof.
  revert ts. induction schedule as [|i schedule IH]; intros ts; [apply rtc_refl|]. cbn [run_turns].
  destruct (take_turn i ts) as [ts'|] eqn:E; cbn; [|apply IH].
  eapply rtc_l; [by eapply step_turn|apply IH].
Qed.

Lemma run_turns_app l1 l2 ts : run_turns (l1 ++ l2) ts = run_turns l2 (run_turns l1 ts).
Proof. revert ts. induction l1 as [|i l1 IH]; intros ts; [done|]. apply IH. Qed.

Lemma run_turns_reachable st cs schedule :
  engine_start st -> Forall (fun c => begins c = true /\ forall o, order_of c = Some o -> incoming_ok o) cs ->
  reachable_threads st (run_turns schedule (mkThreads (mkShared st ∅) cs [])).
Proof.
  intros Hst Hcs. destruct (start_calls st cs Hst Hcs) as [_ Hrun]. split; [done|].
  exact (transitivity Hrun (run_turns_steps _ _)).
Qed.
End Threads.

(** * The wired system *)

Section Wired.
Context `{Env} `{RedisServer} `{JsonPrinter}.

Lemma fill_consumer_safe : steps_safe fill_consumer.
Proof. intros fill m w. apply fill_step_kept. Qed.

Lemma event_consumer_safe : consumer_safe event_consumer.
Proof. done. Qed.

Lemma main_state_start connected t : engine_start (main_state connected t).
Proof.
  rewrite main_state_eq. split; try done.
  - split; [apply event_consumer_safe|apply fill_consumer_safe].
  - intros a [Hb _]. cbn in Hb. unfold tracked in Hb. cbn in Hb. by rewrite lookup_empty in Hb.
Qed.
End Wired.

(** * Concrete interleavings *)

Section ConcreteThreads.
#[local] Existing Instance demo_env.
#[local] Existing Instance counter_server.
#[local] Existing Instance demo_json.

(** Calls on the new system. *)
Definition demo_threads (cs : list Call) (schedule : list nat) : Threads (RiskEngine * CircuitBreaker) Ext :=
  run_turns schedule (mkThreads (mkShared (main_state true 0) ∅) cs []).

Definition sell_by (id acct : string) := demo_order id acct SELL LIMIT (dollars 1) 10000.
Definition buy_both := [SubmitStart (sell_by "s1" "seller1"); SubmitStart (sell_by "s2" "seller2");
  SubmitStart (buy_10k "b1" "buyer"); SubmitStart (buy_10k "b2" "buyer")].

(** Both purchases are checked before either is matched. *)
Definition checks_first : list nat :=
  replicate 40 0%nat ++ replicate 40 1%nat ++ [2; 2; 3; 3]%nat ++ replicate 40 2%nat ++ replicate 40 3%nat.

(** One call after the other. *)
Definition in_turn : list nat :=
  replicate 40 0%nat ++ replicate 40 1%nat ++ replicate 40 2%nat ++ replicate 40 3%nat.

Definition world_of (ts : Threads (RiskEngine * CircuitBreaker) Ext) : System :=
  (sh_state (ts_shared ts)).2.

Lemma buy_both_begin :
  Forall (fun c => begins c = true /\ forall o, order_of c = Some o -> incoming_ok o) buy_both.
Proof. repeat constructor; intros; simplify_eq/=; done. Qed.

Lemma demo_reachable cs schedule :
  Forall (fun c => begins c = true /\ forall o, order_of c = Some o -> incoming_ok o) cs ->
  reachable_threads (main_state true 0) (demo_threads cs schedule).
Proof. intros Hcs. by apply run_turns_reachable; [apply main_state_start|]. Qed.

(** The position limit can be passed by two orders at once.  The limit is checked
    before the order waits for the lock of its symbol, and the fill is recorded after it
    was released: when both purchases of an account are checked before either is
    matched, both are approved and the recorded position is 20,000 shares, twice the
    limit; one after the other, the second is rejected. *)
Theorem position_limit_race :
  Forall (fun c => ended c = true) (ts_calls (demo_threads buy_both checks_first)) /\
  net_of "buyer" "AAPL" (world_of (demo_threads buy_both checks_first)) = 20000 /\
  net_of "buyer" "AAPL" (world_of (demo_threads buy_both in_turn)) = 10000.
Proof.
  split_and!; [|vm_compute; reflexivity..].
  apply (bool_decide_unpack _). vm_compute. exact I.
Qed.

(** An order that is about to create its book, and a cancellation that looks it up. *)
Definition create_and_cancel := [SubmitStart ask100; CancelStart "AAPL" "x1"].

Lemma create_and_cancel_begin :
  Forall (fun c => begins c = true /\ forall o, order_of c = Some o -> incoming_ok o) create_and_cancel.
Proof. repeat constructor; intros; simplify_eq/=; done. Qed.

Lemma create_cancel_race :
  race (demo_threads create_and_cancel [0; 0; 0]%nat) BooksMap (BookFind ask100) (CancelStart "AAPL" "x1").
Proof.
  exists 0%nat, 1%nat, false. split; [done|]. split; [vm_compute; reflexivity|].
  split; [vm_compute; reflexivity|]. split; [|by apply list_elem_of_singleton].
  apply list_elem_of_singleton. vm_compute. reflexivity.
Qed.

(** The maps are not protected against cancellations and queries.  There is an
    interleaving on the new system in which [cancel] is about to search [books_] while
    [submit] is about to insert a new symbol into it: a data race. *)
Theorem map_race_reachable :
  exists ts c d, reachable_threads (main_state true 0) ts /\ race ts BooksMap c d.
Proof.
  exists (demo_threads create_and_cancel [0; 0; 0]%nat), (BookFind ask100), (CancelStart "AAPL" "x1").
  split; [exact (demo_reachable _ _ create_and_cancel_begin)|exact create_cancel_race].
Qed.

(** Two purchases that have both been matched and report their fills. *)
Definition both_report : list nat :=
  replicate 40 0%nat ++ replicate 40 1%nat ++ replicate 15 2%nat ++ replicate 15 3%nat.

Definition writes_redis (ts : Threads (RiskEngine * CircuitBreaker) Ext) (c : Call) : bool :=
  existsb (fun a => match a with (RedisContext, true) => true | _ => false end) (accesses c (ts_shared ts)).

Lemma writes_redis_access ts i :
  writes_redis ts <$> ts_calls ts !! i = Some true ->
  exists c, ts_calls ts !! i = Some c /\ (RedisContext, true) ∈ accesses c (ts_shared ts).
Proof.
  destruct (ts_calls ts !! i) as [c|]; [|done]. intros [= Hw]. exists c. split; [done|].
  apply existsb_exists in Hw as ([p kind] & Hin & Hp). destruct p, kind; try done.
  by apply list_elem_of_In.
Qed.

(** The Redis connection is shared without a lock.  Two submissions of the new system whose
    orders have traded can both be about to send a command on it. *)
Theorem redis_race_reachable :
  exists ts c d, reachable_threads (main_state true 0) ts /\ race ts RedisContext c d.
Proof.
  set (ts := demo_threads buy_both both_report).
  destruct (writes_redis_access ts 2) as (c & Hc & Ac); [vm_compute; reflexivity|].
  destruct (writes_redis_access ts 3) as (d & Hd & Ad); [vm_compute; reflexivity|].
  exists ts, c, d. split; [exact (demo_reachable _ _ buy_both_begin)|]. clearbody ts.
  exists 2%nat, 3%nat, true. split; [lia|]. done.
Qed.

(** The kill switch does not stop an order that has passed it: the purchase that had read
    the flag before the halt still trades. *)
Example halt_misses_running_order :
  let calls := [SubmitStart ask100; SubmitStart buy100; HaltCall true] in
  let ts := demo_threads calls (replicate 40 0%nat ++ [1; 2]%nat ++ replicate 40 1%nat) in
  halted_ (sh_state (ts_shared ts)).1 = true /\
  option_map (fun c => length (trades_of c)) (ts_calls ts !! 1%nat) = Some 1%nat.
Proof. split; vm_compute; reflexivity. Qed.

(** * Witnesses *)

Lemma overlapping_calls_keep_books_sound_witness :
  exists b, books_ (sh_state (ts_shared (demo_threads buy_both checks_first))).1 !! "AAPL" = Some b /\
    symbol_ b = "AAPL" /\ wf_book b.
Proof.
  destruct (overlapping_calls_keep_books_sound (main_state true 0) (demo_threads buy_both checks_first)
              (demo_reachable buy_both checks_first buy_both_begin)) as [Hb _].
  destruct (books_ (sh_state (ts_shared (demo_threads buy_both checks_first))).1 !! "AAPL")
    as [b|] eqn:E.
  - exists b. split; [reflexivity|]. destruct (Hb "AAPL" b E) as (Hs & _ & _ & Hwf).
    split; [exact Hs|]. apply Hwf, demo_env_reads_old.
  - exfalso.
    assert (is_Some (books_ (sh_state (ts_shared (demo_threads buy_both checks_first))).1 !! "AAPL"))
      as [b Hb'] by (apply (bool_decide_unpack _); vm_compute; exact I).
    rewrite E in Hb'. discriminate Hb'.
Defined.

(** The first sale has returned before the first purchase takes a step: its matching call
    comes first. *)
Lemma overlapping_calls_linearize_witness :
  let before := demo_threads buy_both (replicate 40 0%nat) in
  let after := demo_threads buy_both checks_first in
  length (ts_history before) = 1%nat /\ length (ts_history after) = 4%nat /\
  exists c trades, ts_calls after !! 2%nat = Some c /\ trades_of c = trades /\ trades <> [] /\
    matched_in 1 (ts_history after) 2 (buy_10k "b1" "buyer") trades.
Proof.
  intros before after.
  assert (rtc threads_step before after) as Hrun.
  { unfold before, after, demo_threads, checks_first. rewrite run_turns_app. apply run_turns_steps. }
  destruct (overlapping_calls_linearize (main_state true 0) before after
              (demo_reachable _ _ buy_both_begin) Hrun) as (_ & _ & _ & _ & _ & Hlate).
  split; [vm_compute; reflexivity|]. split; [vm_compute; reflexivity|].
  assert (later_call before 2) as Hl.
  { intros c Hc.
    assert (ts_calls before !! 2%nat = Some (SubmitStart (buy_10k "b1" "buyer"))) as E
      by (vm_compute; reflexivity). rewrite E in Hc. injection Hc as <-. reflexivity. }
  destruct (ts_calls after !! 2%nat) as [c|] eqn:Hc; [|vm_compute in Hc; discriminate Hc].
  specialize (Hlate 2%nat c Hc Hl). exists c, (trades_of c).
  assert (exists trades, c = Submitted (buy_10k "b1" "buyer") trades /\ trades <> []) as (trades & -> & Hne).
  { vm_compute in Hc. injection Hc as <-. eexists. split; [reflexivity|discriminate]. }
  split; [reflexivity|]. split; [reflexivity|]. split; [exact Hne|].
  assert (length (ts_history before) = 1%nat) as E by (vm_compute; reflexivity).
  rewrite E in Hlate. destruct Hlate as [[Hnil _]|Hm]; [destruct (Hne Hnil)|exact Hm].
Defined.

Lemma only_map_lookups_race_witness :
  creates BooksMap (BookFind ask100) /\ unprotected BooksMap (CancelStart "AAPL" "x1").
Proof.
  destruct (only_map_lookups_race (main_state true 0) (demo_threads create_and_cancel [0; 0; 0]%nat)
              _ _ _ (demo_reachable _ _ create_and_cancel_begin) create_cancel_race)
    as [Hr|[Hp _]]; [exact Hr|discriminate Hp].
Defined.
End ConcreteThreads.
