(* ===== verification/ThreadsProgress.v ===== *)
(** Overlapping calls on the matching engine always return: some call can always take a
    turn, and no schedule goes on for ever. *)

From Stdlib Require Import ZArith Lia Wf_nat.
From stdpp Require Import base numbers gmap strings list relations.
From S2P Require Import Prelude Text Model OrderBook Matching BookSpec BookInvariant BookTheorems Fixtures Events Json CircuitBreaker RiskEngine RedisPositionCache MatchingEngine EngineInvariant EngineTheorems Wiring System SystemClaims EngineThreads ThreadsInvariant ThreadsBooks ThreadsClaims.

Local Open Scope Z_scope.
Local Open Scope cpp_scope.

(** * The way a call has still to go *)

(** A submission before its matching call, whose number of trades is not known yet. *)
Definition unmatched (c : Call) : Z :=
  match c with
  | SubmitStart _ | SubmitCheck _ | BookLock _ | BookFind _ | BookUnlock _ | LockLock _
  | LockFind _ | LockUnlock _ | SubmitReceived _ | SubmitTime _ | SubmitWait _ _
  | SubmitMatch _ _ => 1
  | _ => 0
  end.

(** The trades whose fill event has not been built. *)
Definition unreported (c : Call) : Z :=
  match c with
  | SubmitUnlock _ _ trades | SubmitMatched _ _ trades => Z.of_nat (length trades)
  | SubmitFill _ _ todo _ | SubmitReport _ _ _ _ todo _ | SubmitFilled _ _ _ todo _ =>
      Z.of_nat (length todo)
  | _ => 0
  end.

(** The control points to the end, or to the next fill event; [calls] is the number of
    calls that the fill consumer makes for a fill event. *)
Definition distance (calls : FillEvent -> nat) (c : Call) : Z :=
  match c with
  | SubmitStart _ => 12 | SubmitCheck _ => 11 | BookLock _ => 10 | BookFind _ => 9
  | BookUnlock _ => 8 | LockLock _ => 7 | LockFind _ => 6 | LockUnlock _ => 5
  | SubmitReceived _ => 4 | SubmitTime _ => 3 | SubmitWait _ _ => 2 | SubmitMatch _ _ => 1
  | SubmitUnlock _ _ _ => 7 | SubmitMatched _ _ _ => 6 | SubmitFill _ _ _ _ => 5
  | SubmitReport _ _ fill k _ _ => 7 + Z.of_nat (calls fill - k)
  | SubmitFilled _ _ _ _ _ => 6
  | StopWait _ _ => 4 | StopCheck _ _ => 3 | StopUnlock _ _ => 2 | SubmitRest _ _ => 1
  | SubmitRefuse _ _ => 1
  | CancelStart _ _ | SnapStart _ _ => 5 | CancelLock _ _ | SnapLock _ _ => 4
  | CancelWait _ _ | SnapWait _ _ => 3 | CancelRemove _ _ | SnapRead _ _ => 2
  | CancelUnlock _ _ _ | SnapUnlock _ _ _ => 1
  | HaltCall _ => 1
  | Submitted _ _ | Cancelled _ _ _ | Snapped _ _ _ | HaltDone _ | Threw _ | Stuck => 0
  end.

(** A call of the fill consumer that is made exists. *)
Definition step_exists (calls : FillEvent -> nat) (c c' : Call) : Prop :=
  match c, c' with
  | SubmitReport _ _ fill k _ _, SubmitReport _ _ _ _ _ _ => (k < calls fill)%nat
  | _, _ => True
  end.

Lemma goes_nearer calls c c' :
  goes_to c c' -> step_exists calls c c' ->
  unmatched c' < unmatched c \/
  (unmatched c' = unmatched c /\
   (unreported c' < unreported c \/
    (unreported c' = unreported c /\ distance calls c' < distance calls c))).
Proof. intros Hc Hk. by_calls c Hc; lia. Qed.

Lemma distance_nonneg calls c : 0 <= distance calls c.
Proof. destruct c; cbn; lia. Qed.

Lemma unmatched_nonneg c : 0 <= unmatched c.
Proof. by destruct c. Qed.

Lemma unreported_nonneg c : 0 <= unreported c.
Proof. destruct c; cbn; lia. Qed.

(** The call has returned to its caller. *)
Definition returned_call (c : Call) : Prop := ended c = true /\ ~ broken c.

Section Progress.
Context `{Env} {R X : Type} `{PreTradeGateLaws R}.

Abbreviation W := (World R X).
Abbreviation State := (MatchingEngine W * W)%type.
Abbreviation Shared := (Shared R X).
Abbreviation Threads := (Threads R X).

Implicit Types (s : Shared) (st : State) (ts : Threads).

(** * Some call can go on *)

Lemma run_some {A} (m : cpp State A) next s : is_Some (run m next s).
Proof. unfold run. destruct (m _) as [r st]. eauto. Qed.

Lemma turn_enabled c s : blocked c s = false -> is_Some (turn c s).
Proof.
  destruct c as [| | | | | | | | | | | | | | |? ? [|] ?| | | | | | | | | | | | | | | | | | | | | | |];
    cbn [blocked ended]; intros Hb; try discriminate Hb; cbn [turn submit_turn];
    unfold take_mapMutex, release_mapMutex, take_lock, release_lock, share_lock, unshare_lock;
    rewrite ?Hb; try case_match; eauto using run_some.
Qed.

Lemma holder_enabled c s :
  in_map c = true \/ (exists sym, exclusive c = Some sym) \/ (exists sym, shares c = Some sym) ->
  blocked c s = false.
Proof. destruct c; cbn; naive_solver. Qed.

(** Who waits, waits for a call that can go on. *)
Lemma waits_for ts c :
  locks_ok ts -> ended c = false -> blocked c (ts_shared ts) = true ->
  exists j d, ts_calls ts !! j = Some d /\ blocked d (ts_shared ts) = false.
Proof.
  intros Hok He Hb.
  assert (mapMutex_ (sh_state (ts_shared ts)).1 = true \/
          exists sym, lock_held sym (ts_shared ts) = true \/ (0 < readers sym (ts_shared ts))%nat)
    as [Hm|[sym [Hl|Hr]]].
  { destruct c; cbn in He, Hb; try discriminate; try (by left); right; eexists;
      try (apply orb_true_iff in Hb as [Hb|Hb]); eauto; right; by apply Nat.ltb_lt. }
  - destruct (sum_of_pos (fun c => Z.b2z (in_map c)) (ts_calls ts)) as (j & d & Hj & Hd).
    { rewrite (lk_map _ Hok), Hm. done. }
    exists j, d. split; [done|]. apply holder_enabled. left. by destruct (in_map d).
  - destruct (sum_of_pos (holds exclusive sym) (ts_calls ts)) as (j & d & Hj & Hd).
    { rewrite (lk_excl _ Hok), Hl. done. }
    exists j, d. split; [done|]. apply holder_enabled. right. left. exists sym.
    unfold holds in Hd. by case_decide.
  - destruct (sum_of_pos (holds shares sym) (ts_calls ts)) as (j & d & Hj & Hd).
    { rewrite (lk_shared _ Hok). lia. }
    exists j, d. split; [done|]. apply holder_enabled. right. right. exists sym.
    unfold holds in Hd. by case_decide.
Qed.

Lemma progress ts :
  locks_ok ts -> (forall i, take_turn i ts = None) -> Forall (fun c => ended c = true) (ts_calls ts).
Proof.
  intros Hok Hno. apply Forall_lookup_2. intros i c Hi.
  assert (forall j d, ts_calls ts !! j = Some d -> blocked d (ts_shared ts) = true) as Hall.
  { intros j d Hj. destruct (blocked d (ts_shared ts)) eqn:Hb; [done|].
    destruct (turn_enabled _ _ Hb) as [[d' sh] E]. specialize (Hno j). unfold take_turn in Hno.
    by rewrite Hj, E in Hno. }
  destruct (ended c) eqn:He; [done|].
  destruct (waits_for ts c Hok He (Hall _ _ Hi)) as (j & d & Hj & Hd).
  by rewrite (Hall _ _ Hj) in Hd.
Qed.

(** * No schedule goes on for ever *)

Definition turns_to (ts' ts : Threads) : Prop := exists i, take_turn i ts = Some ts'.

Definition calls_of (ts : Threads) (fill : FillEvent) : nat :=
  length (fillConsumer_ (sh_state (ts_shared ts)).1 fill).

Definition total_unmatched (ts : Threads) : Z := sum_of unmatched (ts_calls ts).
Definition total_unreported (ts : Threads) : Z := sum_of unreported (ts_calls ts).
Definition total_distance (ts : Threads) : Z := sum_of (distance (calls_of ts)) (ts_calls ts).

Lemma turn_step_exists c s c' s' :
  turn c s = Some (c', s') ->
  step_exists (fun fill => length (fillConsumer_ (sh_state s).1 fill)) c c'.
Proof.
  intros E.
  destruct c as [| | | | | | | | | | | | | | | |o l fill k todo trs| | | | | | | | | | | | | | | | | | | | | |];
    try done. cbn in E. destruct (fillConsumer_ _ fill !! k) eqn:Ek.
  - apply lookup_lt_Some in Ek. by destruct c'.
  - by injection E as <- _.
Qed.

Lemma turn_nearer ts ts' :
  threads_ok ts -> turns_to ts' ts ->
  threads_ok ts' /\
  (total_unmatched ts' < total_unmatched ts \/
   (total_unmatched ts' = total_unmatched ts /\
    (total_unreported ts' < total_unreported ts \/
     (total_unreported ts' = total_unreported ts /\ total_distance ts' < total_distance ts)))).
Proof.
  intros Hok [i E]. split; [by eapply threads_step_ok; [eapply step_turn|]|].
  destruct (take_turn_inv _ _ _ (bk_stops _ (to_books _ Hok)) E) as
    (c & c' & sh & Hi & Et & -> & _ & Hst & _ & Hc).
  destruct (next_engine_kept c (ts_shared ts)) as (_ & _ & Hfill).
  unfold total_unmatched, total_unreported, total_distance, calls_of. cbn [ts_calls ts_shared].
  rewrite Hst, Hfill, !(sum_of_insert _ _ _ _ _ Hi).
  destruct (goes_nearer _ _ _ Hc (turn_step_exists _ _ _ _ Et)); lia.
Qed.

Lemma turns_terminate ts : threads_ok ts -> Acc turns_to ts.
Proof.
  revert ts. apply (Acc_lex turns_to threads_ok total_unmatched total_unreported total_distance).
  intros ts ts' Hok Hts'. destruct (turn_nearer ts ts' Hok Hts') as [Hok' Hless].
  split_and!; [done|apply sum_of_nonneg..|done];
    auto using unmatched_nonneg, unreported_nonneg, distance_nonneg.
Qed.

(** * Calls that neither throw nor block *)

(** In a [live] world the gate and the consumers answer, and the world stays live. *)
Record live_engine (live : W -> Prop) (e : MatchingEngine W) : Prop := {
  lv_check o w : live w ->
    exists res r, gate_check o (w_risk w) = Ret (res, r) /\ live (mkWorld r (w_ext w) (w_t w));
  lv_event ev w : live w -> (eventConsumer_ e ev w).1 <> Hang /\ live (eventConsumer_ e ev w).2;
  lv_fill fill m w : m ∈ fillConsumer_ e fill -> live w -> exists w', m w = (Ret tt, w') /\ live w';
  lv_time w t : live w -> live (mkWorld (w_risk w) (w_ext w) t)
}.

Variable live : W -> Prop.

(** The operation answers and leaves a live world. *)
Definition answers {A} (m : cpp State A) (st : State) : Prop :=
  exists a st', m st = (Ret a, st') /\ live st'.2.

Lemma run_answers {A} (m : cpp State A) next s c' s' :
  answers m (sh_state s) -> run m next s = Some (c', s') ->
  (exists a, c' = next a) /\ live (sh_state s').2.
Proof. intros (a & st & E & Hl). unfold run. rewrite E. intros [= <- <-]. eauto. Qed.

Lemma emit_new_answers f st :
  live_engine live st.1 -> live st.2 -> answers (emit_new f) st.
Proof.
  intros Hlive Hl. unfold answers, emit_new, cbind. rewrite read_env_run.
  unfold emit, cbind, ctry, in_world. cbn.
  destruct (lv_event _ _ Hlive (f (w_t st.2)).1 (advance f st.2)) as [Hh Hl'];
    [by apply (lv_time _ _ Hlive)|].
  destruct (eventConsumer_ st.1 _ _) as [[[]| |] w]; cbn in *; [eauto..|done].
Qed.

Lemma fill_answers fill k call st :
  live_engine live st.1 -> live st.2 -> fillConsumer_ st.1 fill !! k = Some call ->
  answers (in_world call) st.
Proof.
  intros Hlive Hl Hk%list_elem_of_lookup_2. unfold answers, in_world.
  destruct (lv_fill _ _ Hlive fill call st.2 Hk Hl) as (w & -> & Hl'). eauto.
Qed.

Lemma read_answers {A} (f : nat -> A * nat) st :
  live_engine live st.1 -> live st.2 -> answers (read_env f) st.
Proof.
  intros Hlive Hl. unfold answers. rewrite (surjective_pairing st), read_env_run.
  eexists _, _. split; [done|]. by apply (lv_time _ _ Hlive).
Qed.

Lemma turn_live c s c' s' :
  live_engine live (sh_state s).1 -> live (sh_state s).2 -> stopOrders_ (sh_state s).1 = ∅ ->
  turn c s = Some (c', s') -> live (sh_state s').2 /\ ~ broken c'.
Proof.
  intros Hlive Hl Hst E.
  destruct c as [o|o why|o|o|o|o|o|o|o|o|o|o t|o t|o t trs|o t trs|o l [|tr todo] trs|o l fill k todo trs|o l tr todo trs
    |o trs|o trs|o trs|o trs|o trs|sym id|sym id|sym id|sym id|sym id r|sym id r
    |sym d|sym d|sym d|sym d|sym d snap|sym d snap|h|h|what|];
    cbn [turn submit_turn] in E; try discriminate;
    unfold take_mapMutex, release_mapMutex, take_lock, release_lock, share_lock, unshare_lock in E;
    unfold book_snapshot in E;
    try (apply run_get in E as [-> ->]; split; [exact Hl|try case_match; by intros [?|[? ?]]]);
    try (apply run_upd in E as [-> ->]; split; [exact Hl|by intros [?|[? ?]]]);
    try (apply run_answers in E as [[a ->] Hl']; [|unfold steadyClock; auto using emit_new_answers, read_answers; fail];
         split; [exact Hl'|by intros [?|[? ?]]]);
    try (case_match; [done|]; apply run_upd in E as [-> ->]; split; [exact Hl|by intros [?|[? ?]]]).
  - apply run_answers in E as [[a ->] Hl'].
    + split; [exact Hl'|]. case_match; by intros [?|[? ?]].
    + destruct (lv_check _ _ Hlive o (sh_state s).2 Hl) as (res & r & Eg & Hr).
      unfold answers, riskEngine_checkPreTrade. rewrite Eg. eauto.
  - apply run_match in E as [-> ->]. split; [by apply (lv_time _ _ Hlive)|by intros [?|[? ?]]].
  - injection E as <- <-. split; [exact Hl|]. case_match; by intros [?|[? ?]].
  - destruct (fillConsumer_ _ fill !! k) as [call|] eqn:Ek.
    + apply run_answers in E as [[a ->] Hl']; [split; [exact Hl'|by intros [?|[? ?]]]|by eapply fill_answers].
    + injection E as <- <-. split; [exact Hl|by intros [?|[? ?]]].
  - apply run_stops in E as [-> ->]; [|done]. split; [exact Hl|by intros [?|[? ?]]].
  - apply run_answers in E as [[a ->] Hl']; [split; [exact Hl'|by intros [?|[? ?]]]|].
    case_match; [by apply emit_new_answers|]. unfold answers, cret. eauto.
  - apply run_remove in E as [-> ->]. split; [exact Hl|by intros [?|[? ?]]].
  - case_match; [done|]. injection E as <- <-. split; [exact Hl|by intros [?|[? ?]]].
  - injection E as <- <-. split; [exact Hl|by intros [?|[? ?]]].
  - destruct h; apply run_upd in E as [-> ->]; (split; [exact Hl|by intros [?|[? ?]]]).
Qed.

Record threads_live (ts : Threads) : Prop := {
  tl_ok : threads_ok ts;
  tl_engine : live_engine live (sh_state (ts_shared ts)).1;
  tl_world : live (sh_state (ts_shared ts)).2;
  tl_calls : Forall (fun c => ~ broken c) (ts_calls ts)
}.

Lemma threads_live_turn ts ts' : turns_to ts' ts -> threads_live ts -> threads_live ts'.
Proof.
  intros [i E] [Hok He Hw Hc]. pose proof (bk_stops _ (to_books _ Hok)) as Hst.
  pose proof (threads_step_ok _ _ (step_turn i ts ts' E) Hok) as Hok'.
  destruct (take_turn_inv _ _ _ Hst E) as (c & c' & sh & Hi & Et & -> & _ & Hs & _ & _).
  destruct (turn_live _ _ _ _ He Hw Hst Et) as [Hl Hb].
  destruct (next_engine_kept c (ts_shared ts)) as (_ & Hev & Hfill).
  split; [done| |exact Hl|by apply Forall_insert]. cbn [ts_shared]. rewrite Hs.
  destruct He as [H3 H4 H5 H6]. split; rewrite ?Hev, ?Hfill; done.
Qed.

Lemma turns_return st cs ts :
  engine_start st -> live_engine live st.1 -> live st.2 ->
  Forall (fun c => begins c = true /\ forall o, order_of c = Some o -> incoming_ok o) cs ->
  rtc (fun a b => turns_to b a) (mkThreads (mkShared st ∅) cs []) ts ->
  threads_live ts /\ length (ts_calls ts) = length cs.
Proof.
  intros Hst He Hw Hcs Hrun.
  assert (threads_live (mkThreads (mkShared st ∅) cs [])) as Hlive.
  { split; [by eapply reachable_ok, start_calls|done|done|]. cbn.
    eapply Forall_impl; [exact Hcs|]. intros c [Hb _] [->|[what ->]]; discriminate Hb. }
  assert (length (ts_calls (mkThreads (mkShared st ∅) cs [])) = length cs) as Hlen by done.
  revert Hlive Hlen. generalize (mkThreads (mkShared st ∅) cs []) Hrun. clear -H1.
  intros ts0 Hrun. induction Hrun as [|a b c Hab _ IH]; [done|]. intros Hlive Hlen.
  apply IH; [by eapply threads_live_turn|]. rewrite <- Hlen. destruct Hab as [i E].
  unfold take_turn in E. destruct (ts_calls a !! i); [|done]. destruct (turn _ _) as [[d sh]|]; [|done].
  injection E as <-. apply length_insert.
Qed.

(** C17: overlapping calls always return.  Take any number of submissions, cancellations,
    queries and halts on a new engine whose risk checks and consumers answer.  However
    their steps are interleaved, there is no deadlock and no livelock: every sequence of
    turns is finite, and when no call can take a turn any more, every one of them has
    returned, none having thrown or being blocked. *)
Theorem overlapping_calls_return st cs :
  engine_start st -> live_engine live st.1 -> live st.2 ->
  Forall (fun c => begins c = true /\ forall o, order_of c = Some o -> incoming_ok o) cs ->
  let start := mkThreads (mkShared st ∅) cs [] in
  Acc turns_to start /\
  forall ts, rtc (fun a b => turns_to b a) start ts -> (forall i, take_turn i ts = None) ->
    length (ts_calls ts) = length cs /\ Forall returned_call (ts_calls ts).
Proof.
  intros Hst He Hw Hcs start. split; [by eapply turns_terminate, reachable_ok, start_calls|].
  intros ts Hrun Hno. destruct (turns_return _ _ _ Hst He Hw Hcs Hrun) as [[Hok _ _ Hc] Hlen].
  split; [done|]. apply Forall_lookup_2. intros i c Hi. split.
  - exact (Forall_lookup_1 _ _ _ _ (progress ts (to_locks _ Hok) Hno) Hi).
  - exact (Forall_lookup_1 _ _ _ _ Hc Hi).
Qed.
End Progress.

(** * A concrete engine *)

(** The engine of the load test: default consumers, free mutexes. *)
Definition free_world (w : World (RiskEngine * CircuitBreaker) unit) : Prop :=
  re_mutex_ (w_risk w).1 = false /\ cb_mutex_ (w_risk w).2 = false.

Lemma quiet_start : engine_start quiet_state.
Proof.
  split; try done; [split; [done|by intros fill m w Hm%elem_of_nil]|].
  intros a [Hb _]. cbn in Hb. unfold tracked in Hb. cbn in Hb. by rewrite lookup_empty in Hb.
Qed.

Lemma quiet_live : live_engine free_world quiet_state.1.
Proof.
  split; try done; [|by intros fill m w Hm%elem_of_nil].
  intros o w [Hr Hc]. pose proof (gate_returns o (w_risk w) Hr Hc) as Hh.
  destruct (gate_check o (w_risk w)) as [[res r]|what|] eqn:E; [|by destruct (gate_no_throw _ _ _ E)|done].
  exists res, r. split; [done|]. rewrite (surjective_pairing (w_risk w)) in E.
  apply risk_gate_check in E as []. split; cbn; [apply cf_unlocked|]. by rewrite cf_cb.
Qed.

Section ConcreteProgress.
#[local] Existing Instance demo_env.

Lemma overlapping_calls_return_witness :
  Acc turns_to (mkThreads (mkShared quiet_state ∅) buy_both []) /\
  forall ts, rtc (fun a b => turns_to b a) (mkThreads (mkShared quiet_state ∅) buy_both []) ts ->
    (forall i, take_turn i ts = None) -> Forall returned_call (ts_calls ts).
Proof.
  destruct (overlapping_calls_return free_world quiet_state buy_both quiet_start quiet_live
              (conj eq_refl eq_refl) buy_both_begin) as [Hacc Hret].
  split; [exact Hacc|]. intros ts Hrun Hno. apply (Hret ts Hrun Hno).
Defined.
End ConcreteProgress.
