(* ===== verification/ThreadsSolo.v ===== *)
(** A call on the matching engine that overlaps with no other: its turns are the
    sequential [submit] of MatchingEngine.v. *)

From Stdlib Require Import ZArith Lia.
From stdpp Require Import base numbers gmap strings list relations.
From S2P Require Import Prelude Text Model OrderBook Matching BookSpec BookInvariant BookTheorems Fixtures Events Json CircuitBreaker RiskEngine RedisPositionCache MatchingEngine EngineInvariant EngineTheorems Wiring System SystemClaims EngineThreads ThreadsInvariant ThreadsBooks.

Local Open Scope Z_scope.
Local Open Scope cpp_scope.

Section Solo.
Context `{Env} {R X : Type} `{PreTradeGateLaws R}.

Abbreviation W := (World R X).
Abbreviation State := (MatchingEngine W * W)%type.
Abbreviation Shared := (Shared R X).

Implicit Types (e : MatchingEngine W) (w : W) (st : State) (rs : gmap string nat).

(** One turn of a call without any other. *)
Definition solo_turn (p q : Call * Shared) : Prop := turn p.1 p.2 = Some q.

(** How a call ends. *)
Definition finish (o : Order) (r : outcome (list Trade)) : Call :=
  match r with Ret trades => Submitted o trades | Throw what => Threw what | Hang => Stuck end.

(** From control point [c], the turns do what [m] does. *)
Definition sim (o : Order) (c : Call) (m : cpp State (list Trade)) (st : State) rs : Prop :=
  rtc solo_turn (c, mkShared st rs) (finish o (m st).1, mkShared (m st).2 rs).

Lemma sim_done o trades st rs : sim o (Submitted o trades) (cret trades) st rs.
Proof. apply rtc_refl. Qed.

Lemma sim_ext o c m m' st rs : m st = m' st -> sim o c m' st rs -> sim o c m st rs.
Proof. unfold sim. by intros ->. Qed.

(** A turn that runs one operation, followed by the rest. *)
Lemma sim_run {A} o c (m : cpp State A) next (k : A -> cpp State (list Trade)) st rs :
  turn c (mkShared st rs) = run m next (mkShared st rs) ->
  (forall a st', m st = (Ret a, st') -> sim o (next a) (k a) st' rs) ->
  sim o c (cbind m k) st rs.
Proof.
  intros Hc Hk. unfold sim, cbind. unfold run in Hc. cbn in Hc.
  destruct (m st) as [[a|what|] st']; eapply rtc_l; try exact Hc; [|apply rtc_refl..].
  apply Hk. done.
Qed.

Lemma emit_assoc f (k : unit -> cpp State (list Trade)) st :
  (do! ev <- read_env f; do! _ <- emit ev; k tt) st = (do! _ <- emit_new f; k tt) st.
Proof.
  unfold emit_new, cbind. rewrite read_env_run. by destruct (emit _ _) as [[[]| |] st'].
Qed.

(** The lock of the symbol is free and no stop orders are stored. *)
Definition free_for (o : Order) (e : MatchingEngine W) rs : Prop :=
  locks_ e !! symbol o = Some false /\ rs !! symbol o = None /\ stopOrders_ e = ∅.

Lemma take_free o next e w rs :
  free_for o e rs ->
  take_lock (symbol o) next (mkShared (e, w) rs) =
  Some (next, mkShared (set_locks (<[symbol o := true]> (locks_ e)) e, w) rs).
Proof.
  intros (Hl & Hr & _). unfold take_lock, lock_held, readers. cbn. by rewrite Hl, Hr.
Qed.

Lemma release_run o next e w rs :
  release_lock (symbol o) next (mkShared (e, w) rs) =
  Some (next, mkShared (set_locks (<[symbol o := false]> (locks_ e)) e, w) rs).
Proof. done. Qed.

(** ** After the fills *)

Definition resting (o : Order) (trades : list Trade) : cpp State (list Trade) :=
  do! _ <- (if bool_decide (type o = LIMIT) && bool_decide (trades = []) then
              do! ev <- read_env (OrderEvent_resting o); emit ev
            else cret tt);
  cret trades.

Definition stops (o : Order) (trades : list Trade) : cpp State (list Trade) :=
  do! _ <- (match trades with
            | [] => cret tt
            | _ => with_writeLock (symbol o) (checkStopTriggers (symbol o))
            end);
  resting o trades.

Definition reporting (o : Order) (latency : Z) (todo trades : list Trade)
    : cpp State (list Trade) :=
  do! _ <- cfor todo (report_fill o latency);
  stops o trades.

Lemma sim_resting o trades st rs : sim o (SubmitRest o trades) (resting o trades) st rs.
Proof.
  apply (sim_run o _ _ (fun _ => Submitted o trades)); [done|]. intros [] st' _. apply sim_done.
Qed.

Lemma sim_stops o trades e w rs :
  free_for o e rs -> trades <> [] -> sim o (StopWait o trades) (stops o trades) (e, w) rs.
Proof.
  intros Hfree Hne. pose proof Hfree as (Hl & Hr & Hs). unfold sim, stops, cbind.
  destruct trades as [|tr trades]; [done|]. rewrite (writeLock_stops_run _ _ _ Hl Hs).
  eapply rtc_l; [exact (take_free o _ e w rs Hfree)|].
  eapply rtc_l.
  { unfold solo_turn. cbn [fst snd turn submit_turn]. unfold run. cbn [sh_state].
    rewrite stops_run by exact Hs. reflexivity. }
  eapply rtc_l; [exact (release_run o _ _ w rs)|].
  assert (set_locks (<[symbol o := false]> (locks_ (set_locks (<[symbol o := true]> (locks_ e)) e)))
            (set_locks (<[symbol o := true]> (locks_ e)) e) = e) as ->.
  { destruct e as [bks lks sts mm ec fc h]. cbn in *. unfold set_locks. cbn.
    by rewrite insert_insert_eq, (insert_id lks). }
  apply sim_resting.
Qed.

Lemma sim_report o latency fill k todo trades (m : cpp State (list Trade)) e w rs :
  (forall w', sim o (SubmitFilled o latency (fe_trade fill) todo trades) m (e, w') rs) ->
  sim o (SubmitReport o latency fill k todo trades)
    (do! _ <- in_world (in_order (drop k (fillConsumer_ e fill))); m) (e, w) rs.
Proof.
  intros Hm. remember (drop k (fillConsumer_ e fill)) as steps eqn:Es.
  revert k w Es. induction steps as [|step steps IH]; intros k w Es.
  - assert (fillConsumer_ e fill !! k = None) as Ek.
    { apply lookup_ge_None. apply (f_equal length) in Es. rewrite length_drop in Es. cbn in Es. lia. }
    unfold sim. eapply rtc_l; [|apply (Hm w)]. unfold solo_turn. cbn. by rewrite Ek.
  - assert (fillConsumer_ e fill !! k = Some step) as Ek.
    { replace k with (k + 0)%nat by lia. by rewrite <- lookup_drop, <- Es. }
    eapply sim_ext; [|apply (sim_run o _ (in_world step) (fun _ => SubmitReport o latency fill (S k) todo trades)
                               (fun _ => do! _ <- in_world (in_order steps); m))].
    + unfold in_world, in_order, cbind. cbn. unfold cbind. by destruct (step w) as [[[]| |] w'].
    + cbn. by rewrite Ek.
    + intros [] [e' w'] E'. pose proof (same_world step (e, w)) as Hs. rewrite E' in Hs. cbn in Hs. subst e'.
      apply IH. replace (S k) with (k + 1)%nat by lia. by rewrite <- drop_drop, <- Es.
Qed.

Lemma sim_reporting o latency todo trades e w rs :
  free_for o e rs -> sim o (SubmitFill o latency todo trades) (reporting o latency todo trades) (e, w) rs.
Proof.
  intros Hfree. revert w. induction todo as [|tr todo IH]; intros w.
  - unfold sim, reporting. change ((do! _ <- cfor [] (report_fill o latency); stops o trades) (e, w))
      with (stops o trades (e, w)).
    eapply rtc_l; [reflexivity|]. destruct trades as [|tr trades].
    + exact (sim_resting o [] (e, w) rs).
    + by apply sim_stops.
  - eapply sim_ext; [|apply (sim_run o _ (read_env (FillEvent_new tr latency))
                               (fun fill => SubmitReport o latency fill 0 todo trades)
                               (fun fill => do! _ <- in_world (in_order (drop 0 (fillConsumer_ e fill)));
                                            do! _ <- emit_new (OrderEvent_filled o tr);
                                            reporting o latency todo trades))].
    + unfold reporting, emit_new. cbn [cfor]. unfold report_fill, notify_fill, cbind. rewrite !read_env_run.
      cbn [engine_get fst]. rewrite drop_0.
      destruct (in_world _ _) as [[[]| |] st1]; [|done..]. rewrite !read_env_run.
      by destruct (emit _ _) as [[[]| |] st2].
    + done.
    + intros fill [e0 w0] E0. rewrite read_env_run in E0. apply (inj2 pair) in E0 as [E0 E1].
      injection E0 as E0. apply (inj2 pair) in E1 as [<- _]. cbn [fst] in *.
      assert (fe_trade fill = tr) as <- by (by rewrite <- E0).
      apply sim_report. intros w1. apply (sim_run o _ _ (fun _ => SubmitFill o latency todo trades)); [done|].
      intros [] st2 E2. pose proof (same_emit_new (OrderEvent_filled o (fe_trade fill)) (e, w1)) as Hs2.
      rewrite E2 in Hs2. destruct st2 as [e2 w2]. cbn in Hs2. subst e2. apply IH.
Qed.

(** ** The accepted order *)

Lemma sim_match o start (k : list Trade -> cpp State (list Trade)) e w rs :
  free_for o e rs ->
  (forall trades e' w', free_for o e' rs -> sim o (SubmitMatched o start trades) (k trades) (e', w') rs) ->
  sim o (SubmitWait o start) (cbind (with_writeLock (symbol o) (book_match (symbol o) o)) k) (e, w) rs.
Proof.
  intros Hfree Hk. pose proof Hfree as (Hl & Hr & Hs). unfold sim, cbind.
  rewrite (writeLock_match_run _ _ _ _ Hl), book_match_run. cbv zeta.
  set (m := match_ o (default (OrderBook_new (symbol o)) (books_ e !! symbol o)) (w_t w)).
  eapply rtc_l; [exact (take_free o _ e w rs Hfree)|]. eapply rtc_l.
  { unfold solo_turn. cbn [fst snd turn submit_turn]. unfold run. cbn [sh_state].
    rewrite book_match_run. reflexivity. }
  eapply rtc_l; [exact (release_run o _ _ _ rs)|].
  assert (set_locks (<[symbol o := false]> (locks_ (set_books (<[symbol o := m.1.2]> (books_ e))
            (set_locks (<[symbol o := true]> (locks_ e)) e))))
            (set_books (<[symbol o := m.1.2]> (books_ e)) (set_locks (<[symbol o := true]> (locks_ e)) e))
          = set_books (<[symbol o := m.1.2]> (books_ e)) e) as Heq.
  { destruct e as [bks lks sts mm ec fc h]. cbn in *. unfold set_locks, set_books. cbn.
    by rewrite insert_insert_eq, (insert_id lks). }
  cbn [books_ set_locks w_t w_risk w_ext]. fold m. cbn [books_ set_locks] in Heq. rewrite Heq.
  apply (Hk m.1.1). done.
Qed.

Lemma sim_accepted o e w rs :
  free_for o e rs -> sim o (SubmitReceived o) (accepted o) (e, w) rs.
Proof.
  intros Hfree. eapply sim_ext; [apply (emit_assoc (OrderEvent_received o) (fun _ =>
    do! startTime <- steadyClock;
    do! trades <- with_writeLock (symbol o) (book_match (symbol o) o);
    do! endTime <- steadyClock;
    reporting o (Z.quot (sub64 endTime startTime) 1000) trades trades))|].
  apply (sim_run o _ _ (fun _ => SubmitTime o)); [done|]. intros [] [e1 w1] E1.
  pose proof (same_emit_new (OrderEvent_received o) (e, w)) as Hs. rewrite E1 in Hs.
  cbn in Hs. subst e1.
  apply (sim_run o _ _ (SubmitWait o)); [done|]. intros start [e2 w2] E2.
  pose proof (same_clock (e, w1)) as Hs. rewrite E2 in Hs. cbn in Hs. subst e2.
  apply sim_match; [done|]. intros trades e' w' Hfree'.
  apply (sim_run o _ _ (fun endTime =>
    SubmitFill o (Z.quot (sub64 endTime start) 1000) trades trades)); [done|].
  intros fin [e3 w3] E3. pose proof (same_clock (e', w')) as Hs. rewrite E3 in Hs. cbn in Hs. subst e3.
  by apply sim_reporting.
Qed.

(** ** Books and locks *)

Lemma sim_create o e w rs :
  mapMutex_ e = false ->
  rtc solo_turn (BookLock o, mkShared (e, w) rs)
    (SubmitReceived o, mkShared (ensure_symbol (symbol o) e, w) rs).
Proof.
  intros Hm.
  assert (forall next e', mapMutex_ e' = false ->
    take_mapMutex next (mkShared (e', w) rs) = Some (next, mkShared (set_mapMutex true e', w) rs))
    as Htake by (intros next e' Hm'; unfold take_mapMutex; cbn; by rewrite Hm').
  eapply rtc_l; [exact (Htake _ e Hm)|]. eapply rtc_l; [reflexivity|].
  eapply rtc_l; [reflexivity|]. eapply rtc_l; [by apply Htake|]. eapply rtc_l; [reflexivity|].
  eapply rtc_l; [reflexivity|]. cbn [sh_state fst snd sh_readers].
  match goal with |- rtc _ (_, mkShared (?e', _) _) _ =>
    assert (e' = ensure_symbol (symbol o) e) as -> end; [|apply rtc_refl].
  destruct e as [bks lks sts mm ec fc h]. cbn in Hm. subst mm.
  unfold ensure_symbol, create_book, create_lock, set_mapMutex. cbn.
  destruct (bks !! symbol o); cbn; by destruct (lks !! symbol o).
Qed.

Lemma sim_refused o why st rs : sim o (SubmitRefuse o why) (refused o why) st rs.
Proof.
  eapply sim_ext; [apply (emit_assoc (OrderEvent_rejected o why) (fun _ => cret []))|].
  apply (sim_run o _ _ (fun _ => Submitted o [])); [done|]. intros [] st' _. apply sim_done.
Qed.

Lemma sim_submit throws hangs o st rs :
  engine_ok throws hangs st -> rs !! symbol o = None -> sim o (SubmitStart o) (submit o) st rs.
Proof.
  destruct st as [e w]. intros Hok Hr. unfold sim. rewrite submit_run by apply Hok.
  eapply rtc_l; [reflexivity|]. cbn [sh_state fst snd sh_readers].
  destruct (halted_ e); [apply sim_refused|].
  assert (turn (SubmitCheck o) (mkShared (e, w) rs) =
    Some (match gate_check o (w_risk w) with
          | Ret (res, r) =>
              (if approved res then BookLock o else SubmitRefuse o (reason res),
               mkShared (e, mkWorld r (w_ext w) (w_t w)) rs)
          | Throw what => (Threw what, mkShared (e, w) rs)
          | Hang => (Stuck, mkShared (e, mkWorld (gate_blocked (w_risk w)) (w_ext w) (w_t w)) rs)
          end)) as Hcheck.
  { cbn [turn submit_turn]. unfold run, riskEngine_checkPreTrade. cbn [sh_state fst snd].
    destruct (gate_check o (w_risk w)) as [[res r]| |]; [|done..]. by destruct (approved res). }
  eapply rtc_l; [exact Hcheck|].
  destruct (gate_check o (w_risk w)) as [[res r]|what|] eqn:Eg; [|apply rtc_refl..].
  destruct (approved res) eqn:Ha; [|apply sim_refused].
  destruct (approved_ready throws hangs o e w res r Hok Eg Ha) as [(Hok2 & Hl & _) _].
  etrans; [apply sim_create, Hok|]. apply sim_accepted. split; [exact Hl|]. split; [exact Hr|apply Hok2].
Qed.

(** A submission that overlaps with no other call is [submit] as one operation.  From
    any sound state of the engine, the turns of the call lead to a state where the call
    has ended as [submit] ends (with the same trades, the same exception, or blocked),
    and everything shared is as [submit] leaves it. *)
Theorem solo_submission_is_submit throws hangs o st :
  engine_ok throws hangs st ->
  rtc solo_turn (SubmitStart o, mkShared st ∅)
    (finish o (submit o st).1, mkShared (submit o st).2 ∅) /\
  forall q, ~ solo_turn (finish o (submit o st).1, mkShared (submit o st).2 ∅) q.
Proof.
  intros Hok. split; [exact (sim_submit throws hangs o st ∅ Hok (lookup_empty _))|].
  intros q. unfold solo_turn. by destruct (submit o st) as [[trades|what|] st'].
Qed.
End Solo.

Section ConcreteSolo.
#[local] Existing Instance demo_env.

Lemma solo_submission_is_submit_witness :
  exists st', rtc solo_turn (SubmitStart ask100, mkShared quiet_state ∅)
    (Submitted ask100 [], mkShared st' ∅).
Proof.
  destruct (solo_submission_is_submit False False ask100 quiet_state) as [Hrun _].
  - apply (wired_ok False False (fun _ => cret tt) (fun _ => [])); [by intros ? ?..|].
    intros a [Hb _]. unfold gate_active in Hb. cbn in Hb. unfold tracked in Hb. cbn in Hb.
    rewrite lookup_empty in Hb. by apply Hb.
  - exists (submit ask100 quiet_state).2.
    assert ((submit ask100 quiet_state).1 = Ret []) as E by (vm_compute; reflexivity).
    rewrite E in Hrun. exact Hrun.
Defined.
End ConcreteSolo.
