(* ===== verification/ThreadsTrail.v ===== *)
(** The audit trail and the recorded positions of the wired system when calls overlap: the
    event log is an interleaving of the trails of the calls, and the positions of the
    risk engine are the sums of the fills that the calls have reported. *)

From Stdlib Require Import ZArith Lia.
From stdpp Require Import base numbers gmap strings list relations.
From S2P Require Import Prelude Text Model OrderBook Matching BookSpec BookInvariant BookTheorems Fixtures Events Json CircuitBreaker RiskEngine RedisPositionCache MatchingEngine EngineInvariant EngineTheorems Wiring System SystemClaims EngineThreads ThreadsInvariant ThreadsBooks ThreadsClaims.

Local Open Scope Z_scope.
Local Open Scope cpp_scope.

(** * What a call has logged and reported *)

Definition received (o : Order) : EventContent := mkContent ORDER_RECEIVED o None "".
Definition filled (o : Order) (tr : Trade) : EventContent := mkContent ORDER_FILLED o (Some tr) "".
Definition rejected (o : Order) (why : string) : EventContent := mkContent ORDER_REJECTED o None why.

(** The events and the fill reports of a call that has reached [c].  A call that was left
    by an exception or blocks for ever has made the beginning of a trail. *)
Definition trail_ok (c : Call) (evs : list EventContent) (fs : list FillReport) : Prop :=
  match c with
  | SubmitTime o | SubmitWait o _ | SubmitMatch o _ | SubmitUnlock o _ _ | SubmitMatched o _ _ =>
      evs = [received o] /\ fs = []
  | SubmitFill o _ todo trades =>
      exists done, trades = done ++ todo /\ evs = received o :: (filled o <$> done) /\
        fs = report_of <$> done
  | SubmitReport o _ fill k todo trades =>
      exists done, trades = done ++ fe_trade fill :: todo /\
        evs = received o :: (filled o <$> done) /\
        fs = report_of <$> (done ++ if (3 <? k)%nat then [fe_trade fill] else [])
  | SubmitFilled o _ tr todo trades =>
      exists done, trades = done ++ tr :: todo /\ evs = received o :: (filled o <$> done) /\
        fs = report_of <$> (done ++ [tr])
  | StopWait o trades | StopCheck o trades | StopUnlock o trades | SubmitRest o trades =>
      evs = received o :: (filled o <$> trades) /\ fs = report_of <$> trades
  | Submitted o trades =>
      (trades = [] /\ fs = [] /\ exists why, evs = [rejected o why]) \/
      (evs = accepted_trail o trades /\ fs = report_of <$> trades)
  | Threw _ | Stuck =>
      exists o trades, evs `prefix_of` accepted_trail o trades /\ fs `prefix_of` (report_of <$> trades)
  | _ => evs = [] /\ fs = []
  end.

(** What the turn from [c] to [c'] adds. *)
Definition turn_trail (c c' : Call) (evs : list EventContent) (fs : list FillReport) : Prop :=
  match c with
  | SubmitRefuse o why => evs = [rejected o why] /\ fs = [] /\ ~ broken c'
  | SubmitReceived o => evs = [received o] /\ fs = [] /\ ~ broken c'
  | SubmitFilled o _ tr _ _ => evs = [filled o tr] /\ fs = [] /\ ~ broken c'
  | SubmitRest o trades =>
      evs = (if bool_decide (type o = LIMIT) && bool_decide (trades = [])
             then [mkContent ORDER_RESTING o None ""] else []) /\ fs = [] /\ ~ broken c'
  | SubmitReport _ _ fill k _ _ =>
      evs = [] /\
      match c' with
      | SubmitReport _ _ _ _ _ _ =>
          fs = if decide (k = 3%nat) then [report_of (fe_trade fill)] else []
      | SubmitFilled _ _ _ _ _ => fs = [] /\ (3 < k)%nat
      | _ => fs = []
      end
  | _ => evs = [] /\ fs = []
  end.

Lemma accepted_prefix o trades done todo :
  trades = done ++ todo ->
  (received o :: (filled o <$> done)) `prefix_of` accepted_trail o trades.
Proof.
  intros ->. unfold accepted_trail. apply prefix_cons. rewrite fmap_app, <- app_assoc.
  by apply prefix_app_r.
Qed.

(** The call [k] of the fill consumer. *)
Lemma report_step o l fill k todo trs c' evs fs evs' fs' :
  let c := SubmitReport o l fill k todo trs in
  goes_to c c' -> trail_ok c evs fs -> turn_trail c c' evs' fs' ->
  trail_ok c' (evs ++ evs') (fs ++ fs').
Proof.
  intros c Hc (done & -> & -> & ->) [-> Hn]. rewrite app_nil_r. unfold c in Hc.
  destruct Hc as [[->| ->]|[_ Hb]].
  - exists done. split_and!; [done..|]. subst fs'.
    destruct (Nat.ltb_spec 3 k), (Nat.ltb_spec 3 (S k)), (decide (k = 3%nat)); try lia;
      by rewrite ?fmap_app, ?app_nil_r.
  - destruct Hn as [-> Hk]. exists done. rewrite app_nil_r. apply Nat.ltb_lt in Hk. by rewrite Hk.
  - assert (fs' = []) as -> by (by destruct Hb as [->|[what ->]]). rewrite app_nil_r.
    assert (trail_ok Stuck (received o :: (filled o <$> done))
              (report_of <$> (done ++ if (3 <? k)%nat then [fe_trade fill] else []))) as Hs.
    { exists o, (done ++ fe_trade fill :: todo). split; [by eapply accepted_prefix|].
      rewrite !fmap_app. apply prefix_app. destruct (3 <? k)%nat; [|apply prefix_nil].
      by exists (report_of <$> todo). }
    by destruct Hb as [->|[what ->]].
Qed.

(** A turn takes the trail of its call to the next control point. *)
Lemma trail_step c c' evs fs evs' fs' :
  goes_to c c' -> trail_ok c evs fs -> turn_trail c c' evs' fs' ->
  trail_ok c' (evs ++ evs') (fs ++ fs').
Proof.
  intros Hc Ht Hn. destruct (decide (ended c = true)) as [He|He].
  { destruct c; try discriminate He; by next_call Hc. }
  destruct c as [o|o why|o|o|o|o|o|o|o|o|o|o t|o t|o t trs|o t trs|o l [|tr todo] [|tr' trs]|o l fill k todo trs|o l tr todo trs
    |o trs|o trs|o trs|o trs|o trs|sym id|sym id|sym id|sym id|sym id r|sym id r
    |sym d|sym d|sym d|sym d|sym d snap|sym d snap|b|b|what|];
    cbn in He; try congruence.
  all: try (destruct Hn as [-> ->]; rewrite ?app_nil_r; next_call Hc; cbn in *; destruct_and?; subst; eauto; fail).
  - destruct Hn as (-> & -> & Hb). destruct Ht as [-> ->]. next_call Hc; [|by destruct Hb; unfold broken; eauto..].
    left. eauto.
  - destruct Hn as [-> ->]. destruct Ht as [-> ->]. next_call Hc; cbn; auto;
      (exists o, []; split; apply prefix_nil).
  - destruct Hn as (-> & -> & Hb). destruct Ht as [-> ->]. next_call Hc; by destruct Hb; unfold broken; eauto.
  - destruct Hn as [-> ->]. destruct Ht as [-> ->]. next_call Hc. by exists [].
  - destruct Hn as [-> ->]. destruct Ht as (done & E & -> & ->). rewrite app_nil_r in E. subst done.
    rewrite !app_nil_r. by next_call Hc.
  - destruct Hn as [-> ->]. destruct Ht as (done & E & -> & ->). rewrite app_nil_r in E. subst done.
    rewrite !app_nil_r. by next_call Hc.
  - destruct Ht as (done & E & _). by destruct done.
  - destruct Hn as [-> ->]. destruct Ht as (done & E & -> & ->). rewrite !app_nil_r.
    next_call Hc. exists done. by rewrite app_nil_r.
  - by eapply report_step.
  - destruct Hn as (-> & -> & Hb). destruct Ht as (done & -> & -> & ->).
    next_call Hc; [|by destruct Hb; unfold broken; eauto..].
    exists (done ++ [tr]). rewrite !fmap_app, app_nil_r, <- app_assoc. done.
  - destruct Hn as (-> & -> & Hb). destruct Ht as [-> ->]. next_call Hc; [|by destruct Hb; unfold broken; eauto..].
    right. by rewrite app_nil_r.
Qed.

Section Trail.
Context `{Env} `{RedisServer} `{JsonPrinter}.

Implicit Types (st : SysState) (s : Shared (RiskEngine * CircuitBreaker) Ext).

(** * The effect of a turn *)

Lemma emit_new_effect ty o tr why st :
  wired_sys st ->
  (emit_new (OrderEvent_build ty o tr why 0) st).1 = Ret tt /\
  effect st (emit_new (OrderEvent_build ty o tr why 0) st).2 [mkContent ty o tr why] [].
Proof.
  intros Hw. pose proof (has_effect_event ty o tr why st Hw) as He.
  unfold has_effect, post in He.
  assert ((emit_new (OrderEvent_build ty o tr why 0) st).1 = Ret tt) as Er.
  { unfold emit_new, cbind. rewrite read_env_run. unfold emit, cbind, ctry, in_world. cbn.
    by rewrite (proj1 Hw). }
  unfold emit_new in *. destruct (cbind _ _ st) as [r st']. cbn in *. by subst r.
Qed.

(** A turn that leaves the log and the positions alone. *)
Lemma quiet_effect st st' :
  eventConsumer_ st'.1 = eventConsumer_ st.1 -> fillConsumer_ st'.1 = fillConsumer_ st.1 ->
  w_ext st'.2 = w_ext st.2 -> positions_ (w_risk st'.2).1 = positions_ (w_risk st.2).1 ->
  effect st st' [] [].
Proof.
  intros He Hf Hx Hr. split; [unfold wired_sys; by rewrite He, Hf|unfold log_of; by rewrite Hx, app_nil_r|].
  intros Hi a sym. cbn. rewrite Z.add_0_r, wrap64_small by apply Hi.
  unfold net_of, net_position. by rewrite Hr.
Qed.

(** The fourth call of the fill consumer records the fill, unless it is left before that;
    the others leave the log and the positions alone. *)
Lemma fill_step_effect fill k m st :
  fill_consumer fill !! k = Some m ->
  let reports := if decide (k = 3%nat) then [report_of (fe_trade fill)] else [] in
  effect st (in_world m st).2 [] (match (in_world m st).1 with Ret _ => reports | _ => [] end).
Proof.
  intros Hm. assert (forall A (m' : cpp System A), only_redis m' -> effect st (in_world m' st).2 [] []) as Hredis.
  { intros A m' Ho. destruct (Ho st.2) as (Hr & Hx & _). unfold in_world.
    destruct (m' st.2) as [r w']. cbn in *. apply effect_refl; [done|unfold log_of; cbn; by rewrite Hx|cbn; by rewrite Hr]. }
  assert (forall A (r : outcome A), (match r with Ret _ => [] | _ => [] end : list FillReport) = []) as Hnil
    by (by intros A []).
  destruct k as [|[|[|[|[|k]]]]]; cbn in Hm; try discriminate Hm; injection Hm as <-; cbv zeta;
    try (match goal with |- context [decide (?n = 3%nat)] =>
           rewrite (decide_False (P := n = 3%nat)) by done end;
         rewrite Hnil; auto using with_redis_only, publish_only).
  - rewrite (decide_True (P := 3%nat = 3%nat)) by done. unfold in_world, sys_recordFill.
    destruct (recordFill _ _ _ _ _) as [re| |] eqn:Ef; cbn; [|by apply quiet_effect..].
    pose proof (recordFill_net (report_of (fe_trade fill)) _ _ Ef) as Hnet.
    split; [done|by rewrite app_nil_r|]. intros Hi a sym. cbn. rewrite Z.add_0_r. by apply Hnet.
  - unfold in_world, sys_updateLastTradePrice.
    destruct (updateLastTradePrice _ _ _ _ _) as [[[re cb] t]| |] eqn:Eu; apply quiet_effect; try done; cbn.
    + by apply updateLastTradePrice_inv in Eu as (_ & _ & _ & Hpos & _).
    + unfold price_blocked. by destruct (re_mutex_ _).
Qed.

Lemma run_event ty o tr why next s c' s' :
  wired_sys (sh_state s) -> run (emit_new (OrderEvent_build ty o tr why 0)) next s = Some (c', s') ->
  c' = next tt /\ effect (sh_state s) (sh_state s') [mkContent ty o tr why] [].
Proof.
  intros Hw E. destruct (emit_new_effect ty o tr why _ Hw) as [Hr He]. unfold run in E.
  destruct (emit_new _ (sh_state s)) as [r st]. cbn in Hr, He. subst r. by injection E as <- <-.
Qed.

Lemma check_effect o s next c' s' :
  run (riskEngine_checkPreTrade o) next s = Some (c', s') -> effect (sh_state s) (sh_state s') [] [].
Proof.
  unfold run, riskEngine_checkPreTrade. destruct (gate_check o _) as [[res r]|what|] eqn:Eg;
    intros [= <- <-]; apply quiet_effect; try done. cbn.
  destruct (w_risk (sh_state s).2) as [re cb]. apply risk_gate_check in Eg as []. done.
Qed.

Lemma turn_effect c s c' s' :
  wired_sys (sh_state s) -> stopOrders_ (sh_state s).1 = ∅ -> turn c s = Some (c', s') ->
  exists evs fs, effect (sh_state s) (sh_state s') evs fs /\ turn_trail c c' evs fs.
Proof.
  intros Hw Hst E. destruct (turn_next _ _ _ _ Hst E) as (_ & He & _ & _).
  assert (w_ext (sh_state s').2 = w_ext (sh_state s).2 ->
          positions_ (w_risk (sh_state s').2).1 = positions_ (w_risk (sh_state s).2).1 ->
          effect (sh_state s) (sh_state s') [] []) as Hq.
  { destruct (next_engine_kept c s) as (_ & Hev & Hfi). rewrite <- He in Hev, Hfi. by apply quiet_effect. }
  destruct c as [o|o why|o|o|o|o|o|o|o|o|o|o t|o t|o t trs|o t trs|o l [|tr todo] trs|o l fill k todo trs|o l tr todo trs
    |o trs|o trs|o trs|o trs|o trs|sym id|sym id|sym id|sym id|sym id r|sym id r
    |sym d|sym d|sym d|sym d|sym d snap|sym d snap|h|h|what|];
    cbn [turn submit_turn] in E; try discriminate E;
    unfold take_mapMutex, release_mapMutex, take_lock, release_lock, share_lock, unshare_lock in E;
    unfold book_snapshot in E; cbn [turn_trail];
    try (eexists _, _; split; [apply Hq|by split]; clear Hq He;
         try case_match; try discriminate E;
         first [apply run_get in E as [_ ->] | apply run_upd in E as [_ ->] | apply run_match in E as [_ ->]
               | apply run_remove in E as [_ ->] | injection E as _ <- | unfold run in E; injection E as _ <-]; done).
  - apply run_event in E as [-> E]; [|done]. eexists _, _. split; [exact E|].
    split_and!; try done. by intros [|[? ?]].
  - apply check_effect in E. by eexists _, _.
  - apply run_event in E as [-> E]; [|done]. eexists _, _. split; [exact E|].
    split_and!; try done. by intros [|[? ?]].
  - rewrite (proj2 Hw) in E. destruct (fill_consumer fill !! k) as [m|] eqn:Ek.
    + pose proof (fill_step_effect fill k m (sh_state s) Ek) as Hf. cbv zeta in Hf. unfold run in E.
      destruct (in_world m (sh_state s)) as [r st]. injection E as <- <-.
      eexists _, _. split; [exact Hf|]. split; [done|]. by destruct r.
    + injection E as <- <-. eexists _, _. split; [by apply Hq|]. split_and!; try done.
      apply lookup_ge_None in Ek. cbn in Ek. lia.
  - apply run_event in E as [-> E]; [|done]. eexists _, _. split; [exact E|].
    split_and!; try done. by intros [|[? ?]].
  - apply run_stops in E as [-> ->]; [|done]. eexists _, _. split; [by apply Hq|done].
  - case_match.
    + apply run_event in E as [-> E]; [|done]. eexists _, _. split; [exact E|].
      split_and!; try done. by intros [|[? ?]].
    + unfold run in E. cbn in E. injection E as <- <-. eexists _, _. split; [by apply Hq|].
      split_and!; try done. by intros [|[? ?]].
Qed.

(** * The runs of the system *)

(** Calls begin and take turns; requests that do not call the engine move the clock. *)
Inductive sys_threads_step : Threads (RiskEngine * CircuitBreaker) Ext -> Threads (RiskEngine * CircuitBreaker) Ext -> Prop :=
| sys_turn i ts ts' : take_turn i ts = Some ts' -> sys_threads_step ts ts'
| sys_call c ts :
    begins c = true -> (forall o, order_of c = Some o -> incoming_ok o) ->
    sys_threads_step ts (mkThreads (ts_shared ts) (ts_calls ts ++ [c]) (ts_history ts))
| sys_time t ts :
    let st := sh_state (ts_shared ts) in
    sys_threads_step ts
      (mkThreads (mkShared (st.1, mkWorld (w_risk st.2) (w_ext st.2) t) (sh_readers (ts_shared ts)))
         (ts_calls ts) (ts_history ts)).

Definition sys_reachable (connected : bool) (t : nat)
    (ts : Threads (RiskEngine * CircuitBreaker) Ext) : Prop :=
  rtc sys_threads_step (threads_start (main_state connected t)) ts.

Lemma sys_step_threads ts ts' : sys_threads_step ts ts' -> threads_step ts ts'.
Proof.
  destruct 1 as [i ts ts' E|c ts Hb Ho|t ts st]; [by eapply step_turn|by apply step_call|].
  by apply (step_other (mkWorld _ _ t)).
Qed.

Lemma sys_reachable_threads connected t ts :
  sys_reachable connected t ts -> reachable_threads (main_state connected t) ts.
Proof.
  intros Hr. split; [apply main_state_start|]. induction Hr as [|ts1 ts2 ts3 Hs _ IH]; [apply rtc_refl|].
  eapply rtc_l; [by apply sys_step_threads|exact IH].
Qed.

(** * Trails of the calls *)

(** What call [j] has contributed to a sequence. *)
Definition made_by {A} (j : nat) (l : list (nat * A)) : list A := snd <$> filter (fun p => p.1 = j) l.

Lemma made_by_app {A} j (l k : list (nat * A)) : made_by j (l ++ k) = made_by j l ++ made_by j k.
Proof. unfold made_by. by rewrite filter_app, fmap_app. Qed.

Lemma made_by_tag {A} j i (l : list A) : made_by j (pair i <$> l) = if decide (i = j) then l else [].
Proof.
  unfold made_by. induction l as [|x l IH]; [by case_decide|]. cbn [fmap list_fmap].
  rewrite filter_cons. cbn. case_decide; cbn; rewrite IH; [done|done].
Qed.

Lemma made_by_none {A} j (l : list (nat * A)) :
  Forall (fun p => (p.1 < j)%nat) l -> made_by j l = [].
Proof.
  unfold made_by. induction 1 as [|p l Hp _ IH]; [done|]. rewrite filter_cons, decide_False by lia. exact IH.
Qed.

Lemma snd_tag {A} (i : nat) (l : list A) : snd <$> (pair i <$> l) = l.
Proof. rewrite <- list_fmap_compose. apply list_fmap_id. Qed.

(** The log, with the call that made each event, and the recorded fills. *)
Record trails_ok (ts : Threads (RiskEngine * CircuitBreaker) Ext) (events : list (nat * EventContent))
    (fills : list (nat * FillReport)) : Prop := {
  tr_wired : wired_sys (sh_state (ts_shared ts));
  tr_log : snd <$> events = log_of (sh_state (ts_shared ts));
  tr_net a sym : net_of a sym (sh_state (ts_shared ts)).2 = wrap64 (sum_signed a sym (snd <$> fills));
  tr_events : Forall (fun p => (p.1 < length (ts_calls ts))%nat) events;
  tr_fills : Forall (fun p => (p.1 < length (ts_calls ts))%nat) fills;
  tr_calls j c : ts_calls ts !! j = Some c -> trail_ok c (made_by j events) (made_by j fills)
}.

Lemma tag_lt {A} i n (l : list A) : (i < n)%nat -> Forall (fun p => (p.1 < n)%nat) (pair i <$> l).
Proof. intros Hi. apply Forall_fmap, Forall_forall. done. Qed.

Lemma trails_turn i ts ts' events fills :
  stopOrders_ (sh_state (ts_shared ts)).1 = ∅ -> take_turn i ts = Some ts' ->
  trails_ok ts events fills ->
  exists evs fs, trails_ok ts' (events ++ (pair i <$> evs)) (fills ++ (pair i <$> fs)).
Proof.
  intros Hst E [Hw Hlog Hnet He Hf Hc].
  destruct (take_turn_inv _ _ _ Hst E) as (c & c' & sh & Hi & Et & -> & _ & _ & _ & Hgo).
  destruct (turn_effect _ _ _ _ Hw Hst Et) as (evs & fs & [Hw' Hlog' Hnet'] & Htr).
  assert (i < length (ts_calls ts))%nat as Hlt by (by eapply lookup_lt_Some).
  exists evs, fs. split; cbn [ts_shared ts_calls].
  - by apply Hw'.
  - by rewrite fmap_app, snd_tag, Hlog, Hlog'.
  - intros a sym. rewrite Hnet'; [|intros; rewrite Hnet; apply wrap64_int64].
    by rewrite Hnet, wrap64_add_l, fmap_app, snd_tag, sum_signed_app.
  - rewrite length_insert. apply Forall_app. auto using tag_lt.
  - rewrite length_insert. apply Forall_app. auto using tag_lt.
  - intros j d Hj. rewrite !made_by_app, !made_by_tag. destruct (decide (i = j)) as [->|Hne].
    + rewrite list_lookup_insert_eq in Hj by done. injection Hj as <-. eapply trail_step; eauto.
    + rewrite list_lookup_insert_ne in Hj by done. rewrite !app_nil_r. auto.
Qed.

Lemma trails_step ts ts' events fills :
  threads_ok ts -> sys_threads_step ts ts' -> trails_ok ts events fills ->
  exists events' fills', trails_ok ts' events' fills'.
Proof.
  intros Hok Hs Ht. destruct Hs as [i ts ts' E|c ts Hb _|t ts st].
  - destruct (trails_turn _ _ _ _ _ (bk_stops _ (to_books _ Hok)) E Ht) as (evs & fs & ?). eauto.
  - exists events, fills. destruct Ht as [Hw Hlog Hnet He Hf Hc].
    assert (forall A (l : list (nat * A)), Forall (fun p => (p.1 < length (ts_calls ts))%nat) l ->
              Forall (fun p => (p.1 < length (ts_calls ts ++ [c]))%nat) l) as Hmore.
    { intros A l Hl. eapply Forall_impl; [exact Hl|]. intros p. rewrite length_app. cbn. lia. }
    split; cbn [ts_shared ts_calls]; auto.
    intros j d [Hj|[Hge Hj]]%lookup_app_Some; [auto|].
    apply list_lookup_singleton_Some in Hj as [Hj <-].
    assert (j = length (ts_calls ts)) as -> by lia. rewrite !made_by_none by done. by destruct c.
  - exists events, fills. by destruct Ht as [Hw Hlog Hnet He Hf Hc].
Qed.

Lemma sys_reachable_ok connected t ts :
  sys_reachable connected t ts -> threads_ok ts /\ exists events fills, trails_ok ts events fills.
Proof.
  apply (rtc_ind_r (fun ts => threads_ok ts /\ exists events fills, trails_ok ts events fills)).
  - split; [apply threads_start_ok, main_state_start|]. exists [], []. by split.
  - intros ts1 ts2 _ Hs [Hok (events & fills & Ht)]. split; [|by eapply trails_step].
    eapply threads_step_ok; [by apply sys_step_threads|done].
Qed.

(** C6: the audit trail is exact also when calls overlap.  The event log of the system is an
    interleaving of the trails of the calls: every event belongs to one call, and the
    events of a call, in the order of the log, are what its control point says.  A
    submission that has returned has logged one rejection, or that it was received, each
    of its trades in order, and that it rests when it is a limit order without trades;
    it has reported each of its trades once to the risk engine; cancellations and
    queries log nothing.  No report is lost: the recorded net position of every account
    is the sum (in [int64_t]) of all the fills reported by all the calls. *)
Theorem overlapping_trails_exact connected t ts :
  sys_reachable connected t ts ->
  exists (events : list (nat * EventContent)) (fills : list (nat * FillReport)),
    snd <$> events = log_of (sh_state (ts_shared ts)) /\
    Forall (fun p => (p.1 < length (ts_calls ts))%nat) events /\
    Forall (fun p => (p.1 < length (ts_calls ts))%nat) fills /\
    (forall j c, ts_calls ts !! j = Some c -> trail_ok c (made_by j events) (made_by j fills)) /\
    forall a sym, net_of a sym (sh_state (ts_shared ts)).2 = wrap64 (sum_signed a sym (snd <$> fills)).
Proof.
  intros Hr. destruct (sys_reachable_ok _ _ _ Hr) as [_ (events & fills & [_ Hlog Hnet He Hf Hc])].
  exists events, fills. split_and!; done.
Qed.
End Trail.

(** * Witness *)

Section ConcreteTrail.
#[local] Existing Instance demo_env.
#[local] Existing Instance counter_server.
#[local] Existing Instance demo_json.

Lemma demo_calls_reachable cs schedule :
  Forall (fun c => begins c = true /\ forall o, order_of c = Some o -> incoming_ok o) cs ->
  sys_reachable true 0 (demo_threads cs schedule).
Proof.
  intros Hcs. unfold demo_threads.
  assert (sys_reachable true 0 (mkThreads (mkShared (main_state true 0) ∅) cs [])) as Hstart.
  { induction cs as [|c cs IH] using rev_ind; [apply rtc_refl|].
    apply Forall_app in Hcs as [Hcs Hc]. apply Forall_singleton in Hc as [Hb Ho].
    eapply rtc_r; [exact (IH Hcs)|]. exact (sys_call c _ Hb Ho). }
  revert Hstart. generalize (mkThreads (mkShared (main_state true 0) ∅) cs []).
  induction schedule as [|i schedule IH]; intros ts Hr; [done|]. cbn [run_turns].
  destruct (take_turn i ts) as [ts'|] eqn:E; cbn; [|by apply IH].
  apply IH. eapply rtc_r; [exact Hr|]. by eapply sys_turn.
Qed.

(** Two purchases that were checked at the same time: the log has the trail of each. *)
Lemma overlapping_trails_exact_witness :
  let ts := demo_threads buy_both checks_first in
  exists (events : list (nat * EventContent)) (fills : list (nat * FillReport)),
    snd <$> events = log_of (sh_state (ts_shared ts)) /\ length events = 8%nat /\
    trail_ok (default Stuck (ts_calls ts !! 2%nat)) (made_by 2 events) (made_by 2 fills) /\
    20000 = wrap64 (sum_signed "buyer" "AAPL" (snd <$> fills)).
Proof.
  intros ts. destruct (overlapping_trails_exact true 0 ts (demo_calls_reachable _ _ buy_both_begin))
    as (events & fills & Hlog & _ & _ & Hc & Hnet).
  exists events, fills. split; [exact Hlog|]. split; [|split].
  - rewrite <- (length_fmap snd events), Hlog. vm_compute. reflexivity.
  - destruct (ts_calls ts !! 2%nat) as [c|] eqn:E; [exact (Hc 2%nat c E)|].
    exfalso. assert (length (ts_calls ts) = 4%nat) as Hl by (vm_compute; reflexivity).
    apply lookup_ge_None in E. lia.
  - rewrite <- Hnet. vm_compute. reflexivity.
Defined.
End ConcreteTrail.
