(* ===== verification/ThreadsDeadlock.v ===== *)
(** What can block a call of the wired system for ever when Redis answers: only a trip of
    the circuit breaker, whose mutex is then held for the rest of the run. *)

From Stdlib Require Import ZArith Lia.
From stdpp Require Import base numbers gmap strings list relations.
From S2P Require Import Prelude Text Model OrderBook Matching BookSpec BookInvariant BookTheorems Fixtures Events Json CircuitBreaker RiskEngine RedisPositionCache MatchingEngine EngineInvariant EngineTheorems Wiring System SystemClaims EngineThreads ThreadsInvariant ThreadsBooks ThreadsClaims ThreadsProgress ThreadsTrail.

Local Open Scope Z_scope.
Local Open Scope cpp_scope.

Abbreviation Risk := (RiskEngine * CircuitBreaker)%type.

(** The circuit breaker holds its mutex for ever; both mutexes are free. *)
Definition tripped (r : Risk) : Prop := cb_mutex_ r.2 = true.
Definition free (r : Risk) : Prop := re_mutex_ r.1 = false /\ cb_mutex_ r.2 = false.

(** What a call on the risk engine or the circuit breaker does to the mutexes. *)
Definition mutexes_go (r r' : Risk) (hangs : bool) : Prop :=
  (tripped r -> tripped r') /\ (free r -> tripped r' \/ free r' /\ hangs = false).

Definition is_hang {A} (o : outcome A) : bool := match o with Hang => true | _ => false end.

Lemma mutexes_same r : mutexes_go r r false.
Proof. split; auto. Qed.

(** [dump] prints a value or throws; it always ends. *)
Class JsonPrinterEnds `{JsonPrinter} : Prop := dump_ends : forall j, dump j <> Hang.

Section Mutexes.
Context `{Env} `{RedisReplies} `{JsonPrinterEnds}.

Lemma check_mutexes o (r : Risk) :
  match gate_check o r with
  | Ret (_, r') => mutexes_go r r' false
  | Throw _ => True
  | Hang => mutexes_go r (gate_blocked r) true
  end.
Proof.
  destruct r as [re cb]. destruct (gate_check o (re, cb)) as [[res r']|what|] eqn:E; [|done|].
  - apply risk_gate_check in E as [Hcb Hfree [Hre Hre'] _ _ _ _ _ _]. split.
    + unfold tripped. cbn. by rewrite Hfree.
    + intros _. right. split; [|done]. split; [done|]. by rewrite Hcb.
  - split; [done|]. intros [Hre Hcb]. by destruct (gate_returns o (re, cb) Hre Hcb).
Qed.

Lemma recordTrade_free sym p cb t cb' t' :
  recordTrade sym p cb t = Ret (cb', t') -> cb_mutex_ cb = false /\ cb_mutex_ cb' = false.
Proof.
  unfold recordTrade, cb_lock. destruct (cb_mutex_ cb); [done|]. cbn. intros E. split; [done|].
  repeat case_match; try done; by injection E as <- _.
Qed.

Lemma recordFill_mutexes acct sym d q re cb :
  match recordFill acct sym d q re with
  | Ret re' => re_mutex_ re = false /\ re_mutex_ re' = false
  | Throw _ => False
  | Hang => ~ free (re, cb)
  end.
Proof.
  unfold recordFill, re_lock. destruct (re_mutex_ re) eqn:Hm; cbn; [|done].
  intros [Hf _]. cbn in Hf. congruence.
Qed.

Lemma redis_ends {A} (none : A) args (k : option RedisReply -> cpp RedisPositionCache A) c :
  (forall reply c', (k reply c').1 <> Hang) ->
  (if_connected none (do! reply <- redisCommand args; k reply) c).1 <> Hang.
Proof.
  intros Hk. unfold if_connected, redisCommand, cbind. destruct (ctx_ c); [|done]. cbn.
  pose proof (redis_replies (sent_ c ++ [args])) as Hr. by destruct (redis_reply _).
Qed.

(** A call on the cache returns and leaves the mutexes alone. *)
Lemma redis_mutexes (m : cpp System unit) w :
  only_redis m -> (m w).1 <> Hang -> mutexes_go (w_risk w) (w_risk (m w).2) (is_hang (m w).1).
Proof.
  intros Ho Hh. rewrite (proj1 (Ho w)). destruct (m w).1 eqn:E; [apply mutexes_same..|done].
Qed.

Lemma with_redis_ends {A} (m : cpp RedisPositionCache A) (w : System) :
  (m (x_redis (w_ext w))).1 <> Hang -> (with_redis m w).1 <> Hang.
Proof. unfold with_redis. by destruct (m _). Qed.

Lemma recordFill_go acct sym d q (w : System) :
  let '(r, w') := sys_recordFill acct sym d q w in mutexes_go (w_risk w) (w_risk w') (is_hang r).
Proof.
  unfold sys_recordFill. destruct (w_risk w) as [re cb] eqn:Ew. cbn.
  pose proof (recordFill_mutexes acct sym d q re cb) as Hf.
  destruct (recordFill _ _ _ _ _) as [re1| |]; cbn; [|done|].
  - destruct Hf as [Hre Hre1]. split; [done|]. intros [_ Hcb]. right. done.
  - rewrite Ew. split; [done|]. intros Hfree. by destruct Hf.
Qed.

Lemma updatePrice_go sym p (w : System) :
  let '(r, w') := sys_updateLastTradePrice sym p w in mutexes_go (w_risk w) (w_risk w') (is_hang r).
Proof.
  unfold sys_updateLastTradePrice. destruct (w_risk w) as [re cb] eqn:Ew. cbn.
  destruct (updateLastTradePrice _ _ _ _ _) as [[[re2 cb2] t2]|what|] eqn:Eu; cbn.
  - apply updateLastTradePrice_inv in Eu as (_ & _ & Hre2 & _ & Er).
    apply recordTrade_free in Er as [Hcb Hcb2]. split.
    + unfold tripped. cbn. by rewrite Hcb.
    + intros _. right. split; [by split|done].
  - by destruct (updateLastTradePrice_no_throw _ _ _ _ _ _ Eu).
  - unfold price_blocked, tripped, free. destruct (re_mutex_ re) eqn:Hre; cbn.
    + split; [done|]. intros [? _]. cbn in *. congruence.
    + split; [done|]. by left.
Qed.

Lemma fill_mutexes fill m (w : System) :
  m ∈ fill_consumer fill -> let '(r, w') := m w in mutexes_go (w_risk w) (w_risk w') (is_hang r).
Proof.
  intros Hm. enough (mutexes_go (w_risk w) (w_risk (m w).2) (is_hang (m w).1)) by (by destruct (m w)).
  unfold fill_consumer in Hm. rewrite !elem_of_cons, elem_of_nil in Hm.
  destruct Hm as [->|[->|[->|[->|[->|[]]]]]].
  - apply redis_mutexes; [apply with_redis_only|]. by apply with_redis_ends, redis_ends.
  - apply redis_mutexes; [apply with_redis_only|]. by apply with_redis_ends, redis_ends.
  - apply redis_mutexes; [apply publish_only|]. unfold cbind, print_trade.
    destruct (dump_trade (fe_trade fill)) as [json|what|] eqn:Ed; [|done|by destruct (dump_ends _ Ed)].
    by apply with_redis_ends, redis_ends.
  - pose proof (recordFill_go (aggressorAccountId (fe_trade fill)) (t_symbol (fe_trade fill))
      (aggressorSide (fe_trade fill)) (t_quantity (fe_trade fill)) w). by destruct (sys_recordFill _ _ _ _ _).
  - pose proof (updatePrice_go (t_symbol (fe_trade fill)) (t_price (fe_trade fill)) w).
    by destruct (sys_updateLastTradePrice _ _ _).
Qed.

(** ** Turns *)

Definition turn_mutexes (r r' : Risk) (c' : Call) : Prop :=
  (tripped r -> tripped r') /\ (free r -> tripped r' \/ free r' /\ c' <> Stuck).

Lemma quiet_mutexes r c' : c' <> Stuck -> turn_mutexes r r c'.
Proof. intros Hc. split; auto. Qed.

Lemma turn_mutexes_ok c s c' (s' : Shared Risk Ext) :
  wired_sys (sh_state s) -> stopOrders_ (sh_state s).1 = ∅ -> turn c s = Some (c', s') ->
  turn_mutexes (w_risk (sh_state s).2) (w_risk (sh_state s').2) c'.
Proof.
  intros Hw Hst E. destruct (turn_next _ _ _ _ Hst E) as (_ & _ & _ & Hgo).
  assert (forall ty o tr why next, run (emit_new (OrderEvent_build ty o tr why 0)) next s = Some (c', s') ->
    c' = next tt /\ w_risk (sh_state s').2 = w_risk (sh_state s).2) as Hemit.
  { intros ty o tr why next Er. unfold run, emit_new, cbind in Er. rewrite read_env_run in Er.
    unfold emit, cbind, ctry, in_world, engine_get in Er. cbn in Er. rewrite (proj1 Hw) in Er. cbn in Er.
    by injection Er as <- <-. }
  destruct c as [o|o why|o|o|o|o|o|o|o|o|o|o t|o t|o t trs|o t trs|o l [|tr todo] trs|o l fill k todo trs|o l tr todo trs
    |o trs|o trs|o trs|o trs|o trs|sym id|sym id|sym id|sym id|sym id r|sym id r
    |sym d|sym d|sym d|sym d|sym d snap|sym d snap|h|h|what|];
    cbn [turn submit_turn] in E; try discriminate E;
    unfold take_mapMutex, release_mapMutex, take_lock, release_lock, share_lock, unshare_lock in E;
    unfold book_snapshot in E;
    try (by apply Hemit in E as [-> ->]; apply quiet_mutexes);
    try (assert (w_risk (sh_state s').2 = w_risk (sh_state s).2) as ->
           by (clear Hgo; try case_match; try discriminate E;
               first [apply run_get in E as [_ ->] | apply run_upd in E as [_ ->] | apply run_match in E as [_ ->]
                     | apply run_remove in E as [_ ->] | apply run_stops in E as [_ ->] | injection E as _ <-
                     | unfold run in E; injection E as _ <-]; done);
         apply quiet_mutexes; intros ->; next_call Hgo; fail).
  - unfold run, riskEngine_checkPreTrade in E. pose proof (check_mutexes o (w_risk (sh_state s).2)) as Hg.
    destruct (gate_check o _) as [[res r]|what|]; injection E as <- <-; cbn; [|by apply quiet_mutexes|].
    + destruct Hg as [Ht Hf]. split; [done|]. intros Hfree. destruct (Hf Hfree) as [?|[? _]]; [by left|right].
      split; [done|]. by case_match.
    + destruct Hg as [Ht Hf]. split; [done|]. intros Hfree. destruct (Hf Hfree) as [?|[_ ?]]; [by left|done].
  - injection E as <- <-. apply quiet_mutexes. by destruct trs.
  - rewrite (proj2 Hw) in E. destruct (fill_consumer fill !! k) as [m|] eqn:Ek.
    2: { injection E as <- <-. by apply quiet_mutexes. }
    apply list_elem_of_lookup_2 in Ek. unfold run, in_world in E.
    pose proof (fill_mutexes fill m (sh_state s).2 Ek) as Hg.
    destruct (m (sh_state s).2) as [r w']. injection E as <- <-. cbn in *.
    destruct Hg as [Ht Hf]. split; [done|]. intros Hfree. destruct (Hf Hfree) as [?|[? Hr]]; [by left|right].
    split; [done|]. by destruct r.
  - case_match; [by apply Hemit in E as [-> ->]; apply quiet_mutexes|].
    unfold run in E. cbn in E. injection E as <- <-. by apply quiet_mutexes.
Qed.

(** * Runs *)

Definition risk_of (ts : Threads Risk Ext) : Risk := w_risk (sh_state (ts_shared ts)).2.

Definition breaker_ok (ts : Threads Risk Ext) : Prop :=
  tripped (risk_of ts) \/ free (risk_of ts) /\ Forall (fun c => c <> Stuck) (ts_calls ts).

Lemma breaker_step ts ts' :
  threads_ok ts -> wired_sys (sh_state (ts_shared ts)) -> sys_threads_step ts ts' ->
  breaker_ok ts -> breaker_ok ts'.
Proof.
  intros Hok Hw Hs Hb. destruct Hs as [i ts ts' E|c ts Hbeg _|t ts st]; [| |exact Hb].
  - pose proof (bk_stops _ (to_books _ Hok)) as Hst.
    destruct (take_turn_inv _ _ _ Hst E) as (c & c' & sh & Hi & Et & -> & _).
    destruct (turn_mutexes_ok _ _ _ _ Hw Hst Et) as [Ht Hf]. destruct Hb as [Hb|[Hb Hc]].
    + left. by apply Ht.
    + destruct (Hf Hb) as [?|[? ?]]; [by left|right]. split; [done|]. by apply Forall_insert.
  - destruct Hb as [Hb|[Hb Hc]]; [by left|right]. split; [done|]. apply Forall_app. split; [done|].
    apply Forall_singleton. by intros ->.
Qed.

Lemma sys_breaker_ok connected t ts : sys_reachable connected t ts -> breaker_ok ts.
Proof.
  intros Hr. enough (sys_reachable connected t ts /\ breaker_ok ts) by naive_solver.
  revert ts Hr. apply (rtc_ind_r (fun ts => sys_reachable connected t ts /\ breaker_ok ts)).
  - split; [apply rtc_refl|]. right. by split.
  - intros ts1 ts2 _ Hs [Hr Hb]. split; [by eapply rtc_r|].
    destruct (sys_reachable_ok _ _ _ Hr) as [Hok (events & fills & Ht)].
    eapply breaker_step; [done|apply Ht|done|done].
Qed.

(** C18: only a trip of the circuit breaker can block the engine.  However the calls on the
    wired system overlap, and provided that every command to Redis gets a reply or finds
    the connection broken ([RedisReplies]; the code sets no timeout for commands) and
    that printing a JSON value ends: as long as the circuit breaker has not called [haltSymbol]
    under its own mutex, the mutex of the risk engine is free between two steps, no call
    is blocked for ever, and when no call can take a turn any more, every call has
    returned or was left by an exception. *)
Theorem only_breaker_blocks connected t ts :
  sys_reachable connected t ts -> cb_mutex_ (risk_of ts).2 = false ->
  re_mutex_ (risk_of ts).1 = false /\ Forall (fun c => c <> Stuck) (ts_calls ts) /\
  ((forall i, take_turn i ts = None) -> Forall (fun c => ended c = true) (ts_calls ts)).
Proof.
  intros Hr Hcb. destruct (sys_breaker_ok _ _ _ Hr) as [Ht|[[Hre _] Hc]].
  { unfold tripped in Ht. congruence. }
  split; [done|]. split; [done|]. apply progress.
  apply (to_locks _ (proj1 (sys_reachable_ok _ _ _ Hr))).
Qed.
End Mutexes.

(** * Witness *)

Section ConcreteDeadlock.
#[local] Existing Instance demo_env.
#[local] Existing Instance counter_server.
#[local] Existing Instance demo_json.

Lemma demo_json_ends : JsonPrinterEnds.
Proof. intros j. done. Qed.

Lemma only_breaker_blocks_witness :
  let ts := demo_threads buy_both checks_first in
  cb_mutex_ (risk_of ts).2 = false /\ Forall (fun c => c <> Stuck) (ts_calls ts).
Proof.
  assert (cb_mutex_ (risk_of (demo_threads buy_both checks_first)).2 = false) as Hcb
    by (vm_compute; reflexivity).
  split; [exact Hcb|].
  apply (@only_breaker_blocks _ _ counter_server_replies _ demo_json_ends true 0 (demo_threads buy_both checks_first)
           (demo_calls_reachable _ _ buy_both_begin) Hcb).
Defined.

(** A trade at a price six per cent away from the last one: the submission that made it is
    blocked for ever, and so is every later one. *)
Definition trip_calls : list Call :=
  [SubmitStart (demo_order "t1" "maker1" SELL LIMIT (dollars 100) 10);
   SubmitStart (demo_order "t2" "taker" BUY LIMIT (dollars 100) 10);
   SubmitStart (demo_order "t3" "maker1" SELL LIMIT (dollars 106) 10);
   SubmitStart (demo_order "t4" "taker" BUY LIMIT (dollars 106) 10);
   SubmitStart (demo_order "t5" "other" BUY LIMIT (dollars 100) 10)].

Example breaker_trip_blocks_all :
  let ts := demo_threads trip_calls (concat ((fun i => replicate 40 i) <$> seq 0 5)) in
  cb_mutex_ (risk_of ts).2 = true /\ drop 3 (ts_calls ts) = [Stuck; Stuck].
Proof. split; vm_compute; reflexivity. Qed.
End ConcreteDeadlock.

Section SilentRedis.
#[local] Existing Instance demo_env.
#[local] Existing Instance demo_json.

(** A server that accepts the connection and never replies. *)
#[local] Instance silent_server : RedisServer := fun _ => NoAnswer.

(** The first submission that trades blocks on its first command: the trade has been made,
    but neither the risk engine nor the event log gets to know it. *)
Example silent_redis_blocks :
  let ts := run_turns (concat ((fun i => replicate 40 i) <$> seq 0 2))
              (mkThreads (mkShared (main_state true 0) ∅) (take 2 trip_calls) []) in
  ts_calls ts !! 1%nat = Some Stuck /\ length (ts_history ts) = 2%nat /\
  net_of "taker" "AAPL" (world_of ts) = 0 /\
  (ec_type <$> log_of (sh_state (ts_shared ts))) = [ORDER_RECEIVED; ORDER_RESTING; ORDER_RECEIVED].
Proof. vm_compute. done. Qed.
End SilentRedis.
