(* ===== verification/RateLimiter.v ===== *)
(** The token bucket rate limiter (include/titanx/gateway/TokenBucketRateLimiter.hpp,
    src/gateway/TokenBucketRateLimiter.cpp), for calls that do not overlap: the
    compare-and-exchange of [tryConsume] then succeeds at its first attempt that does
    not fail spuriously, and the mutex of the map is free at every call. *)

From Stdlib Require Import ZArith Lia.
From stdpp Require Import base numbers gmap strings list.
From S2P Require Import Prelude Fixtures.

Local Open Scope Z_scope.

(** * State *)

Record TokenBucket := mkBucket {
  capacity : Z;
  refillPerSecond : Z;
  tokens : Z;
  lastRefillTimeMs : Z
}.

Definition STANDARD_CAPACITY : Z := 100.
Definition STANDARD_REFILL_RATE : Z := 100.

(** * Operations *)

Definition TokenBucket_new (cap rate nowMs : Z) : TokenBucket := mkBucket cap rate cap nowMs.

Definition tokens_due (b : TokenBucket) (elapsed : Z) : Z :=
  div64 (mul64 elapsed (refillPerSecond b)) 1000.

Definition refill (nowMs : Z) (b : TokenBucket) : TokenBucket :=
  let elapsed := sub64 nowMs (lastRefillTimeMs b) in
  if elapsed <=? 0 then b
  else
    let tokensToAdd := tokens_due b elapsed in
    if 0 <? tokensToAdd then
      mkBucket (capacity b) (refillPerSecond b)
        (Z.min (capacity b) (add64 (tokens b) tokensToAdd)) nowMs
    else b.

Definition tryConsume (nowMs : Z) (b : TokenBucket) : bool * TokenBucket :=
  let b := refill nowMs b in
  if 0 <? tokens b then
    (true, mkBucket (capacity b) (refillPerSecond b) (sub64 (tokens b) 1) (lastRefillTimeMs b))
  else (false, b).

Definition secondsUntilRefill (nowMs : Z) (b : TokenBucket) : Z :=
  let elapsed := sub64 nowMs (lastRefillTimeMs b) in
  if 0 <? tokens_due b elapsed then 0 else 1.

Definition bucket_key (accountId endpoint : string) : string := accountId +:+ ":" +:+ endpoint.

Section Limiter.
Context `{Env}.

Definition now_ms (t : nat) : Z * nat := (to_ms (steady_now t), S t).

(** A missing bucket is created first; its constructor reads the clock. *)
Definition tryAcquire (accountId endpoint : string) (buckets : gmap string TokenBucket)
    (t : nat) : bool * gmap string TokenBucket * nat :=
  let key := bucket_key accountId endpoint in
  let '(b, t) :=
    match buckets !! key with
    | Some b => (b, t)
    | None =>
        let '(nowMs, t) := now_ms t in
        (TokenBucket_new STANDARD_CAPACITY STANDARD_REFILL_RATE nowMs, t)
    end in
  let '(nowMs, t) := now_ms t in
  let '(granted, b) := tryConsume nowMs b in
  (granted, <[key := b]> buckets, t).

Definition retryAfterSeconds (accountId endpoint : string) (buckets : gmap string TokenBucket)
    (t : nat) : Z * nat :=
  match buckets !! bucket_key accountId endpoint with
  | None => (0, t)
  | Some b => let '(nowMs, t) := now_ms t in (secondsUntilRefill nowMs b, t)
  end.
End Limiter.

(** * Facts about one bucket *)

(** Clock readings in milliseconds: 2^53 ms are about 285,000 years. *)
Definition ms_ok (z : Z) : Prop := 0 <= z < 2 ^ 53.

Record bucket_ok (nowMs : Z) (b : TokenBucket) : Prop := {
  bo_capacity : capacity b = 100;
  bo_rate : refillPerSecond b = 100;
  bo_tokens : 0 <= tokens b <= 100;
  bo_last : 0 <= lastRefillTimeMs b <= nowMs
}.

Lemma tokens_due_exact b elapsed :
  refillPerSecond b = 100 -> 0 <= elapsed < 2 ^ 53 -> tokens_due b elapsed = elapsed / 10.
Proof.
  intros Hr He. unfold tokens_due. rewrite Hr, mul64_small by (unfold int64; lia).
  unfold div64. rewrite Z.quot_div_nonneg by lia.
  assert (elapsed * 100 / 1000 = elapsed / 10) as ->.
  { change 1000 with (10 * 100). apply Z.div_mul_cancel_r; lia. }
  apply wrap64_small. pose proof (Z.div_le_upper_bound elapsed 10 elapsed).
  pose proof (Z.div_pos elapsed 10). unfold int64. lia.
Qed.

(** Refilling adds one token per full 10 ms since the last refill, up to the
    capacity; an interval that yields no token is kept for later. *)
Lemma refill_exact nowMs b :
  ms_ok nowMs -> bucket_ok nowMs b ->
  refill nowMs b =
  if 10 <=? nowMs - lastRefillTimeMs b then
    mkBucket 100 100 (Z.min 100 (tokens b + (nowMs - lastRefillTimeMs b) / 10)) nowMs
  else b.
Proof.
  unfold ms_ok. intros Hn [Hc Hr Ht Hl]. unfold refill.
  rewrite sub64_small by (unfold int64; lia).
  destruct (Z.leb_spec (nowMs - lastRefillTimeMs b) 0).
  { destruct (Z.leb_spec 10 (nowMs - lastRefillTimeMs b)); [lia|done]. }
  rewrite tokens_due_exact by (done || lia). rewrite Hc, Hr.
  set (d := nowMs - lastRefillTimeMs b) in *.
  pose proof (Z.div_mod d 10). pose proof (Z.mod_pos_bound d 10).
  destruct (Z.leb_spec 10 d), (Z.ltb_spec 0 (d / 10)); try lia; [|done].
  rewrite add64_small by (unfold int64; lia). done.
Qed.

Lemma refill_ok nowMs b : ms_ok nowMs -> bucket_ok nowMs b -> bucket_ok nowMs (refill nowMs b).
Proof.
  intros Hn Hb. rewrite refill_exact by done. destruct Hb as [Hc Hr Ht Hl]. unfold ms_ok in Hn.
  destruct (Z.leb_spec 10 (nowMs - lastRefillTimeMs b)); [|done].
  pose proof (Z.div_pos (nowMs - lastRefillTimeMs b) 10). split; cbn; lia.
Qed.

Lemma tryConsume_ok nowMs b :
  ms_ok nowMs -> bucket_ok nowMs b -> bucket_ok nowMs (tryConsume nowMs b).2.
Proof.
  intros Hn Hb. destruct (refill_ok nowMs b Hn Hb) as [Hc Hr Ht Hl]. unfold tryConsume.
  destruct (Z.ltb_spec 0 (tokens (refill nowMs b))); [|done].
  split; cbn; try done. rewrite sub64_small by (unfold int64; lia). lia.
Qed.

(** The credit of a bucket: what it can still grant, in thousandths of a token, minus
    what time has paid in since [start]. *)
Definition credit (start : Z) (b : TokenBucket) : Z :=
  1000 * tokens b - 100 * (lastRefillTimeMs b - start).

Lemma tryConsume_credit start nowMs b :
  ms_ok nowMs -> bucket_ok nowMs b ->
  let '(granted, b') := tryConsume nowMs b in
  credit start b' + (if granted : bool then 1000 else 0) <= credit start b.
Proof.
  intros Hn Hb. pose proof (refill_ok nowMs b Hn Hb) as [_ _ Ht' _].
  assert (credit start (refill nowMs b) <= credit start b) as Hc.
  { rewrite refill_exact by done. destruct Hb as [_ _ Ht Hl].
    destruct (Z.leb_spec 10 (nowMs - lastRefillTimeMs b)); [|done]. unfold credit. cbn.
    pose proof (Z.mul_div_le (nowMs - lastRefillTimeMs b) 10). lia. }
  unfold tryConsume. destruct (Z.ltb_spec 0 (tokens (refill nowMs b))); [|lia].
  unfold credit in *. cbn. rewrite sub64_small by (unfold int64; lia). lia.
Qed.

(** * Runs of the limiter *)

(** A steady clock: it never goes back and stays in range. *)
Class SteadyClock `{Env} : Prop := {
  clock_mono n m : (n <= m)%nat -> steady_now n <= steady_now m;
  clock_range n : 0 <= steady_now n < 2 ^ 53 * 1000000
}.

Section Runs.
Context `{Env}.

(** The limiter with the number of requests it has granted per key. *)
Record LimiterRun := mkRun {
  run_buckets : gmap string TokenBucket;
  run_granted : string -> Z;
  run_t : nat
}.

Definition run_call (call : string * string) (r : LimiterRun) : LimiterRun :=
  let '(granted, buckets, t) := tryAcquire call.1 call.2 (run_buckets r) (run_t r) in
  mkRun buckets
    (fun key => run_granted r key +
       (if granted && bool_decide (key = bucket_key call.1 call.2) then 1 else 0)) t.

Definition run_calls (calls : list (string * string)) (t : nat) : LimiterRun :=
  foldl (fun r call => run_call call r) (mkRun ∅ (fun _ => 0) t) calls.

Context `{!SteadyClock}.

Lemma now_ms_ok t : ms_ok (now_ms t).1.
Proof.
  pose proof (clock_range t). unfold ms_ok, now_ms, to_ms. cbn.
  rewrite Z.quot_div_nonneg by lia. split; [apply Z.div_pos; lia|].
  apply Z.div_lt_upper_bound; lia.
Qed.

Lemma now_ms_mono n m : (n <= m)%nat -> (now_ms n).1 <= (now_ms m).1.
Proof.
  intros Hnm. pose proof (clock_mono n m Hnm). pose proof (clock_range n).
  pose proof (clock_range m). unfold now_ms, to_ms. cbn.
  rewrite !Z.quot_div_nonneg by lia. apply Z.div_le_mono; lia.
Qed.

Lemma bucket_ok_later n m b : bucket_ok n b -> n <= m -> bucket_ok m b.
Proof. intros [] ?. split; try done. lia. Qed.

Definition key_inv (start : Z) (t : nat) (granted : Z) (b : option TokenBucket) : Prop :=
  match b with
  | None => granted = 0
  | Some b => bucket_ok (now_ms t).1 b /\ 1000 * granted + credit start b <= 100000
  end.

Lemma key_inv_later start n m g b : (n <= m)%nat -> key_inv start n g b -> key_inv start m g b.
Proof.
  destruct b as [b|]; cbn; [|done]. intros Hnm [Hb Hc]. split; [|done].
  eapply bucket_ok_later; [done|]. by apply now_ms_mono.
Qed.

Lemma run_call_inv call r t0 :
  (t0 <= run_t r)%nat ->
  (forall key, key_inv (now_ms t0).1 (run_t r) (run_granted r key) (run_buckets r !! key)) ->
  (t0 <= run_t (run_call call r))%nat /\
  forall key, key_inv (now_ms t0).1 (run_t (run_call call r))
                (run_granted (run_call call r) key) (run_buckets (run_call call r) !! key).
Proof.
  intros Ht Hinv. destruct call as [acct ep]. unfold run_call, tryAcquire. cbn [fst snd].
  set (key0 := bucket_key acct ep).
  assert (exists b t, (t0 <= t)%nat /\ (run_t r <= t)%nat /\
    (match run_buckets r !! key0 with
     | Some b => (b, run_t r)
     | None => let '(nowMs, t) := now_ms (run_t r) in
               (TokenBucket_new STANDARD_CAPACITY STANDARD_REFILL_RATE nowMs, t)
     end) = (b, t) /\ key_inv (now_ms t0).1 t (run_granted r key0) (Some b))
    as (b & t & Ht0 & Htr & -> & Hb).
  { specialize (Hinv key0). destruct (run_buckets r !! key0) as [b|]; [by exists b, (run_t r)|].
    cbn in Hinv. rewrite Hinv. exists (TokenBucket_new 100 100 (now_ms (run_t r)).1), (S (run_t r)).
    pose proof (now_ms_ok (run_t r)) as Hms. unfold ms_ok in Hms.
    pose proof (now_ms_mono t0 (run_t r) Ht).
    pose proof (now_ms_mono (run_t r) (S (run_t r)) ltac:(lia)).
    split_and!; [lia|lia|done|]. split; [split; cbn [TokenBucket_new capacity refillPerSecond
      tokens lastRefillTimeMs]; lia|]. unfold credit. cbn [TokenBucket_new tokens
      lastRefillTimeMs]. lia. }
  cbn [now_ms]. destruct Hb as [Hb Hc].
  change (to_ms (steady_now t)) with (now_ms t).1.
  pose proof (tryConsume_ok (now_ms t).1 b (now_ms_ok t) Hb) as Hb'.
  pose proof (tryConsume_credit (now_ms t0).1 (now_ms t).1 b (now_ms_ok t) Hb) as Hcr.
  destruct (tryConsume (now_ms t).1 b) as [granted b']. cbn [run_t run_granted run_buckets].
  split; [lia|]. intros key. rewrite lookup_insert. case_decide as Hk.
  - subst key. rewrite bool_decide_true by done. apply (key_inv_later _ t); [lia|].
    split; [done|]. cbv beta iota in Hcr. destruct granted; cbn [andb]; lia.
  - rewrite bool_decide_false, andb_false_r, Z.add_0_r by done.
    apply (key_inv_later _ (run_t r)); [lia|]. apply Hinv.
Qed.

Lemma run_calls_inv calls r t0 :
  (t0 <= run_t r)%nat ->
  (forall key, key_inv (now_ms t0).1 (run_t r) (run_granted r key) (run_buckets r !! key)) ->
  let r' := foldl (fun r call => run_call call r) r calls in
  (t0 <= run_t r')%nat /\
  forall key, key_inv (now_ms t0).1 (run_t r') (run_granted r' key) (run_buckets r' !! key).
Proof.
  revert r. induction calls as [|call calls IH]; intros r Ht Hinv; [done|].
  destruct (run_call_inv call r t0 Ht Hinv) as [Ht' Hinv']. by apply IH.
Qed.

(** * The properties *)

(** The rate limit holds.  Whatever requests of whatever accounts and endpoints
    were made from the start of the limiter on, an account was granted on an
    endpoint at most a burst of 100 requests plus one request per 10 ms that have
    passed. *)
Theorem rate_limit_bound calls t key :
  let r := run_calls calls t in
  1000 * run_granted r key <=
    1000 * 100 + 100 * ((now_ms (run_t r)).1 - (now_ms t).1).
Proof.
  intros r.
  destruct (run_calls_inv calls (mkRun ∅ (fun _ => 0) t) t) as [Htr Hinv]; [cbn; lia| |].
  { intros k. cbn. by rewrite lookup_empty. }
  fold (run_calls calls t) in Htr, Hinv. fold r in Htr, Hinv. specialize (Hinv key).
  pose proof (now_ms_mono t (run_t r) Htr). unfold key_inv in Hinv.
  destruct (run_buckets r !! key) as [b|]; [|lia].
  destruct Hinv as [[_ _ Htk Hl] Hc]. unfold credit in Hc. lia.
Qed.

(** A request is granted exactly when the bucket has a token left or its last
    refill is at least 10 ms ago, and the number of tokens stays between 0 and the
    capacity. *)
Theorem tryConsume_answer nowMs b :
  ms_ok nowMs -> bucket_ok nowMs b ->
  (tryConsume nowMs b).1 =
    ((0 <? tokens b) || (10 <=? nowMs - lastRefillTimeMs b)) /\
  0 <= tokens (tryConsume nowMs b).2 <= 100.
Proof.
  intros Hn Hb. split; [|by apply (tryConsume_ok nowMs b Hn Hb)].
  unfold tryConsume. rewrite refill_exact by done. destruct Hb as [Hc Hr Ht Hl].
  destruct (Z.leb_spec 10 (nowMs - lastRefillTimeMs b)) as [He|He].
  - rewrite orb_true_r. cbn [tokens].
    pose proof (Z.div_le_lower_bound (nowMs - lastRefillTimeMs b) 10 1).
    destruct (Z.ltb_spec 0 (Z.min 100 (tokens b + (nowMs - lastRefillTimeMs b) / 10)));
      [done|lia].
  - rewrite orb_false_r. by destruct (0 <? tokens b).
Qed.
End Runs.

(** The requests granted out of [n], one every [step] ms. *)
Fixpoint consume_every (step : Z) (n : nat) (nowMs : Z) (b : TokenBucket) : Z :=
  match n with
  | O => 0
  | S n =>
      let '(granted, b) := tryConsume nowMs b in
      (if granted then 1 else 0) + consume_every step n (nowMs + step) b
  end.

(** The nominal rate of 100 requests per second is not reached by an account that
    asks more often: the refill drops the part of the interval that did not make a
    full token.  From an empty bucket, 1000 requests at intervals of 3 ms (three
    seconds, in which 300 tokens are due) are granted 250 times. *)
Theorem refill_drops_fractions :
  consume_every 3 1000 3 (mkBucket STANDARD_CAPACITY STANDARD_REFILL_RATE 0 0) = 250.
Proof. vm_compute. reflexivity. Qed.

(** * Witnesses *)

Lemma tryConsume_answer_witness :
  (tryConsume 25 (mkBucket 100 100 0 15)).1 = true /\
  (tryConsume 24 (mkBucket 100 100 0 15)).1 = false.
Proof.
  split.
  - destruct (tryConsume_answer 25 (mkBucket 100 100 0 15)) as [-> _];
      [unfold ms_ok; lia|split; cbn; lia|reflexivity].
  - destruct (tryConsume_answer 24 (mkBucket 100 100 0 15)) as [-> _];
      [unfold ms_ok; lia|split; cbn; lia|reflexivity].
Defined.

(** A clock that advances by 1 ms per reading, for a very long time. *)
Definition ticking_env : Env := {|
  sys_now _ := 0;
  steady_now n := Z.min (1000000 * Z.of_nat n) (2 ^ 52 * 1000000);
  rand_u64 _ := 0;
  freed_string _ s := s
|}.

Lemma ticking_env_steady : @SteadyClock ticking_env.
Proof. split; intros; cbn; lia. Qed.

Lemma rate_limit_bound_witness :
  1000 * run_granted (@run_calls ticking_env (replicate 150 ("acc1", "orders")) 0) "acc1:orders"
    <= 1000 * 100 + 100 * 151 /\
  run_granted (@run_calls ticking_env (replicate 150 ("acc1", "orders")) 0) "acc1:orders" = 115.
Proof.
  split; [|vm_compute; reflexivity].
  pose proof (@rate_limit_bound ticking_env ticking_env_steady (replicate 150 ("acc1", "orders"))
                0 "acc1:orders") as Hb.
  assert ((@now_ms ticking_env (run_t (@run_calls ticking_env (replicate 150 ("acc1", "orders")) 0))).1
          - (@now_ms ticking_env 0).1 = 151) as E by (vm_compute; reflexivity).
  cbv zeta in Hb. rewrite E in Hb. exact Hb.
Defined.
