(* ===== verification/JwtTokenService.v ===== *)
(** The JWT token service (include/titanx/gateway/JwtTokenService.hpp,
    src/gateway/JwtTokenService.cpp): access and refresh tokens, their validation and
    the list of permissions that an access token carries as one text.

    The jwt-cpp library is outside the program: [JwtLib] lists the calls made on it
    and [JwtLaws] its documented behaviour (a decoded token carries the claims that
    were signed, dates are whole seconds, and verification checks the signature, the
    issuer and the validity period). *)

From Stdlib Require Import ZArith Lia Ascii.
From stdpp Require Import base numbers gmap strings list countable pretty.
From S2P Require Import Prelude Text Model.

Local Open Scope Z_scope.
Local Open Scope cpp_scope.

(** * The library *)

(** What [jwt::create()] and its setters have collected when [sign] is called. *)
Record JwtPayload := mkPayload {
  iss : string;
  sub : string;
  payload_claims : gmap string string;
  iat : Z;                               (* ns *)
  exp : Z
}.

Class JwtLib := {
  decoded_jwt : Type;
  jwt_sign : string -> JwtPayload -> outcome string;
  jwt_decode : string -> outcome decoded_jwt;
  (** [verify()] with the secret, the issuer and the time of the verification. *)
  jwt_verify : string -> string -> Z -> decoded_jwt -> outcome unit;
  get_subject : decoded_jwt -> outcome string;
  has_payload_claim : decoded_jwt -> string -> bool;
  get_payload_claim : decoded_jwt -> string -> outcome string;   (* .as_string() *)
  get_expires_at : decoded_jwt -> outcome Z
}.

(** Dates in a token are whole seconds. *)
Definition whole_seconds (ns : Z) : Z := ns / 1000000000 * 1000000000.

Class JwtLaws `{JwtLib} : Prop := {
  decode_signed secret p token :
    jwt_sign secret p = Ret token ->
    exists d, jwt_decode token = Ret d /\
      get_subject d = Ret (sub p) /\
      (forall k, has_payload_claim d k = bool_decide (is_Some (payload_claims p !! k))) /\
      (forall k v, payload_claims p !! k = Some v -> get_payload_claim d k = Ret v) /\
      get_expires_at d = Ret (whole_seconds (exp p)) /\
      (forall issuer now, jwt_verify secret issuer now d = Ret tt <->
         issuer = iss p /\ whole_seconds (iat p) <= now <= whole_seconds (exp p));
  decode_returns token : jwt_decode token <> Hang;
  verify_returns secret issuer now d : jwt_verify secret issuer now d <> Hang;
  subject_returns d : get_subject d <> Hang;
  claim_returns d k : get_payload_claim d k <> Hang
}.

(** * The service *)

Record JwtClaims := mkClaims {
  c_accountId : string;
  permissions : list string;
  tokenType : string;
  valid : bool;
  error : string
}.

Definition JwtClaims_new : JwtClaims := mkClaims "" [] "" false "".

Definition ACCESS_TOKEN_TTL_SECONDS : Z := 15 * 60.
Definition REFRESH_TOKEN_TTL_SECONDS : Z := 24 * 60 * 60.
Definition signingSecret_ : string := "titanx-secret-key-minimum-256-bits-for-hs256!!".

(** [now + std::chrono::seconds(ttl)]. *)
Definition add_seconds (now ttl : Z) : Z := add64 now (mul64 ttl 1000000000).

(** The loop that joins the permissions; [i] is its index. *)
Fixpoint join_permissions (i : nat) (permsStr : string) (l : list string) : string :=
  match l with
  | [] => permsStr
  | p :: l =>
      let permsStr := if (0 <? i)%nat then permsStr +:+ "," else permsStr in
      join_permissions (S i) (permsStr +:+ p) l
  end.

(** The loop that splits them: [perm] is the part read so far. *)
Fixpoint split_permissions (acc : list string) (perm s : string) : list string :=
  let push := if bool_decide (perm = "") then acc else acc ++ [perm] in
  match s with
  | EmptyString => push
  | String c s' =>
      if Ascii.eqb c "," then split_permissions push "" s'
      else split_permissions acc (perm +:+ String c "") s'
  end.

Section Service.
Context `{Env} `{JwtLib}.

Definition generateAccessToken (accountId : string) (perms : list string) : cpp nat string :=
  fun t =>
    let '(now, t) := SystemClock_now t in
    (jwt_sign signingSecret_
       (mkPayload "titanx" accountId
          (<["tokenType" := "ACCESS"]>
             (<["permissions" := join_permissions 0 "" perms]>
                (<["accountId" := accountId]> ∅)))
          now (add_seconds now ACCESS_TOKEN_TTL_SECONDS)), t).

Definition generateRefreshToken (accountId sessionId : string) : cpp nat string := fun t =>
  let '(now, t) := SystemClock_now t in
  (jwt_sign signingSecret_
     (mkPayload "titanx" accountId
        (<["tokenType" := "REFRESH"]> (<["sessionId" := sessionId]> ∅))
        now (add_seconds now REFRESH_TOKEN_TTL_SECONDS)), t).

(** The claims that the [try] block of [validateAndExtract] fills in, and the clock. *)
Definition claims_upd (f : JwtClaims -> JwtClaims) : cpp (JwtClaims * nat) unit :=
  fun s => (Ret tt, (f s.1, s.2)).

Definition claims_clock : cpp (JwtClaims * nat) Z :=
  fun s => let '(now, t) := SystemClock_now s.2 in (Ret now, (s.1, t)).

Definition extract_claims (token : string) : cpp (JwtClaims * nat) unit :=
  do! d <- clift (jwt_decode token);
  do! now <- claims_clock;
  do! _ <- clift (jwt_verify signingSecret_ "titanx" now d);
  do! subject <- clift (get_subject d);
  do! _ <- claims_upd (fun c =>
    mkClaims subject (permissions c) (tokenType c) (valid c) (error c));
  do! ty <- clift (get_payload_claim d "tokenType");
  do! _ <- claims_upd (fun c =>
    mkClaims (c_accountId c) (permissions c) ty (valid c) (error c));
  do! _ <- (if has_payload_claim d "permissions" then
              do! permsStr <- clift (get_payload_claim d "permissions");
              claims_upd (fun c =>
                mkClaims (c_accountId c) (split_permissions (permissions c) "" permsStr)
                  (tokenType c) (valid c) (error c))
            else cret tt);
  claims_upd (fun c => mkClaims (c_accountId c) (permissions c) (tokenType c) true (error c)).

(** The exception is reported in the claims. *)
Definition invalidate (what : string) : cpp (JwtClaims * nat) unit :=
  claims_upd (fun c =>
    mkClaims (c_accountId c) (permissions c) (tokenType c) false what).

Definition validateAndExtract (token : string) : cpp nat JwtClaims := fun t =>
  match ccatch (extract_claims token) invalidate (JwtClaims_new, t) with
  | (Ret _, (claims, t)) => (Ret claims, t)
  | (Throw what, (_, t)) => (Throw what, t)
  | (Hang, (_, t)) => (Hang, t)
  end.

Definition isExpired (token : string) : cpp nat bool := fun t =>
  match jwt_decode token with
  | Ret d =>
      match get_expires_at d with
      | Ret e => let '(now, t) := SystemClock_now t in (Ret (e <? now), t)
      | Throw _ => (Ret true, t)
      | Hang => (Hang, t)
      end
  | Throw _ => (Ret true, t)
  | Hang => (Hang, t)
  end.
End Service.

(** * Joining and splitting *)

#[local] Arguments String.append : simpl nomatch.

Lemma string_app_assoc (a b c : string) : a +:+ (b +:+ c) = (a +:+ b) +:+ c.
Proof. induction a as [|x a IH]; [done|]. cbn. by rewrite IH. Qed.

Lemma string_app_nil_r (a : string) : a +:+ "" = a.
Proof. induction a as [|x a IH]; [done|]. cbn. by rewrite IH. Qed.

(** A part without a comma is read to its end. *)
Lemma split_part acc perm p s :
  no_char "," p -> split_permissions acc perm (p +:+ s) = split_permissions acc (perm +:+ p) s.
Proof.
  revert perm. induction p as [|c p IH]; intros perm Hp; [by rewrite string_app_nil_r|].
  destruct Hp as [Hc Hp]. change (String c p +:+ s) with (String c (p +:+ s)).
  cbn [split_permissions].
  destruct (Ascii.eqb_spec c ","); [done|]. rewrite IH by done.
  by rewrite <- string_app_assoc.
Qed.

(** The text after the first part. *)
Fixpoint join_rest (l : list string) : string :=
  match l with [] => "" | p :: l => "," +:+ p +:+ join_rest l end.

Lemma join_permissions_S i str l : join_permissions (S i) str l = str +:+ join_rest l.
Proof.
  revert i str. induction l as [|p l IH]; intros i str; [by rewrite string_app_nil_r|].
  cbn [join_permissions join_rest]. change (0 <? S i)%nat with true. cbv iota.
  by rewrite IH, !string_app_assoc.
Qed.

Definition nonempty (p : string) : Prop := p <> "".

#[local] Instance nonempty_dec p : Decision (nonempty p).
Proof. unfold nonempty. apply _. Defined.

Lemma push_filter acc p : (if bool_decide (p = "") then acc else acc ++ [p]) =
                          acc ++ filter nonempty [p].
Proof.
  case_bool_decide as E.
  - rewrite filter_cons_False, filter_nil, app_nil_r; [done|]. unfold nonempty. by intros [].
  - by rewrite filter_cons_True, filter_nil.
Qed.

Lemma split_join_rest acc p l :
  Forall (no_char ",") l ->
  split_permissions acc p (join_rest l) = acc ++ filter nonempty (p :: l).
Proof.
  intros Hl. revert acc p. induction Hl as [|q l Hq _ IH]; intros acc p.
  { cbn [join_rest split_permissions]. apply push_filter. }
  cbn [join_rest]. change ("," +:+ (q +:+ join_rest l)) with (String "," (q +:+ join_rest l)).
  cbn [split_permissions]. change (Ascii.eqb "," ",") with true. cbv iota.
  rewrite split_part, IH by done. change ("" +:+ q) with q.
  rewrite push_filter, <- app_assoc. f_equal. rewrite <- filter_app. done.
Qed.

(** Splitting undoes joining, up to empty permissions. *)
Lemma split_join l :
  Forall (no_char ",") l ->
  split_permissions [] "" (join_permissions 0 "" l) = filter nonempty l.
Proof.
  intros Hall. destruct Hall as [|p l' Hp Hl]; [done|]. cbn [join_permissions].
  change (0 <? 0)%nat with false. cbv iota. change ("" +:+ p) with p.
  rewrite join_permissions_S, split_part, split_join_rest by done. done.
Qed.

Lemma filter_nonempty l : Forall nonempty l -> filter nonempty l = l.
Proof. induction 1; [done|]. rewrite filter_cons_True by done. by f_equal. Qed.

(** * Lifetimes *)

(** Times of the system clock that leave room for a token's lifetime: until the year
    2116. *)
Definition clock_ok (ns : Z) : Prop := 0 <= ns < 2 ^ 62.

Lemma add_seconds_exact now ttl :
  clock_ok now -> 0 <= ttl <= 86400 -> add_seconds now ttl = now + ttl * 1000000000.
Proof.
  unfold clock_ok. intros Hn Ht. unfold add_seconds.
  rewrite mul64_small by (unfold int64; lia). apply add64_small. unfold int64. lia.
Qed.

Lemma whole_seconds_le ns : whole_seconds ns <= ns.
Proof. unfold whole_seconds. pose proof (Z.mul_div_le ns 1000000000). lia. Qed.

(** The last instant at which a token issued at [now] for [ttl] seconds is valid. *)
Definition valid_until (now ttl : Z) : Z := whole_seconds (now + ttl * 1000000000).

Section Tokens.
Context `{Env} `{JwtLaws}.

(** What validating a signed token yields, by the clock reading at [t]. *)
Lemma validate_signed p token t ty :
  jwt_sign signingSecret_ p = Ret token -> iss p = "titanx" ->
  payload_claims p !! "tokenType" = Some ty ->
  validateAndExtract token t =
  if bool_decide (whole_seconds (iat p) <= sys_now t <= whole_seconds (exp p)) then
    (Ret (mkClaims (sub p)
       (match payload_claims p !! "permissions" with
        | Some s => split_permissions [] "" s | None => [] end) ty true ""), S t)
  else
    (match jwt_decode token with
     | Ret d =>
         match jwt_verify signingSecret_ "titanx" (sys_now t) d with
         | Throw what => Ret (mkClaims "" [] "" false what)
         | _ => Hang
         end
     | _ => Hang
     end, S t).
Proof.
  intros Es Hiss Hty.
  destruct (decode_signed _ _ _ Es) as (d & Ed & Esub & Hhas & Hget & _ & Hver).
  specialize (Hver "titanx" (sys_now t)). pose proof (verify_returns signingSecret_ "titanx"
    (sys_now t) d) as Hret.
  unfold validateAndExtract, ccatch, extract_claims, cbind, clift. rewrite Ed. cbn.
  case_bool_decide as Ht.
  - rewrite (proj2 Hver) by (by split). rewrite Esub. cbn. rewrite (Hget _ _ Hty). cbn.
    rewrite Hhas. destruct (payload_claims p !! "permissions") as [s|] eqn:Ep.
    + rewrite bool_decide_true by eauto. rewrite (Hget _ _ Ep). done.
    + rewrite bool_decide_false by (by intros []). done.
  - destruct (jwt_verify signingSecret_ "titanx" (sys_now t) d) as [[]|what|]; [|done|done].
    destruct (proj1 Hver eq_refl) as [_ ?]. done.
Qed.

(** An access token, within its lifetime and after it. *)
Lemma access_token_validates acct perms t0 t0' token t :
  generateAccessToken acct perms t0 = (Ret token, t0') ->
  Forall (fun p => p <> "" /\ no_char "," p) perms ->
  clock_ok (sys_now t0) -> sys_now t0 <= sys_now t ->
  (sys_now t <= valid_until (sys_now t0) 900 ->
     validateAndExtract token t = (Ret (mkClaims acct perms "ACCESS" true ""), S t)) /\
  (valid_until (sys_now t0) 900 < sys_now t ->
     exists what, validateAndExtract token t = (Ret (mkClaims "" [] "" false what), S t)).
Proof.
  intros E Hp Hc Ht. unfold generateAccessToken in E. cbn [SystemClock_now] in E.
  injection E as Es _. rewrite add_seconds_exact in Es by (done || (unfold ACCESS_TOKEN_TTL_SECONDS; lia)).
  pose proof (validate_signed _ _ t "ACCESS" Es eq_refl) as Hv. cbn [payload_claims iss sub iat exp] in Hv.
  rewrite lookup_insert_eq, lookup_insert_ne, lookup_insert_eq in Hv by done.
  specialize (Hv eq_refl). rewrite Hv. fold (valid_until (sys_now t0) ACCESS_TOKEN_TTL_SECONDS).
  change ACCESS_TOKEN_TTL_SECONDS with 900.
  pose proof (whole_seconds_le (sys_now t0)). split; intros Hu.
  - rewrite bool_decide_true by lia. rewrite split_join, filter_nonempty; [done| |];
      (eapply Forall_impl; [exact Hp|]); by intros ? [].
  - rewrite bool_decide_false by lia.
    destruct (decode_signed _ _ _ Es) as (d & Ed & _ & _ & _ & _ & Hver). rewrite Ed.
    specialize (Hver "titanx" (sys_now t)). cbn in Hver.
    pose proof (verify_returns signingSecret_ "titanx" (sys_now t) d).
    destruct (jwt_verify signingSecret_ "titanx" (sys_now t) d) as [[]|what|]; [|by eauto|done].
    destruct (proj1 Hver eq_refl) as [_ [_ Hend]]. by apply Z.le_ngt in Hend.
Qed.

(** C25: an access token gives back what was put into it.  For fifteen minutes (to the
    second) the token that [generateAccessToken] issued is accepted and yields the
    account, the type ACCESS and exactly the list of permissions, as long as none of
    them is empty or contains a comma; afterwards it is refused. *)
Theorem access_token_round_trip acct perms t0 t0' token t :
  generateAccessToken acct perms t0 = (Ret token, t0') ->
  Forall (fun p => p <> "" /\ no_char "," p) perms ->
  clock_ok (sys_now t0) -> sys_now t0 <= sys_now t ->
  (sys_now t <= valid_until (sys_now t0) 900 ->
     validateAndExtract token t = (Ret (mkClaims acct perms "ACCESS" true ""), S t)) /\
  (valid_until (sys_now t0) 900 < sys_now t ->
     exists what, validateAndExtract token t = (Ret (mkClaims "" [] "" false what), S t)).
Proof. intros. by eapply access_token_validates. Qed.

(** A refresh token is good for every request.  For twenty-four hours the token of
    [generateRefreshToken] is accepted by the same validation as an access token; the
    result differs only in the type REFRESH and the empty permissions, which no
    caller looks at. *)
Theorem refresh_token_accepted acct session t0 t0' token t :
  generateRefreshToken acct session t0 = (Ret token, t0') ->
  clock_ok (sys_now t0) -> sys_now t0 <= sys_now t <= valid_until (sys_now t0) 86400 ->
  validateAndExtract token t = (Ret (mkClaims acct [] "REFRESH" true ""), S t).
Proof.
  intros E Hc Ht. unfold generateRefreshToken in E. cbn [SystemClock_now] in E.
  injection E as Es _. rewrite add_seconds_exact in Es by (done || (unfold REFRESH_TOKEN_TTL_SECONDS; lia)).
  pose proof (validate_signed _ _ t "REFRESH" Es eq_refl) as Hv.
  cbn [payload_claims iss sub iat exp] in Hv.
  rewrite lookup_insert_eq, lookup_insert_ne, lookup_insert_ne, lookup_empty in Hv by done.
  rewrite Hv by done. fold (valid_until (sys_now t0) REFRESH_TOKEN_TTL_SECONDS).
  change REFRESH_TOKEN_TTL_SECONDS with 86400.
  pose proof (whole_seconds_le (sys_now t0)). by rewrite bool_decide_true by lia.
Qed.

(** The branches in which the [try] block throws. *)
Ltac refused_claims :=
  cbn; do 2 eexists; split; [reflexivity|]; split; [discriminate|lia].

(** The result of the [try] block on any token: verified claims, or the first error. *)
Lemma validate_cases token t :
  exists claims t', validateAndExtract token t = (Ret claims, t') /\
    (valid claims = true -> error claims = "" /\
       exists d, jwt_decode token = Ret d /\
         jwt_verify signingSecret_ "titanx" (sys_now t) d = Ret tt /\
         get_subject d = Ret (c_accountId claims) /\
         get_payload_claim d "tokenType" = Ret (tokenType claims)) /\
    (t <= t' <= S t)%nat.
Proof.
  unfold validateAndExtract, ccatch, extract_claims, cbind, clift.
  pose proof (decode_returns token). destruct (jwt_decode token) as [d|what|]; [|refused_claims|done].
  cbn. pose proof (verify_returns signingSecret_ "titanx" (sys_now t) d).
  destruct (jwt_verify _ _ _ d) as [[]|what|] eqn:Ev; [|refused_claims|done]. cbn.
  pose proof (subject_returns d). destruct (get_subject d) as [sub'|what|] eqn:Es;
    [|refused_claims|done]. cbn.
  pose proof (claim_returns d "tokenType").
  destruct (get_payload_claim d "tokenType") as [ty|what|] eqn:Et; [|refused_claims|done]. cbn.
  assert (forall ps, exists claims t', (Ret (mkClaims sub' ps ty true ""), S t) = (Ret claims, t') /\
    (valid claims = true -> error claims = "" /\ exists d0, Ret d = Ret d0 /\
       jwt_verify signingSecret_ "titanx" (sys_now t) d0 = Ret tt /\
       get_subject d0 = Ret (c_accountId claims) /\
       get_payload_claim d0 "tokenType" = Ret (tokenType claims)) /\ (t <= t' <= S t)%nat) as Hok.
  { intros ps. do 2 eexists. split; [done|]. split; [|lia]. intros _. split; [done|]. by exists d. }
  destruct (has_payload_claim d "permissions"); [|apply Hok].
  pose proof (claim_returns d "permissions").
  destruct (get_payload_claim d "permissions") as [ps|what|]; [apply Hok| |done].
  refused_claims.
Qed.
End Tokens.

(** C26: nothing is accepted unverified.  Whatever text is presented as a token,
    validation returns claims instead of throwing, and the claims are valid only if
    the text decoded to a token that passed the verification of signature, issuer and
    lifetime; the account is then its subject. *)
Theorem only_verified_tokens_accepted `{Env} `{JwtLaws} token t :
  exists claims t', validateAndExtract token t = (Ret claims, t') /\
    (valid claims = true ->
       exists d, jwt_decode token = Ret d /\
         jwt_verify signingSecret_ "titanx" (sys_now t) d = Ret tt /\
         get_subject d = Ret (c_accountId claims)).
Proof.
  destruct (validate_cases token t) as (claims & t' & E & Hv & _). exists claims, t'.
  split; [done|]. intros Hval. destruct (Hv Hval) as (_ & d & ? & ? & ? & _). by exists d.
Qed.

(** * A library that satisfies the laws

    Tokens are the decimal texts of the pairs of secret and payload. *)

#[export] Instance JwtPayload_eq_dec : EqDecision JwtPayload.
Proof. solve_decision. Defined.

#[export] Instance JwtPayload_countable : Countable JwtPayload :=
  inj_countable'
    (fun p => (iss p, sub p, payload_claims p, iat p, exp p))
    (fun x => mkPayload x.1.1.1.1 x.1.1.1.2 x.1.1.2 x.1.2 x.2)
    (fun p => ltac:(by destruct p)).

Definition demo_jwt : JwtLib := {|
  decoded_jwt := string * JwtPayload;
  jwt_sign secret p := Ret (pretty (Z.pos (encode (secret, p))));
  jwt_decode token :=
    match signed_digits token with
    | Some (Z.pos n) =>
        match decode n with Some d => Ret d | None => Throw "invalid token supplied" end
    | _ => Throw "invalid token supplied"
    end;
  jwt_verify secret issuer now d :=
    if bool_decide (secret = d.1 /\ issuer = iss d.2 /\
         whole_seconds (iat d.2) <= now <= whole_seconds (exp d.2))
    then Ret tt else Throw "token verification failed";
  get_subject d := Ret (sub d.2);
  has_payload_claim d k := bool_decide (is_Some (payload_claims d.2 !! k));
  get_payload_claim d k :=
    match payload_claims d.2 !! k with Some v => Ret v | None => Throw "claim not found" end;
  get_expires_at d := Ret (whole_seconds (exp d.2))
|}.

Lemma demo_jwt_laws : @JwtLaws demo_jwt.
Proof.
  split.
  - intros secret p token [= <-]. exists (secret, p). cbn [jwt_decode demo_jwt].
    rewrite signed_digits_pretty, decode_encode. split_and!; try done.
    + intros k v E. cbn. by rewrite E.
    + intros issuer now. cbn. case_bool_decide; naive_solver.
  - intros token. cbn. destruct (signed_digits token) as [[|n|n]|]; [done| |done..].
    by destruct (decode n).
  - intros secret issuer now d. cbn. by case_bool_decide.
  - done.
  - intros d k. cbn. by destruct (_ !! k).
Qed.

(** * Witnesses *)

Section JwtWitnesses.
(** A system clock that advances by one second per reading. *)
Definition second_env : Env := {|
  sys_now n := 1000000000 * Z.of_nat n;
  steady_now n := 1000000000 * Z.of_nat n;
  rand_u64 n := Z.of_nat n;
  freed_string _ s := s
|}.

#[local] Existing Instance second_env.
#[local] Existing Instance demo_jwt.
#[local] Existing Instance demo_jwt_laws.

Lemma demo_sign secret p : exists token, jwt_sign secret p = Ret token.
Proof. eexists. reflexivity. Qed.

Lemma issue_access acct perms t :
  exists token, generateAccessToken acct perms t = (Ret token, S t).
Proof.
  unfold generateAccessToken. cbn [SystemClock_now].
  edestruct demo_sign as [token Es]. exists token. by rewrite Es.
Qed.

Lemma issue_refresh acct session t :
  exists token, generateRefreshToken acct session t = (Ret token, S t).
Proof.
  unfold generateRefreshToken. cbn [SystemClock_now].
  edestruct demo_sign as [token Es]. exists token. by rewrite Es.
Qed.

Lemma access_token_round_trip_witness :
  exists token, generateAccessToken "acc1" ["READ"; "TRADE"] 0%nat = (Ret token, 1%nat) /\
    validateAndExtract token 900%nat =
      (Ret (mkClaims "acc1" ["READ"; "TRADE"] "ACCESS" true ""), 901%nat) /\
    exists what, validateAndExtract token 901%nat = (Ret (mkClaims "" [] "" false what), 902%nat).
Proof.
  destruct (issue_access "acc1" ["READ"; "TRADE"] 0%nat) as [token E]. exists token. split; [exact E|].
  assert (Forall (fun p => p <> "" /\ no_char "," p) ["READ"; "TRADE"]) as Hp.
  { repeat constructor; discriminate. }
  split.
  - apply (access_token_round_trip "acc1" ["READ"; "TRADE"] 0%nat 1%nat token 900%nat E Hp);
      unfold clock_ok; demo_decide.
  - apply (access_token_round_trip "acc1" ["READ"; "TRADE"] 0%nat 1%nat token 901%nat E Hp);
      unfold clock_ok; demo_decide.
Defined.

Lemma refresh_token_accepted_witness :
  exists token, generateRefreshToken "acc1" "session" 0%nat = (Ret token, 1%nat) /\
    validateAndExtract token 80000%nat = (Ret (mkClaims "acc1" [] "REFRESH" true ""), 80001%nat).
Proof.
  destruct (issue_refresh "acc1" "session" 0%nat) as [token E]. exists token.
  split; [exact E|].
  apply (refresh_token_accepted "acc1" "session" 0%nat 1%nat token 80000%nat E);
    unfold clock_ok; demo_decide.
Defined.

Lemma only_verified_tokens_accepted_witness :
  exists claims t', validateAndExtract "forged" 0%nat = (Ret claims, t') /\ valid claims = false.
Proof.
  destruct (only_verified_tokens_accepted "forged" 0%nat) as (claims & t' & E & Hv).
  exists claims, t'. split; [exact E|].
  destruct (valid claims); [|reflexivity]. destruct (Hv eq_refl) as (d & Ed & _). discriminate Ed.
Defined.
End JwtWitnesses.
