(* ===== verification/HttpServer.v ===== *)
(** The HTTP gateway (include/titanx/gateway/HttpServer.hpp,
    src/gateway/HttpServer.cpp): authentication and the seven routes.

    Crow is outside the program: a request is what the handlers read from it, a
    response is what they return, and an exception that leaves a handler is the
    [Throw] outcome (Crow turns it into its own error response).  Log texts are left
    out.  The handlers run on the state of the wired system and the rate limiter; one
    request is processed at a time. *)

From Stdlib Require Import ZArith Lia.
From stdpp Require Import base numbers gmap strings list pretty.
From S2P Require Import Prelude Text Double Model Prices OrderBook Events Json CircuitBreaker RiskEngine RedisPositionCache MatchingEngine Wiring System RateLimiter JwtTokenService.

Local Open Scope Z_scope.
Local Open Scope cpp_scope.

(** * Requests, responses and the state *)

Record request := mkRequest {
  header_Authorization : string;                 (* empty when it is missing *)
  req_body : string;
  url_params : gmap string string
}.

Record response := mkResponse {
  code : Z;
  res_body : string;
  headers : list (string * string)
}.

Record HttpState := mkHttp {
  h_sys : SysState;                              (* engine_, circuitBreaker_ and what they call *)
  h_buckets : gmap string TokenBucket            (* rateLimiter_ *)
}.

Definition http_time (s : HttpState) : nat := w_t (h_sys s).2.

(** The same state at another position of the environment. *)
Definition at_time (t : nat) (s : HttpState) : HttpState :=
  let w := (h_sys s).2 in
  mkHttp ((h_sys s).1, mkWorld (w_risk w) (w_ext w) t) (h_buckets s).

Section Handlers.
Context `{Env} `{RedisServer} `{JsonPrinter} `{JsonParser} `{JwtLib}.

Abbreviation Handler := (cpp HttpState).

(** * Calls of the other components *)

Definition in_system {A} (m : cpp SysState A) : Handler A := fun s =>
  let '(r, sys) := m (h_sys s) in (r, mkHttp sys (h_buckets s)).

(** A call that reads the environment only. *)
Definition in_env {A} (m : cpp nat A) : Handler A := fun s =>
  let '(r, t) := m (http_time s) in (r, at_time t s).

Definition rateLimiter_tryAcquire (accountId endpoint : string) : Handler bool := fun s =>
  let '(granted, buckets, t) := tryAcquire accountId endpoint (h_buckets s) (http_time s) in
  (Ret granted, at_time t (mkHttp (h_sys s) buckets)).

Definition rateLimiter_retryAfterSeconds (accountId endpoint : string) : Handler Z := fun s =>
  let '(seconds, t) := retryAfterSeconds accountId endpoint (h_buckets s) (http_time s) in
  (Ret seconds, at_time t s).

Definition circuitBreaker_haltStatus : Handler (gmap string bool) :=
  in_system (fun s =>
    match haltStatus (w_risk s.2).2 with
    | Ret (halts, cb) =>
        (Ret halts, (s.1, mkWorld ((w_risk s.2).1, cb) (w_ext s.2) (w_t s.2)))
    | Throw what => (Throw what, s)
    | Hang => (Hang, s)
    end).

(** * Responses *)

(** [crow::response(code, json.dump())], and with the content type set. *)
Definition plain (c : Z) (fields : list (string * json)) : Handler response :=
  do! body <- clift (dump (object fields));
  cret (mkResponse c body []).

Definition content_type : string * string := ("Content-Type", "application/json").

Definition typed (c : Z) (j : json) : Handler response :=
  do! body <- clift (dump j);
  cret (mkResponse c body [content_type]).

(** The [catch] blocks: 400 with the text of the exception. *)
Definition invalid_request (what : string) : Handler response :=
  plain 400 [("error", JString "INVALID_REQUEST"); ("message", JString what)].

(** * Authentication *)

Definition authenticate (req : request) : Handler (bool * JwtClaims) :=
  let authHeader := header_Authorization req in
  if bool_decide (authHeader = "") ||
     bool_decide (String.substring 0 7 authHeader <> "Bearer ") then
    cret (false, mkClaims "" [] "" false "Missing Authorization header")
  else
    let token := String.substring 7 (String.length authHeader - 7) authHeader in
    do! claims <- in_env (validateAndExtract token);
    cret (valid claims, claims).

(** * POST /api/v1/auth/login *)

Definition login_body (req : request) : Handler response :=
  do! body <- clift (parse (req_body req));
  do! accountId <- clift (value_string body "accountId");
  do! password <- clift (value_string body "password");
  if bool_decide (accountId = "") then
    plain 400 [("error", JString "INVALID_REQUEST"); ("message", JString "accountId required")]
  else if bool_decide (password <> "titan") then
    plain 401 [("error", JString "UNAUTHORIZED"); ("message", JString "Invalid credentials")]
  else
    do! accessToken <- in_env (generateAccessToken accountId ["READ"; "TRADE"]);
    do! session <- in_env (fun t => let '(id, t) := generate_uuid t in (Ret id, t));
    do! refreshToken <- in_env (generateRefreshToken accountId session);
    typed 200 (object [
      ("accessToken", JString accessToken);
      ("refreshToken", JString refreshToken);
      ("expiresIn", JInt 900)]).

Definition login (req : request) : Handler response :=
  ccatch (login_body req) invalid_request.

(** * POST /api/v1/orders *)

(** A price is a text or a number; without it, or with null, it is 0. *)
Definition read_price (body : document) (key : string) : outcome Z :=
  if contains body key && negb (is_null (at_key body key)) then
    if is_string (at_key body key) then
      let! s := get_string (at_key body key) in price_to_fixed_str s
    else
      let! d := get_double (at_key body key) in Ret (price_to_fixed d)
  else Ret 0.

Definition trade_entry (t : Trade) : json :=
  object [
    ("tradeId", JString (tradeId t));
    ("price", JString (price_to_string (t_price t)));
    ("quantity", JInt (t_quantity t))].

(** What the body of the request says about the order. *)
Record order_request := mkOrderRequest {
  or_symbol : string;
  or_side : OrderSide;
  or_type : OrderType;
  or_price : Z;
  or_stopPrice : Z;
  or_quantity : Z
}.

(** The [try] block up to [Order::create].  The order in which C++ evaluates the
    arguments of [Order::create] is unspecified; it decides only which of two errors
    is reported. *)
Definition read_order (req : request) : outcome order_request :=
  let! body := parse (req_body req) in
  let! symbolStr := value_string body "symbol" in
  let! sideStr := value_string body "side" in
  let! typeStr := value_string body "type" in
  let! quantity := value_int body "quantity" in
  let! price := read_price body "price" in
  let! stopPrice := read_price body "stopPrice" in
  let! side := order_side_from_string (upper sideStr) in
  let! type := order_type_from_string (upper typeStr) in
  Ret (mkOrderRequest (upper symbolStr) side type price stopPrice quantity).

Definition create_order (accountId : string) (r : order_request) : cpp nat Order := fun t =>
  let '(o, t) := Order_create accountId (or_symbol r) (or_side r) (or_type r) (or_price r)
                   (or_stopPrice r) (or_quantity r) t in
  (Ret o, t).

Definition submit_body (claims : JwtClaims) (req : request) : Handler response :=
  do! r <- clift (read_order req);
  do! order <- in_env (create_order (c_accountId claims) r);
  do! trades <- in_system (submit order);
  typed 200 (object [
    ("orderId", JString (orderId order));
    ("status", JString (status_to_string (status order)));
    ("tradesCount", JInt (Z.of_nat (length trades)));
    ("trades", JArray (trade_entry <$> trades))]).

(** An authenticated request: rate limiting, then the [try] block. *)
Definition submit_authenticated (claims : JwtClaims) (req : request) : Handler response :=
  do! granted <- rateLimiter_tryAcquire (c_accountId claims) "ORDER_SUBMIT";
  if negb granted then
    do! retryAfter <- rateLimiter_retryAfterSeconds (c_accountId claims) "ORDER_SUBMIT";
    do! body <- clift (dump (object [
      ("error", JString "RATE_LIMIT_EXCEEDED");
      ("message", JString "Maximum 100 orders/second per account");
      ("retryAfter", JInt retryAfter)]));
    cret (mkResponse 429 body [("Retry-After", pretty retryAfter); content_type])
  else ccatch (submit_body claims req) invalid_request.

Definition submit_order (req : request) : Handler response :=
  do! auth <- authenticate req;
  let '(authed, claims) := auth : bool * JwtClaims in
  if negb authed then
    plain 401 [("error", JString "UNAUTHORIZED"); ("message", JString (error claims))]
  else submit_authenticated claims req.

(** * DELETE /api/v1/orders/:orderId *)

Definition cancel_order (req : request) (id : string) : Handler response :=
  do! auth <- authenticate req;
  let '(authed, claims) := auth : bool * JwtClaims in
  if negb authed then plain 401 [("error", JString "UNAUTHORIZED")]
  else
    match url_params req !! "symbol" with
    | None =>
        plain 400 [("error", JString "MISSING_PARAM");
                   ("message", JString "symbol query parameter required")]
    | Some symbolParam =>
        do! cancelled <- in_system (cancel (upper symbolParam) id);
        if (cancelled : bool) then
          typed 200 (object [("orderId", JString id); ("status", JString "CANCELLED")])
        else
          plain 404 [("error", JString "ORDER_NOT_FOUND"); ("orderId", JString id)]
    end.

(** * GET /api/v1/orderbook/:symbol *)

Definition read_depth (req : request) : Z :=
  match url_params req !! "depth" with
  | None => 10
  | Some depthParam => let depth := atoi depthParam in if depth <=? 0 then 10 else depth
  end.

Definition get_orderbook (req : request) (sym : string) : Handler response :=
  do! snap <- in_system (getSnapshot (upper sym) (read_depth req));
  match snap with
  | Some s =>
      do! j <- clift (OrderBookSnapshot_to_json s);
      typed 200 j
  | None => plain 404 [("error", JString "SYMBOL_NOT_FOUND"); ("symbol", JString sym)]
  end.

(** * GET /api/v1/health *)

(** [cbJson] stays null when no symbol was ever halted. *)
Definition breakers_json (halts : gmap string bool) : json :=
  if bool_decide (halts = ∅) then JNull else JObject (JBool <$> halts).

Definition health (req : request) : Handler response :=
  do! halted <- in_system engine_isHalted;
  do! halted' <- in_system engine_isHalted;
  do! cbStatus <- circuitBreaker_haltStatus;
  typed 200 (object [
    ("status", JString (if (halted : bool) then "HALTED" else "RUNNING"));
    ("halted", JBool halted');
    ("circuitBreakers", breakers_json cbStatus)]).

(** * POST /api/v1/admin/halt and /api/v1/admin/resume *)

Definition admin_halt (req : request) : Handler response :=
  do! auth <- authenticate req;
  let '(authed, claims) := auth : bool * JwtClaims in
  if negb authed then plain 401 [("error", JString "UNAUTHORIZED")]
  else
    do! _ <- in_system halt;
    typed 200 (object [("status", JString "HALTED");
                       ("activatedBy", JString (c_accountId claims))]).

Definition admin_resume (req : request) : Handler response :=
  do! auth <- authenticate req;
  let '(authed, claims) := auth : bool * JwtClaims in
  if negb authed then plain 401 [("error", JString "UNAUTHORIZED")]
  else
    do! _ <- in_system resume;
    typed 200 (object [("status", JString "RUNNING")]).

(** * The routes *)

Inductive api_call :=
| PostLogin (req : request)
| PostOrder (req : request)
| DeleteOrder (req : request) (id : string)
| GetOrderbook (req : request) (sym : string)
| GetHealth (req : request)
| PostHalt (req : request)
| PostResume (req : request).

Definition handle (call : api_call) : Handler response :=
  match call with
  | PostLogin req => login req
  | PostOrder req => submit_order req
  | DeleteOrder req id => cancel_order req id
  | GetOrderbook req sym => get_orderbook req sym
  | GetHealth req => health req
  | PostHalt req => admin_halt req
  | PostResume req => admin_resume req
  end.

(** The server that [main] has wired. *)
Definition http_state (connected : bool) (t : nat) : HttpState :=
  mkHttp (main_state connected t) ∅.
End Handlers.
