(* ===== verification/HttpTheorems.v ===== *)
(** Facts about the HTTP handlers: what each of them does to the wired system, and
    which responses it gives. *)

From Stdlib Require Import ZArith Lia.
From stdpp Require Import base numbers gmap strings list relations pretty.
From S2P Require Import Prelude Text Double Model Prices OrderBook Matching BookSpec BookInvariant Events Json CircuitBreaker RiskEngine RedisPositionCache MatchingEngine EngineInvariant EngineTheorems Wiring System RateLimiter JwtTokenService HttpServer.

Local Open Scope Z_scope.
Local Open Scope cpp_scope.

(** [value(key, 0LL)] yields a [long long]. *)
Class JsonParserLaws `{JsonParser} : Prop :=
  value_int_range : forall d key v, value_int d key = Ret v -> int64 v.

(** The orders that come in over HTTP: as [Order::create] makes them, with the symbol in
    upper case. *)
Definition http_order (o : Order) : Prop :=
  upper (symbol o) = symbol o /\ status o = PENDING /\ createdAt o = updatedAt o.

Section Paths.
Context `{Env} `{RedisServer} `{JsonPrinter} `{JsonParserLaws} `{JwtLib}.

Abbreviation path := (rtc (system_step http_order)).

(** ** Handlers as runs of the system *)

(** The call, also one that throws, takes the system along [system_step]s. *)
Definition follows {A} (m : cpp HttpState A) (s : HttpState) : Prop :=
  post m s (fun _ s' => path (h_sys s) (h_sys s')) (fun s' => path (h_sys s) (h_sys s')) True.

Lemma path_trans s1 s2 s3 : path s1 s2 -> path s2 s3 -> path s1 s3.
Proof. intros H12 H23. by transitivity s2. Qed.

Lemma follows_bind {A B} (m : cpp HttpState A) (k : A -> cpp HttpState B) s :
  follows m s -> (forall a s', follows (k a) s') -> follows (cbind m k) s.
Proof.
  intros Hm Hk. apply post_bind. eapply post_mono; [exact Hm| |done].
  intros a s1 Hs1. eapply post_mono; [exact (Hk a s1)| |]; cbn; intros; (eapply path_trans; [exact Hs1|eassumption]).
Qed.

Lemma follows_catch {A} (m : cpp HttpState A) (h : string -> cpp HttpState A) s :
  follows m s -> (forall e s', follows (h e) s') -> follows (ccatch m h) s.
Proof.
  intros Hm Hh. apply post_catch. eapply post_mono; [exact Hm|done|].
  intros s1 Hs1 e. eapply post_mono; [exact (Hh e s1)| |]; cbn; intros; (eapply path_trans; [exact Hs1|eassumption]).
Qed.

Lemma follows_same {A} (r : outcome A) s : follows (fun s => (r, s)) s.
Proof. unfold follows, post. by destruct r. Qed.

Lemma path_time s t : path (h_sys s) (h_sys (at_time t s)).
Proof. destruct s as [[e w] b]. apply rtc_once, sys_clock. Qed.

Lemma follows_env {A} (m : cpp nat A) s : follows (in_env m) s.
Proof.
  unfold follows, post, in_env. destruct (m (http_time s)) as [[a| |] t]; [| |done]; apply path_time.
Qed.

Lemma follows_acquire acct ep s : follows (rateLimiter_tryAcquire acct ep) s.
Proof.
  unfold follows, post, rateLimiter_tryAcquire.
  destruct (tryAcquire acct ep (h_buckets s) (http_time s)) as [[g bs] t].
  apply (path_time (mkHttp (h_sys s) bs)).
Qed.

Lemma follows_retry acct ep s : follows (rateLimiter_retryAfterSeconds acct ep) s.
Proof.
  unfold follows, post, rateLimiter_retryAfterSeconds.
  destruct (retryAfterSeconds acct ep (h_buckets s) (http_time s)) as [z t]. apply path_time.
Qed.

(** A call on the system whose effect is one step. *)
Lemma follows_system {A} (m : cpp SysState A) s :
  ((m (h_sys s)).1 <> Hang -> path (h_sys s) (m (h_sys s)).2) -> follows (in_system m) s.
Proof.
  intros Hm. unfold follows, post, in_system.
  destruct (m (h_sys s)) as [[a| |] sys]; [apply Hm; done..|done].
Qed.

Lemma create_order_ok acct r t o t' :
  create_order acct r t = (Ret o, t') -> upper (or_symbol r) = or_symbol r ->
  int64 (or_quantity r) -> incoming_ok o /\ http_order o /\ accountId o = acct.
Proof.
  unfold create_order, Order_create. cbn. intros [= <- _] Hu Hq. unfold incoming_ok, http_order. done.
Qed.

Lemma read_order_ok req r :
  read_order req = Ret r -> upper (or_symbol r) = or_symbol r /\ int64 (or_quantity r).
Proof.
  unfold read_order.
  intros (b & _ & (sy & _ & (si & _ & (ty & _ & (q & Eq & (p & _ & (sp & _ &
    (sd & _ & (tp & _ & Er)%obind_Ret)%obind_Ret)%obind_Ret)%obind_Ret)%obind_Ret)%obind_Ret)
    %obind_Ret)%obind_Ret)%obind_Ret.
  injection Er as <-. cbn. split; [apply upper_idemp|]. by eapply value_int_range.
Qed.

Lemma follows_dump (j : json) (k : string -> response) s :
  follows (do! body <- clift (dump j); cret (k body)) s.
Proof. apply follows_bind; [apply follows_same|intros; by apply follows_same]. Qed.

Lemma follows_plain c fields s : follows (plain c fields) s.
Proof. apply follows_dump. Qed.

Lemma follows_typed c j s : follows (typed c j) s.
Proof. apply follows_dump. Qed.

Lemma follows_submit_body claims req s : follows (submit_body claims req) s.
Proof.
  unfold submit_body. apply post_bind, post_lift; [|done|done]. intros r Er.
  destruct (read_order_ok req r Er) as [Hu Hq].
  apply post_bind. unfold post at 1, in_env.
  destruct (create_order (c_accountId claims) r (http_time s)) as [[o| |] t] eqn:Eo;
    [| |done]; [|exact (path_time s t)].
  destruct (create_order_ok _ _ _ _ _ Eo Hu Hq) as (Hin & Ho & _).
  assert (follows (do! trades <- in_system (submit o);
    typed 200 (object [
      ("orderId", JString (orderId o));
      ("status", JString (status_to_string (status o)));
      ("tradesCount", JInt (Z.of_nat (length trades)));
      ("trades", JArray (trade_entry <$> trades))])) (at_time t s)) as Hf.
  { apply follows_bind; [|intros; apply follows_typed]. apply follows_system.
    intros Hh. by apply rtc_once, sys_submit. }
  eapply post_mono; [exact Hf| |]; cbn; intros; (eapply path_trans; [apply (path_time s t)|eassumption]).
Qed.

#[local] Hint Resolve follows_same follows_env follows_acquire follows_retry follows_plain
  follows_typed follows_submit_body : titanx.

(** A handler: its calls one after the other, on every branch. *)
Ltac follow :=
  repeat first
    [ solve [auto with titanx]
    | apply follows_bind; [|intros]
    | apply follows_catch; [|intros]
    | case_match ].

Lemma follows_authenticate req s : follows (authenticate req) s.
Proof. unfold authenticate. cbv zeta. follow; by apply follows_same. Qed.

Lemma getSnapshot_state sym depth (s : SysState) : (getSnapshot sym depth s).2 = s.
Proof.
  unfold getSnapshot, cbind. cbn. destruct (books_ s.1 !! sym), (locks_ s.1 !! sym) as [[]|]; done.
Qed.

Lemma follows_snapshot sym depth s : follows (in_system (getSnapshot sym depth)) s.
Proof. apply follows_system. intros _. by rewrite getSnapshot_state. Qed.

Lemma haltStatus_same cb halts cb' :
  haltStatus cb = Ret (halts, cb') -> halts = symbolHalts_ cb /\ cb' = cb.
Proof.
  unfold haltStatus, cb_lock. destruct cb as [h r w []]; [done|]. cbn. by intros [= <- <-].
Qed.

Lemma follows_haltStatus s : follows circuitBreaker_haltStatus s.
Proof.
  apply follows_system. intros Hh. destruct s as [[e [[re cb] x t]] b]. cbn in *.
  destruct (haltStatus cb) as [[halts cb']| |] eqn:E; [|done..].
  apply haltStatus_same in E as [_ ->]. done.
Qed.

Lemma follows_isHalted s : follows (in_system engine_isHalted) s.
Proof. by apply follows_system. Qed.

Lemma follows_cancel sym id s : follows (in_system (cancel sym id)) s.
Proof. apply follows_system. intros _. apply rtc_once, sys_cancel. Qed.

Lemma follows_halt s : follows (in_system halt) s.
Proof. apply follows_system. intros _. apply rtc_once, sys_halt. Qed.

Lemma follows_resume s : follows (in_system resume) s.
Proof. apply follows_system. intros _. apply rtc_once, sys_resume. Qed.

#[local] Hint Resolve follows_authenticate follows_snapshot follows_haltStatus follows_isHalted
  follows_cancel follows_halt follows_resume : titanx.

(** Whatever the request, the handler takes the system along its steps. *)
Lemma follows_handle call s : follows (handle call) s.
Proof.
  destruct call; cbn [handle];
    [unfold login, login_body, invalid_request|unfold submit_order, submit_authenticated, invalid_request
    |unfold cancel_order|unfold get_orderbook|unfold health|unfold admin_halt
    |unfold admin_resume]; follow; by apply follows_same.
Qed.

(** ** Runs of the server *)

(** One request that is answered or ends in an exception. *)
Inductive http_step : HttpState -> HttpState -> Prop :=
| http_call call s : (handle call s).1 <> Hang -> http_step s (handle call s).2.

Lemma http_step_path s s' : http_step s s' -> path (h_sys s) (h_sys s').
Proof.
  intros [call s0 Hh]. pose proof (follows_handle call s0) as Hf. unfold follows, post in Hf.
  by destruct (handle call s0) as [[r|what|] s1].
Qed.

Lemma http_steps_path s s' : rtc http_step s s' -> path (h_sys s) (h_sys s').
Proof.
  induction 1 as [|s1 s2 s3 Hstep _ IH]; [done|].
  exact (path_trans _ _ _ (http_step_path _ _ Hstep) IH).
Qed.
End Paths.

(** * Authentication *)

#[local] Arguments String.append : simpl nomatch.

Lemma substring_split n s :
  (n <= String.length s)%nat ->
  s = String.substring 0 n s +:+ String.substring n (String.length s - n) s.
Proof.
  revert s. induction n as [|n IH]; intros s Hn.
  - rewrite Nat.sub_0_r. replace (String.substring 0 0 s) with "" by (by destruct s).
    cbn. symmetry. by apply substring_whole.
  - destruct s as [|c s]; [cbn in Hn; lia|]. cbn in *. by rewrite <- IH by lia.
Qed.

Lemma substring_short n s : String.length (String.substring 0 n s) = Nat.min n (String.length s).
Proof.
  revert s. induction n as [|n IH]; intros [|c s]; cbn; try done. by rewrite IH.
Qed.

Lemma at_time_id s : at_time (http_time s) s = s.
Proof. by destruct s as [[e [r x t]] b]. Qed.

Lemma at_time_twice t t' s : at_time t (at_time t' s) = at_time t s.
Proof. by destruct s as [[e [r x t0]] b]. Qed.

(** The route needs a token. *)
Definition protected (call : api_call) : option request :=
  match call with
  | PostOrder req | DeleteOrder req _ | PostHalt req | PostResume req => Some req
  | PostLogin _ | GetOrderbook _ _ | GetHealth _ => None
  end.

Section Authentication.
Context `{Env} `{RedisServer} `{JsonPrinter} `{JsonParser} `{JwtLaws}.

(** A verified bearer token of the account. *)
Definition bearer (req : request) (now : Z) (acct : string) : Prop :=
  exists token d, header_Authorization req = "Bearer " +:+ token /\
    jwt_decode token = Ret d /\ jwt_verify signingSecret_ "titanx" now d = Ret tt /\
    get_subject d = Ret acct.

Lemma authenticate_cases req s :
  exists authed claims t, authenticate req s = (Ret (authed, claims), at_time t s) /\
    (authed = true ->
       bearer req (sys_now (http_time s)) (c_accountId claims)).
Proof.
  unfold authenticate. cbv zeta. destruct (_ || _) eqn:Eh.
  { exists false. eexists _, (http_time s). rewrite at_time_id. by split. }
  apply orb_false_iff in Eh as [_ Hb%bool_decide_eq_false]. apply dec_stable in Hb.
  set (token := String.substring 7 _ _) in *.
  destruct (validate_cases token (http_time s)) as (claims & t & E & Hv & _).
  exists (valid claims), claims, t. split.
  { unfold cbind, in_env. rewrite E. done. }
  intros Hval. destruct (Hv Hval) as (_ & d & Hd & Hver & Hs & _). exists token, d.
  split_and!; try done.
  assert (7 <= String.length (header_Authorization req))%nat as Hlen.
  { apply (f_equal String.length) in Hb. rewrite substring_short in Hb. change (String.length "Bearer ") with 7%nat in Hb. lia. }
  rewrite (substring_split 7 (header_Authorization req) Hlen) at 1. by rewrite Hb.
Qed.

(** A request with a token that validates. *)
Lemma authenticate_bearer token req s claims t :
  header_Authorization req = "Bearer " +:+ token ->
  validateAndExtract token (http_time s) = (Ret claims, t) ->
  authenticate req s = (Ret (valid claims, claims), at_time t s).
Proof.
  intros Hh E. unfold authenticate. cbv zeta. rewrite Hh.
  assert (String.substring 0 7 ("Bearer " +:+ token) = "Bearer ") as ->
    by (cbn; by destruct token).
  assert (String.substring 7 (String.length ("Bearer " +:+ token) - 7) ("Bearer " +:+ token)
          = token) as ->.
  { cbn. rewrite Nat.sub_0_r. by apply substring_whole. }
  rewrite bool_decide_false by done. rewrite bool_decide_false by (intros Hne; by apply Hne).
  cbn [orb]. unfold cbind, in_env. rewrite E. done.
Qed.

Lemma handle_unauthenticated call req claims s s1 :
  protected call = Some req -> authenticate req s = (Ret (false, claims), s1) ->
  exists fields, handle call s = plain 401 fields s1.
Proof.
  intros Hp E. destruct call; cbn in Hp; try discriminate; injection Hp as <-; cbn [handle];
    [unfold submit_order|unfold cancel_order|unfold admin_halt|unfold admin_resume];
    eexists; unfold cbind; rewrite E; reflexivity.
Qed.

Lemma plain_run c fields (s : HttpState) :
  plain c fields s = (let! body := dump (object fields) in Ret (mkResponse c body []), s).
Proof. unfold plain, cbind, clift. by destruct (dump _). Qed.

Lemma typed_run c j (s : HttpState) :
  typed c j s = (let! body := dump j in Ret (mkResponse c body [content_type]), s).
Proof. unfold typed, cbind, clift. by destruct (dump _). Qed.

(** ** Response codes *)

Definition route_codes (call : api_call) : list Z :=
  match call with
  | PostLogin _ => [200; 400; 401]
  | PostOrder _ => [200; 400; 401; 429]
  | DeleteOrder _ _ => [200; 400; 401; 404]
  | GetOrderbook _ _ => [200; 404]
  | GetHealth _ => [200]
  | PostHalt _ | PostResume _ => [200; 401]
  end.

(** A response of the API: one of the codes of its route, a printed JSON value as body,
    and the content type on success. *)
Definition response_ok (codes : list Z) (r : response) : Prop :=
  code r ∈ codes /\ (exists j, dump j = Ret (res_body r)) /\
  (code r = 200 -> content_type ∈ headers r).

Definition responds (codes : list Z) (m : cpp HttpState response) (s : HttpState) : Prop :=
  post m s (fun r _ => response_ok codes r) (fun _ => True) True.

Lemma responds_bind {A} codes (m : cpp HttpState A) k s :
  (forall a s', responds codes (k a) s') -> responds codes (cbind m k) s.
Proof.
  intros Hk. apply post_bind. unfold post at 1.
  destruct (m s) as [[a| |] s']; [apply Hk|done..].
Qed.

Lemma responds_catch codes (m : cpp HttpState response) h s :
  responds codes m s -> (forall e s', responds codes (h e) s') ->
  responds codes (ccatch m h) s.
Proof.
  intros Hm Hh. apply post_catch. eapply post_mono; [exact Hm|done|]. intros s' _ e. apply Hh.
Qed.

Lemma responds_dump codes j (k : string -> response) s :
  (forall body, dump j = Ret body -> response_ok codes (k body)) ->
  responds codes (do! body <- clift (dump j); cret (k body)) s.
Proof.
  intros Hk. apply post_bind, post_lift; [|done|done]. intros body E. by apply Hk.
Qed.

Lemma responds_plain codes c fields s :
  c ∈ codes -> c <> 200 -> responds codes (plain c fields) s.
Proof.
  intros Hc Hne. apply responds_dump. intros body E. split_and!; [done|by eexists|done].
Qed.

Lemma responds_typed codes c j s : c ∈ codes -> responds codes (typed c j) s.
Proof.
  intros Hc. apply responds_dump. intros body E. split_and!; [done|by eexists|].
  intros _. apply list_elem_of_here.
Qed.

Ltac respond :=
  repeat first
    [ apply responds_plain; [set_solver|lia]
    | apply responds_typed; set_solver
    | apply responds_dump; intros
    | apply responds_bind; intros
    | apply responds_catch; [|intros]
    | case_match ].

Lemma responds_handle call s : responds (route_codes call) (handle call) s.
Proof.
  destruct call; cbn [handle route_codes];
    [unfold login, login_body, invalid_request
    |unfold submit_order, submit_authenticated, submit_body, invalid_request
    |unfold cancel_order|unfold get_orderbook|unfold health|unfold admin_halt
    |unfold admin_resume]; respond.
  split_and!; [set_solver|by eexists|done].
Qed.
End Authentication.

(** * Order requests *)

(** The system as it was, at another time. *)
Definition untouched (s s' : HttpState) : Prop := exists t, h_sys s' = h_sys (at_time t s).

Section Orders.
Context `{Env} `{RedisServer} `{JsonPrinter} `{JsonParser} `{JwtLaws}.

Lemma untouched_refl s : untouched s s.
Proof. exists (http_time s). by rewrite at_time_id. Qed.

Lemma untouched_time s t : untouched s (at_time t s).
Proof. by exists t. Qed.

(** What happens to a submission before the body is looked at. *)
Inductive admission (req : request) (s : HttpState) : outcome response * HttpState -> Prop :=
| adm_unauthenticated t fields :
    admission req s (plain 401 fields (at_time t s))
| adm_limited t buckets retry :
    admission req s
      (let! body := dump (object [
         ("error", JString "RATE_LIMIT_EXCEEDED");
         ("message", JString "Maximum 100 orders/second per account");
         ("retryAfter", JInt retry)]) in
       Ret (mkResponse 429 body [("Retry-After", pretty retry); content_type]),
       at_time t (mkHttp (h_sys s) buckets))
| adm_admitted t buckets claims :
    bearer req (sys_now (http_time s)) (c_accountId claims) ->
    admission req s
      (ccatch (submit_body claims req) invalid_request (at_time t (mkHttp (h_sys s) buckets))).

Lemma submit_order_admission req s : admission req s (submit_order req s).
Proof.
  destruct (authenticate_cases req s) as (authed & claims & t & E & Hb).
  unfold submit_order, submit_authenticated. unfold cbind at 1. rewrite E. cbv beta iota.
  destruct authed; cbn [negb]; [|apply adm_unauthenticated].
  unfold cbind at 1, rateLimiter_tryAcquire.
  destruct (tryAcquire (c_accountId claims) "ORDER_SUBMIT" (h_buckets (at_time t s))
              (http_time (at_time t s))) as [[granted bs] t1].
  assert (at_time t1 (mkHttp (h_sys (at_time t s)) bs) = at_time t1 (mkHttp (h_sys s) bs)) as ->
    by (by destruct s as [[e [r x t0]] b]).
  destruct granted; cbn [negb]; [apply adm_admitted; auto|].
  unfold cbind, rateLimiter_retryAfterSeconds.
  destruct (retryAfterSeconds _ _ _ _) as [retry t2]. rewrite at_time_twice.
  unfold clift, cret. pose proof (adm_limited req s t2 bs retry) as Ha.
  destruct (dump _); exact Ha.
Qed.

(** A body that cannot be read ends in the response 400. *)
Lemma unreadable_run claims req s what :
  read_order req = Throw what ->
  ccatch (submit_body claims req) invalid_request s = invalid_request what s.
Proof. intros E. unfold ccatch, submit_body, cbind, clift. by rewrite E. Qed.

(** A submission that gets as far as the engine. *)
Definition order_response (order : Order) (trades : list Trade) : json :=
  object [
    ("orderId", JString (orderId order));
    ("status", JString (status_to_string (status order)));
    ("tradesCount", JInt (Z.of_nat (length trades)));
    ("trades", JArray (trade_entry <$> trades))].

Lemma submit_body_ret claims req s r s' :
  ccatch (submit_body claims req) invalid_request s = (Ret r, s') -> code r = 200 ->
  exists ord o t trades, read_order req = Ret ord /\
    create_order (c_accountId claims) ord (http_time s) = (Ret o, t) /\
    submit o (h_sys (at_time t s)) = (Ret trades, h_sys s') /\
    dump (order_response o trades) = Ret (res_body r).
Proof.
  intros E Hc.
  assert (forall what s1, invalid_request what s1 = (Ret r, s') -> False) as Hbad.
  { intros what s1. unfold invalid_request. rewrite plain_run.
    destruct (dump _) as [body| |]; [|done..]. cbn. intros [= <- _]. discriminate Hc. }
  unfold ccatch, submit_body, cbind, clift in E.
  destruct (read_order req) as [ord|what|]; [|by destruct (Hbad _ _ E)|done].
  unfold in_env in E. destruct (create_order (c_accountId claims) ord (http_time s))
    as [[o| |] t] eqn:Eo; [|by destruct (Hbad _ _ E)|done].
  unfold in_system in E. destruct (submit o (h_sys (at_time t s))) as [[trades|what|] sys] eqn:Es;
    [|by destruct (Hbad _ _ E)|done].
  rewrite typed_run in E. fold (order_response o trades) in E.
  destruct (dump (order_response o trades)) as [body| |] eqn:Ed; [|by destruct (Hbad _ _ E)|done].
  cbn in E. injection E as <- <-. exists ord, o, t, trades. done.
Qed.
End Orders.
