(* ===== verification/HttpClaims.v ===== *)
(** The properties of the HTTP gateway and of its composition with the wired system. *)

From Stdlib Require Import ZArith Lia Ascii.
From stdpp Require Import base numbers gmap strings list relations pretty.
From S2P Require Import Prelude Text Double Model Prices OrderBook Matching BookSpec BookInvariant Fixtures Events Json CircuitBreaker RiskEngine RedisPositionCache MatchingEngine EngineInvariant EngineTheorems Wiring System SystemClaims RateLimiter JwtTokenService HttpServer HttpTheorems.

Local Open Scope Z_scope.
Local Open Scope cpp_scope.

(** * The gateway as a client of the system *)

Section HttpClaims.
Context `{Env} `{RedisServer} `{JsonPrinter} `{JsonParserLaws} `{JwtLaws}.

(** C20: a gateway that answers one request after the other refines the system.  Whatever
    requests it has answered in this way, with whatever tokens and bodies and also when a
    handler ended in an exception, the state of the exchange is one that the wired system
    reaches by submissions of well-formed orders, cancellations, halts, resumptions and
    readings of the clock, one after the other; the orders have the symbol in upper case
    and are new.  (What holds when requests overlap, as the server allows, is
    [overlapping_requests_refine].) *)
Theorem http_refines_system connected t s :
  rtc http_step (http_state connected t) s ->
  reachable_system http_order connected t (h_sys s).
Proof. intros Hrun. exact (http_steps_path _ _ Hrun). Qed.

(** The symbols of the books, along the steps of the system. *)
Lemma step_symbols_upper s s' :
  system_step http_order s s' -> engine_ok True True s ->
  map_Forall (fun sym _ => upper sym = sym) (books_ s.1) ->
  map_Forall (fun sym _ => upper sym = sym) (books_ s'.1).
Proof.
  intros Hstep Hok Hu. destruct Hstep as [o [e w] Hin Ho Hret|sym id [e w]| | | |]; try done.
  - pose proof (submit_post True True o e w Hok Hin ltac:(done)) as Hp. unfold post in Hp.
    assert (exists trades, submit_effect o (books_ e) trades (books_ (submit o (e, w)).2.1)) as [trs Heff].
    { destruct (submit o (e, w)) as [[trades|what|] s']; [| |done]; cbn [snd].
      - exists trades. apply Hp.
      - apply Hp. }
    destruct Heff as [|b t' -> _]; [done|].
    apply map_Forall_insert_2; [by destruct Ho|done].
  - rewrite (cancel_run _ _ _ _ _ _ Hok). cbn.
    destruct (books_ e !! sym) as [b|] eqn:Hb; [|done]. cbn.
    apply map_Forall_insert_2; [|done]. exact (Hu _ _ Hb).
Qed.

Lemma steps_symbols_upper s s' :
  rtc (system_step http_order) s s' -> engine_ok True True s ->
  map_Forall (fun sym _ => upper sym = sym) (books_ s.1) ->
  map_Forall (fun sym _ => upper sym = sym) (books_ s'.1).
Proof.
  induction 1 as [|s1 s2 s3 Hstep _ IH]; [done|]. intros Hok Hu.
  apply IH; [|by eapply step_symbols_upper].
  eapply engine_step_ok; [done|by eapply system_engine_step|done].
Qed.

(** Symbols are case-insensitive.  Every book of a server is filed under an
    upper-case symbol, so that the cancellation and the book query, which convert
    their argument, find it for every spelling. *)
Theorem http_symbols_upper connected t s sym b :
  rtc http_step (http_state connected t) s -> books_ (h_sys s).1 !! sym = Some b ->
  upper sym = sym.
Proof.
  intros Hrun Hb. pose proof (http_steps_path _ _ Hrun) as Hp.
  eapply (steps_symbols_upper _ _ Hp (main_state_ok connected t)); [|exact Hb].
  apply map_Forall_empty.
Qed.
End HttpClaims.

(** * Responses *)

Section Responses.
Context `{Env} `{RedisServer} `{JsonPrinter} `{JsonParser} `{JwtLaws}.

(** C32: every response has the shape of the API: a code of its route, a printed JSON
    value as body, and the JSON content type on success. *)
Theorem responses_well_typed call s r s' :
  handle call s = (Ret r, s') -> response_ok (route_codes call) r.
Proof.
  intros E. pose proof (responds_handle call s) as Hr. unfold responds, post in Hr.
  by rewrite E in Hr.
Qed.

(** C27: protected routes need a token.  A request to submit or cancel an order, to halt
    or to resume is answered with something else than 401 only if its header carries
    a bearer token that passed the verification; otherwise the request changes
    neither the exchange nor the rate limiter. *)
Theorem protected_routes_need_token call req s r s' :
  protected call = Some req -> handle call s = (Ret r, s') ->
  (code r <> 401 -> exists acct, bearer req (sys_now (http_time s)) acct) /\
  ((~ exists acct, bearer req (sys_now (http_time s)) acct) ->
     code r = 401 /\ exists t, s' = at_time t s).
Proof.
  intros Hp E. destruct (authenticate_cases req s) as (authed & claims & t & Ea & Hb).
  destruct authed.
  { split; [by exists (c_accountId claims); auto|]. intros Hno. destruct Hno.
    exists (c_accountId claims). auto. }
  destruct (handle_unauthenticated call req claims s _ Hp Ea) as [fields Hf].
  rewrite E, plain_run in Hf. destruct (dump _) as [body| |]; [|done..]. cbn in Hf.
  injection Hf as -> ->. split; [done|]. intros _. split; [done|]. by exists t.
Qed.

(** The responses to an admitted submission. *)
Lemma submit_codes claims req h r h' :
  ccatch (submit_body claims req) invalid_request h = (Ret r, h') -> code r = 200 \/ code r = 400.
Proof.
  intros E. pose proof (responds_catch [200; 400] (submit_body claims req) invalid_request h) as Hr.
  unfold responds, post in Hr. rewrite E in Hr. destruct Hr as [Hin%list_elem_of_In _]; [| |cbn in Hin; lia].
  - unfold submit_body. do 3 (apply responds_bind; intros). apply responds_typed. set_solver.
  - intros. apply responds_plain; [set_solver|lia].
Qed.

(** C28: refused submissions leave no trace.  An order request that is not authenticated is
    answered with 401, one that exceeds the rate limit of its account with 429, and an
    admitted one whose body is not a valid order (malformed JSON, missing fields of the
    wrong type, unknown side or type, a price that is not a number) with 400 and the text
    of the error; in all three cases the exchange is untouched.  No other request gets
    one of the first two answers. *)
Theorem refused_orders_leave_no_trace req s r s' :
  handle (PostOrder req) s = (Ret r, s') ->
  exists authed claims s1 granted s2,
    authenticate req s = (Ret (authed, claims), s1) /\
    rateLimiter_tryAcquire (c_accountId claims) "ORDER_SUBMIT" s1 = (Ret granted, s2) /\
    (code r = 401 <-> authed = false) /\
    (code r = 429 <-> authed = true /\ granted = false) /\
    (authed = false \/ granted = false -> untouched s s') /\
    (authed = true -> granted = true -> forall what, read_order req = Throw what ->
       code r = 400 /\ untouched s s' /\
       dump (object [("error", JString "INVALID_REQUEST"); ("message", JString what)]) = Ret (res_body r)).
Proof.
  intros E. cbn [handle] in E. destruct (authenticate_cases req s) as (authed & claims & t & Ea & _).
  exists authed, claims, (at_time t s). unfold rateLimiter_tryAcquire.
  destruct (tryAcquire _ _ _ _) as [[granted bs] t1] eqn:Et. exists granted. eexists.
  split; [done|]. split; [done|]. unfold submit_order in E. unfold cbind at 1 in E. rewrite Ea in E.
  destruct authed; cbn [negb] in E.
  2: { rewrite plain_run in E. destruct (dump _) as [body| |]; [|done..]. injection E as <- <-. cbn.
    split_and!; try naive_solver. intros _. apply untouched_time. }
  unfold submit_authenticated in E. unfold cbind at 1, rateLimiter_tryAcquire in E. rewrite Et in E.
  destruct granted; cbn [negb] in E.
  - pose proof (submit_codes _ _ _ _ _ E) as Hcode. split_and!; try naive_solver lia.
    intros _ _ what Ew. rewrite (unreadable_run _ _ _ _ Ew) in E. unfold invalid_request in E.
    rewrite plain_run in E. destruct (dump _) as [body| |]; [|done..]. injection E as <- <-.
    split; [done|]. split; [|done]. by exists t1.
  - unfold cbind, rateLimiter_retryAfterSeconds in E. destruct (retryAfterSeconds _ _ _ _) as [retry t2].
    unfold clift, cret in E. destruct (dump _) as [body| |]; [|done..]. injection E as <- <-. cbn.
    split_and!; try naive_solver. intros _. by exists t2.
Qed.
End Responses.

(** * Orders, sessions and queries *)

Section Endpoints.
Context `{Env} `{RedisServer} `{JsonPrinter} `{JsonParserLaws} `{JwtLaws}.

(** A successful order request is exactly one submission.  The response 200 means
    that one new order of the account named by the verified token was submitted, in
    the state in which the request found the exchange; the response carries its
    identifier and lists exactly the trades that the engine returned.  The status in
    the response is always PENDING, also when the order was filled or rejected. *)
Theorem order_response_exact req s r s' :
  handle (PostOrder req) s = (Ret r, s') -> code r = 200 ->
  exists o t trades, bearer req (sys_now (http_time s)) (accountId o) /\
    incoming_ok o /\ http_order o /\
    submit o (h_sys (at_time t s)) = (Ret trades, h_sys s') /\
    exists j, dump j = Ret (res_body r) /\
      field "orderId" j = Some (JString (orderId o)) /\
      field "status" j = Some (JString "PENDING") /\
      field "tradesCount" j = Some (JInt (Z.of_nat (length trades))) /\
      field "trades" j = Some (JArray (trade_entry <$> trades)).
Proof.
  intros E Hc. pose proof (submit_order_admission req s) as Ha. cbn [handle] in E.
  destruct Ha as [t fields|t buckets retry|t buckets claims Hb].
  - rewrite plain_run in E. destruct (dump _) as [body| |]; [|done..].
    injection E as <- _. discriminate Hc.
  - destruct (dump _) as [body| |]; [|done..]. injection E as <- _. discriminate Hc.
  - destruct (submit_body_ret _ _ _ _ _ E Hc) as (ord & o & t' & trades & Er & Eo & Es & Ed).
    destruct (read_order_ok req ord Er) as [Hu Hq].
    destruct (create_order_ok _ _ _ _ _ Eo Hu Hq) as (Hin & Ho & Hacct).
    exists o, t', trades. rewrite Hacct. split_and!; [done|done|done| |].
    + assert (h_sys (at_time t' s) =
              h_sys (at_time t' (at_time t (mkHttp (h_sys s) buckets)))) as ->
        by (by destruct s as [[e [rk x t0]] b]). exact Es.
    + exists (order_response o trades). split; [done|]. destruct Ho as (_ & Hst & _).
      unfold order_response. rewrite Hst. done.
Qed.

(** Logging in opens a session.  With an account and the password, the login route
    answers 200 with an access token, and every request that presents it within the
    next fifteen minutes is authenticated as that account with the permissions READ
    and TRADE; with any other password no token is issued. *)
Theorem login_opens_session req s body acct pw r s' :
  parse (req_body req) = Ret body -> value_string body "accountId" = Ret acct ->
  value_string body "password" = Ret pw -> clock_ok (sys_now (http_time s)) ->
  handle (PostLogin req) s = (Ret r, s') ->
  (code r = 200 -> acct <> "" /\ pw = "titan" /\
     exists j token, dump j = Ret (res_body r) /\
       field "accessToken" j = Some (JString token) /\
       forall req' s1, header_Authorization req' = "Bearer " +:+ token ->
         sys_now (http_time s) <= sys_now (http_time s1)
           <= valid_until (sys_now (http_time s)) 900 ->
         authenticate req' s1 =
           (Ret (true, mkClaims acct ["READ"; "TRADE"] "ACCESS" true ""),
            at_time (S (http_time s1)) s1)) /\
  (pw <> "titan" -> code r = 400 \/ code r = 401).
Proof.
  intros Hparse Hacct Hpw Hclock E. cbn [handle] in E.
  unfold login, login_body, ccatch in E. unfold cbind at 1, clift at 1 in E. rewrite Hparse in E.
  unfold cbind at 1, clift at 1 in E. rewrite Hacct in E.
  unfold cbind at 1, clift at 1 in E. rewrite Hpw in E.
  assert (forall what s1, invalid_request what s1 = (Ret r, s') -> code r = 400) as Hbad.
  { intros what s1. unfold invalid_request. rewrite plain_run.
    destruct (dump _) as [b| |]; [|done..]. cbn. by intros [= <- _]. }
  case_bool_decide as Ha.
  { rewrite plain_run in E. destruct (dump _) as [b|what|]; [| |done].
    - cbn in E. injection E as <- _. split; [discriminate|auto].
    - cbn in E. pose proof (Hbad _ _ E) as ->. split; [discriminate|auto]. }
  case_bool_decide as Hp.
  { rewrite plain_run in E. destruct (dump _) as [b|what|]; [| |done].
    - cbn in E. injection E as <- _. split; [discriminate|auto].
    - cbn in E. pose proof (Hbad _ _ E) as ->. split; [discriminate|auto]. }
  subst pw. split; [|done]. intros Hc.
  assert (forall what s1, invalid_request what s1 = (Ret r, s') -> False) as Hbad'.
  { intros what s1 Eb. by rewrite (Hbad _ _ Eb) in Hc. }
  unfold cbind at 1, in_env at 1 in E.
  destruct (generateAccessToken acct ["READ"; "TRADE"] (http_time s)) as [[token| |] t1] eqn:Et;
    [|by destruct (Hbad' _ _ E)|done].
  unfold cbind at 1, in_env at 1 in E. cbn [generate_uuid] in E.
  unfold cbind at 1, in_env at 1 in E.
  match type of E with context [generateRefreshToken ?a ?b ?c] =>
    destruct (generateRefreshToken a b c) as [[token'| |] t2]; [|by destruct (Hbad' _ _ E)|done] end.
  rewrite typed_run in E.
  match type of E with context [dump ?j] =>
    destruct (dump j) as [b| |] eqn:Ed; [|by destruct (Hbad' _ _ E)|done];
    split_and!; [done|done|]; exists j, token end.
  cbn in E. injection E as <- _. split_and!; [exact Ed|done|]. intros req' s1 Hh Ht.
  destruct (access_token_validates acct ["READ"; "TRADE"] _ _ token (http_time s1) Et) as [Hv _];
    [repeat constructor; discriminate|done|apply Ht|].
  exact (authenticate_bearer token req' s1 _ _ Hh (Hv (proj2 Ht))).
Qed.

(** An access token of any account, with any permissions, authenticates. *)
Lemma issued_token_authenticates acct perms t0 t0' token req s :
  generateAccessToken acct perms t0 = (Ret token, t0') ->
  Forall (fun p => p <> "" /\ no_char "," p) perms ->
  clock_ok (sys_now t0) ->
  sys_now t0 <= sys_now (http_time s) <= valid_until (sys_now t0) 900 ->
  header_Authorization req = "Bearer " +:+ token ->
  authenticate req s = (Ret (true, mkClaims acct perms "ACCESS" true ""),
                        at_time (S (http_time s)) s).
Proof.
  intros E Hp Hc Ht Hh.
  destruct (access_token_validates acct perms _ _ token (http_time s) E Hp Hc (proj1 Ht)) as [Hv _].
  exact (authenticate_bearer token req s _ _ Hh (Hv (proj2 Ht))).
Qed.

(** The kill switch needs no permission.  An access token of any account, whatever
    permissions it was issued with (the login route never grants ADMIN), stops the
    exchange: the request to halt sets the flag and is answered with 200. *)
Theorem halt_needs_no_permission acct perms t0 t0' token req s :
  generateAccessToken acct perms t0 = (Ret token, t0') ->
  Forall (fun p => p <> "" /\ no_char "," p) perms ->
  clock_ok (sys_now t0) ->
  sys_now t0 <= sys_now (http_time s) <= valid_until (sys_now t0) 900 ->
  header_Authorization req = "Bearer " +:+ token ->
  halted_ (h_sys (handle (PostHalt req) s).2).1 = true /\
  forall r, (handle (PostHalt req) s).1 = Ret r -> code r = 200.
Proof.
  intros E Hp Hc Ht Hh.
  pose proof (issued_token_authenticates _ _ _ _ _ _ s E Hp Hc Ht Hh) as Ha.
  set (s1 := at_time _ s) in Ha.
  assert (handle (PostHalt req) s =
    typed 200 (object [("status", JString "HALTED"); ("activatedBy", JString acct)])
      (mkHttp (halt (h_sys s1)).2 (h_buckets s1))) as ->.
  { cbn [handle]. unfold admin_halt. unfold cbind at 1. by rewrite Ha. }
  rewrite typed_run. split; [done|]. intros r. destruct (dump _); [|done..]. cbn. by intros [= <-].
Qed.

(** Cancellation needs no ownership.  On a running server, a token of any account
    cancels any resting order, whoever placed it: the request is answered with 200 and
    the order leaves its book. *)
Theorem cancel_needs_no_ownership connected t acct perms t0 t0' token req s sym id b :
  rtc http_step (http_state connected t) s ->
  generateAccessToken acct perms t0 = (Ret token, t0') ->
  Forall (fun p => p <> "" /\ no_char "," p) perms ->
  clock_ok (sys_now t0) ->
  sys_now t0 <= sys_now (http_time s) <= valid_until (sys_now t0) 900 ->
  header_Authorization req = "Bearer " +:+ token ->
  url_params req !! "symbol" = Some sym -> books_ (h_sys s).1 !! upper sym = Some b ->
  (removeFromBook id b).1 = true ->
  books_ (h_sys (handle (DeleteOrder req id) s).2).1 !! upper sym = Some (removeFromBook id b).2 /\
  forall r, (handle (DeleteOrder req id) s).1 = Ret r -> code r = 200.
Proof.
  intros Hrun E Hp Hc Ht Hh Hsym Hb Hrem.
  pose proof (issued_token_authenticates _ _ _ _ _ _ s E Hp Hc Ht Hh) as Ha.
  pose proof (system_steps_ok _ _ _ (http_steps_path _ _ Hrun) (main_state_ok connected t)) as Hok.
  destruct s as [[e w] bs]. cbn [h_sys fst] in Hb, Hok.
  set (w1 := mkWorld (w_risk w) (w_ext w) (S (w_t w))).
  change (at_time _ _) with (mkHttp (e, w1) bs) in Ha.
  assert (engine_ok True True (e, w1)) as Hok1 by (by apply (engine_ok_kept _ _ (e, w))).
  pose proof (cancel_run _ _ (upper sym) id e w1 Hok1) as Hcan. rewrite Hb, Hrem in Hcan.
  set (e2 := set_books _ e) in Hcan.
  assert (handle (DeleteOrder req id) (mkHttp (e, w) bs) =
    typed 200 (object [("orderId", JString id); ("status", JString "CANCELLED")])
      (mkHttp (e2, w1) bs)) as ->.
  { cbn [handle]. unfold cancel_order. unfold cbind at 1. rewrite Ha. cbn [negb]. rewrite Hsym.
    unfold cbind at 1, in_system. cbn [h_sys]. by rewrite Hcan. }
  rewrite typed_run. cbn [snd fst h_sys]. split; [cbn; by rewrite lookup_insert_eq|].
  intros r. destruct (dump _); [|done..]. cbn. by intros [= <-].
Qed.

(** The book query.  On a running server the query of a symbol answers 404 when no
    order for it was ever accepted; otherwise it prints the snapshot with the requested
    depth (10 when the parameter is missing or not positive), except that it ends in an
    exception as long as the symbol has not traded. *)
Theorem orderbook_query connected t req s sym :
  rtc http_step (http_state connected t) s ->
  handle (GetOrderbook req sym) s =
  match books_ (h_sys s).1 !! upper sym with
  | None =>
      (let! body := dump (object [("error", JString "SYMBOL_NOT_FOUND"); ("symbol", JString sym)]) in
       Ret (mkResponse 404 body []), s)
  | Some b =>
      match lastTradePrice_ b with
      | None => (Throw "basic_string: construction from null is not valid", s)
      | Some p =>
          let snap := snapshot (read_depth req) b in
          (let! body := dump (object [
             ("symbol", JString (symbol_ b));
             ("bids", JArray (PriceLevel_to_json <$> snap_bids snap));
             ("asks", JArray (PriceLevel_to_json <$> snap_asks snap));
             ("lastTradePrice", JString (price_to_string p))]) in
           Ret (mkResponse 200 body [content_type]), s)
      end
  end.
Proof.
  intros Hrun.
  pose proof (system_steps_ok _ _ _ (http_steps_path _ _ Hrun) (main_state_ok connected t)) as Hok.
  cbn [handle]. unfold get_orderbook. unfold cbind at 1, in_system.
  destruct s as [[e w] bs]. cbn [h_sys fst h_buckets] in *.
  unfold getSnapshot, cbind, engine_get. cbn [fst snd].
  destruct (books_ e !! upper sym) as [b|] eqn:Hb; [|apply plain_run].
  destruct (proj1 (eo_pairs _ _ _ Hok (upper sym))) as [h Hl]; [exact (mk_is_Some _ _ Hb)|]. cbn in Hl.
  pose proof (eo_locks _ _ _ Hok _ _ Hl) as ->. rewrite Hl. cbn [cret].
  unfold clift, OrderBookSnapshot_to_json, snapshot, price_or_null. cbn [snap_lastTradePrice].
  destruct (lastTradePrice_ b) as [p|]; [|done]. cbn [obind]. apply typed_run.
Qed.
End Endpoints.

(** * Concrete requests *)

(** A parser that knows three texts; documents are JSON values. *)
Definition demo_documents : list (string * json) := [
  ("sell", object [("symbol", JString "aapl"); ("side", JString "Sell"); ("type", JString "limit");
                   ("quantity", JInt 10); ("price", JString "150.25")]);
  ("bad side", object [("symbol", JString "aapl"); ("side", JString "short");
                       ("type", JString "limit"); ("quantity", JInt 10)]);
  ("login", object [("accountId", JString "acc1"); ("password", JString "titan")])].

Definition demo_parser : JsonParser := {|
  document := json;
  parse text :=
    match (list_to_map demo_documents : gmap string json) !! text with
    | Some d => Ret d
    | None => Throw "parse error"
    end;
  value_string d key :=
    match field key d with
    | Some (JString s) => Ret s
    | None => Ret ""
    | Some _ => Throw "type must be string"
    end;
  value_int d key :=
    match field key d with
    | Some (JInt z) => if bool_decide (int64 z) then Ret z else Throw "out of range"
    | None => Ret 0
    | Some _ => Throw "type must be number"
    end;
  contains d key := bool_decide (is_Some (field key d));
  at_key d key := default JNull (field key d);
  is_null d := match d with JNull => true | _ => false end;
  is_string d := match d with JString _ => true | _ => false end;
  get_string d := match d with JString s => Ret s | _ => Throw "type must be string" end;
  get_double d := match d with JInt z => Ret (double_of_int z) | _ => Throw "type must be number" end
|}.

Lemma demo_parser_laws : @JsonParserLaws demo_parser.
Proof.
  intros d key v. cbn. destruct (field key d) as [[]|]; try done; [|by intros [= <-]].
  case_bool_decide; [|done]. by intros [= <-].
Qed.

Section HttpWitnesses.
#[local] Existing Instance second_env.
#[local] Existing Instance counter_server.
#[local] Existing Instance demo_json.
#[local] Existing Instance demo_parser.
#[local] Existing Instance demo_parser_laws.
#[local] Existing Instance demo_jwt.
#[local] Existing Instance demo_jwt_laws.

Definition start : HttpState := http_state true 0.

(** A request of an account with a token that was issued at the start. *)
Definition trader (acct : string) : JwtClaims := mkClaims acct ["READ"; "TRADE"] "ACCESS" true "".

Lemma trade_permissions : Forall (fun p => p <> "" /\ no_char "," p) ["READ"; "TRADE"].
Proof. repeat constructor; discriminate. Qed.

Lemma trader_authenticates acct token params text s :
  generateAccessToken acct ["READ"; "TRADE"] 0%nat = (Ret token, 1%nat) ->
  (http_time s <= 900)%nat ->
  authenticate (mkRequest ("Bearer " +:+ token) text params) s =
    (Ret (true, trader acct), at_time (S (http_time s)) s).
Proof.
  intros E Ht. apply (issued_token_authenticates acct ["READ"; "TRADE"] 0 1 token); [done| | | |done].
  - exact trade_permissions.
  - unfold clock_ok. cbn. lia.
  - cbn. change (valid_until _ 900) with 900000000000. lia.
Qed.

(** The order request "sell" of the account, from the start. *)
Definition sell_request (token : string) : request := mkRequest ("Bearer " +:+ token) "sell" ∅.

Definition placed : outcome response * HttpState :=
  submit_authenticated (trader "acc1") (mkRequest "" "sell" ∅) (at_time 1 start).

Lemma place_order token :
  generateAccessToken "acc1" ["READ"; "TRADE"] 0%nat = (Ret token, 1%nat) ->
  handle (PostOrder (sell_request token)) start = placed.
Proof.
  intros E. cbn [handle]. unfold submit_order, sell_request. unfold cbind at 1.
  rewrite (trader_authenticates "acc1" token ∅ "sell" start E)
    by (change (http_time start) with 0%nat; lia). reflexivity.
Qed.

Lemma placed_response : exists r, placed.1 = Ret r /\ code r = 200.
Proof.
  assert (option_map code (returned placed) = Some 200) as Hr by (vm_compute; reflexivity).
  destruct (returned_run code placed 200 Hr) as (r & s' & E & Hc). exists r.
  rewrite E. split; [reflexivity|exact Hc].
Qed.

Lemma placed_run : rtc http_step start placed.2.
Proof.
  destruct (issue_access "acc1" ["READ"; "TRADE"] 0%nat) as [token E].
  rewrite <- (place_order token E). apply rtc_once, http_call. rewrite (place_order token E).
  destruct placed_response as (r & -> & _). discriminate.
Qed.

Lemma placed_book : exists b, books_ (h_sys placed.2).1 !! "AAPL" = Some b.
Proof.
  assert (is_Some (books_ (h_sys placed.2).1 !! "AAPL")) as [b Hb] by demo_decide. eauto.
Qed.

Lemma http_refines_system_witness : reachable_system http_order true 0 (h_sys placed.2).
Proof. apply (http_refines_system true 0 placed.2). exact placed_run. Defined.

Lemma http_symbols_upper_witness :
  exists b, books_ (h_sys placed.2).1 !! "AAPL" = Some b /\ upper "AAPL" = "AAPL".
Proof.
  destruct placed_book as [b Hb]. exists b. split; [exact Hb|].
  apply (http_symbols_upper true 0 placed.2 "AAPL" b); [exact placed_run|exact Hb].
Defined.

Lemma responses_well_typed_witness :
  exists r s', handle (GetHealth (mkRequest "" "" ∅)) start = (Ret r, s') /\
    response_ok [200] r.
Proof.
  do 2 eexists. split; [reflexivity|].
  apply (responses_well_typed (GetHealth (mkRequest "" "" ∅)) start _ start). reflexivity.
Defined.

Lemma protected_routes_need_token_witness :
  exists r s', handle (PostHalt (mkRequest "" "" ∅)) start = (Ret r, s') /\ code r = 401.
Proof.
  do 2 eexists. split; [reflexivity|].
  apply (protected_routes_need_token (PostHalt (mkRequest "" "" ∅)) (mkRequest "" "" ∅) start
           _ start); [reflexivity|reflexivity|].
  intros (acct & token & d & Hh & _). discriminate Hh.
Defined.

(** A request with the wrong side. *)
Lemma bad_side_run token :
  generateAccessToken "acc1" ["READ"; "TRADE"] 0%nat = (Ret token, 1%nat) ->
  exists r s', handle (PostOrder (mkRequest ("Bearer " +:+ token) "bad side" ∅)) start =
    (Ret r, s') /\ code r = 400.
Proof.
  intros E. cbn [handle]. unfold submit_order. unfold cbind at 1.
  rewrite (trader_authenticates "acc1" token ∅ "bad side" start E)
    by (change (http_time start) with 0%nat; lia).
  do 2 eexists. split; reflexivity.
Qed.

Lemma refused_orders_leave_no_trace_witness :
  exists token r s',
    handle (PostOrder (mkRequest ("Bearer " +:+ token) "bad side" ∅)) start = (Ret r, s') /\
    code r = 400 /\ untouched start s'.
Proof.
  destruct (issue_access "acc1" ["READ"; "TRADE"] 0%nat) as [token E].
  destruct (bad_side_run token E) as (r & s' & Er & Hcode). exists token, r, s'. split; [exact Er|].
  destruct (refused_orders_leave_no_trace _ start r s' Er) as
    (authed & claims & s1 & granted & s2 & _ & _ & H401 & H429 & _ & Hbad).
  destruct authed; [|rewrite (proj2 H401 eq_refl) in Hcode; discriminate Hcode].
  destruct granted; [|rewrite (proj2 H429 (conj eq_refl eq_refl)) in Hcode; discriminate Hcode].
  destruct (Hbad eq_refl eq_refl "Invalid OrderSide: SHORT" eq_refl) as (_ & Hu & _). split; [exact Hcode|exact Hu].
Defined.

Lemma order_response_exact_witness :
  exists token o, bearer (sell_request token) 0 (accountId o) /\ incoming_ok o /\ http_order o.
Proof.
  destruct (issue_access "acc1" ["READ"; "TRADE"] 0%nat) as [token E].
  destruct placed_response as (r & Er & Hc).
  destruct (order_response_exact (sell_request token) start r placed.2)
    as (o & t & trades & Hb & Hin & Ho & _).
  - rewrite (place_order token E), <- Er. apply surjective_pairing.
  - exact Hc.
  - exists token, o. split; [exact Hb|]. split; [exact Hin|exact Ho].
Defined.

Definition login_request : request := mkRequest "" "login" ∅.
Definition login_document : @document demo_parser :=
  object [("accountId", JString "acc1"); ("password", JString "titan")].

Lemma login_run : exists r s', handle (PostLogin login_request) start = (Ret r, s') /\ code r = 200.
Proof.
  destruct (issue_access "acc1" ["READ"; "TRADE"] 0%nat) as [token E].
  destruct (issue_refresh "acc1" (generate_uuid 1).1 3%nat) as [token' E'].
  exists (mkResponse 200 "{}" [content_type]), (at_time 4 start). split; [|reflexivity].
  cbn [handle]. unfold login, login_body, ccatch, cbind, clift, in_env.
  change (parse (req_body login_request)) with (Ret login_document). cbv beta iota.
  change (value_string login_document "accountId") with (Ret "acc1"). cbv beta iota.
  change (value_string login_document "password") with (Ret "titan"). cbv beta iota.
  rewrite bool_decide_false by discriminate.
  rewrite bool_decide_false by (intros Hne; apply Hne; reflexivity).
  change (http_time start) with 0%nat. rewrite E. cbv beta iota.
  change (http_time (at_time 1 start)) with 1%nat.
  change (generate_uuid 1) with ((generate_uuid 1).1, 3%nat). cbv beta iota.
  change (http_time (at_time 3 (at_time 1 start))) with 3%nat. rewrite E'. cbv beta iota.
  rewrite typed_run. reflexivity.
Qed.

Lemma login_opens_session_witness :
  exists r s', handle (PostLogin login_request) start = (Ret r, s') /\
    exists j token, dump j = Ret (res_body r) /\ field "accessToken" j = Some (JString token).
Proof.
  destruct login_run as (r & s' & E & Hc). exists r, s'. split; [exact E|].
  destruct (login_opens_session login_request start login_document "acc1" "titan" r s')
    as [Hok _]; [reflexivity..|unfold clock_ok; demo_decide|exact E|].
  destruct (Hok Hc) as (_ & _ & j & token & Hd & Hf & _). exists j, token.
  split; [exact Hd|exact Hf].
Defined.

Lemma halt_needs_no_permission_witness :
  exists token, halted_ (h_sys (handle (PostHalt (sell_request token)) start).2).1 = true.
Proof.
  destruct (issue_access "nobody" [] 0%nat) as [token E]. exists token.
  apply (halt_needs_no_permission "nobody" [] 0%nat 1%nat token (sell_request token) start E);
    [constructor|unfold clock_ok; demo_decide|demo_decide|reflexivity].
Defined.

(** The resting order of acc1 is cancelled by acc2. *)
Definition placed_id : string :=
  match books_ (h_sys placed.2).1 !! "AAPL" with
  | Some b => from_option orderId "" (head (book_orders b))
  | None => ""
  end.

Definition aapl_param : gmap string string := <["symbol" := "aapl"]> ∅.

Lemma cancel_needs_no_ownership_witness :
  exists token, forall r,
    (handle (DeleteOrder (mkRequest ("Bearer " +:+ token) "" aapl_param) placed_id) placed.2).1
      = Ret r -> code r = 200.
Proof.
  destruct (issue_access "acc2" ["READ"; "TRADE"] 0%nat) as [token E]. exists token.
  destruct placed_book as [b Hb].
  assert (match books_ (h_sys placed.2).1 !! "AAPL" with
          | Some b => (removeFromBook placed_id b).1 | None => false end = true) as Hrem
    by (vm_compute; reflexivity). rewrite Hb in Hrem.
  apply (cancel_needs_no_ownership true 0%nat "acc2" ["READ"; "TRADE"] 0%nat 1%nat token
    (mkRequest ("Bearer " +:+ token) "" aapl_param) placed.2 "aapl" placed_id b);
    [exact placed_run|exact E|exact trade_permissions|unfold clock_ok; demo_decide|demo_decide
    |reflexivity|reflexivity|exact Hb|exact Hrem].
Defined.

Lemma orderbook_query_witness :
  (handle (GetOrderbook (mkRequest "" "" ∅) "goog") placed.2).1 =
    Ret (mkResponse 404 "{}" []) /\
  (handle (GetOrderbook (mkRequest "" "" ∅) "aapl") placed.2).1 =
    Throw "basic_string: construction from null is not valid".
Proof.
  split; rewrite (orderbook_query true 0%nat _ placed.2 _ placed_run); vm_compute; reflexivity.
Defined.
End HttpWitnesses.
