(* ===== verification/HttpRate.v ===== *)
(** The rate limit as the clients of the gateway see it: the environment only moves
    forward through every handler, and the order requests of an account that get
    through are bounded by the token bucket. *)

From Stdlib Require Import ZArith Lia.
From stdpp Require Import base numbers gmap strings list relations pretty.
From S2P Require Import Prelude Text Double Model Prices OrderBook Events Json CircuitBreaker RiskEngine RedisPositionCache MatchingEngine EngineInvariant EngineTheorems Wiring System RateLimiter JwtTokenService SystemClaims HttpServer HttpTheorems HttpClaims.

Local Open Scope Z_scope.
Local Open Scope cpp_scope.

(** * Time moves forward *)

Section MatchTime.
Context `{Env}.

Lemma level_body_time a st : (ms_t st <= ms_t (level_body a st))%nat.
Proof.
  unfold level_body. destruct (ms_oppositeSide st) as [|[p [|x q]] more]; [done|done|].
  cbn. destruct (0 <? _); cbn; lia.
Qed.

Lemma level_loop_time a st : (ms_t st <= ms_t (level_loop a st))%nat.
Proof.
  apply (while_inv level_guard (level_body a) (fun st' => (ms_t st <= ms_t st')%nat)); [|done].
  intros st' Hle _. pose proof (level_body_time a st'). lia.
Qed.

Lemma matchSide_time crosses a st : (ms_t st <= ms_t (matchSide crosses a st))%nat.
Proof.
  apply (while_inv (side_guard crosses) (side_body a) (fun st' => (ms_t st <= ms_t st')%nat));
    [|done].
  intros st' Hle _. pose proof (level_loop_time a st'). unfold side_body, drop_empty_front.
  destruct (ms_oppositeSide (level_loop a st')) as [|[p [|x q]] more]; cbn; lia.
Qed.

Lemma match_time o b t : (t <= (match_ o b t).2)%nat.
Proof.
  pose proof (matchSide_time (fun _ => true) o (enter_side o b t)) as Hm.
  pose proof (matchSide_time (limit_crosses o) o (enter_side o b t)) as Hl. cbn in Hm, Hl.
  assert (t <= (matchLimit o b t).2)%nat as Hlim.
  { unfold matchLimit. destruct (0 <? _); cbn; lia. }
  unfold match_. destruct (type o); [exact Hm|exact Hlim| | |done].
  - unfold matchIoc. destruct (matchLimit o b t) as [[trs b1] t1].
    destruct (removeFromBook _ _). exact Hlim.
  - unfold matchFok. destruct (_ <? _); [done|exact Hm].
Qed.
End MatchTime.

Section SystemTime.
Context `{Env} `{RedisServer} `{JsonPrinter}.

(** The consumers of [main] stay installed and the environment moves forward. *)
Definition later (s s' : SysState) : Prop := wired_sys s' /\ (w_t s.2 <= w_t s'.2)%nat.

Definition forward {A} (m : cpp SysState A) : Prop :=
  forall s, wired_sys s -> post m s (fun _ s' => later s s') (later s) True.

Lemma later_trans s1 s2 s3 : later s1 s2 -> later s2 s3 -> later s1 s3.
Proof. intros [_ ?] [? ?]. split; [done|lia]. Qed.

Lemma forward_bind {A B} (m : cpp SysState A) (k : A -> cpp SysState B) :
  forward m -> (forall a, forward (k a)) -> forward (cbind m k).
Proof.
  intros Hm Hk s Hw. apply post_bind. eapply post_mono; [by apply Hm| |done].
  intros a s1 Hs1. eapply post_mono; [apply Hk, Hs1| |]; cbn; intros;
    (eapply later_trans; [exact Hs1|eassumption]).
Qed.

Lemma forward_same {A} (r : outcome A) : forward (fun s => (r, s)).
Proof. intros s Hw. unfold post. by destruct r. Qed.

Lemma forward_get {A} (f : MatchingEngine System -> A) : forward (engine_get f).
Proof. intros s Hw. by unfold post, engine_get. Qed.

Lemma forward_upd (f : MatchingEngine System -> MatchingEngine System) :
  (forall e, eventConsumer_ (f e) = eventConsumer_ e /\ fillConsumer_ (f e) = fillConsumer_ e) ->
  forward (engine_upd f).
Proof.
  intros Hf s [He Hfc]. destruct (Hf s.1) as [E1 E2]. unfold post, engine_upd.
  split; [|done]. split; cbn; congruence.
Qed.

Lemma forward_read {A} (f : nat -> A * nat) :
  (forall t, (t <= (f t).2)%nat) -> forward (read_env f).
Proof.
  intros Hf s Hw. rewrite (surjective_pairing s). unfold post. rewrite read_env_run.
  split; [done|]. apply Hf.
Qed.

Lemma forward_match sym o : forward (book_match sym o).
Proof.
  intros s Hw. unfold post, book_match.
  set (b := default _ _). pose proof (match_time o b (w_t s.2)) as Ht.
  destruct (match_ o b (w_t s.2)) as [[trs b'] t]. by split.
Qed.

Lemma forward_emit ev : forward (emit ev).
Proof.
  intros s [He Hf]. unfold post, emit, cbind, engine_get, ctry, in_world. rewrite He. by cbn.
Qed.

Lemma updatePrice_time sym p (w : System) : (w_t w <= w_t (sys_updateLastTradePrice sym p w).2)%nat.
Proof.
  unfold sys_updateLastTradePrice.
  destruct (updateLastTradePrice _ _ _ _ _) as [[[re' cb'] t']| |] eqn:E; [|done..]. cbn.
  apply updateLastTradePrice_inv in E as (_ & _ & _ & _ & Er).
  destruct (cb_mutex_ (w_risk w).2) eqn:Hm; [unfold recordTrade, cb_lock in Er; by rewrite Hm in Er|].
  rewrite recordTrade_cases in Er by done. destruct (trips _ _ _ _); [done|]. injection Er as _ <-. lia.
Qed.

Lemma fill_step_time fill m (w : System) : m ∈ fill_consumer fill -> (w_t w <= w_t (m w).2)%nat.
Proof.
  intros [Ho|[->| ->]]%fill_steps; [by rewrite (proj2 (proj2 (Ho w)))| |apply updatePrice_time].
  unfold sys_recordFill. by destruct (recordFill _ _ _ _ _).
Qed.

Lemma fill_consumer_time fill w :
  post (in_order (fill_consumer fill)) w (fun _ w' => (w_t w <= w_t w')%nat)
    (fun w' => (w_t w <= w_t w')%nat) True.
Proof.
  apply (post_order _ (fun w' => (w_t w <= w_t w')%nat)); [|done].
  intros m w1 Hm Hle. pose proof (fill_step_time fill m w1 Hm) as Hstep. unfold post.
  destruct (m w1) as [[| |] w2]; cbn in *; [lia|lia|done].
Qed.

Lemma forward_notify fill : forward (notify_fill fill).
Proof.
  intros s [He Hf]. unfold post, notify_fill, cbind, engine_get, in_world. rewrite Hf.
  pose proof (fill_consumer_time fill s.2) as Hp. unfold post in Hp.
  by destruct (in_order (fill_consumer fill) s.2) as [[[]|what|] w'].
Qed.

Lemma forward_check o : forward (riskEngine_checkPreTrade o).
Proof.
  intros s Hw. unfold post, riskEngine_checkPreTrade.
  by destruct (gate_check o (w_risk s.2)) as [[res r]| |].
Qed.

Lemma forward_for {A} (l : list A) (m : A -> cpp SysState unit) :
  (forall x, forward (m x)) -> forward (cfor l m).
Proof. intros Hm. induction l as [|x l IH]; [apply forward_same|]. by apply forward_bind. Qed.

#[local] Hint Resolve forward_same forward_get forward_match forward_emit forward_notify
  forward_check : titanx.

Ltac go_forward :=
  repeat first
    [ solve [auto with titanx]
    | apply forward_same
    | apply forward_bind; [|intros]
    | apply forward_for; intros
    | apply forward_upd; intros; (done || by case_match)
    | apply forward_read; intros; cbn; lia
    | case_match ].

Lemma forward_submit o : forward (submit o).
Proof.
  unfold submit, getOrCreateBook, getOrCreateLock, create_book, create_lock, with_mapMutex, with_writeLock, report_fill,
    steadyClock, checkStopTriggers, activate_stop. go_forward.
Qed.

Lemma forward_cancel sym id : forward (cancel sym id).
Proof. unfold cancel, with_writeLock. go_forward. Qed.
End SystemTime.

(** * Handlers *)

Section HandlerTime.
Context `{Env} `{RedisServer} `{JsonPrinter} `{JsonParser} `{JwtLaws}.

(** As [later], and the buckets of the rate limiter are untouched. *)
Definition onward (s s' : HttpState) : Prop :=
  later (h_sys s) (h_sys s') /\ h_buckets s' = h_buckets s.

Definition moves {A} (m : cpp HttpState A) : Prop :=
  forall s, wired_sys (h_sys s) -> post m s (fun _ s' => onward s s') (onward s) True.

Lemma onward_trans s1 s2 s3 : onward s1 s2 -> onward s2 s3 -> onward s1 s3.
Proof.
  intros [L1 B1] [L2 B2]. split; [exact (later_trans _ _ _ L1 L2)|congruence].
Qed.

Lemma moves_bind {A B} (m : cpp HttpState A) (k : A -> cpp HttpState B) :
  moves m -> (forall a, moves (k a)) -> moves (cbind m k).
Proof.
  intros Hm Hk s Hw. apply post_bind. eapply post_mono; [by apply Hm| |done].
  intros a s1 Hs1. eapply post_mono; [apply Hk, Hs1| |]; cbn; intros;
    (eapply onward_trans; [exact Hs1|eassumption]).
Qed.

Lemma moves_catch {A} (m : cpp HttpState A) (h : string -> cpp HttpState A) :
  moves m -> (forall e, moves (h e)) -> moves (ccatch m h).
Proof.
  intros Hm Hh s Hw. apply post_catch. eapply post_mono; [by apply Hm|done|].
  intros s1 Hs1 e. eapply post_mono; [apply Hh, Hs1| |]; cbn; intros;
    (eapply onward_trans; [exact Hs1|eassumption]).
Qed.

Lemma moves_same {A} (r : outcome A) : moves (fun s => (r, s)).
Proof. intros s Hw. unfold post. by destruct r. Qed.

Lemma moves_system {A} (m : cpp SysState A) : forward m -> moves (in_system m).
Proof.
  intros Hm s Hw. pose proof (Hm (h_sys s) Hw) as Hp. unfold post, in_system in *.
  by destruct (m (h_sys s)) as [[a| |] sys].
Qed.

Lemma onward_time s t : wired_sys (h_sys s) -> (http_time s <= t)%nat -> onward s (at_time t s).
Proof. by destruct s as [[e [r x t0]] b]. Qed.

Lemma moves_env {A} (m : cpp nat A) :
  (forall t, (t <= (m t).2)%nat) -> moves (in_env m).
Proof.
  intros Hm s Hw. unfold post, in_env. specialize (Hm (http_time s)).
  destruct (m (http_time s)) as [[a| |] t]; [by apply onward_time..|done].
Qed.

Lemma moves_dump (j : json) (k : string -> response) :
  moves (do! body <- clift (dump j); cret (k body)).
Proof. apply moves_bind; [apply moves_same|intros; apply moves_same]. Qed.

Lemma moves_plain c fields : moves (plain c fields).
Proof. apply moves_dump. Qed.

Lemma moves_typed c j : moves (typed c j).
Proof. apply moves_dump. Qed.

Lemma moves_validate token : moves (in_env (validateAndExtract token)).
Proof.
  apply moves_env. intros t.
  destruct (validate_cases token t) as (claims & t' & -> & _ & Ht). cbn. lia.
Qed.

Lemma moves_haltStatus : moves circuitBreaker_haltStatus.
Proof.
  apply moves_system. intros s Hw. unfold post.
  by destruct (haltStatus (w_risk s.2).2) as [[halts cb]| |].
Qed.

Lemma moves_snapshot sym depth : moves (in_system (getSnapshot sym depth)).
Proof.
  apply moves_system. intros s Hw. pose proof (getSnapshot_state sym depth s) as Es. unfold post.
  destruct (getSnapshot sym depth s) as [[a| |] s']; cbn in Es; by subst s'.
Qed.

Lemma moves_halt : moves (in_system halt).
Proof. by apply moves_system, forward_upd. Qed.

Lemma moves_resume : moves (in_system resume).
Proof. by apply moves_system, forward_upd. Qed.

Lemma moves_isHalted : moves (in_system engine_isHalted).
Proof. apply moves_system, forward_get. Qed.

Lemma moves_retry acct ep : moves (rateLimiter_retryAfterSeconds acct ep).
Proof.
  intros s Hw. unfold post, rateLimiter_retryAfterSeconds, retryAfterSeconds.
  destruct (h_buckets s !! _) as [b|]; cbn; apply onward_time; (done || lia).
Qed.

#[local] Hint Resolve moves_same moves_plain moves_typed moves_validate moves_haltStatus
  moves_snapshot moves_halt moves_resume moves_isHalted moves_retry : titanx.

Ltac move_on :=
  repeat first
    [ solve [auto with titanx]
    | apply moves_same
    | apply moves_bind; [|intros]
    | apply moves_catch; [|intros]
    | apply moves_system; first [apply forward_submit|apply forward_cancel]
    | apply moves_env; intros; cbn; lia
    | case_match ].

Lemma moves_authenticate req : moves (authenticate req).
Proof. unfold authenticate. cbv zeta. move_on. Qed.

#[local] Hint Resolve moves_authenticate : titanx.

Lemma moves_submit_body claims req : moves (ccatch (submit_body claims req) invalid_request).
Proof. unfold submit_body, invalid_request. move_on. Qed.

(** Every route but the submission leaves the buckets alone. *)
Lemma moves_other call :
  (forall req, call <> PostOrder req) -> moves (handle call).
Proof.
  intros Hne. destruct call as [req|req|req id|req sym|req|req|req]; cbn [handle];
    [|by destruct (Hne req)|..];
    [unfold login, login_body, invalid_request|unfold cancel_order|unfold get_orderbook
    |unfold health|unfold admin_halt|unfold admin_resume]; move_on.
Qed.
End HandlerTime.

(** * The rate limit *)

Section Rate.
Context `{Env} `{RedisServer} `{JsonPrinter} `{JsonParser} `{JwtLaws} `{!SteadyClock}.

Lemma tryAcquire_time acct ep buckets t : (t <= (tryAcquire acct ep buckets t).2)%nat.
Proof.
  unfold tryAcquire. destruct (buckets !! _) as [b|]; cbn; destruct (tryConsume _ _); cbn; lia.
Qed.

(** An authenticated request: the bucket is charged, then the buckets stay. *)
Lemma submit_authenticated_rate claims req s :
  wired_sys (h_sys s) -> (submit_authenticated claims req s).1 <> Hang ->
  let '(granted, buckets, t) :=
    tryAcquire (c_accountId claims) "ORDER_SUBMIT" (h_buckets s) (http_time s) in
  let s2 := at_time t (mkHttp (h_sys s) buckets) in
  ((http_time s <= t)%nat -> onward s2 (submit_authenticated claims req s).2) /\
  (granted = false -> forall r, (submit_authenticated claims req s).1 = Ret r -> code r = 429).
Proof.
  intros Hw Hh. unfold submit_authenticated in *. unfold cbind at 1 in Hh.
  unfold cbind at 1 4. unfold rateLimiter_tryAcquire in *.
  destruct (tryAcquire (c_accountId claims) "ORDER_SUBMIT" (h_buckets s) (http_time s))
    as [[granted bs] t]. cbv beta iota zeta in *. set (s2 := at_time t _) in *.
  assert (wired_sys (h_sys s2)) as Hw2 by (by destruct s as [[e w] b]).
  destruct granted; cbn [negb] in *.
  - split; [|done]. intros _. pose proof (moves_submit_body claims req s2 Hw2) as Hp.
    unfold post in Hp. by destruct (ccatch _ _ s2) as [[r|what|] s3].
  - split.
    + intros _.
      match goal with |- onward s2 (?m s2).2 =>
        assert (moves m) as Hm by (apply moves_bind; [apply moves_retry|];
          intros; apply moves_dump);
        pose proof (Hm s2 Hw2) as Hp; unfold post in Hp; by destruct (m s2) as [[r|what|] s3] end.
    + intros _ r. unfold cbind, rateLimiter_retryAfterSeconds.
      destruct (retryAfterSeconds _ _ _ _) as [retry t2]. unfold clift, cret.
      destruct (dump _); [|done..]. by intros [= <-].
Qed.

(** The request was for an order of the account, and the limiter let it pass. *)
Definition admitted_order (a : string) (call : api_call) (s : HttpState) : bool :=
  match call with
  | PostOrder req =>
      match (authenticate req s).1, (handle call s).1 with
      | Ret (true, claims), Ret r =>
          bool_decide (c_accountId claims = a) && negb (code r =? 429)
      | _, _ => false
      end
  | _ => false
  end.

(** A run of the server with the number of admitted orders of the account. *)
Inductive counted_run (a : string) (s0 : HttpState) : HttpState -> Z -> Prop :=
| counted_start : counted_run a s0 s0 0
| counted_call call s n :
    counted_run a s0 s n -> (handle call s).1 <> Hang ->
    counted_run a s0 (handle call s).2 (n + (if admitted_order a call s then 1 else 0)).

(** The buckets account for all admitted orders. *)
Definition rate_inv (a : string) (t0 : nat) (s : HttpState) (n : Z) : Prop :=
  wired_sys (h_sys s) /\ (t0 <= http_time s)%nat /\
  exists granted : string -> Z,
    (forall key, key_inv (now_ms t0).1 (http_time s) (granted key) (h_buckets s !! key)) /\
    n <= granted (bucket_key a "ORDER_SUBMIT").

Lemma rate_inv_onward a t0 s s' n : onward s s' -> rate_inv a t0 s n -> rate_inv a t0 s' n.
Proof.
  intros [[Hw Ht] Hb] (_ & Ht0 & gr & Hk & Hn). unfold rate_inv, http_time in *.
  split; [done|]. split; [lia|]. exists gr. split; [|done]. intros key. rewrite Hb.
  by apply (key_inv_later _ (w_t (h_sys s).2)).
Qed.

Lemma rate_inv_order a t0 req s n :
  (handle (PostOrder req) s).1 <> Hang -> rate_inv a t0 s n ->
  rate_inv a t0 (handle (PostOrder req) s).2
    (n + (if admitted_order a (PostOrder req) s then 1 else 0)).
Proof.
  intros Hh Hinv. pose proof Hinv as (Hw & _).
  pose proof (moves_authenticate req s Hw) as Hm. unfold post in Hm.
  destruct (authenticate_cases req s) as (authed & claims & t1 & Ea & _).
  set (s1 := at_time t1 s) in *.
  assert (handle (PostOrder req) s =
    if authed then submit_authenticated claims req s1
    else plain 401 [("error", JString "UNAUTHORIZED"); ("message", JString (error claims))] s1)
    as Eh.
  { cbn [handle]. unfold submit_order. unfold cbind at 1. rewrite Ea. by destruct authed. }
  unfold admitted_order. rewrite Ea in Hm |- *. rewrite Eh in Hh |- *. cbn [fst].
  pose proof (rate_inv_onward a t0 s s1 n Hm Hinv) as Hinv1. clearbody s1. clear Ea Eh Hm.
  destruct authed.
  2: { rewrite Z.add_0_r. apply (rate_inv_onward a t0 s1); [|done].
       pose proof (moves_plain 401 [("error", JString "UNAUTHORIZED");
         ("message", JString (error claims))] s1 ltac:(apply Hinv1)) as Hp. unfold post in Hp.
       by destruct (plain _ _ s1) as [[r|what|] s2]. }
  destruct Hinv1 as (Hw1 & Ht1 & gr & Hk & Hn).
  pose proof (submit_authenticated_rate claims req s1 Hw1 Hh) as Hr.
  pose proof (run_call_inv (c_accountId claims, "ORDER_SUBMIT")
    (mkRun (h_buckets s1) gr (http_time s1)) t0 Ht1 Hk) as [Htr Hk'].
  pose proof (tryAcquire_time (c_accountId claims) "ORDER_SUBMIT" (h_buckets s1) (http_time s1)) as Htt.
  unfold run_call in Htr, Hk'. cbn [fst snd run_buckets run_t run_granted] in Htr, Hk'.
  destruct (tryAcquire (c_accountId claims) "ORDER_SUBMIT" (h_buckets s1) (http_time s1))
    as [[granted bs] t2]. cbn [fst snd run_buckets run_t run_granted] in Htr, Hk', Htt.
  cbv zeta in Hr. destruct Hr as [Hon Hcode]. specialize (Hon Htt).
  eapply rate_inv_onward; [exact Hon|].
  split; [done|]. split; [exact Htr|]. eexists. split; [exact Hk'|].
  cbv beta. assert (forall x : bool, 0 <= (if x then 1 else 0)) as Hnn by (by intros []).
  match goal with |- context [granted && ?x] => specialize (Hnn (granted && x)) end.
  destruct ((submit_authenticated claims req s1).1) as [r|what|] eqn:Er; [|lia..].
  destruct (bool_decide_reflect (c_accountId claims = a)) as [Ha|Ha]; cbn [andb]; [|lia].
  subst a. rewrite bool_decide_true in * by done.
  destruct granted; cbn [andb] in *; [destruct (code r =? 429); cbn; lia|].
  rewrite (Hcode eq_refl r eq_refl). cbn. lia.
Qed.

Lemma counted_run_inv a connected t0 s n :
  counted_run a (http_state connected t0) s n -> rate_inv a t0 s n.
Proof.
  induction 1 as [|call s n _ IH Hh].
  - split; [done|]. split; [done|]. exists (fun _ => 0). split; [|done].
    intros key. cbn. by rewrite lookup_empty.
  - assert ((forall req, call <> PostOrder req) -> admitted_order a call s = false ->
      rate_inv a t0 (handle call s).2 (n + (if admitted_order a call s then 1 else 0))) as Hother.
    { intros Hne ->. rewrite Z.add_0_r. apply (rate_inv_onward a t0 s); [|done].
      pose proof (moves_other call Hne s ltac:(apply IH)) as Hp. unfold post in Hp.
      by destruct (handle call s) as [[r|what|] s']. }
    destruct call as [req|req|req id|req sym|req|req|req]; try by apply Hother.
    by apply rate_inv_order.
Qed.

(** C24: the rate limit holds for the clients of the gateway.  Whatever requests of
    whatever accounts the server has processed since its start, the order requests of
    one account that were not refused by the rate limiter number at most a burst of 100
    plus one per 10 ms that have passed (when requests do not overlap). *)
Theorem http_rate_limit a connected t0 s n :
  counted_run a (http_state connected t0) s n ->
  1000 * n <= 1000 * 100 + 100 * ((now_ms (http_time s)).1 - (now_ms t0).1).
Proof.
  intros (_ & Ht & gr & Hk & Hn)%counted_run_inv.
  specialize (Hk (bucket_key a "ORDER_SUBMIT")). pose proof (now_ms_mono t0 (http_time s) Ht).
  unfold key_inv in Hk. destruct (h_buckets s !! _) as [b|]; [|lia].
  destruct Hk as [[_ _ Htk Hl] Hc]. unfold credit in Hc. lia.
Qed.
End Rate.

(** * Witness *)

Section RateWitness.
#[local] Existing Instance ticking_env.
#[local] Existing Instance ticking_env_steady.
#[local] Existing Instance counter_server.
#[local] Existing Instance demo_json.
#[local] Existing Instance demo_parser.
#[local] Existing Instance demo_parser_laws.
#[local] Existing Instance demo_jwt.
#[local] Existing Instance demo_jwt_laws.

Lemma issue_trader :
  exists token, generateAccessToken "acc1" ["READ"; "TRADE"] 0%nat = (Ret token, 1%nat).
Proof.
  unfold generateAccessToken. cbn [SystemClock_now].
  destruct (demo_sign signingSecret_ (mkPayload "titanx" "acc1"
    (<["tokenType" := "ACCESS"]>
       (<["permissions" := join_permissions 0 "" ["READ"; "TRADE"]]> (<["accountId" := "acc1"]> ∅)))
    (sys_now 0) (add_seconds (sys_now 0) ACCESS_TOKEN_TTL_SECONDS))) as [token E].
  exists token. rewrite E. reflexivity.
Qed.

(** One order request of acc1 that the limiter lets pass. *)
Lemma one_admitted :
  exists s, counted_run "acc1" (http_state true 0) s 1 /\ http_time s = 3%nat.
Proof.
  destruct issue_trader as [token E].
  set (req := mkRequest ("Bearer " +:+ token) "bad side" ∅).
  assert (authenticate req (http_state true 0) =
    (Ret (true, trader "acc1"), at_time 1 (http_state true 0))) as Ha.
  { apply (issued_token_authenticates "acc1" ["READ"; "TRADE"] 0%nat 1%nat token req
      (http_state true 0) E);
      [exact trade_permissions|unfold clock_ok; demo_decide|demo_decide|reflexivity]. }
  assert (handle (PostOrder req) (http_state true 0) =
    submit_authenticated (trader "acc1") (mkRequest "" "bad side" ∅) (at_time 1 (http_state true 0)))
    as Eh.
  { cbn [handle]. unfold submit_order. unfold cbind at 1. rewrite Ha. reflexivity. }
  pose proof (counted_call "acc1" (http_state true 0) (PostOrder req) (http_state true 0) 0
    (counted_start _ _)) as Hc.
  unfold admitted_order in Hc. rewrite Ha, Eh in Hc. cbn [fst] in Hc.
  eexists. split; [apply Hc|]; vm_compute; [discriminate|reflexivity].
Qed.

Lemma http_rate_limit_witness :
  exists s, counted_run "acc1" (http_state true 0) s 1 /\
    1000 * 1 <= 1000 * 100 + 100 * ((now_ms (http_time s)).1 - (now_ms 0).1).
Proof.
  destruct one_admitted as (s & Hc & _). exists s. split; [exact Hc|].
  apply (http_rate_limit "acc1" true 0%nat s 1 Hc).
Defined.
End RateWitness.
