(* ===== verification/HttpThreads.v ===== *)
(** Overlapping requests (src/gateway/HttpServer.cpp): Crow runs the handlers of the routes
    in several threads at the same time.

    A request is a control point of its handler; [req_turn] runs it to the next one.  A
    control point lies between any two calls on components that requests share: the
    rate limiter, the engine and the circuit breaker.  A call on the engine is a call of
    EngineThreads.v, and its turns are turns of the request.  Reading the clock, the
    token and the body and building the response are local; a call on the rate limiter is
    one step (RateLimiterRaces.v looks inside it).  [ht_owner] is not part of the
    program: it tells which request made which call on the engine. *)

From Stdlib Require Import ZArith Lia.
From stdpp Require Import base numbers gmap strings list pretty relations.
From S2P Require Import Prelude Text Model OrderBook Events Json CircuitBreaker RiskEngine RedisPositionCache MatchingEngine Wiring System EngineThreads ThreadsInvariant RateLimiter JwtTokenService HttpServer.

Local Open Scope Z_scope.
Local Open Scope cpp_scope.

(** * Requests *)

(** What the handler does with the result of its call on the engine. *)
Inductive Pending :=
| AwaitOrder (order : Order)
| AwaitCancel (sym id : string)
| AwaitBook (upperSymbol : string) (depth : Z) (sym : string)
| AwaitHalt (claims : JwtClaims)
| AwaitResume.

Inductive Req :=
| Entered (call : api_call)
| Limiting (claims : JwtClaims) (req : request)      (* rateLimiter_.tryAcquire *)
| Limited (claims : JwtClaims)                       (* rateLimiter_.retryAfterSeconds *)
| Reading (claims : JwtClaims) (req : request)       (* the try block *)
| InEngine (j : nat) (k : Pending)                   (* engine call j *)
| HealthAgain (halted : bool)                        (* the second engine_.isHalted *)
| HealthBreakers (halted halted' : bool)             (* circuitBreaker_.haltStatus *)
| Answered (r : outcome response).                   (* the handler has returned or thrown *)

Record HttpThreads := mkHttpThreads {
  ht_engine : Threads (RiskEngine * CircuitBreaker) Ext;
  ht_buckets : gmap string TokenBucket;
  ht_requests : list (api_call * Req);
  ht_owner : list nat
}.

Section Requests.
Context `{Env} `{RedisServer} `{JsonPrinter} `{JsonParser} `{JwtLib}.

Abbreviation Handler := (cpp HttpState).

(** * Local steps *)

(** What a handler sees and changes between two calls on the engine. *)
Definition http_view (s : HttpThreads) : HttpState :=
  mkHttp (sh_state (ts_shared (ht_engine s))) (ht_buckets s).

Definition put_view (h : HttpState) (s : HttpThreads) : HttpThreads :=
  let ts := ht_engine s in
  mkHttpThreads
    (mkThreads (mkShared (h_sys h) (sh_readers (ts_shared ts))) (ts_calls ts) (ts_history ts))
    (h_buckets h) (ht_requests s) (ht_owner s).

Definition local {A} (m : Handler A) (s : HttpThreads) : outcome A * HttpThreads :=
  let '(r, h) := m (http_view s) in (r, put_view h s).

(** Where a handler goes: to another control point, to its end, or into the engine. *)
Inductive Next :=
| Goto (r : Req)
| Answer (m : Handler response)
| CallEngine (c : Call) (k : Pending).

Definition proceed (i : nat) (n : Next) (s : HttpThreads) : Req * HttpThreads :=
  match n with
  | Goto r => (r, s)
  | Answer m => let '(r, s) := local m s in (Answered r, s)
  | CallEngine c k =>
      let ts := ht_engine s in
      (InEngine (length (ts_calls ts)) k,
       mkHttpThreads (mkThreads (ts_shared ts) (ts_calls ts ++ [c]) (ts_history ts))
         (ht_buckets s) (ht_requests s) (ht_owner s ++ [i]))
  end.

(** A local call, and how the handler goes on with its result. *)
Definition after {A} (i : nat) (m : Handler A) (next : A -> Next) (s : HttpThreads)
    : Req * HttpThreads :=
  let '(r, s) := local m s in
  match r with
  | Ret a => proceed i (next a) s
  | Throw what => (Answered (Throw what), s)
  | Hang => (Answered Hang, s)
  end.

(** * The handlers *)

(** Authentication, and the answer 401. *)
Definition authenticated (i : nat) (req : request) (refuse : JwtClaims -> list (string * json))
    (next : JwtClaims -> Next) : HttpThreads -> Req * HttpThreads :=
  after i (authenticate req)
    (fun '(authed, claims) => if negb authed then Answer (plain 401 (refuse claims)) else next claims).

Definition unauthorized (claims : JwtClaims) : list (string * json) :=
  [("error", JString "UNAUTHORIZED")].

Definition cancel_call (req : request) (id : string) (claims : JwtClaims) : Next :=
  match url_params req !! "symbol" with
  | None =>
      Answer (plain 400 [("error", JString "MISSING_PARAM");
                         ("message", JString "symbol query parameter required")])
  | Some symbolParam => CallEngine (CancelStart (upper symbolParam) id) (AwaitCancel (upper symbolParam) id)
  end.

Definition limited_answer (retryAfter : Z) : Handler response :=
  do! body <- clift (dump (object [
    ("error", JString "RATE_LIMIT_EXCEEDED");
    ("message", JString "Maximum 100 orders/second per account");
    ("retryAfter", JInt retryAfter)]));
  cret (mkResponse 429 body [("Retry-After", pretty retryAfter); content_type]).

(** The [try] block up to the submission: the order, or the text of the exception. *)
Definition read_and_create (claims : JwtClaims) (req : request) : Handler (Order + string) :=
  ccatch
    (do! r <- clift (read_order req);
     do! order <- in_env (create_order (c_accountId claims) r);
     cret (inl order))
    (fun what => cret (inr what)).

Definition order_answer (order : Order) (trades : list Trade) : Handler response :=
  ccatch
    (typed 200 (object [
      ("orderId", JString (orderId order));
      ("status", JString (status_to_string (status order)));
      ("tradesCount", JInt (Z.of_nat (length trades)));
      ("trades", JArray (trade_entry <$> trades))]))
    invalid_request.

(** The answer when the call on the engine has ended.  Only the handler of orders catches
    exceptions; a call that blocks for ever is not answered. *)
Definition engine_answer (k : Pending) (c : Call) : option (Handler response) :=
  match k, c with
  | AwaitOrder order, Submitted _ trades => Some (order_answer order trades)
  | AwaitOrder order, Threw what => Some (invalid_request what)
  | AwaitCancel _ id, Cancelled _ _ cancelled =>
      Some (if (cancelled : bool) then
              typed 200 (object [("orderId", JString id); ("status", JString "CANCELLED")])
            else plain 404 [("error", JString "ORDER_NOT_FOUND"); ("orderId", JString id)])
  | AwaitBook _ _ sym, Snapped _ _ snap =>
      Some (match snap with
            | Some snap => do! j <- clift (OrderBookSnapshot_to_json snap); typed 200 j
            | None => plain 404 [("error", JString "SYMBOL_NOT_FOUND"); ("symbol", JString sym)]
            end)
  | AwaitHalt claims, HaltDone _ =>
      Some (typed 200 (object [("status", JString "HALTED");
                               ("activatedBy", JString (c_accountId claims))]))
  | AwaitResume, HaltDone _ => Some (typed 200 (object [("status", JString "RUNNING")]))
  | _, _ => None
  end.

Definition entered (i : nat) (call : api_call) : HttpThreads -> Req * HttpThreads :=
  match call with
  | PostLogin req => proceed i (Answer (login req))
  | PostOrder req =>
      authenticated i req
        (fun claims => [("error", JString "UNAUTHORIZED"); ("message", JString (error claims))])
        (fun claims => Goto (Limiting claims req))
  | DeleteOrder req id => authenticated i req unauthorized (cancel_call req id)
  | GetOrderbook req sym =>
      proceed i (CallEngine (SnapStart (upper sym) (read_depth req))
                   (AwaitBook (upper sym) (read_depth req) sym))
  | GetHealth req => after i (in_system engine_isHalted) (fun halted => Goto (HealthAgain halted))
  | PostHalt req =>
      authenticated i req unauthorized (fun claims => CallEngine (HaltCall true) (AwaitHalt claims))
  | PostResume req =>
      authenticated i req unauthorized (fun claims => CallEngine (HaltCall false) AwaitResume)
  end.

(** One turn of request [i]; [None] when it waits, blocks for ever or has been answered. *)
Definition req_turn (i : nat) (r : Req) (s : HttpThreads) : option (Req * HttpThreads) :=
  match r with
  | Entered call => Some (entered i call s)
  | Limiting claims req =>
      Some (after i (rateLimiter_tryAcquire (c_accountId claims) "ORDER_SUBMIT")
              (fun granted => Goto (if (granted : bool) then Reading claims req else Limited claims)) s)
  | Limited claims =>
      Some (after i (rateLimiter_retryAfterSeconds (c_accountId claims) "ORDER_SUBMIT")
              (fun retryAfter => Answer (limited_answer retryAfter)) s)
  | Reading claims req =>
      Some (after i (read_and_create claims req)
              (fun r => match r with
                        | inl order => CallEngine (SubmitStart order) (AwaitOrder order)
                        | inr what => Answer (invalid_request what)
                        end) s)
  | InEngine j k =>
      match ts_calls (ht_engine s) !! j with
      | None => None
      | Some c =>
          if ended c then
            match engine_answer k c with
            | Some m => Some (proceed i (Answer m) s)
            | None => None
            end
          else
            match take_turn j (ht_engine s) with
            | Some ts => Some (r, mkHttpThreads ts (ht_buckets s) (ht_requests s) (ht_owner s))
            | None => None
            end
      end
  | HealthAgain halted =>
      Some (after i (in_system engine_isHalted) (fun halted' => Goto (HealthBreakers halted halted')) s)
  | HealthBreakers halted halted' =>
      Some (after i circuitBreaker_haltStatus
              (fun cbStatus => Answer (typed 200 (object [
                 ("status", JString (if (halted : bool) then "HALTED" else "RUNNING"));
                 ("halted", JBool halted');
                 ("circuitBreakers", breakers_json cbStatus)]))) s)
  | Answered _ => None
  end.

Definition http_turn (i : nat) (s : HttpThreads) : option HttpThreads :=
  match ht_requests s !! i with
  | None => None
  | Some (call, r) =>
      match req_turn i r s with
      | None => None
      | Some (r', s') =>
          Some (mkHttpThreads (ht_engine s') (ht_buckets s')
                  (<[i := (call, r')]> (ht_requests s')) (ht_owner s'))
      end
  end.

(** Requests arrive and take turns. *)
Inductive http_threads_step : HttpThreads -> HttpThreads -> Prop :=
| http_takes_turn i s s' : http_turn i s = Some s' -> http_threads_step s s'
| http_arrives call s :
    http_threads_step s
      (mkHttpThreads (ht_engine s) (ht_buckets s) (ht_requests s ++ [(call, Entered call)]) (ht_owner s)).

(** The server that [main] has wired, before the first request. *)
Definition http_threads_start (connected : bool) (t : nat) : HttpThreads :=
  mkHttpThreads (threads_start (main_state connected t)) ∅ [] [].

Definition http_reachable (connected : bool) (t : nat) (s : HttpThreads) : Prop :=
  rtc http_threads_step (http_threads_start connected t) s.
End Requests.
