(* ===== verification/HttpThreadsFacts.v ===== *)
(** The invariant of overlapping requests: which request made which call on the engine, and
    what the control point of a request says about it. *)

From Stdlib Require Import ZArith Lia.
From stdpp Require Import base numbers gmap strings list pretty relations.
From S2P Require Import Prelude Text Model OrderBook Matching BookSpec BookInvariant Events Json CircuitBreaker RiskEngine RedisPositionCache MatchingEngine EngineInvariant EngineTheorems Wiring System SystemClaims EngineThreads ThreadsInvariant ThreadsBooks ThreadsClaims ThreadsTrail RateLimiter JwtTokenService HttpServer HttpTheorems HttpThreads.

Local Open Scope Z_scope.
Local Open Scope cpp_scope.

(** * Local calls *)

(** The call leaves the system as it was, at another time. *)
Definition time_only {A} (m : cpp HttpState A) : Prop := forall h, untouched h (m h).2.

Lemma untouched_trans h1 h2 h3 : untouched h1 h2 -> untouched h2 h3 -> untouched h1 h3.
Proof.
  intros [t1 E1] [t2 E2]. exists t2. rewrite E2. unfold at_time. cbn. by rewrite E1.
Qed.

Lemma local_bind {A B} (m : cpp HttpState A) (k : A -> cpp HttpState B) :
  time_only m -> (forall a, time_only (k a)) -> time_only (cbind m k).
Proof.
  intros Hm Hk h. specialize (Hm h). unfold cbind. destruct (m h) as [[a| |] h1]; [|exact Hm..].
  eapply untouched_trans; [exact Hm|apply Hk].
Qed.

Lemma local_catch {A} (m : cpp HttpState A) (k : string -> cpp HttpState A) :
  time_only m -> (forall e, time_only (k e)) -> time_only (ccatch m k).
Proof.
  intros Hm Hk h. specialize (Hm h). unfold ccatch. destruct (m h) as [[a|what|] h1]; [exact Hm| |exact Hm].
  eapply untouched_trans; [exact Hm|apply Hk].
Qed.

Lemma untouched_same h : untouched h h.
Proof. exists (http_time h). by rewrite at_time_id. Qed.

Lemma local_same {A} (r : outcome A) : time_only (fun s => (r, s)).
Proof. intros h. apply untouched_same. Qed.

Lemma local_ret {A} (a : A) : time_only (cret a).
Proof. apply local_same. Qed.

Lemma local_lift {A} (r : outcome A) : time_only (clift r).
Proof. apply local_same. Qed.

Lemma local_env {A} (m : cpp nat A) : time_only (in_env m).
Proof. intros h. unfold in_env. destruct (m (http_time h)) as [r t]. by exists t. Qed.

#[export] Hint Resolve local_ret local_lift local_env : titanx.

(** A handler without calls on the engine: its calls one after the other. *)
Ltac locally :=
  repeat first
    [ solve [auto with titanx]
    | apply local_bind; [|intros]
    | apply local_catch; [|intros]
    | progress (cbv zeta)
    | case_match ].

Section LocalCalls.
Context `{Env} `{RedisServer} `{JsonPrinter} `{JsonParser} `{JwtLib}.

Lemma local_acquire acct ep : time_only (rateLimiter_tryAcquire acct ep).
Proof. intros h. unfold rateLimiter_tryAcquire. destruct (tryAcquire _ _ _ _) as [[g bs] t]. by exists t. Qed.

Lemma local_retry acct ep : time_only (rateLimiter_retryAfterSeconds acct ep).
Proof. intros h. unfold rateLimiter_retryAfterSeconds. destruct (retryAfterSeconds _ _ _ _) as [z t]. by exists t. Qed.

Lemma local_plain c fields : time_only (plain c fields).
Proof. unfold plain. locally. Qed.

Lemma local_typed c j : time_only (typed c j).
Proof. unfold typed. locally. Qed.

Lemma local_isHalted : time_only (in_system engine_isHalted).
Proof. intros h. exists (http_time h). by destruct h as [[e [r x t]] bs]. Qed.

Lemma local_haltStatus : time_only circuitBreaker_haltStatus.
Proof.
  intros [[e [[re cb] x t]] bs]. exists t. unfold circuitBreaker_haltStatus, in_system. cbn.
  destruct (haltStatus cb) as [[halts cb']| |] eqn:E; [|done..].
  by apply haltStatus_same in E as [_ ->].
Qed.

#[local] Hint Resolve local_plain local_typed : titanx.

Lemma local_authenticate req : time_only (authenticate req).
Proof. unfold authenticate. locally. Qed.

Lemma local_invalid what : time_only (invalid_request what).
Proof. unfold invalid_request. locally. Qed.

#[local] Hint Resolve local_invalid : titanx.

Lemma local_login req : time_only (login req).
Proof. unfold login, login_body. locally. Qed.

Lemma local_limited z : time_only (limited_answer z).
Proof. unfold limited_answer. locally. Qed.

Lemma local_create claims req : time_only (read_and_create claims req).
Proof. unfold read_and_create. locally. Qed.

Lemma local_answer k c m : engine_answer k c = Some m -> time_only m.
Proof.
  destruct k, c; try discriminate; intros [= <-]; unfold order_answer; locally.
Qed.
End LocalCalls.

#[export] Hint Resolve local_acquire local_retry local_plain local_typed local_isHalted
  local_haltStatus local_authenticate local_invalid local_login local_limited local_create : titanx.

(** * What a request says about its call on the engine *)

Section Invariant.
Context `{Env} `{RedisServer} `{JsonPrinter} `{JsonParserLaws} `{JwtLaws}.

(** The call is the one that [k] waits for. *)
Definition serves (k : Pending) (c : Call) : Prop :=
  match k, c with
  | AwaitOrder o, _ => order_of c = Some o \/ broken c
  | AwaitCancel sym id, (CancelStart sym' id' | CancelLock sym' id' | CancelWait sym' id' | CancelRemove sym' id'
      | CancelUnlock sym' id' _ | Cancelled sym' id' _) => sym' = sym /\ id' = id
  | AwaitBook sym d _, (SnapStart sym' d' | SnapLock sym' d' | SnapWait sym' d' | SnapRead sym' d'
      | SnapUnlock sym' d' _ | Snapped sym' d' _) => sym' = sym /\ d' = d
  | AwaitHalt _, (HaltCall h | HaltDone h) => h = true
  | AwaitResume, (HaltCall h | HaltDone h) => h = false
  | _, _ => False
  end.

Lemma serves_turn k c c' : goes_to c c' -> serves k c -> serves k c'.
Proof.
  intros Hc. destruct k as [o|sym id|up d sym|claims|]; cbn [serves].
  - intros [Ho|Hb]; [|by destruct Hb as [->|[what ->]]; next_call Hc].
    destruct Hc as [Hc|[_ Hb]]; [left|by right]. eapply goes_has_order; [by left| |done].
    intros Hb. destruct Hb as [->|[what ->]], c as [| | | | | | | | | | | | | | |? ? [|] [|]| | | | | | | | | | | | | | | | | | | | | | |]; cbn in Hc; naive_solver.
  - by_calls c Hc.
  - by_calls c Hc.
  - by_calls c Hc.
  - by_calls c Hc.
Qed.

(** The request asks for what [k] waits for, with a verified token where the route needs
    one. *)
Definition pending_ok (call : api_call) (k : Pending) : Prop :=
  match k with
  | AwaitOrder o => exists req now ord t, call = PostOrder req /\ bearer req now (accountId o) /\
      read_order req = Ret ord /\ (create_order (accountId o) ord t).1 = Ret o
  | AwaitCancel sym id => exists req now acct param, call = DeleteOrder req id /\ bearer req now acct /\
      url_params req !! "symbol" = Some param /\ sym = upper param
  | AwaitBook up d sym => exists req, call = GetOrderbook req sym /\ up = upper sym /\ d = read_depth req
  | AwaitHalt claims => exists req now, call = PostHalt req /\ bearer req now (c_accountId claims)
  | AwaitResume => exists req now acct, call = PostResume req /\ bearer req now acct
  end.

(** The codes of a request that did not get as far as the engine. *)
Definition refusal (call : api_call) (c : Z) : Prop :=
  match call with
  | PostOrder _ => c = 401 \/ c = 429 \/ c = 400
  | DeleteOrder _ _ => c = 401 \/ c = 400
  | PostHalt _ | PostResume _ => c = 401
  | PostLogin _ | GetHealth _ => True
  | GetOrderbook _ _ => False
  end.

(** The response is what the handler makes of the result of its call. *)
Definition answer_ok (calls : list Call) (owner : list nat) (i : nat) (call : api_call)
    (resp : response) : Prop :=
  (i ∉ owner /\ refusal call (code resp)) \/
  exists j k c m h h', owner !! j = Some i /\ pending_ok call k /\ calls !! j = Some c /\
    serves k c /\ ended c = true /\ engine_answer k c = Some m /\ m h = (Ret resp, h').

Definition req_ok (calls : list Call) (owner : list nat) (i : nat) (call : api_call) (r : Req) : Prop :=
  match r with
  | Entered call' => call' = call /\ i ∉ owner
  | Limiting claims req | Reading claims req =>
      call = PostOrder req /\ i ∉ owner /\ exists now, bearer req now (c_accountId claims)
  | Limited claims => (exists req, call = PostOrder req) /\ i ∉ owner
  | HealthAgain _ | HealthBreakers _ _ => (exists req, call = GetHealth req) /\ i ∉ owner
  | InEngine j k =>
      owner !! j = Some i /\ pending_ok call k /\ exists c, calls !! j = Some c /\ serves k c
  | Answered (Ret resp) => answer_ok calls owner i call resp
  | Answered _ => True
  end.

Record http_ok (connected : bool) (t : nat) (s : HttpThreads) : Prop := {
  ho_engine : sys_reachable connected t (ht_engine s);
  ho_length : length (ht_owner s) = length (ts_calls (ht_engine s));
  ho_once : NoDup (ht_owner s);
  ho_known : Forall (fun i => (i < length (ht_requests s))%nat) (ht_owner s);
  ho_requests i call r : ht_requests s !! i = Some (call, r) ->
    req_ok (ts_calls (ht_engine s)) (ht_owner s) i call r;
  ho_calls j i c : ht_owner s !! j = Some i -> ts_calls (ht_engine s) !! j = Some c ->
    exists call r k, ht_requests s !! i = Some (call, r) /\ pending_ok call k /\ serves k c;
  ho_waits j i c : ht_owner s !! j = Some i -> ts_calls (ht_engine s) !! j = Some c ->
    ended c = false -> exists call k, ht_requests s !! i = Some (call, InEngine j k)
}.

(** ** The other requests *)

(** Calls go on, and new ones are added at the end, by other requests. *)
Record calls_grow (calls calls' : list Call) (owner owner' : list nat) (i : nat) : Prop := {
  cg_owner : owner' = owner \/ owner' = owner ++ [i];
  cg_calls j c : calls !! j = Some c -> exists c', calls' !! j = Some c' /\
    (c' = c \/ ended c = false /\ goes_to c c')
}.

Lemma serves_grow calls calls' owner owner' i j k c :
  calls_grow calls calls' owner owner' i -> calls !! j = Some c -> serves k c ->
  exists c', calls' !! j = Some c' /\ serves k c'.
Proof.
  intros Hg Hj Hs. destruct (cg_calls _ _ _ _ _ Hg _ _ Hj) as (c' & Hj' & [->|[_ Hc]]); [eauto|].
  eauto using serves_turn.
Qed.

Lemma owner_grow calls calls' owner owner' i j x :
  calls_grow calls calls' owner owner' i -> owner !! j = Some x -> owner' !! j = Some x.
Proof. intros [[->| ->] _] Hj; [done|]. by apply lookup_app_l_Some. Qed.

Lemma notin_grow calls calls' owner owner' i i' :
  calls_grow calls calls' owner owner' i -> i' <> i -> i' ∉ owner -> i' ∉ owner'.
Proof. intros [[->| ->] _] Hne Hi; [done|]. set_solver. Qed.

Lemma answer_grow calls calls' owner owner' i i' call resp :
  calls_grow calls calls' owner owner' i -> i' <> i ->
  answer_ok calls owner i' call resp -> answer_ok calls' owner' i' call resp.
Proof.
  intros Hg Hne [[Hi Hr]|(j & k & c & m & h & h' & Ho & Hp & Hj & Hs & He & Ha & Hm)].
  - left. split; [by eapply notin_grow|done].
  - right. destruct (cg_calls _ _ _ _ _ Hg _ _ Hj) as (c' & Hj' & [->|[He' _]]); [|by rewrite He in He'].
    exists j, k, c, m, h, h'. split_and!; try done. by eapply owner_grow.
Qed.

Lemma req_grow calls calls' owner owner' i i' call r :
  calls_grow calls calls' owner owner' i -> i' <> i ->
  req_ok calls owner i' call r -> req_ok calls' owner' i' call r.
Proof.
  intros Hg Hne. pose proof (notin_grow _ _ _ _ _ i' Hg Hne) as Hn.
  destruct r as [call'|claims req|claims|claims req|j k|h|h h'|[resp|what|]]; cbn; try naive_solver.
  - intros (Ho & Hp & c & Hj & Hs). split_and!; [by eapply owner_grow|done|by eapply serves_grow].
  - by apply answer_grow with (1 := Hg).
Qed.

(** ** The request that moves *)

Definition at_request (i : nat) (call : api_call) (r : Req) (s : HttpThreads) : HttpThreads :=
  mkHttpThreads (ht_engine s) (ht_buckets s) (<[i := (call, r)]> (ht_requests s)) (ht_owner s).

(** The owners of the calls: as before, or request [i] has made a new call. *)
Definition owner_next (s s' : HttpThreads) (i : nat) (call : api_call) (r' : Req) : Prop :=
  ht_owner s' = ht_owner s \/
  ht_owner s' = ht_owner s ++ [i] /\ i ∉ ht_owner s /\ exists k c,
    ts_calls (ht_engine s') !! length (ht_owner s) = Some c /\ pending_ok call k /\ serves k c /\
    r' = InEngine (length (ht_owner s)) k.

(** A call of the new state is an old one, where it was or further on, or the new one. *)
Lemma call_origin s s' i call r' j x c :
  length (ht_owner s) = length (ts_calls (ht_engine s)) ->
  calls_grow (ts_calls (ht_engine s)) (ts_calls (ht_engine s')) (ht_owner s) (ht_owner s') i ->
  owner_next s s' i call r' ->
  ht_owner s' !! j = Some x -> ts_calls (ht_engine s') !! j = Some c ->
  ht_owner s !! j = Some x /\ (exists c0, ts_calls (ht_engine s) !! j = Some c0 /\
     (c = c0 \/ ended c0 = false)) \/
  j = length (ht_owner s) /\ x = i /\ exists k, pending_ok call k /\ serves k c /\ r' = InEngine j k.
Proof.
  intros Hlen Hg Ho Hj Hc. assert (ht_owner s !! j = Some x \/ j = length (ht_owner s)) as [Hj'| ->].
  { destruct Ho as [E|(E & _)]; rewrite E in Hj; [by left|].
    apply lookup_app_Some in Hj as [Hj|[Hge Hj]]; [by left|right].
    apply list_lookup_singleton_Some in Hj as [Hj _]. lia. }
  - left. split; [done|]. assert (exists c0, ts_calls (ht_engine s) !! j = Some c0) as [c0 Hc0].
    { apply lookup_lt_is_Some. rewrite <- Hlen. by eapply lookup_lt_Some. }
    exists c0. split; [done|]. destruct (cg_calls _ _ _ _ _ Hg _ _ Hc0) as (c1 & Hc1 & Hor).
    rewrite Hc in Hc1. injection Hc1 as <-. naive_solver.
  - right. split; [done|]. destruct Ho as [E|(E & _ & k & c0 & Hc0 & Hp & Hs & Hr)].
    { rewrite E in Hj. apply lookup_lt_Some in Hj. lia. }
    rewrite E, lookup_app_r, Nat.sub_diag in Hj by lia. injection Hj as <-.
    rewrite Hc in Hc0. injection Hc0 as <-. eauto.
Qed.

Lemma requests_stay (reqs : list (api_call * Req)) i call r r' x call0 r0 :
  reqs !! i = Some (call, r) -> reqs !! x = Some (call0, r0) ->
  exists r1, <[i:=(call, r')]> reqs !! x = Some (call0, r1).
Proof.
  intros Hi Hx. destruct (decide (i = x)) as [<-|Hne].
  - rewrite Hi in Hx. injection Hx as <- <-. exists r'. apply list_lookup_insert_eq. by eapply lookup_lt_Some.
  - exists r0. by rewrite list_lookup_insert_ne.
Qed.

Lemma request_moves connected t i call r r' s s' :
  http_ok connected t s -> ht_requests s !! i = Some (call, r) -> ht_requests s' = ht_requests s ->
  sys_reachable connected t (ht_engine s') -> length (ht_owner s') = length (ts_calls (ht_engine s')) ->
  calls_grow (ts_calls (ht_engine s)) (ts_calls (ht_engine s')) (ht_owner s) (ht_owner s') i ->
  (ht_owner s' <> ht_owner s -> i ∉ ht_owner s /\ exists k c,
     ts_calls (ht_engine s') !! length (ht_owner s) = Some c /\ pending_ok call k /\ serves k c /\
     r' = InEngine (length (ht_owner s)) k) ->
  (forall j k c, r = InEngine j k -> ts_calls (ht_engine s') !! j = Some c -> ended c = false -> r' = r) ->
  req_ok (ts_calls (ht_engine s')) (ht_owner s') i call r' ->
  http_ok connected t (at_request i call r' s').
Proof.
  intros [_ Hlen Hnd Hkn Hreqs Hcalls Hwaits] Hi Hrq Heng Hlen' Hg Hnew Hkeep Hr'.
  assert (i < length (ht_requests s))%nat as Hlt by (by eapply lookup_lt_Some).
  assert (owner_next s s' i call r') as Ho.
  { destruct (cg_owner _ _ _ _ _ Hg) as [E|E]; [by left|right]. split; [done|]. apply Hnew. rewrite E.
    intros Eq. apply (f_equal length) in Eq. rewrite length_app in Eq. cbn in Eq. lia. }
  pose proof (fun j x c => call_origin s s' i call r' j x c Hlen Hg Ho) as Hcase.
  split; cbn [at_request ht_engine ht_owner ht_requests]; try done.
  - destruct Ho as [->|(-> & Hn & _)]; [done|]. apply NoDup_app. split_and!; [done|set_solver|apply NoDup_singleton].
  - rewrite length_insert, Hrq. destruct Ho as [->|(-> & _)]; [done|]. apply Forall_app. split; [done|by constructor].
  - intros i' call' r1 Hi'. rewrite Hrq in Hi'. destruct (decide (i = i')) as [<-|Hne].
    + rewrite list_lookup_insert_eq in Hi' by done. by injection Hi' as <- <-.
    + rewrite list_lookup_insert_ne in Hi' by done. eapply req_grow; [exact Hg|done|auto].
  - rewrite Hrq. intros j x c Hj Hc. destruct (Hcase j x c Hj Hc) as [[Hj' (c0 & Hc0 & _)]|(-> & -> & k & Hp & Hs & _)].
    + destruct (Hcalls j x c0 Hj' Hc0) as (call0 & r0 & k & Hx & Hp & Hs).
      destruct (serves_grow _ _ _ _ _ _ _ _ Hg Hc0 Hs) as (c1 & Hc1 & Hs1). rewrite Hc in Hc1. injection Hc1 as <-.
      destruct (requests_stay _ _ _ _ r' _ _ _ Hi Hx) as [r1 Hr1]. eauto 10.
    + destruct (requests_stay _ _ _ _ r' _ _ _ Hi Hi) as [r1 Hr1]. eauto 10.
  - intros j x c Hj Hc He. rewrite Hrq.
    destruct (Hcase j x c Hj Hc) as [[Hj' (c0 & Hc0 & Hor)]|(-> & -> & k & _ & _ & ->)].
    + destruct (Hwaits j x c0 Hj' Hc0) as (call0 & k & Hx); [by destruct Hor as [<-|]|].
      destruct (decide (i = x)) as [<-|Hne]; [|exists call0, k; by rewrite list_lookup_insert_ne].
      rewrite Hi in Hx. injection Hx as <- ->. exists call, k. rewrite list_lookup_insert_eq by done.
      by rewrite (Hkeep j k c eq_refl Hc He).
    + exists call, k. by apply list_lookup_insert_eq.
Qed.

(** [s1] is [s] after local calls. *)
Record moved (connected : bool) (t : nat) (s s1 : HttpThreads) : Prop := {
  mv_engine : sys_reachable connected t (ht_engine s1);
  mv_calls : ts_calls (ht_engine s1) = ts_calls (ht_engine s);
  mv_owner : ht_owner s1 = ht_owner s;
  mv_requests : ht_requests s1 = ht_requests s
}.

Lemma moved_refl connected t s : http_ok connected t s -> moved connected t s s.
Proof. intros []. by split. Qed.

Lemma local_moved {A} connected t (m : cpp HttpState A) s s1 r s2 :
  time_only m -> moved connected t s s1 -> local m s1 = (r, s2) ->
  moved connected t s s2 /\ exists h h', m h = (r, h').
Proof.
  intros Hm [He Hc Ho Hr] E. unfold local in E. specialize (Hm (http_view s1)).
  destruct (m (http_view s1)) as [r0 h] eqn:Em. injection E as <- <-. split; [|eauto].
  destruct Hm as [t1 Ht]. cbn in Ht. split; cbn [put_view ht_engine ht_owner ht_requests ts_calls]; try done.
  eapply rtc_r; [exact He|]. rewrite Ht. apply (sys_time t1 (ht_engine s1)).
Qed.

(** Where a handler may go when the request has made no call yet. *)
Definition next_fine (s : HttpThreads) (i : nat) (call : api_call) (n : Next) : Prop :=
  match n with
  | Goto r => req_ok (ts_calls (ht_engine s)) (ht_owner s) i call r
  | Answer m => time_only m /\ forall resp h h', m h = (Ret resp, h') -> refusal call (code resp)
  | CallEngine c k => begins c = true /\ (forall o, order_of c = Some o -> incoming_ok o) /\
      pending_ok call k /\ serves k c
  end.

Lemma same_calls_grow calls owner i : calls_grow calls calls owner owner i.
Proof. split; eauto. Qed.

Lemma proceed_ok connected t i call r n s s1 r' s2 :
  http_ok connected t s -> ht_requests s !! i = Some (call, r) -> i ∉ ht_owner s ->
  moved connected t s s1 -> next_fine s i call n -> proceed i n s1 = (r', s2) ->
  http_ok connected t (at_request i call r' s2).
Proof.
  intros Hok Hi Hown Hmv Hn E.
  assert (forall j k, r <> InEngine j k) as Hnot.
  { intros j k ->. destruct (ho_requests _ _ _ Hok _ _ _ Hi) as (Ho & _).
    by apply Hown, (list_elem_of_lookup_2 _ j). }
  assert (forall s2 r', moved connected t s s2 ->
    req_ok (ts_calls (ht_engine s)) (ht_owner s) i call r' ->
    http_ok connected t (at_request i call r' s2)) as Hstay.
  { intros s3 r3 [He Hc Ho Hr] Hr3. eapply request_moves; [exact Hok|exact Hi|done|done| | | | |];
      rewrite ?Hc, ?Ho; [apply Hok|apply same_calls_grow|done|intros ? ? ? ->; by edestruct Hnot|done]. }
  destruct n as [r1|m|c k]; cbn [proceed next_fine] in *.
  - injection E as <- <-. by apply Hstay.
  - destruct Hn as [Hm Hresp]. destruct (local m s1) as [r0 s3] eqn:El. injection E as <- <-.
    destruct (local_moved _ _ _ _ _ _ _ Hm Hmv El) as [Hmv' (h & h' & Em)].
    apply Hstay; [done|]. destruct r0 as [resp|what|]; [|done..]. left. eauto.
  - destruct Hn as (Hb & Hin & Hp & Hs). injection E as <- <-. destruct Hmv as [He Hc Ho Hr].
    pose proof (ho_length _ _ _ Hok) as Hlen.
    assert (length (ts_calls (ht_engine s1)) = length (ht_owner s)) as Hj by (by rewrite Hc).
    assert ((ts_calls (ht_engine s1) ++ [c]) !! length (ht_owner s) = Some c) as Hnew.
    { rewrite lookup_app_r by lia. by rewrite Hj, Nat.sub_diag. }
    eapply request_moves; [exact Hok|exact Hi|done| | | | | |]; cbn [ht_engine ts_calls ht_owner].
    + eapply rtc_r; [exact He|]. by apply sys_call.
    + rewrite !length_app, Ho. cbn. lia.
    + split; [right; by rewrite Ho|]. intros j d Hjd. exists d. split; [|by left]. rewrite Hc. by apply lookup_app_l_Some.
    + intros _. split; [done|]. exists k, c. by rewrite Hj.
    + intros ? ? ? ->. by edestruct Hnot.
    + cbn. rewrite Hj, Ho. split; [|split; [done|eauto]].
      rewrite lookup_app_r by lia. by rewrite Nat.sub_diag.
Qed.

Lemma after_ok {A} connected t i call r (m : cpp HttpState A) next s r' s2 :
  http_ok connected t s -> ht_requests s !! i = Some (call, r) -> i ∉ ht_owner s ->
  time_only m -> (forall a h h', m h = (Ret a, h') -> next_fine s i call (next a)) ->
  after i m next s = (r', s2) -> http_ok connected t (at_request i call r' s2).
Proof.
  intros Hok Hi Hown Hm Hn E. unfold after in E. destruct (local m s) as [r0 s1] eqn:El.
  destruct (local_moved _ _ _ _ _ _ _ Hm (moved_refl _ _ _ Hok) El) as [Hmv (h & h' & Em)].
  destruct r0 as [a|what|]; [by eapply proceed_ok; eauto| |].
  - exact (proceed_ok _ _ _ _ _ (Goto (Answered (Throw what))) _ _ _ _ Hok Hi Hown Hmv I E).
  - exact (proceed_ok _ _ _ _ _ (Goto (Answered Hang)) _ _ _ _ Hok Hi Hown Hmv I E).
Qed.

(** ** The turns *)

Lemma plain_code c fields h resp h' : plain c fields h = (Ret resp, h') -> code resp = c.
Proof. rewrite plain_run. destruct (dump _); [|done..]. by intros [= <- _]. Qed.

Lemma invalid_code what h resp h' : invalid_request what h = (Ret resp, h') -> code resp = 400.
Proof. apply plain_code. Qed.

Lemma limited_code z h resp h' : limited_answer z h = (Ret resp, h') -> code resp = 429.
Proof. unfold limited_answer, cbind, clift. destruct (dump _); [|done..]. by intros [= <- _]. Qed.

(** A refusal that is written out. *)
Lemma refuse_fine s i call c fields : refusal call c -> next_fine s i call (Answer (plain c fields)).
Proof. intros Hc. split; [auto with titanx|]. intros resp h h' E. by rewrite (plain_code _ _ _ _ _ E). Qed.

Lemma authenticated_ok connected t i call r req refuse next s r' s2 :
  http_ok connected t s -> ht_requests s !! i = Some (call, r) -> i ∉ ht_owner s -> refusal call 401 ->
  (forall claims now, bearer req now (c_accountId claims) -> next_fine s i call (next claims)) ->
  authenticated i req refuse next s = (r', s2) -> http_ok connected t (at_request i call r' s2).
Proof.
  intros Hok Hi Hown Hc Hn E. unfold authenticated in E.
  eapply after_ok; [exact Hok|exact Hi|exact Hown|apply local_authenticate| |exact E].
  intros [authed claims] h h' Ea.
  destruct (authenticate_cases req h) as (authed0 & claims0 & t0 & Ec & Hb).
  rewrite Ea in Ec. injection Ec as <- <- _. destruct authed; cbn [negb]; [eauto|by apply refuse_fine].
Qed.

Lemma cancel_fine s i req id claims now :
  bearer req now (c_accountId claims) -> next_fine s i (DeleteOrder req id) (cancel_call req id claims).
Proof.
  intros Hb. unfold cancel_call. destruct (url_params req !! "symbol") as [param|] eqn:Hp.
  - split_and!; try done. exists req, now, (c_accountId claims), param. done.
  - apply refuse_fine. cbn. auto.
Qed.

Lemma entered_ok connected t i call s r' s2 :
  http_ok connected t s -> ht_requests s !! i = Some (call, Entered call) -> i ∉ ht_owner s ->
  entered i call s = (r', s2) -> http_ok connected t (at_request i call r' s2).
Proof.
  intros Hok Hi Hown E. pose proof (moved_refl _ _ _ Hok) as Hmv.
  destruct call as [req|req|req id|req sym|req|req|req]; cbn [entered] in E.
  - eapply proceed_ok; [exact Hok|exact Hi|exact Hown|exact Hmv| |exact E]. by split; [apply local_login|].
  - eapply authenticated_ok; [exact Hok|exact Hi|exact Hown|by left| |exact E].
    intros claims now Hb. cbn. eauto.
  - eapply authenticated_ok; [exact Hok|exact Hi|exact Hown|by left| |exact E].
    intros claims now Hb. by eapply cancel_fine.
  - eapply proceed_ok; [exact Hok|exact Hi|exact Hown|exact Hmv| |exact E]. split_and!; try done. by exists req.
  - eapply after_ok; [exact Hok|exact Hi|exact Hown|apply local_isHalted| |exact E]. cbn. eauto.
  - eapply authenticated_ok; [exact Hok|exact Hi|exact Hown|done| |exact E].
    intros claims now Hb. split_and!; try done. by exists req, now.
  - eapply authenticated_ok; [exact Hok|exact Hi|exact Hown|done| |exact E].
    intros claims now Hb. split_and!; try done. by exists req, now, (c_accountId claims).
Qed.

(** The order that the [try] block makes. *)
Lemma create_fine claims req h o h' now :
  bearer req now (c_accountId claims) -> read_and_create claims req h = (Ret (inl o), h') ->
  incoming_ok o /\ pending_ok (PostOrder req) (AwaitOrder o).
Proof.
  intros Hb. unfold read_and_create, ccatch, cbind, clift.
  destruct (read_order req) as [ord|what|] eqn:Er; [|done..]. unfold in_env.
  destruct (create_order (c_accountId claims) ord (http_time h)) as [[o'|what|] t] eqn:Eo; [|done..].
  intros [= -> _]. destruct (read_order_ok req ord Er) as [Hu Hq].
  destruct (create_order_ok _ _ _ _ _ Eo Hu Hq) as (Hin & _ & Hacct). split; [done|].
  exists req, now, ord, (http_time h). rewrite Hacct, Eo. done.
Qed.

Lemma reading_ok connected t i claims req s r' s2 :
  http_ok connected t s -> ht_requests s !! i = Some (PostOrder req, Reading claims req) ->
  i ∉ ht_owner s -> (exists now, bearer req now (c_accountId claims)) ->
  req_turn i (Reading claims req) s = Some (r', s2) -> http_ok connected t (at_request i (PostOrder req) r' s2).
Proof.
  intros Hok Hi Hown [now Hb] E. cbn [req_turn] in E. apply (inj Some) in E.
  eapply after_ok; [exact Hok|exact Hi|exact Hown|apply local_create| |exact E].
  intros [o|what] h h' Em.
  - destruct (create_fine _ _ _ _ _ _ Hb Em) as [Hin Hp]. split_and!; try done; [by intros ? [= <-]|by left].
  - split; [apply local_invalid|]. intros resp h1 h2 Er. rewrite (invalid_code _ _ _ _ Er). cbn. auto.
Qed.

Lemma engine_turn_ok connected t i call j k s r' s2 :
  http_ok connected t s -> ht_requests s !! i = Some (call, InEngine j k) ->
  req_turn i (InEngine j k) s = Some (r', s2) -> http_ok connected t (at_request i call r' s2).
Proof.
  intros Hok Hi E. pose proof (ho_requests _ _ _ Hok _ _ _ Hi) as (Ho & Hp & c & Hj & Hs).
  cbn [req_turn] in E. rewrite Hj in E. destruct (ended c) eqn:He.
  - destruct (engine_answer k c) as [m|] eqn:Ea; [|done]. cbn [proceed] in E.
    destruct (local m s) as [r0 s1] eqn:El. injection E as <- <-.
    destruct (local_moved _ _ _ _ _ _ _ (local_answer _ _ _ Ea) (moved_refl _ _ _ Hok) El)
      as [[Hen Hc Hown Hr] (h & h' & Em)].
    eapply request_moves; [exact Hok|exact Hi|done|done| | | | |]; rewrite ?Hc, ?Hown;
      [apply Hok|apply same_calls_grow|done|intros ? ? ? [= <- <-]; congruence|].
    destruct r0 as [resp|what|]; [|done..]. right. by exists j, k, c, m, h, h'.
  - destruct (take_turn j (ht_engine s)) as [ts|] eqn:Et; [|done]. injection E as <- <-.
    assert (threads_ok (ht_engine s)) as Hth by (eapply reachable_ok, sys_reachable_threads, Hok).
    destruct (take_turn_inv _ _ _ (bk_stops _ (to_books _ Hth)) Et) as
      (c0 & c' & sh & Hj0 & _ & -> & _ & _ & _ & Hgo). rewrite Hj in Hj0. injection Hj0 as <-.
    assert (j < length (ts_calls (ht_engine s)))%nat as Hlt by (by eapply lookup_lt_Some).
    eapply request_moves; [exact Hok|exact Hi|done| | | | | |]; cbn [ht_engine ht_owner ts_calls].
    + eapply rtc_r; [apply Hok|]. by eapply sys_turn.
    + rewrite length_insert. apply Hok.
    + split; [by left|]. intros j' d Hd. destruct (decide (j = j')) as [<-|Hne].
      * exists c'. rewrite list_lookup_insert_eq by done. rewrite Hj in Hd. injection Hd as <-. auto.
      * exists d. rewrite list_lookup_insert_ne by done. auto.
    + done.
    + done.
    + cbn. split_and!; [done|done|]. exists c'. rewrite list_lookup_insert_eq by done. split; [done|].
      by eapply serves_turn.
Qed.

Lemma http_turn_ok connected t i s s' :
  http_turn i s = Some s' -> http_ok connected t s -> http_ok connected t s'.
Proof.
  intros E Hok. unfold http_turn in E. destruct (ht_requests s !! i) as [[call r]|] eqn:Hi; [|done].
  destruct (req_turn i r s) as [[r' s2]|] eqn:Er; [|done]. injection E as <-.
  fold (at_request i call r' s2). pose proof (ho_requests _ _ _ Hok _ _ _ Hi) as Hr.
  destruct r as [call'|claims req|claims|claims req|j k|h|h h'|o]; cbn [req_ok] in Hr.
  - destruct Hr as [-> Hown]. apply (inj Some) in Er. by eapply entered_ok.
  - destruct Hr as (-> & Hown & Hb). cbn [req_turn] in Er. apply (inj Some) in Er.
    eapply after_ok; [exact Hok|exact Hi|exact Hown|apply local_acquire| |exact Er].
    intros [|] h h' _; cbn; eauto.
  - destruct Hr as ([req ->] & Hown). cbn [req_turn] in Er. apply (inj Some) in Er.
    eapply after_ok; [exact Hok|exact Hi|exact Hown|apply local_retry| |exact Er].
    intros z h h' _. split; [apply local_limited|]. intros resp h1 h2 El. rewrite (limited_code _ _ _ _ El). cbn. auto.
  - destruct Hr as (-> & Hown & Hb). by eapply reading_ok.
  - by eapply engine_turn_ok.
  - destruct Hr as ([req ->] & Hown). cbn [req_turn] in Er. apply (inj Some) in Er.
    eapply after_ok; [exact Hok|exact Hi|exact Hown|apply local_isHalted| |exact Er]. cbn. eauto.
  - destruct Hr as ([req ->] & Hown). cbn [req_turn] in Er. apply (inj Some) in Er.
    eapply after_ok; [exact Hok|exact Hi|exact Hown|apply local_haltStatus| |exact Er].
    intros halts h1 h2 _. split; [apply local_typed|done].
  - done.
Qed.

Lemma arrival_ok connected t call s :
  http_ok connected t s ->
  http_ok connected t
    (mkHttpThreads (ht_engine s) (ht_buckets s) (ht_requests s ++ [(call, Entered call)]) (ht_owner s)).
Proof.
  intros [He Hl Hn Hk Hr Hc Hw]. split; cbn [ht_engine ht_owner ht_requests]; try done.
  - eapply Forall_impl; [exact Hk|]. intros i Hi. rewrite length_app. cbn in *. lia.
  - intros i call' r [Hi|[Hge Hi]]%lookup_app_Some; [auto|].
    apply list_lookup_singleton_Some in Hi as [Hi [= <- <-]].
    split; [done|]. intros Hin. rewrite Forall_forall in Hk. specialize (Hk _ Hin). cbn in Hk. lia.
  - intros j i c Hj Hjc. destruct (Hc j i c Hj Hjc) as (call0 & r & k & Hi & Hp & Hs).
    exists call0, r, k. split; [|done]. by apply lookup_app_l_Some.
  - intros j i c Hj Hjc Hec. destruct (Hw j i c Hj Hjc Hec) as (call0 & k & Hi).
    exists call0, k. by apply lookup_app_l_Some.
Qed.

Lemma http_reachable_ok connected t s : http_reachable connected t s -> http_ok connected t s.
Proof.
  apply (rtc_ind_r (http_ok connected t)).
  - split; try done; [apply rtc_refl|constructor..].
  - intros s1 s2 _ [i s3 s4 E|call s3] Hok; [by eapply http_turn_ok|by apply arrival_ok].
Qed.
End Invariant.
