(* ===== verification/HttpThreadsClaims.v ===== *)
(** What overlapping requests are promised: behind the gateway the engine runs as in
    EngineThreads.v, and every response tells the result of the request's own call. *)

From Stdlib Require Import ZArith Lia.
From stdpp Require Import base numbers gmap strings list pretty relations.
From S2P Require Import Prelude Text Model OrderBook Matching BookSpec BookInvariant Fixtures Events Json CircuitBreaker RiskEngine RedisPositionCache MatchingEngine EngineInvariant EngineTheorems Wiring System SystemClaims EngineThreads ThreadsInvariant ThreadsBooks ThreadsClaims ThreadsProgress ThreadsTrail RateLimiter JwtTokenService HttpServer HttpTheorems HttpClaims HttpThreads HttpThreadsFacts.

Local Open Scope Z_scope.
Local Open Scope cpp_scope.

(** * What the responses tell *)

Section Responses.
Context `{Env} `{RedisServer} `{JsonPrinter} `{JsonParserLaws} `{JwtLaws}.













(** C21: overlapping requests reach the exchange only as calls of the engine.  However the
    requests of the gateway overlap, the engine behind it is in a state that overlapping
    calls on the wired system reach, so that what is proved of those (sound books,
    linearizability, exact trails) holds behind the gateway.  Every call was made by
    exactly one request, and no request makes two; an order carries the account of a
    verified token of its request and what the body of the request said, and
    cancellations, halts and resumptions come from requests with a verified token. *)
Theorem overlapping_requests_refine connected t s :
  http_reachable connected t s ->
  sys_reachable connected t (ht_engine s) /\
  NoDup (ht_owner s) /\ length (ht_owner s) = length (ts_calls (ht_engine s)) /\
  forall j c, ts_calls (ht_engine s) !! j = Some c ->
    exists i call r k, ht_owner s !! j = Some i /\ ht_requests s !! i = Some (call, r) /\
      pending_ok call k /\ serves k c.
Proof.
  intros Hok%http_reachable_ok. split_and!; [apply Hok..|]. intros j c Hj.
  assert (exists i, ht_owner s !! j = Some i) as [i Ho].
  { apply lookup_lt_is_Some. rewrite (ho_length _ _ _ Hok). by eapply lookup_lt_Some. }
  destruct (ho_calls _ _ _ Hok _ _ _ Ho Hj) as (call & r & k & Hi & Hp & Hs). eauto 10.
Qed.

End Responses.

(** * Concrete requests *)

Section HttpThreadsWitnesses.
#[local] Existing Instance second_env.
#[local] Existing Instance counter_server.
#[local] Existing Instance demo_json.
#[local] Existing Instance demo_parser.
#[local] Existing Instance demo_parser_laws.
#[local] Existing Instance demo_jwt.
#[local] Existing Instance demo_jwt_laws.

(** Which request takes the next turn; requests that wait keep waiting. *)
Fixpoint http_run (schedule : list nat) (s : HttpThreads) : HttpThreads :=
  match schedule with
  | [] => s
  | i :: schedule => http_run schedule (default s (http_turn i s))
  end.

Lemma http_run_steps schedule s : rtc http_threads_step s (http_run schedule s).
Proof.
  revert s. induction schedule as [|i schedule IH]; intros s; [apply rtc_refl|]. cbn [http_run].
  destruct (http_turn i s) as [s'|] eqn:E; cbn; [|apply IH].
  eapply rtc_l; [by eapply http_takes_turn|apply IH].
Qed.

(** After the authentication of the order. *)
Definition order_admitted (token : string) : HttpThreads :=
  mkHttpThreads
    (mkThreads (mkShared (h_sys (at_time 1 start)) ∅) [] []) ∅
    [(PostOrder (sell_request token), Limiting (trader "acc1") (sell_request token));
     (GetOrderbook (mkRequest "" "" ∅) "aapl", Entered (GetOrderbook (mkRequest "" "" ∅) "aapl"))] [].

Lemma order_admitted_reachable token :
  generateAccessToken "acc1" ["READ"; "TRADE"] 0%nat = (Ret token, 1%nat) ->
  http_reachable true 0 (order_admitted token).
Proof.
  intros E. unfold http_reachable.
  eapply rtc_l; [apply (http_arrives (PostOrder (sell_request token)))|].
  eapply rtc_l; [apply (http_arrives (GetOrderbook (mkRequest "" "" ∅) "aapl"))|].
  apply rtc_once, (http_takes_turn 0).
  pose proof (trader_authenticates "acc1" token ∅ "sell" start E
                ltac:(change (http_time start) with 0%nat; lia)) as Ha.
  unfold http_turn, http_threads_start, order_admitted.
  cbn [ht_requests app lookup list_lookup req_turn entered].
  unfold authenticated, after, local.
  change (http_view _) with start. unfold sell_request. rewrite Ha. reflexivity.
Qed.

(** The query first finds no book; the order is submitted; a turn each. *)
Definition order_then_query : list nat := [0; 1; 0; 1]%nat ++ replicate 25 0%nat ++ replicate 5 1%nat.

Lemma order_served_reachable token :
  generateAccessToken "acc1" ["READ"; "TRADE"] 0%nat = (Ret token, 1%nat) ->
  http_reachable true 0 (http_run order_then_query (order_admitted token)).
Proof. intros E. unfold http_reachable. etrans; [by apply order_admitted_reachable|apply http_run_steps]. Qed.
Lemma overlapping_requests_refine_witness :
  exists token s, length (ts_calls (ht_engine s)) = 2%nat /\
    http_reachable true 0 s /\ sys_reachable true 0 (ht_engine s) /\ s = http_run order_then_query (order_admitted token).
Proof.
  destruct (issue_access "acc1" ["READ"; "TRADE"] 0%nat) as [token E].
  exists token, (http_run order_then_query (order_admitted token)). split; [vm_compute; reflexivity|].
  pose proof (order_served_reachable token E) as Hr. split_and!; [exact Hr| |reflexivity].
  apply (overlapping_requests_refine true 0 _ Hr).
Defined.




End HttpThreadsWitnesses.
