(* ===== verification/HttpThreadsAnswers.v ===== *)
(** Overlapping requests come to an end: the turns of the handlers terminate, and every
    request is answered as long as the circuit breaker does not trip. *)

From Stdlib Require Import ZArith Lia.
From stdpp Require Import base numbers gmap strings list pretty relations.
From S2P Require Import Prelude Text Model Double Prices OrderBook Matching BookSpec BookInvariant Fixtures Events Json CircuitBreaker RiskEngine RedisPositionCache MatchingEngine EngineInvariant EngineTheorems Wiring System SystemClaims EngineThreads ThreadsInvariant ThreadsBooks ThreadsClaims ThreadsProgress ThreadsTrail ThreadsDeadlock RateLimiter JwtTokenService HttpServer HttpTheorems HttpClaims HttpThreads HttpThreadsFacts HttpThreadsClaims.

Local Open Scope Z_scope.
Local Open Scope cpp_scope.

(** * Termination *)

(** The steps that a handler has still to make outside the engine. *)
Definition req_rank (r : Req) : Z :=
  match r with
  | Entered _ => 4
  | Limiting _ _ => 3
  | Reading _ _ | HealthAgain _ => 2
  | Limited _ | InEngine _ _ | HealthBreakers _ _ => 1
  | Answered _ => 0
  end.

Definition next_rank (n : Next) : Z :=
  match n with Goto r => req_rank r | Answer _ => 0 | CallEngine _ _ => 1 end.

Section Termination.
Context `{Env} `{RedisReplies} `{JsonPrinterEnds} `{JsonParserLaws} `{JwtLaws}.

Definition http_next (s' s : HttpThreads) : Prop := exists i, http_turn i s = Some s'.

Definition req_ranks (s : HttpThreads) : Z := sum_of (fun p => req_rank p.2) (ht_requests s).

Lemma local_requests {A} (m : cpp HttpState A) s : ht_requests (local m s).2 = ht_requests s.
Proof. unfold local. by destruct (m (http_view s)). Qed.

Lemma proceed_rank i n s :
  ht_requests (proceed i n s).2 = ht_requests s /\ req_rank (proceed i n s).1 = next_rank n.
Proof.
  destruct n as [r|m|c k]; cbn; try done. pose proof (local_requests m s) as Hr.
  destruct (local m s) as [r s1]. done.
Qed.

Lemma after_rank {A} i (m : cpp HttpState A) next s n :
  0 < n -> (forall a, next_rank (next a) < n) ->
  ht_requests (after i m next s).2 = ht_requests s /\ req_rank (after i m next s).1 < n.
Proof.
  intros Hn Hnext. unfold after. pose proof (local_requests m s) as Hr.
  destruct (local m s) as [[a|what|] s1]; cbn in *; [|done..].
  destruct (proceed_rank i (next a) s1) as [-> ->]. auto.
Qed.

Lemma authenticated_rank i req refuse next s n :
  0 < n -> (forall claims, next_rank (next claims) < n) ->
  ht_requests (authenticated i req refuse next s).2 = ht_requests s /\
  req_rank (authenticated i req refuse next s).1 < n.
Proof.
  intros Hn Hnext. apply after_rank; [done|]. intros [authed claims]. destruct authed; cbn [negb next_rank]; [apply Hnext|exact Hn].
Qed.

Lemma entered_rank i call s :
  ht_requests (entered i call s).2 = ht_requests s /\ req_rank (entered i call s).1 < 4.
Proof.
  destruct call as [req|req|req id|req sym|req|req|req]; cbn [entered].
  - destruct (proceed_rank i (Answer (login req)) s) as [-> ->]. done.
  - by apply authenticated_rank.
  - apply authenticated_rank; [done|]. intros claims. unfold cancel_call. by case_match.
  - done.
  - by apply after_rank.
  - by apply authenticated_rank.
  - by apply authenticated_rank.
Qed.

Lemma req_turn_rank i r s r' s' :
  req_turn i r s = Some (r', s') ->
  ht_requests s' = ht_requests s /\
  (req_rank r' < req_rank r \/ r' = r /\ turns_to (ht_engine s') (ht_engine s)).
Proof.
  assert (forall p n, ht_requests p.2 = ht_requests s /\ req_rank p.1 < n -> Some p = Some (r', s') ->
    ht_requests s' = ht_requests s /\ (req_rank r' < n \/ r' = r /\ turns_to (ht_engine s') (ht_engine s)))
    as Hlow by (intros p n [Hq Hr] [= ->]; auto).
  destruct r as [call|claims req|claims|claims req|j k|h|h h'|o]; cbn [req_turn]; try discriminate.
  - apply Hlow, entered_rank.
  - apply Hlow, after_rank; [done|]. by intros [].
  - by apply Hlow, after_rank.
  - apply Hlow, after_rank; [done|]. by intros [].
  - destruct (ts_calls (ht_engine s) !! j) as [c|]; [|done]. destruct (ended c).
    + destruct (engine_answer k c) as [m|]; [|done]. apply Hlow.
      destruct (proceed_rank i (Answer m) s) as [-> ->]. done.
    + destruct (take_turn j (ht_engine s)) as [ts|] eqn:E; [|done]. intros [= <- <-].
      split; [done|]. right. split; [done|]. by exists j.
  - by apply Hlow, after_rank.
  - by apply Hlow, after_rank.
Qed.

Lemma http_terminates connected t s : http_ok connected t s -> Acc http_next s.
Proof.
  apply (Acc_rank http_next turns_to (http_ok connected t) req_ranks ht_engine).
  - intros s1 Hok. apply turns_terminate. eapply reachable_ok, sys_reachable_threads, Hok.
  - intros s1 s2 Hok [i E]. split; [by eapply http_turn_ok|].
    split; [apply sum_of_nonneg; intros [? r]; by destruct r|].
    unfold http_turn in E. destruct (ht_requests s1 !! i) as [[call r]|] eqn:Hi; [|done].
    destruct (req_turn i r s1) as [[r' s3]|] eqn:Er; [|done]. injection E as <-.
    destruct (req_turn_rank _ _ _ _ _ Er) as [Hrq Hr]. unfold req_ranks. cbn [ht_requests ht_engine].
    rewrite Hrq, (sum_of_insert _ _ _ _ _ Hi). cbn [snd]. destruct Hr as [Hr|[-> Ht]]; [left|right]; auto with lia.
Qed.

(** * Answers *)

Lemma ended_waits c (s : Shared (RiskEngine * CircuitBreaker) Ext) : ended c = true -> turn c s = None.
Proof. by destruct c. Qed.

(** The answer to a request whose call has ended, unless it is blocked for ever. *)
Lemma engine_answers k c :
  serves k c -> ended c = true -> c <> Stuck -> is_Some (engine_answer k c).
Proof.
  destruct k; [|destruct c; cbn; try done; eauto..].
  intros [Ho|[->|[what ->]]] He Hc; [|done|eexists; reflexivity].
  destruct c; try discriminate; eexists; reflexivity.
Qed.

Lemma http_rest connected t s :
  http_ok connected t s -> (forall i, http_turn i s = None) ->
  cb_mutex_ (risk_of (ht_engine s)).2 = false ->
  Forall (fun p => exists o, p.2 = Answered o) (ht_requests s).
Proof.
  intros Hok Hno Hcb.
  assert (forall i call r, ht_requests s !! i = Some (call, r) -> req_turn i r s = None) as Hreq.
  { intros i call r Hi. specialize (Hno i). unfold http_turn in Hno. rewrite Hi in Hno.
    by destruct (req_turn i r s) as [[r' s']|]. }
  destruct (sys_breaker_ok _ _ _ (ho_engine _ _ _ Hok)) as [Ht|[_ Hstuck]]; [unfold tripped in Ht; congruence|].
  assert (Forall (fun c => ended c = true) (ts_calls (ht_engine s))) as Hend.
  { apply progress; [apply (to_locks _ (proj1 (sys_reachable_ok _ _ _ (ho_engine _ _ _ Hok))))|].
    intros j. unfold take_turn. destruct (ts_calls (ht_engine s) !! j) as [c|] eqn:Hj; [|done].
    destruct (ended c) eqn:He; [by rewrite ended_waits|].
    assert (exists i, ht_owner s !! j = Some i) as [i Ho].
    { apply lookup_lt_is_Some. rewrite (ho_length _ _ _ Hok). by eapply lookup_lt_Some. }
    destruct (ho_waits _ _ _ Hok _ _ _ Ho Hj He) as (call & k & Hi).
    specialize (Hreq _ _ _ Hi). cbn [req_turn] in Hreq. rewrite Hj, He in Hreq. unfold take_turn in Hreq.
    rewrite Hj in Hreq. by destruct (turn c _) as [[c' sh]|]. }
  apply Forall_lookup_2. intros i [call r] Hi. specialize (Hreq _ _ _ Hi).
  pose proof (ho_requests _ _ _ Hok _ _ _ Hi) as Hr.
  destruct r as [call'|claims req|claims|claims req|j k|h|h h'|o]; try discriminate Hreq; [|by eexists].
  destruct Hr as (_ & _ & c & Hj & Hs). exfalso. cbn [req_turn] in Hreq.
  pose proof (Forall_lookup_1 _ _ _ _ Hend Hj) as He. pose proof (Forall_lookup_1 _ _ _ _ Hstuck Hj) as Hc.
  rewrite Hj, He in Hreq. by destruct (engine_answers k c Hs He Hc) as [m Em]; rewrite Em in Hreq.
Qed.
End Termination.

(** * Local calls end *)

(** The calls on nlohmann-json and on jwt-cpp return or throw. *)
Class LibrariesEnd `{JsonPrinter} `{JsonParser} `{JwtLib} : Prop := {
  printer_ends :: JsonPrinterEnds;
  parse_ends text : parse text <> Hang;
  value_string_ends d key : value_string d key <> Hang;
  value_int_ends d key : value_int d key <> Hang;
  get_string_ends d : get_string d <> Hang;
  get_double_ends d : get_double d <> Hang;
  sign_ends secret p : jwt_sign secret p <> Hang
}.

(** The call blocks only when the circuit breaker has tripped. *)
Definition breaker_free (h : HttpState) : Prop := cb_mutex_ (w_risk (h_sys h).2).2 = false.

Definition ends {A} (m : cpp HttpState A) : Prop := forall h, breaker_free h -> (m h).1 <> Hang.

Lemma untouched_free h h' : untouched h h' -> breaker_free h -> breaker_free h'.
Proof. intros [t Ht]. unfold breaker_free. by rewrite Ht. Qed.

Lemma ends_bind {A B} (m : cpp HttpState A) (k : A -> cpp HttpState B) :
  time_only m -> ends m -> (forall a, ends (k a)) -> ends (cbind m k).
Proof.
  intros Hm He Hk h Hf. specialize (He h Hf). pose proof (untouched_free _ _ (Hm h) Hf) as Hf1.
  unfold cbind. destruct (m h) as [[a| |] h1]; cbn in *; [|done..]. by apply Hk.
Qed.

Lemma ends_catch {A} (m : cpp HttpState A) (k : string -> cpp HttpState A) :
  time_only m -> ends m -> (forall e, ends (k e)) -> ends (ccatch m k).
Proof.
  intros Hm He Hk h Hf. specialize (He h Hf). pose proof (untouched_free _ _ (Hm h) Hf) as Hf1.
  unfold ccatch. destruct (m h) as [[a| |] h1]; cbn in *; [done| |done]. by apply Hk.
Qed.

Lemma ends_ret {A} (a : A) : ends (cret a).
Proof. done. Qed.

Lemma ends_lift {A} (r : outcome A) : r <> Hang -> ends (clift r).
Proof. by intros Hr h _. Qed.

Lemma ends_env {A} (m : cpp nat A) : (forall t, (m t).1 <> Hang) -> ends (in_env m).
Proof. intros Hm h _. unfold in_env. specialize (Hm (http_time h)). by destruct (m (http_time h)). Qed.

Lemma obind_ends {A B} (r : outcome A) (k : A -> outcome B) :
  r <> Hang -> (forall a, k a <> Hang) -> obind r k <> Hang.
Proof. destruct r; cbn; auto. Qed.

#[export] Hint Resolve ends_ret ends_lift ends_env parse_ends value_string_ends value_int_ends
  get_string_ends get_double_ends sign_ends obind_ends : titanx.

Ltac ending :=
  repeat first
    [ solve [eauto with titanx]
    | apply ends_bind; [locally| |intros]
    | apply ends_catch; [locally| |intros]
    | progress (cbv zeta)
    | case_match ].

Section Ends.
Context `{Env} `{RedisReplies} `{LibrariesEnd} `{!JsonParserLaws} `{!JwtLaws}.

Lemma print_ends j : dump j <> Hang.
Proof. apply dump_ends. Qed.

#[local] Hint Resolve print_ends : titanx.

Lemma stod_ends s : stod s <> Hang.
Proof. unfold stod, stod_result. by repeat case_match. Qed.

Lemma read_price_ends body key : read_price body key <> Hang.
Proof.
  unfold read_price, price_to_fixed_str. repeat case_match; [| |done].
  - apply obind_ends; [eauto with titanx|]. intros text. by apply obind_ends; [apply stod_ends|].
  - by apply obind_ends; [eauto with titanx|].
Qed.

Lemma read_order_ends req : read_order req <> Hang.
Proof.
  unfold read_order, order_side_from_string, order_type_from_string.
  repeat (apply obind_ends; [eauto using read_price_ends with titanx|intros]); try by repeat case_match.
Qed.

Lemma ends_plain c fields : ends (plain c fields).
Proof. unfold plain. ending. Qed.

Lemma ends_typed c j : ends (typed c j).
Proof. unfold typed. ending. Qed.

#[local] Hint Resolve ends_plain ends_typed : titanx.

Lemma ends_authenticate req : ends (authenticate req).
Proof. intros h _. by destruct (authenticate_cases req h) as (? & ? & ? & -> & _). Qed.

Lemma ends_invalid what : ends (invalid_request what).
Proof. unfold invalid_request. ending. Qed.

#[local] Hint Resolve ends_invalid : titanx.

Lemma ends_login req : ends (login req).
Proof.
  unfold login, login_body. ending; apply ends_env; intros t; cbn; eauto with titanx.
Qed.

Lemma ends_limited z : ends (limited_answer z).
Proof. unfold limited_answer. ending. Qed.

Lemma ends_create claims req : ends (read_and_create claims req).
Proof.
  unfold read_and_create. ending; apply ends_lift, read_order_ends.
Qed.

Lemma ends_answer k c m : engine_answer k c = Some m -> ends m.
Proof.
  destruct k, c; try discriminate; intros [= <-]; unfold order_answer; ending.
  apply ends_lift. unfold OrderBookSnapshot_to_json, price_or_null. by case_match.
Qed.

Lemma ends_acquire acct ep : ends (rateLimiter_tryAcquire acct ep).
Proof. intros h _. unfold rateLimiter_tryAcquire. by destruct (tryAcquire _ _ _ _) as [[g bs] t]. Qed.

Lemma ends_retry acct ep : ends (rateLimiter_retryAfterSeconds acct ep).
Proof. intros h _. unfold rateLimiter_retryAfterSeconds. by destruct (retryAfterSeconds _ _ _ _) as [z t]. Qed.

Lemma ends_isHalted : ends (in_system engine_isHalted).
Proof. intros [[e w] bs] _. done. Qed.

Lemma ends_haltStatus : ends circuitBreaker_haltStatus.
Proof.
  intros [[e [[re cb] x t]] bs] Hf. unfold breaker_free in Hf. cbn in Hf.
  unfold circuitBreaker_haltStatus, in_system, haltStatus, cb_lock. cbn. by rewrite Hf.
Qed.
(** ** Along the turns *)

Lemma local_risk {A} (m : cpp HttpState A) s :
  time_only m -> risk_of (ht_engine (local m s).2) = risk_of (ht_engine s).
Proof.
  intros Hm. destruct (Hm (http_view s)) as [t Ht]. unfold local.
  destruct (m (http_view s)) as [r h]. cbn in *. unfold risk_of. cbn. by rewrite Ht.
Qed.

(** The handler goes on to a call that ends, and the mutexes are as before. *)
Definition goes_on (n : Next) : Prop :=
  match n with Goto r => r <> Answered Hang | Answer m => time_only m /\ ends m | CallEngine _ _ => True end.

Definition keeps_breaker (s : HttpThreads) (p : Req * HttpThreads) : Prop :=
  risk_of (ht_engine p.2) = risk_of (ht_engine s) /\
  (cb_mutex_ (risk_of (ht_engine s)).2 = false -> p.1 <> Answered Hang).

Lemma proceed_ends i n s : goes_on n -> keeps_breaker s (proceed i n s).
Proof.
  destruct n as [r|m|c k]; cbn; [by split| |by split]. intros [Hm He].
  pose proof (local_risk m s Hm) as Hr. unfold keeps_breaker. specialize (He (http_view s)).
  unfold local in *. destruct (m (http_view s)) as [r h]. cbn in *. split; [done|].
  intros Hf [= ->]. by apply He.
Qed.

Lemma after_ends {A} i (m : cpp HttpState A) next s :
  time_only m -> ends m -> (forall a, goes_on (next a)) -> keeps_breaker s (after i m next s).
Proof.
  intros Hm He Hn. unfold after. pose proof (local_risk m s Hm) as Hr. specialize (He (http_view s)).
  unfold local in *. destruct (m (http_view s)) as [[a|what|] h]; cbn in *; [|split; done|split; [done|]].
  - destruct (proceed_ends i (next a) (put_view h s) (Hn a)) as [E Hf].
    split; [exact (eq_trans E Hr)|]. intros Hf0. apply Hf.
    exact (eq_trans (f_equal (fun r => cb_mutex_ r.2) Hr) Hf0).
  - intros Hf. by destruct (He Hf).
Qed.

Lemma authenticated_ends i req refuse next s :
  (forall claims, goes_on (next claims)) -> keeps_breaker s (authenticated i req refuse next s).
Proof.
  intros Hn. apply after_ends; [auto with titanx|apply ends_authenticate|].
  intros [[|] claims]; cbn [negb]; [apply Hn|]. split; [auto with titanx|apply ends_plain].
Qed.

Lemma entered_ends i call s : keeps_breaker s (entered i call s).
Proof.
  destruct call as [req|req|req id|req sym|req|req|req]; cbn [entered].
  - apply proceed_ends. split; [auto with titanx|apply ends_login].
  - by apply authenticated_ends.
  - apply authenticated_ends. intros claims. unfold cancel_call. case_match; [done|].
    split; [auto with titanx|apply ends_plain].
  - by apply proceed_ends.
  - apply after_ends; [auto with titanx|apply ends_isHalted|done].
  - by apply authenticated_ends.
  - by apply authenticated_ends.
Qed.

Lemma req_turn_ends connected t i r s r' s' :
  http_ok connected t s -> req_turn i r s = Some (r', s') ->
  cb_mutex_ (risk_of (ht_engine s')).2 = false ->
  cb_mutex_ (risk_of (ht_engine s)).2 = false /\ r' <> Answered Hang.
Proof.
  intros Hok E Hf.
  assert (forall p, Some p = Some (r', s') -> keeps_breaker s p ->
    cb_mutex_ (risk_of (ht_engine s)).2 = false /\ r' <> Answered Hang) as Hlocal.
  { intros p [= ->] [Hr Hh]. cbn in *. rewrite Hr in Hf. auto. }
  destruct r as [call|claims req|claims|claims req|j k|h|h h'|o]; cbn [req_turn] in E;
    [eapply Hlocal; [exact E|]..| |eapply Hlocal; [exact E|]|eapply Hlocal; [exact E|]|done].
  - apply entered_ends.
  - apply after_ends; [auto with titanx|apply ends_acquire|]. by intros [|].
  - apply after_ends; [auto with titanx|apply ends_retry|]. intros z. split; [auto with titanx|apply ends_limited].
  - apply after_ends; [auto with titanx|apply ends_create|].
    intros [o|what]; [done|]. split; [auto with titanx|apply ends_invalid].
  - destruct (ts_calls (ht_engine s) !! j) as [c|] eqn:Hj; [|done]. destruct (ended c) eqn:He.
    + destruct (engine_answer k c) as [m|] eqn:Ea; [|done]. eapply Hlocal; [exact E|].
      apply proceed_ends. split; [by eapply local_answer|by eapply ends_answer].
    + destruct (take_turn j (ht_engine s)) as [ts|] eqn:Et; [|done]. injection E as <- <-. split; [|done].
      destruct (sys_reachable_ok _ _ _ (ho_engine _ _ _ Hok)) as [Hth (events & fills & Hw)].
      pose proof (bk_stops _ (to_books _ Hth)) as Hst.
      destruct (take_turn_inv _ _ _ Hst Et) as (c0 & c' & sh & _ & Eturn & -> & _).
      assert (wired_sys (sh_state (ts_shared (ht_engine s)))) as Hwired by apply Hw.
      destruct (turn_mutexes_ok _ _ _ _ Hwired Hst Eturn) as [Ht _]. unfold tripped in Ht.
      apply not_true_is_false. intros Hb. cbn in Hf. unfold risk_of in *. cbn in *. rewrite Ht in Hf; done.
  - apply after_ends; [auto with titanx|apply ends_isHalted|done].
  - apply after_ends; [auto with titanx|apply ends_haltStatus|]. intros halts. split; [auto with titanx|apply ends_typed].
Qed.

(** A request that is blocked for ever, outside the engine. *)
Definition none_blocked (s : HttpThreads) : Prop :=
  cb_mutex_ (risk_of (ht_engine s)).2 = false ->
  Forall (fun p => p.2 <> Answered Hang) (ht_requests s).

Lemma http_turn_ends connected t i s s' :
  http_ok connected t s -> none_blocked s -> http_turn i s = Some s' -> none_blocked s'.
Proof.
  intros Hok Hn E Hf. unfold http_turn in E.
  destruct (ht_requests s !! i) as [[call r]|] eqn:Hi; [|done].
  destruct (req_turn i r s) as [[r' s1]|] eqn:Er; [|done]. injection E as <-. cbn in *.
  destruct (req_turn_ends _ _ _ _ _ _ _ Hok Er Hf) as [Hf0 Hr].
  destruct (req_turn_rank _ _ _ _ _ Er) as [-> _]. apply Forall_insert; [by apply Hn|done].
Qed.

Lemma http_reachable_ends connected t s : http_reachable connected t s -> none_blocked s.
Proof.
  intros Hr. enough (http_ok connected t s /\ none_blocked s) by naive_solver.
  revert s Hr. apply (rtc_ind_r (fun s => http_ok connected t s /\ none_blocked s)).
  - split; [apply http_reachable_ok, rtc_refl|]. intros _. constructor.
  - intros s1 s2 _ Hs [Hok Hn]. destruct Hs as [i s1 s2 E|call s1].
    + split; [by eapply http_turn_ok|by eapply http_turn_ends].
    + split; [by apply arrival_ok|]. intros Hf. apply Forall_app. split; [by apply Hn|]. by repeat constructor.
Qed.
End Ends.

Section Answers.
Context `{Env} `{RedisReplies} `{LibrariesEnd} `{!JsonParserLaws} `{!JwtLaws}.

(** C23: every request is answered.  Suppose that the calls into the JSON and JWT libraries
    end, and that every command to Redis gets a reply or finds the connection broken.
    From every state of the server, with any number of requests under way, the turns of
    the handlers come to an end, whatever their order; and when no handler can go on,
    every one has returned a response or was left by an exception, none is blocked for
    ever, unless the circuit breaker has tripped and holds its mutex. *)
Theorem overlapping_requests_answered connected t s :
  http_reachable connected t s ->
  Acc http_next s /\
  forall s', rtc (fun a b => http_next b a) s s' -> (forall i, http_turn i s' = None) ->
    cb_mutex_ (risk_of (ht_engine s')).2 = false ->
    length (ht_requests s') = length (ht_requests s) /\
    Forall (fun p => exists o, p.2 = Answered o /\ o <> Hang) (ht_requests s').
Proof.
  intros Hreach. split; [by eapply http_terminates, http_reachable_ok|]. intros s' Hrun Hno Hcb.
  assert (http_reachable connected t s' /\ length (ht_requests s') = length (ht_requests s)) as [Hreach' Hlen].
  { clear Hno Hcb. induction Hrun as [|s1 s2 s3 [i E] _ IH]; [done|].
    destruct IH as [? ->]; [by eapply rtc_r; [|eapply http_takes_turn]|]. split; [done|].
    unfold http_turn in E. destruct (ht_requests s1 !! i) as [[call r]|]; [|done].
    destruct (req_turn i r s1) as [[r' s4]|] eqn:Er; [|done]. injection E as <-.
    destruct (req_turn_rank _ _ _ _ _ Er) as [Hrq _]. cbn. by rewrite length_insert, Hrq. }
  split; [done|]. apply Forall_lookup_2. intros i p Hi.
  pose proof (Forall_lookup_1 _ _ _ _ (http_rest _ _ _ (http_reachable_ok _ _ _ Hreach') Hno Hcb) Hi) as [o Ho].
  pose proof (Forall_lookup_1 _ _ _ _ (http_reachable_ends _ _ _ Hreach' Hcb) Hi) as Hh. cbn in Hh.
  exists o. split; [done|]. intros ->. by destruct Hh.
Qed.
End Answers.

(** * Concrete requests *)

Section AnswersWitness.
#[local] Existing Instance second_env.
#[local] Existing Instance counter_server.
#[local] Existing Instance demo_json.
#[local] Existing Instance demo_parser.
#[local] Existing Instance demo_parser_laws.
#[local] Existing Instance demo_jwt.
#[local] Existing Instance demo_jwt_laws.

Lemma demo_libraries_end : LibrariesEnd.
Proof.
  split; [exact demo_json_ends|..]; intros; cbn; by repeat case_match.
Qed.

#[local] Existing Instance demo_libraries_end.
#[local] Existing Instance counter_server_replies.

Lemma overlapping_requests_answered_witness :
  exists token, Forall (fun p => exists o, p.2 = Answered o /\ o <> Hang) (ht_requests (http_run order_then_query (order_admitted token))).
Proof.
  destruct (issue_access "acc1" ["READ"; "TRADE"] 0%nat) as [token E]. exists token.
  set (s := http_run order_then_query (order_admitted token)).
  destruct (overlapping_requests_answered true 0 s (order_served_reachable token E)) as [_ Hall].
  apply (Hall s).
  - apply rtc_refl.
  - intros [|[|i]]; [vm_compute; reflexivity..|].
    unfold http_turn. rewrite lookup_ge_None_2; [reflexivity|]. vm_compute. lia.
  - vm_compute. reflexivity.
Defined.
End AnswersWitness.
