(* ===== verification/RateLimiterRaces.v ===== *)
(** Overlapping calls of the rate limiter (src/gateway/TokenBucketRateLimiter.cpp): the
    atomic loads, stores and compare-and-exchange operations of
    [TokenBucket::tryConsume] and [refill], one step each, in any interleaving of any
    number of calls on one bucket.  All operations use relaxed or acquire-release
    order on single variables; the interleavings of the steps are the sequentially
    consistent executions. *)

From Stdlib Require Import ZArith Lia.
From stdpp Require Import base numbers gmap strings list relations.
From S2P Require Import Prelude RateLimiter.

Local Open Scope Z_scope.

(** * One call *)

(** Where a call of [tryConsume] stands, with its local variables. *)
Inductive pc :=
| RefillNow                                  (* steady_clock::now() *)
| RefillLast (nowMs : Z)                     (* lastRefillTimeMs.load, elapsed, tokensToAdd *)
| RefillLoad (nowMs tokensToAdd : Z)         (* tokens.load, updated *)
| RefillStore (nowMs updated : Z)            (* tokens.store *)
| RefillStamp (nowMs : Z)                    (* lastRefillTimeMs.store *)
| ConsumeLoad                                (* tokens.load *)
| ConsumeCas (current : Z)                   (* loop condition, compare_exchange_weak *)
| Done (granted : bool).

Definition set_tokens (v : Z) (b : TokenBucket) : TokenBucket :=
  mkBucket (capacity b) (refillPerSecond b) v (lastRefillTimeMs b).
Definition set_lastRefill (v : Z) (b : TokenBucket) : TokenBucket :=
  mkBucket (capacity b) (refillPerSecond b) (tokens b) v.

(** One step: [clock] is what a reading of the clock yields, [spurious] tells whether a
    weak compare-and-exchange fails for no reason. *)
Definition cstep (clock : Z) (spurious : bool) (b : TokenBucket) (p : pc) : TokenBucket * pc :=
  match p with
  | RefillNow => (b, RefillLast clock)
  | RefillLast nowMs =>
      let elapsed := sub64 nowMs (lastRefillTimeMs b) in
      if elapsed <=? 0 then (b, ConsumeLoad)
      else
        let tokensToAdd := tokens_due b elapsed in
        if 0 <? tokensToAdd then (b, RefillLoad nowMs tokensToAdd) else (b, ConsumeLoad)
  | RefillLoad nowMs tokensToAdd =>
      (b, RefillStore nowMs (Z.min (capacity b) (add64 (tokens b) tokensToAdd)))
  | RefillStore nowMs updated => (set_tokens updated b, RefillStamp nowMs)
  | RefillStamp nowMs => (set_lastRefill nowMs b, ConsumeLoad)
  | ConsumeLoad => (b, ConsumeCas (tokens b))
  | ConsumeCas current =>
      if 0 <? current then
        if negb spurious && (tokens b =? current)
        then (set_tokens (sub64 current 1) b, Done true)
        else (b, ConsumeCas (tokens b))
      else (b, Done false)
  | Done granted => (b, Done granted)
  end.

(** * Interleavings *)

Record Race := mkRace { r_bucket : TokenBucket; r_calls : list pc }.

(** A new call, or a step of one of the calls among those that [may] happen. *)
Inductive race_step (may : pc -> bool) : Race -> Race -> Prop :=
| race_call s :
    race_step may s (mkRace (r_bucket s) (r_calls s ++ [RefillNow]))
| race_move s i p clock spurious :
    r_calls s !! i = Some p -> may p = true -> ms_ok clock ->
    race_step may s
      (mkRace (cstep clock spurious (r_bucket s) p).1
         (<[i := (cstep clock spurious (r_bucket s) p).2]> (r_calls s))).

(** ** The number of tokens *)

Definition pc_ok (p : pc) : Prop :=
  match p with
  | RefillNow | ConsumeLoad | Done _ => True
  | RefillLast nowMs | RefillStamp nowMs => ms_ok nowMs
  | RefillLoad nowMs tokensToAdd => ms_ok nowMs /\ 0 < tokensToAdd < 2 ^ 53
  | RefillStore nowMs updated => ms_ok nowMs /\ 0 <= updated <= 100
  | ConsumeCas current => 0 <= current <= 100
  end.

Record race_ok (s : Race) : Prop := {
  ro_capacity : capacity (r_bucket s) = 100;
  ro_rate : refillPerSecond (r_bucket s) = 100;
  ro_tokens : 0 <= tokens (r_bucket s) <= 100;
  ro_last : ms_ok (lastRefillTimeMs (r_bucket s));
  ro_calls : Forall pc_ok (r_calls s)
}.

Lemma cstep_ok clock spurious b p ps :
  race_ok (mkRace b ps) -> pc_ok p -> ms_ok clock ->
  race_ok (mkRace (cstep clock spurious b p).1 ps) /\ pc_ok (cstep clock spurious b p).2.
Proof.
  intros [Hc Hr Ht Hl Hp] Hok Hclock. cbn [r_bucket r_calls] in *. unfold ms_ok in *.
  destruct p as [|now|now add|now upd|now| |cur|g]; cbn [cstep pc_ok] in *; unfold ms_ok in *.
  - done.
  - rewrite sub64_small by (unfold int64; lia).
    destruct (Z.leb_spec (now - lastRefillTimeMs b) 0); [done|].
    rewrite tokens_due_exact by (done || lia).
    destruct (Z.ltb_spec 0 ((now - lastRefillTimeMs b) / 10)); [|done]. split; [done|].
    split; [done|]. split; [done|].
    apply Z.div_lt_upper_bound; lia.
  - rewrite Hc, add64_small by (unfold int64; lia). split; [done|]. cbn. unfold ms_ok. lia.
  - split; [split; cbn; by try lia|]. by apply Hok.
  - split; [|done]. by split.
  - done.
  - destruct (Z.ltb_spec 0 cur); [|done]. destruct (negb spurious && _); [|done].
    split; [|done]. split; cbn; try done. rewrite sub64_small by (unfold int64; lia). lia.
  - done.
Qed.

Lemma race_step_ok may s s' : race_step may s s' -> race_ok s -> race_ok s'.
Proof.
  intros [s0|s0 i p clock spurious Hi _ Hclock] Hok.
  - destruct Hok. split; try done. apply Forall_app. split; [done|]. by constructor.
  - destruct s0 as [b ps]. pose proof (ro_calls _ Hok) as Hall. cbn [r_calls r_bucket] in *.
    pose proof (Forall_lookup_1 _ _ _ _ Hall Hi) as Hp.
    destruct (cstep_ok clock spurious b p ps Hok Hp Hclock) as [[] Hp'].
    split; try done. cbn [r_calls]. by apply Forall_insert.
Qed.

Lemma race_steps_ok may s s' : rtc (race_step may) s s' -> race_ok s -> race_ok s'.
Proof. induction 1; eauto using race_step_ok. Qed.

Lemma new_bucket_ok nowMs :
  ms_ok nowMs ->
  race_ok (mkRace (TokenBucket_new STANDARD_CAPACITY STANDARD_REFILL_RATE nowMs) []).
Proof. intros Hn. by split. Qed.

(** ** The granted requests *)

Definition is_granted (p : pc) : Z := match p with Done true => 1 | _ => 0 end.
Definition granted_calls (s : Race) : Z := sum_of is_granted (r_calls s).

Definition is_store (p : pc) : bool := match p with RefillStore _ _ => true | _ => false end.

(** A step that is not the store of a refill takes one token per granted request. *)
Lemma cstep_conserves clock spurious b p :
  is_store p = false -> 0 <= tokens b <= 100 -> pc_ok p ->
  tokens (cstep clock spurious b p).1 + is_granted (cstep clock spurious b p).2 =
  tokens b + is_granted p.
Proof.
  intros Hs Ht Hok. destruct p as [|now|now add|now upd|now| |cur|g]; cbn in *; try lia; try done.
  - destruct (_ <=? 0); [cbn; lia|]. destruct (0 <? _); cbn; lia.
  - destruct (Z.ltb_spec 0 cur); [|cbn; lia].
    destruct (negb spurious && (tokens b =? cur)) eqn:E; [|cbn; lia].
    apply andb_true_iff in E as [_ E%Z.eqb_eq]. cbn. rewrite sub64_small by (unfold int64; lia). lia.
Qed.

Definition no_store (p : pc) : bool := negb (is_store p).

Lemma race_step_conserves s s' :
  race_step no_store s s' -> race_ok s ->
  tokens (r_bucket s') + granted_calls s' = tokens (r_bucket s) + granted_calls s.
Proof.
  intros [s0|s0 i p clock spurious Hi Hmay%negb_true_iff _] Hok; unfold granted_calls;
    cbn [r_bucket r_calls].
  - rewrite sum_of_app. unfold sum_of. cbn. lia.
  - rewrite (sum_of_insert is_granted _ _ _ _ Hi).
    pose proof (cstep_conserves clock spurious (r_bucket s0) p Hmay (ro_tokens _ Hok)
                  (Forall_lookup_1 _ _ _ _ (ro_calls _ Hok) Hi)). lia.
Qed.

(** * One call alone *)

Fixpoint csteps (n : nat) (clock : Z) (b : TokenBucket) (p : pc) : TokenBucket * pc :=
  match n with
  | O => (b, p)
  | S n => let '(b, p) := cstep clock false b p in csteps n clock b p
  end.

(** * The properties *)

(** The number of tokens stays between 0 and the capacity, however many calls
    overlap and however their loads, stores and exchanges interleave. *)
Theorem tokens_bounded_under_races nowMs s :
  ms_ok nowMs ->
  rtc (race_step (fun _ => true))
    (mkRace (TokenBucket_new STANDARD_CAPACITY STANDARD_REFILL_RATE nowMs) []) s ->
  0 <= tokens (r_bucket s) <= STANDARD_CAPACITY.
Proof.
  intros Hn Hrun. apply (ro_tokens s), (race_steps_ok _ _ _ Hrun). by apply new_bucket_ok.
Qed.

(** C19: no token is granted twice as long as no refill stores its result: in every
    interleaving of calls, the requests that were granted in between are exactly the
    tokens that are gone, so at most as many as there were. *)
Theorem no_token_granted_twice s s' :
  race_ok s -> rtc (race_step no_store) s s' ->
  granted_calls s' - granted_calls s = tokens (r_bucket s) - tokens (r_bucket s') /\
  granted_calls s' - granted_calls s <= tokens (r_bucket s).
Proof.
  intros Hok Hrun.
  assert (tokens (r_bucket s') + granted_calls s' = tokens (r_bucket s) + granted_calls s
          /\ race_ok s') as [Hc Hok'].
  { revert Hok. induction Hrun as [|s1 s2 s3 Hstep _ IH]; intros Hok; [done|].
    destruct (IH (race_step_ok _ _ _ Hstep Hok)) as [E Hok3]. split; [|done].
    rewrite E. by apply race_step_conserves. }
  pose proof (ro_tokens _ Hok'). lia.
Qed.

(** A call that overlaps with no other is [tryConsume] as one operation: from any
    bucket, within seven steps it returns the answer and leaves the bucket of the
    sequential model, and it does not change afterwards. *)
Theorem solo_call_is_tryConsume nowMs b n :
  (7 <= n)%nat ->
  csteps n nowMs b RefillNow = ((tryConsume nowMs b).2, Done (tryConsume nowMs b).1).
Proof.
  intros Hn.
  assert (forall m b p, csteps (S m) nowMs b p =
    csteps m nowMs (cstep nowMs false b p).1 (cstep nowMs false b p).2) as Hstep.
  { intros m b0 p. cbn [csteps]. by destruct (cstep nowMs false b0 p). }
  assert (forall m b g, csteps m nowMs b (Done g) = (b, Done g)) as Hdone.
  { intros m. induction m as [|m IH]; [done|]. intros. rewrite Hstep. apply IH. }
  assert (forall m b, (2 <= m)%nat -> csteps m nowMs b ConsumeLoad =
    if 0 <? tokens b then (set_tokens (sub64 (tokens b) 1) b, Done true) else (b, Done false))
    as Hload.
  { intros m b0 Hm. destruct m as [|[|m]]; [lia..|]. rewrite !Hstep. cbn [cstep fst snd].
    destruct (0 <? tokens b0); [|apply Hdone]. rewrite Z.eqb_refl. cbn. apply Hdone. }
  destruct n as [|[|n]]; [lia..|]. rewrite !Hstep. unfold tryConsume, refill.
  cbn [cstep fst snd]. set (elapsed := sub64 nowMs (lastRefillTimeMs b)).
  destruct (elapsed <=? 0); [|destruct (0 <? tokens_due b elapsed)]; cbn [fst snd].
  - rewrite Hload by lia. by destruct (0 <? tokens b).
  - destruct n as [|[|[|n]]]; [lia..|]. rewrite !Hstep. cbn [cstep fst snd].
    rewrite Hload by lia. cbn [set_tokens set_lastRefill tokens]. by destruct (0 <? _).
  - rewrite Hload by lia. by destruct (0 <? tokens b).
Qed.

(** * The race of a refill *)

(** A schedule: which call moves, and what the clock shows. *)
Fixpoint run_race (moves : list (nat * Z)) (s : Race) : Race :=
  match moves with
  | [] => s
  | (i, clock) :: moves =>
      let p := default (Done false) (r_calls s !! i) in
      run_race moves
        (mkRace (cstep clock false (r_bucket s) p).1
           (<[i := (cstep clock false (r_bucket s) p).2]> (r_calls s)))
  end.

(** The calls [from .. from + n - 1] each make [k] moves, one call after the other. *)
Definition moves_of (k : nat) (clock : Z) (from n : nat) : list (nat * Z) :=
  seq from n ≫= (fun i => replicate k (i, clock)).

(** 200 calls on a full bucket created at time 0: the calls 1 to 100 read the clock at
    9 ms and call 0 at 10 ms; call 0 has loaded the 100 tokens when the others take
    them all; then it stores its result, and the calls 101 to 199 and call 0 itself are
    granted as well. *)
Definition lost_update : Race :=
  run_race
    (moves_of 1 9 1 100 ++ moves_of 3 10 0 1 ++ moves_of 3 9 1 100 ++ moves_of 2 10 0 1 ++
     moves_of 5 10 101 99 ++ moves_of 2 10 0 1)
    (mkRace (TokenBucket_new STANDARD_CAPACITY STANDARD_REFILL_RATE 0)
       (replicate 200 RefillNow)).

Lemma run_race_steps moves s :
  Forall (fun m => (m.1 < length (r_calls s))%nat /\ ms_ok m.2) moves ->
  rtc (race_step (fun _ => true)) s (run_race moves s).
Proof.
  revert s. induction moves as [|[i clock] moves IH]; intros s Hall; [done|].
  apply Forall_cons in Hall as [[Hi Hc] Hall]. cbn [run_race fst snd] in *.
  destruct (lookup_lt_is_Some_2 _ _ Hi) as [p Hp]. rewrite Hp. cbn [default].
  eapply rtc_l; [by apply (race_move (fun _ => true) s i p clock false)|]. apply IH.
  eapply Forall_impl; [exact Hall|]. cbn. intros m [? ?]. by rewrite length_insert.
Qed.

(** A refill that overlaps with other calls breaks the rate limit.  There is an
    interleaving of 200 calls within the first 10 ms of a bucket in which all 200
    requests are granted, although the burst of 100 and the time allow 101: the store of
    the refill overwrites the tokens that were taken after its load. *)
Theorem refill_race_breaks_limit :
  rtc (race_step (fun _ => true))
    (mkRace (TokenBucket_new STANDARD_CAPACITY STANDARD_REFILL_RATE 0)
       (replicate 200 RefillNow)) lost_update /\
  granted_calls lost_update = 200 /\ lastRefillTimeMs (r_bucket lost_update) = 10.
Proof.
  split; [|split; vm_compute; reflexivity].
  apply run_race_steps. apply Forall_forall. intros m Hm.
  assert (Forall (fun m => (m.1 < 200)%nat /\ 0 <= m.2 < 2 ^ 53)
    (moves_of 1 9 1 100 ++ moves_of 3 10 0 1 ++ moves_of 3 9 1 100 ++ moves_of 2 10 0 1 ++
     moves_of 5 10 101 99 ++ moves_of 2 10 0 1)) as Hall by demo_decide.
  rewrite Forall_forall in Hall. exact (Hall m Hm).
Qed.

(** * Witnesses *)

Definition fresh_race : Race :=
  mkRace (TokenBucket_new STANDARD_CAPACITY STANDARD_REFILL_RATE 0) [RefillNow].

Definition moved (p : pc) : Race := mkRace (r_bucket fresh_race) [p].

Lemma tokens_bounded_under_races_witness :
  0 <= tokens (r_bucket (moved (RefillLast 5))) <= 100.
Proof.
  apply (tokens_bounded_under_races 0 (moved (RefillLast 5))); [unfold ms_ok; lia|].
  eapply rtc_l; [apply race_call|]. apply rtc_once.
  apply (race_move (fun _ => true) fresh_race 0 RefillNow 5 false);
    [reflexivity|reflexivity|unfold ms_ok; lia].
Defined.

Lemma no_token_granted_twice_witness :
  granted_calls (moved (RefillLast 5)) - granted_calls fresh_race <= 100.
Proof.
  apply (no_token_granted_twice fresh_race (moved (RefillLast 5))).
  - split; [reflexivity|reflexivity|demo_decide|unfold ms_ok; demo_decide|].
    constructor; [exact I|constructor].
  - apply rtc_once. apply (race_move no_store fresh_race 0 RefillNow 5 false);
      [reflexivity|reflexivity|unfold ms_ok; lia].
Defined.

Lemma solo_call_is_tryConsume_witness :
  csteps 7 12 (mkBucket 100 100 0 0) RefillNow =
    ((tryConsume 12 (mkBucket 100 100 0 0)).2, Done true).
Proof. apply (solo_call_is_tryConsume 12 (mkBucket 100 100 0 0) 7). lia. Defined.
