(* ===== verification/OrderGenerator.v ===== *)
(** The load generator (src/simulation/OrderGenerator.cpp): the random orders, the
    threads that submit them to an engine without persistence, and the report with the
    percentiles of the measured latencies.

    The random engine is a parameter: the [n]-th draw of the generator with a given
    seed, from a distribution.  [BASE_PRICE] and [TICK_SIZE] are [constexpr] in the source
    although [price_to_fixed] is not, which a compiler rejects; here they have the values
    that the initialisers denote.  The threads overlap as in EngineThreads.v: every call of
    [engine.submit] is a new call on the engine, and one turn of a thread is one turn of
    the call it waits for, or the local work between two calls. *)

From Stdlib Require Import ZArith Lia.
From stdpp Require Import base numbers gmap strings list pretty sorting.
From S2P Require Import Prelude Text Double Model Prices OrderBook Matching BookSpec BookInvariant BookTheorems Events CircuitBreaker RiskEngine MatchingEngine EngineInvariant EngineTheorems Fixtures EngineThreads.

Local Open Scope Z_scope.
Local Open Scope cpp_scope.

(** * Constants *)

Definition NUM_ORDERS : Z := 100000.
Definition NUM_THREADS : Z := 4.
Definition ORDERS_PER_THREAD : Z := Z.quot NUM_ORDERS NUM_THREADS.
Definition BASE_PRICE : Z := price_to_fixed (round_q 150 1).
Definition TICK_SIZE : Z := price_to_fixed (round_q 1 100).

(** * Random draws *)

(** [std::uniform_real_distribution<>(0.0, 1.0)] and [std::uniform_int_distribution(lo, hi)]
    on [std::mt19937(seed)]. *)
Class SimRandom := {
  draw_real : Z -> nat -> double;
  draw_int : Z -> nat -> Z -> Z -> Z
}.

Class SimRandomLaws `{SimRandom} : Prop :=
  draw_int_range : forall seed n lo hi, lo <= hi -> lo <= draw_int seed n lo hi <= hi.

(** * The simulation *)

Abbreviation SimRisk := (RiskEngine * CircuitBreaker)%type.
Abbreviation SimWorld := (World SimRisk unit).

(** The local variables of a thread. *)
Record SimThread := mkThread {
  rng : nat;
  localLatencies : list Z
}.

(** Where a thread is: at the head of the loop with counter [i], in [engine.submit], which
    is call [j] on the engine, before the merge of its latencies, or done. *)
Inductive ThreadPc := Looping (i : Z) | Submitting (i start : Z) (j : nat) | Merging | Finished.

Record SimState := mkSim {
  sim_engine : Threads SimRisk unit;            (* the engine and the calls on it *)
  totalTrades : Z;
  allLatencies : list Z;
  sim_threads : list (SimThread * ThreadPc)
}.

Definition order_type_of (roll : double) : OrderType :=
  if dlt roll (round_q 60 100) then LIMIT
  else if dlt roll (round_q 85 100) then MARKET
  else if dlt roll (round_q 93 100) then IOC
  else FOK.

(** [BASE_PRICE + priceDist(rng) * TICK_SIZE]. *)
Definition price_at (ticks : Z) : Z := add64 BASE_PRICE (mul64 ticks TICK_SIZE).

Section Simulation.
Context `{Env} `{SimRandom}.

(** The draws of one iteration: type, price (not for market orders), side, quantity. *)
Definition draw_order (threadId : Z) (n : nat) : OrderSide * OrderType * Z * Z * nat :=
  let seed := wrap32 (42 + threadId) in
  let type := order_type_of (draw_real seed n) in
  let n := S n in
  let '(price, n) :=
    if bool_decide (type = MARKET) then (0, n)
    else (price_at (draw_int seed n (- 50) 50), S n) in
  let side := if draw_int seed n 0 1 =? 0 then BUY else SELL in
  let n := S n in
  let qty := draw_int seed n 1 500 in
  (side, type, price, qty, S n).

(** [Order::create] and [start], then the call of [engine.submit] begins. *)
Definition begin_call (threadId : Z) (k : nat) (th : SimThread) (i : Z) (s : SimState) : SimState :=
  let '(side, type, price, qty, n) := draw_order threadId (rng th) in
  let accountId := "MM-" +:+ pretty threadId in
  let ts := sim_engine s in
  let '(e, w) := sh_state (ts_shared ts) in
  let '(order, t) := Order_create accountId "AAPL" side type price 0 qty (w_t w) in
  let start := steady_now t in
  let w := mkWorld (w_risk w) (w_ext w) (S t) in
  mkSim (mkThreads (mkShared (e, w) (sh_readers (ts_shared ts)))
           (ts_calls ts ++ [SubmitStart order]) (ts_history ts))
    (totalTrades s) (allLatencies s)
    (<[k := (mkThread n (localLatencies th), Submitting i start (length (ts_calls ts)))]>
       (sim_threads s)).

(** [end], [localLatencies.push_back] and [totalTrades.fetch_add]. *)
Definition record_latency (k : nat) (th : SimThread) (i start : Z) (trades : list Trade)
    (s : SimState) : SimState :=
  let ts := sim_engine s in
  let '(e, w) := sh_state (ts_shared ts) in
  let end_ := steady_now (w_t w) in
  let w := mkWorld (w_risk w) (w_ext w) (S (w_t w)) in
  let latencyMicros := Z.quot (sub64 end_ start) 1000 in
  mkSim (mkThreads (mkShared (e, w) (sh_readers (ts_shared ts))) (ts_calls ts) (ts_history ts))
    (wrap32 (totalTrades s + wrap32 (Z.of_nat (length trades)))) (allLatencies s)
    (<[k := (mkThread (rng th) (localLatencies th ++ [latencyMicros]), Looping (i + 1))]>
       (sim_threads s)).

(** [allLatencies.insert] under the mutex. *)
Definition merge_latencies (k : nat) (th : SimThread) (s : SimState) : SimState :=
  mkSim (sim_engine s) (totalTrades s) (allLatencies s ++ localLatencies th)
    (<[k := (th, Finished)]> (sim_threads s)).

Definition at_pc (k : nat) (th : SimThread) (at_ : ThreadPc) (s : SimState) : SimState :=
  mkSim (sim_engine s) (totalTrades s) (allLatencies s) (<[k := (th, at_)]> (sim_threads s)).

(** One turn of thread [k]; [None] when its call waits for a lock or the thread has ended. *)
Definition runSimulation (k : nat) (s : SimState) : option SimState :=
  match sim_threads s !! k with
  | Some (th, Looping i) =>
      if i <? ORDERS_PER_THREAD then Some (begin_call (Z.of_nat k) k th i s)
      else Some (at_pc k th Merging s)
  | Some (th, Submitting i start j) =>
      match ts_calls (sim_engine s) !! j with
      | Some (Submitted _ trades) => Some (record_latency k th i start trades s)
      | _ =>
          match take_turn j (sim_engine s) with
          | Some ts => Some (mkSim ts (totalTrades s) (allLatencies s) (sim_threads s))
          | None => None
          end
      end
  | Some (th, Merging) => Some (merge_latencies k th s)
  | _ => None
  end.

(** The threads of [main]: no thread has called the engine yet. *)
Definition sim_start (t : nat) : SimState :=
  mkSim (mkThreads (mkShared (MatchingEngine_new, mkWorld (RiskEngine_new, CircuitBreaker_new) tt t) ∅)
           [] [])
    0 [] (replicate (Z.to_nat NUM_THREADS) (mkThread 0 [], Looping 0)).
End Simulation.

(** * Percentiles *)

(** The element at [static_cast<size_t>(p * size)] of the sorted latencies, at most the
    last. *)
Definition percentile (p : double) (latencies : list Z) : option Z :=
  let size := Z.of_nat (length latencies) in
  let idx := int64_of_double (dmul p (double_of_int size)) in
  let idx := if size <=? idx then wrapu64 (size - 1) else idx in
  latencies !! Z.to_nat idx.

(** * The report *)

Record Report := mkReport {
  rep_totalTrades : Z;
  rep_totalMs : Z;
  rep_throughput : double;
  rep_min : option Z;
  rep_p50 : option Z;
  rep_p95 : option Z;
  rep_p99 : option Z;
  rep_p999 : option Z;
  rep_max : option Z;
  rep_avg : double;
  rep_book : option OrderBookSnapshot
}.

(** [static_cast<double>(std::accumulate(..., 0LL)) / allLatencies.size()]. *)
Definition avgLatency (latencies : list Z) : double :=
  ddiv (double_of_int (foldl add64 0 latencies)) (double_of_int (Z.of_nat (length latencies))).

Definition throughput (totalMs : Z) : double :=
  ddiv (dmul (double_of_int NUM_ORDERS) (double_of_int 1000)) (double_of_int totalMs).

Section Report.
Context `{Env}.

(** What [main] prints when all threads have been joined; [startTime] was read before they
    were started.  Reading the first or the last of no latencies is [None]. *)
Definition simulation_report (startTime : Z) (s : SimState) : outcome Report :=
  let st := sh_state (ts_shared (sim_engine s)) in
  let '(endTime, st) := steadyClock st in
  let! endTime := endTime in
  let totalMs := Z.quot (sub64 endTime startTime) 1000000 in
  let latencies := merge_sort Z.le (allLatencies s) in
  let! snapshot := (getSnapshot "AAPL" 5 st).1 in
  Ret (mkReport (totalTrades s) totalMs (throughput totalMs) (head latencies)
    (percentile (round_q 50 100) latencies) (percentile (round_q 95 100) latencies)
    (percentile (round_q 99 100) latencies) (percentile (round_q 999 1000) latencies)
    (last latencies) (avgLatency latencies) snapshot).
End Report.

(** The output, line by line; numbers of type [double] with two decimals
    ([std::fixed << std::setprecision(2)]). *)
Definition banner : list string :=
  ["================================================";
   "  TitanX Load Test Simulation (C++)";
   "  " +:+ pretty NUM_ORDERS +:+ " orders, " +:+ pretty NUM_THREADS +:+ " threads, AAPL";
   "================================================"; ""].

Definition level_line (lvl : PriceLevel) : string :=
  "      " +:+ price_to_string (pl_price lvl) +:+ "  qty=" +:+ pretty (totalQuantity lvl)
  +:+ "  orders=" +:+ pretty (orderCount lvl).

Definition book_lines (snapshot : option OrderBookSnapshot) : list string :=
  match snapshot with
  | None => []
  | Some snap =>
      ["  Order Book Snapshot (AAPL, top 5 levels):"; "    Bids:"] ++ (level_line <$> snap_bids snap) ++
      ["    Asks:"] ++ (level_line <$> snap_asks snap)
  end.

Definition report_lines (rep : Report) : option (list string) :=
  min ← rep_min rep; p50 ← rep_p50 rep; p95 ← rep_p95 rep; p99 ← rep_p99 rep;
  p999 ← rep_p999 rep; max ← rep_max rep;
  Some (["Simulation complete!"; "";
    "  Total orders:     " +:+ pretty NUM_ORDERS;
    "  Total trades:     " +:+ pretty (rep_totalTrades rep);
    "  Elapsed time:     " +:+ pretty (rep_totalMs rep) +:+ " ms";
    "  Throughput:       " +:+ format_2f (rep_throughput rep) +:+ " orders/sec"; "";
    "  Latency Distribution (µs):";
    "    Min:    " +:+ pretty min;
    "    P50:    " +:+ pretty p50;
    "    P95:    " +:+ pretty p95;
    "    P99:    " +:+ pretty p99;
    "    P99.9:  " +:+ pretty p999;
    "    Max:    " +:+ pretty max;
    "    Avg:    " +:+ format_2f (rep_avg rep); ""] ++
    book_lines (rep_book rep) ++
    [""; "================================================"]).

(** * The random orders *)

Section Orders.
Context `{SimRandomLaws}.

Lemma base_price : BASE_PRICE = 15000000000.
Proof. vm_compute. reflexivity. Qed.

Lemma tick_size : TICK_SIZE = 1000000.
Proof. vm_compute. reflexivity. Qed.

Lemma price_at_exact ticks :
  - 50 <= ticks <= 50 -> price_at ticks = 15000000000 + ticks * 1000000.
Proof.
  intros Ht. unfold price_at. rewrite base_price, tick_size.
  rewrite mul64_small by (unfold int64; lia). apply add64_small. unfold int64. lia.
Qed.

(** An order as the generator makes it. *)
Definition drawn_ok (type : OrderType) (price qty : Z) : Prop :=
  1 <= qty <= 500 /\ type <> STOP_LIMIT /\
  (type = MARKET -> price = 0) /\
  (type <> MARKET -> exists ticks, - 50 <= ticks <= 50 /\
     price = 15000000000 + ticks * 1000000).

Lemma draw_order_range threadId n :
  let '(_, type, price, qty, _) := draw_order threadId n in drawn_ok type price qty.
Proof.
  unfold draw_order. set (ty := order_type_of _).
  assert (ty <> STOP_LIMIT) as Hty.
  { unfold ty, order_type_of. by repeat case_match. }
  case_bool_decide as Hm; cbv beta iota zeta; unfold drawn_ok.
  - split_and!; [apply draw_int_range; lia..|done|done|done].
  - split_and!; [apply draw_int_range; lia..|done|done|].
    intros _. eexists. split; [|apply price_at_exact]; apply draw_int_range; lia.
Qed.
End Orders.

(** * The simulation completes *)

Section Completion.
Context `{Env} `{SimRandomLaws}.

(** The generated orders are the market the comments describe: for every draw of
    every thread, the quantity is between 1 and 500 shares, the price of a market order
    is 0 and every other price lies on a cent within 50 cents of $150, so that the
    order passes the notional check of the risk engine. *)
Theorem generated_orders_in_range threadId n :
  let '(side, type, price, qty, _) := draw_order threadId n in
  drawn_ok type price qty /\
  forall t, notional_exceeded
    (Order_create ("MM-" +:+ pretty threadId) "AAPL" side type price 0 qty t).1 = false.
Proof.
  pose proof (draw_order_range threadId n) as Hd.
  destruct (draw_order threadId n) as [[[[side type] price] qty] n']. split; [exact Hd|].
  destruct Hd as (Hq & _ & Hm & Hp). intros t.
  unfold notional_exceeded. cbn [Order_create SystemClock_now generate_uuid fst Model.price quantity].
  destruct (decide (type = MARKET)) as [->|Hne].
  - rewrite (Hm eq_refl). done.
  - destruct (Hp Hne) as (ticks & Ht & ->).
    apply andb_false_iff. right. rewrite mul64_small by (unfold int64; nia).
    apply Z.ltb_ge. unfold MAX_NOTIONAL_FIXED, PRICE_SCALE. nia.
Qed.
End Completion.

(** * Percentiles of the latencies *)

Lemma sorted_lookup_le (l : list Z) i j x y :
  StronglySorted Z.le l -> l !! i = Some x -> l !! j = Some y -> (i <= j)%nat -> x <= y.
Proof.
  intros Hs. revert i j. induction Hs as [|z l _ IH Hall]; intros i j Hi Hj Hle; [done|].
  destruct i as [|i], j as [|j]; cbn in *; [|clear IH|lia|exact (IH i j Hi Hj ltac:(lia))].
  { injection Hi as <-. injection Hj as <-. lia. }
  injection Hi as <-. rewrite Forall_forall in Hall. apply Hall. by eapply list_elem_of_lookup_2.
Qed.

Lemma percentile_at p idx l :
  Z.of_nat (length l) = NUM_ORDERS -> 0 <= idx < NUM_ORDERS ->
  int64_of_double (dmul p (double_of_int NUM_ORDERS)) = idx ->
  percentile p l = l !! Z.to_nat idx /\ is_Some (l !! Z.to_nat idx).
Proof.
  intros Hl Hidx E. unfold percentile. rewrite Hl, E.
  destruct (Z.leb_spec NUM_ORDERS idx); [lia|]. split; [done|].
  apply lookup_lt_is_Some_2. lia.
Qed.

(** For 100,000 latencies the products of doubles select the positions 50000, 95000,
    99000 and 99900. *)
Lemma percentile_positions l :
  Z.of_nat (length l) = NUM_ORDERS ->
  Forall (fun '(p, idx) => percentile p l = l !! Z.to_nat idx /\ is_Some (l !! Z.to_nat idx))
    [(round_q 50 100, 50000); (round_q 95 100, 95000); (round_q 99 100, 99000);
     (round_q 999 1000, 99900)].
Proof.
  intros Hl.
  repeat (apply Forall_cons; split;
          [apply percentile_at; [exact Hl|done|vm_compute; reflexivity]|]).
  apply Forall_nil. exact I.
Qed.

(** The six values that the report takes from the sorted latencies. *)
Definition report_values (rep : Report) : list (option Z) :=
  [rep_min rep; rep_p50 rep; rep_p95 rep; rep_p99 rep; rep_p999 rep; rep_max rep].

(** The values exist, none is smaller than the one before, and all were measured. *)
Definition values_ok (measured : list Z) (values : list (option Z)) : Prop :=
  exists vs, values = Some <$> vs /\ StronglySorted Z.le vs /\ Forall (fun v => v ∈ measured) vs.

Lemma sorted_positions_ok (l measured : list Z) (idxs : list nat) :
  StronglySorted Z.le l -> l ≡ₚ measured -> StronglySorted le idxs ->
  Forall (fun i => is_Some (l !! i)) idxs ->
  values_ok measured ((fun i => l !! i) <$> idxs).
Proof.
  intros Hs Hp Hi Hsome. induction Hi as [|i idxs Hi IH Hall]; [by exists []; repeat constructor|].
  inversion Hsome as [|? ? [v Hv] Hsome']; subst. destruct (IH Hsome') as (vs & E & Hvs & Hm).
  exists (v :: vs). cbn. rewrite Hv, E. split; [done|]. split.
  - constructor; [exact Hvs|]. apply Forall_lookup_2. intros k w Hw.
    assert ((Some <$> vs) !! k = Some (Some w)) as Hk by (by rewrite list_lookup_fmap, Hw).
    rewrite <- E, list_lookup_fmap in Hk. destruct (idxs !! k) as [j|] eqn:Hj; [|done].
    injection Hk as Hk. refine (sorted_lookup_le l i j v w Hs Hv Hk _).
    exact (Forall_lookup_1 _ _ _ _ Hall Hj).
  - constructor; [|exact Hm]. rewrite <- Hp. by eapply list_elem_of_lookup_2.
Qed.

Lemma report_values_ok (measured : list Z) :
  Z.of_nat (length measured) = NUM_ORDERS ->
  let l := merge_sort Z.le measured in
  values_ok measured
    [head l; percentile (round_q 50 100) l; percentile (round_q 95 100) l;
     percentile (round_q 99 100) l; percentile (round_q 999 1000) l; last l].
Proof.
  intros Hlen l. assert (l ≡ₚ measured) as Hp by apply merge_sort_Permutation.
  assert (Z.of_nat (length l) = NUM_ORDERS) as Hl by (by rewrite Hp).
  pose proof (percentile_positions l Hl) as Hpos.
  rewrite !Forall_cons in Hpos. destruct Hpos as ([-> ?] & [-> ?] & [-> ?] & [-> ?] & _).
  assert (head l = l !! 0%nat) as -> by (by destruct l).
  rewrite last_lookup. assert (Init.Nat.pred (length l) = Z.to_nat 99999) as -> by (unfold NUM_ORDERS in Hl; lia).
  apply (sorted_positions_ok l measured
    [0%nat; Z.to_nat 50000; Z.to_nat 95000; Z.to_nat 99000; Z.to_nat 99900; Z.to_nat 99999]);
    [apply StronglySorted_merge_sort; exact _|exact Hp| |].
  - repeat first [apply SSorted_nil | apply SSorted_cons | apply Forall_nil_2 | apply Forall_cons_2 | lia].
  - unfold NUM_ORDERS in Hl.
    repeat first [apply Forall_nil_2 | apply Forall_cons_2 | apply lookup_lt_is_Some_2; lia].
Qed.

(** * Witnesses *)

(** A generator that always draws the middle. *)
Definition demo_random : SimRandom := {|
  draw_real _ _ := round_q 1 2;
  draw_int _ _ lo hi := (lo + hi) / 2
|}.

Lemma demo_random_laws : @SimRandomLaws demo_random.
Proof.
  intros seed n lo hi Hle. cbn. split; [apply Z.div_le_lower_bound|apply Z.div_le_upper_bound]; lia.
Qed.

Lemma generated_orders_in_range_witness :
  let '(side, type, price, qty, _) := @draw_order demo_random 3 7 in
  type = LIMIT /\ price = 15000000000 /\ drawn_ok type price qty.
Proof.
  pose proof (@generated_orders_in_range demo_env demo_random demo_random_laws 3 7) as Hd.
  assert (@draw_order demo_random 3 7 = (BUY, LIMIT, 15000000000, 250, 11%nat)) as E
    by (vm_compute; reflexivity).
  rewrite E in Hd |- *. destruct Hd as [Hd _]. split; [reflexivity|]. split; [reflexivity|exact Hd].
Defined.
