(* ===== verification/LoadTest.v ===== *)
(** The load test runs to completion: whatever the interleaving of its four threads, no
    order blocks or throws, every latency is collected and the report is printed. *)

From Stdlib Require Import ZArith Lia.
From stdpp Require Import base numbers gmap strings list pretty sorting relations.
From S2P Require Import Prelude Text Double Model Prices OrderBook Matching BookSpec BookInvariant Events CircuitBreaker RiskEngine MatchingEngine EngineInvariant EngineTheorems Fixtures SystemClaims EngineThreads ThreadsInvariant ThreadsBooks ThreadsClaims ThreadsProgress OrderGenerator.

Local Open Scope Z_scope.
Local Open Scope cpp_scope.

(** * Where the threads stand *)

Abbreviation per_thread := (Z.of_nat ∘ length ∘ localLatencies).

(** The call of a submitting thread is on the engine; a thread that has left the loop has
    measured all its orders. *)
Definition thread_ok (calls : list Call) (p : SimThread * ThreadPc) : Prop :=
  match p.2 with
  | Looping i => i <= ORDERS_PER_THREAD /\ per_thread p.1 = i
  | Submitting i _ j =>
      i < ORDERS_PER_THREAD /\ per_thread p.1 = i /\
      exists c o, calls !! j = Some c /\ order_of c = Some o
  | Merging | Finished => per_thread p.1 = ORDERS_PER_THREAD
  end.

(** The latencies that the thread has merged. *)
Definition merged (p : SimThread * ThreadPc) : Z :=
  match p.2 with Finished => per_thread p.1 | _ => 0 end.

(** The local steps that the thread has still to make. *)
Definition rank (p : SimThread * ThreadPc) : Z :=
  match p.2 with
  | Looping i => Z.max 0 (2 * (ORDERS_PER_THREAD - i)) + 2
  | Submitting i _ _ => Z.max 0 (2 * (ORDERS_PER_THREAD - i)) + 1
  | Merging => 1
  | Finished => 0
  end.

Lemma rank_nonneg p : 0 <= rank p.
Proof. unfold rank. case_match; lia. Qed.

Section LoadTest.
Context `{Env} `{SimRandomLaws}.

Definition sim_next (s' s : SimState) : Prop := exists k, runSimulation k s = Some s'.

Definition ranks (s : SimState) : Z := sum_of rank (sim_threads s).

Record sim_ok (s : SimState) : Prop := {
  so_live : threads_live free_world (sim_engine s);
  so_calls j c : ts_calls (sim_engine s) !! j = Some c -> ended c = false ->
    exists k th i start, sim_threads s !! k = Some (th, Submitting i start j);
  so_threads : Forall (thread_ok (ts_calls (sim_engine s))) (sim_threads s);
  so_count : length (sim_threads s) = Z.to_nat NUM_THREADS;
  so_merged : Z.of_nat (length (allLatencies s)) = sum_of merged (sim_threads s)
}.

(** * The engine under the threads *)

Lemma live_time t ts :
  threads_live free_world ts ->
  threads_live free_world
    (let st := sh_state (ts_shared ts) in
     mkThreads (mkShared (st.1, mkWorld (w_risk st.2) (w_ext st.2) t) (sh_readers (ts_shared ts)))
       (ts_calls ts) (ts_history ts)).
Proof.
  intros [Hok He Hw Hc]. split; [|exact He|exact Hw|exact Hc].
  eapply threads_step_ok; [|exact Hok]. by apply (step_other (mkWorld _ _ t)).
Qed.

Lemma live_call o ts :
  incoming_ok o -> threads_live free_world ts ->
  threads_live free_world
    (mkThreads (ts_shared ts) (ts_calls ts ++ [SubmitStart o]) (ts_history ts)).
Proof.
  intros Ho [Hok He Hw Hc]. split; [|exact He|exact Hw|].
  - eapply threads_step_ok; [|exact Hok]. apply step_call; [done|]. by intros ? [= <-].
  - apply Forall_app. split; [exact Hc|]. apply Forall_singleton. by intros [|[? ?]].
Qed.

(** One turn of the call [j] of a thread. *)
Lemma call_turn j ts ts' :
  threads_live free_world ts -> take_turn j ts = Some ts' ->
  threads_live free_world ts' /\
  (exists c, ts_calls ts !! j = Some c /\ ended c = false) /\
  (forall i c, i <> j -> ts_calls ts' !! i = Some c -> ts_calls ts !! i = Some c) /\
  (forall i c o, ts_calls ts !! i = Some c -> order_of c = Some o ->
     exists c', ts_calls ts' !! i = Some c' /\ order_of c' = Some o).
Proof.
  intros Hl E. assert (turns_to ts' ts) as Ht by (by exists j).
  pose proof (threads_live_turn _ _ _ Ht Hl) as Hl'. split; [exact Hl'|].
  destruct (take_turn_inv _ _ _ (bk_stops _ (to_books _ (tl_ok _ _ Hl))) E) as
    (c & c' & sh & Hj & Et & -> & _ & _ & _ & Hc). cbn [ts_calls] in *.
  split_and!.
  - exists c. split; [done|]. by destruct c.
  - intros i d Hne. by rewrite list_lookup_insert_ne.
  - intros i d o Hi Ho. destruct (decide (i = j)) as [->|Hne].
    + rewrite Hj in Hi. injection Hi as <-. exists c'.
      assert (<[j:=c']> (ts_calls ts) !! j = Some c') as Hc'.
      { apply list_lookup_insert_eq. by eapply lookup_lt_Some. }
      split; [done|]. eapply goes_has_order; [done| |done].
      exact (Forall_lookup_1 _ _ _ _ (tl_calls _ _ Hl') Hc').
    + exists d. by rewrite list_lookup_insert_ne.
Qed.

Lemma drawn_incoming threadId n acct sym t :
  let '(side, type, price, qty, _) := draw_order threadId n in
  incoming_ok (Order_create acct sym side type price 0 qty t).1.
Proof.
  pose proof (draw_order_range threadId n) as Hd.
  destruct (draw_order threadId n) as [[[[side type] price] qty] n'].
  destruct Hd as [Hq _]. split; [done|]. unfold int64. cbn. lia.
Qed.

(** * The threads *)

(** A thread moves from [p] to [p']; its former call, if any, has ended, and the others
    are where they were. *)
Lemma thread_moves k s ts' trades lat p p' :
  sim_ok s -> sim_threads s !! k = Some p -> threads_live free_world ts' ->
  (forall j c o, ts_calls (sim_engine s) !! j = Some c -> order_of c = Some o ->
     exists c', ts_calls ts' !! j = Some c' /\ order_of c' = Some o) ->
  (forall j c, ts_calls ts' !! j = Some c -> ended c = false ->
     (exists i start, p'.2 = Submitting i start j) \/
     ts_calls (sim_engine s) !! j = Some c /\ forall i start, p.2 <> Submitting i start j) ->
  thread_ok (ts_calls ts') p' ->
  Z.of_nat (length lat) = Z.of_nat (length (allLatencies s)) + merged p' - merged p ->
  sim_ok (mkSim ts' trades lat (<[k := p']> (sim_threads s))).
Proof.
  intros [_ Hcalls Hth Hn Hm] Hk Hl' Hold Hnew Hp' Hlat.
  assert (k < length (sim_threads s))%nat as Hlt by (by eapply lookup_lt_Some).
  split; cbn [sim_engine sim_threads allLatencies]; [exact Hl'| | | |].
  - intros j c Hj He. destruct (Hnew j c Hj He) as [(i & start & Ei)|[Hj' Hp]].
    + exists k, p'.1, i, start. rewrite list_lookup_insert_eq by done. by rewrite <- Ei, <- surjective_pairing.
    + destruct (Hcalls j c Hj' He) as (k' & th & i & start & Hk').
      exists k', th, i, start. rewrite list_lookup_insert_ne; [done|]. intros <-.
      rewrite Hk in Hk'. injection Hk' as ->. by eapply Hp.
  - apply Forall_insert; [|exact Hp']. eapply Forall_impl; [exact Hth|].
    intros [th []]; unfold thread_ok; cbn; try done.
    intros (? & ? & c & o & Hj & Ho). destruct (Hold _ _ _ Hj Ho) as (c' & ? & ?). eauto 10.
  - by rewrite length_insert.
  - rewrite (sum_of_insert _ _ _ _ _ Hk), <- Hm. lia.
Qed.

Lemma begin_call_threads k th i s :
  exists n start, sim_threads (begin_call (Z.of_nat k) k th i s) =
    <[k := (mkThread n (localLatencies th), Submitting i start (length (ts_calls (sim_engine s))))]>
      (sim_threads s).
Proof.
  unfold begin_call. destruct (draw_order _ _) as [[[[side type] price] qty] n].
  destruct (sh_state _) as [e w]. destruct (Order_create _ _ _ _ _ _ _ _) as [order t]. by do 2 eexists.
Qed.

Lemma begin_call_ok k th i s :
  sim_ok s -> sim_threads s !! k = Some (th, Looping i) -> i < ORDERS_PER_THREAD ->
  sim_ok (begin_call (Z.of_nat k) k th i s).
Proof.
  intros Hok Hk Hi. pose proof (drawn_incoming (Z.of_nat k) (rng th) ("MM-" +:+ pretty (Z.of_nat k)) "AAPL") as Hin.
  unfold begin_call. destruct (draw_order _ _) as [[[[side type] price] qty] n].
  destruct (sh_state (ts_shared (sim_engine s))) as [e w] eqn:Es.
  specialize (Hin (w_t w)). destruct (Order_create _ _ _ _ _ _ _ _) as [order t]. cbn [fst] in Hin.
  pose proof (Forall_lookup_1 _ _ _ _ (so_threads _ Hok) Hk) as [_ Hlen].
  eapply thread_moves; [exact Hok|exact Hk| | | | |cbn; lia].
  - pose proof (live_call order _ Hin (live_time (S t) _ (so_live _ Hok))) as Hl.
    cbn in Hl. by rewrite Es in Hl.
  - intros j c o Hj Ho. exists c. cbn. by rewrite lookup_app_l by (by eapply lookup_lt_Some).
  - cbn. intros j c [Hj|[Hj Hc]]%lookup_app_Some He; [by right|left].
    apply list_lookup_singleton_Some in Hc as [Hc _].
    assert (j = length (ts_calls (sim_engine s))) as -> by lia. by do 2 eexists.
  - split_and!; [done|exact Hlen|]. exists (SubmitStart order), order. split; [|done].
    cbn. rewrite lookup_app_r by lia. by rewrite Nat.sub_diag.
Qed.

Lemma record_latency_ok k th i start j o trades s :
  sim_ok s -> sim_threads s !! k = Some (th, Submitting i start j) ->
  ts_calls (sim_engine s) !! j = Some (Submitted o trades) ->
  sim_ok (record_latency k th i start trades s).
Proof.
  intros Hok Hk Hj. unfold record_latency.
  destruct (sh_state (ts_shared (sim_engine s))) as [e w] eqn:Es.
  pose proof (Forall_lookup_1 _ _ _ _ (so_threads _ Hok) Hk) as (Hi & Hlen & _).
  eapply thread_moves; [exact Hok|exact Hk| | | | |cbn; lia].
  - pose proof (live_time (S (w_t w)) _ (so_live _ Hok)) as Hl. cbn in Hl. by rewrite Es in Hl.
  - cbn. eauto.
  - cbn. intros j' c Hj' He. right. split; [done|]. intros i' start' [= _ _ <-].
    rewrite Hj in Hj'. by injection Hj' as <-.
  - split; [lia|]. cbn in *. rewrite length_app. cbn. lia.
Qed.

(** A turn keeps the invariant, and brings its thread or its call nearer to the end. *)
Lemma sim_turn s s' :
  sim_ok s -> sim_next s' s ->
  sim_ok s' /\
  (ranks s' < ranks s \/ ranks s' = ranks s /\ turns_to (sim_engine s') (sim_engine s)).
Proof.
  intros Hok [k E]. unfold runSimulation in E.
  destruct (sim_threads s !! k) as [[th at_]|] eqn:Hk; [|done].
  pose proof (Forall_lookup_1 _ _ _ _ (so_threads _ Hok) Hk) as Hth.
  unfold ranks. destruct at_ as [i|i start j| |]; [| | |done].
  - destruct (Z.ltb_spec i ORDERS_PER_THREAD) as [Hi|Hi]; injection E as <-.
    + split; [by apply begin_call_ok|left]. destruct (begin_call_threads k th i s) as (n & start & ->).
      rewrite (sum_of_insert _ _ _ _ _ Hk). cbn [rank snd]. lia.
    + split; [|left; cbn [at_pc sim_threads]; rewrite (sum_of_insert _ _ _ _ _ Hk);
               unfold rank; cbn [snd]; lia].
      eapply thread_moves; [exact Hok|exact Hk|apply Hok|by eauto|by right| |cbn; lia].
      destruct Hth as [? Hlen]. unfold thread_ok. cbn in *. lia.
  - assert ((exists o trades, ts_calls (sim_engine s) !! j = Some (Submitted o trades) /\
               s' = record_latency k th i start trades s) \/
            exists ts, take_turn j (sim_engine s) = Some ts /\
              s' = mkSim ts (totalTrades s) (allLatencies s) (sim_threads s))
      as [(o & trades & Hj & ->)|(ts & Et & ->)].
    { repeat case_match; simplify_eq; eauto 10. }
    + split; [by eapply record_latency_ok|left]. unfold record_latency.
      destruct (sh_state _) as [e w]. cbn [sim_threads]. rewrite (sum_of_insert _ _ _ _ _ Hk). unfold rank. cbn [snd]. 
      destruct Hth as [? _]. lia.
    + split; [|right; split; [done|by exists j]].
      destruct (call_turn _ _ _ (so_live _ Hok) Et) as (Hl & _ & Hsame & Hord).
      rewrite <- (list_insert_id _ _ _ Hk).
      eapply thread_moves; [exact Hok|exact Hk|exact Hl|by eauto| | |cbn; lia].
      * intros j' c Hj' He. destruct (decide (j' = j)) as [->|Hne]; [left; eauto|right].
        split; [by apply Hsame|]. intros ? ? [= _ _ ->]. done.
      * destruct Hth as (? & ? & c & o & Hj & Ho). destruct (Hord _ _ _ Hj Ho) as (c' & ? & ?).
        unfold thread_ok. cbn. eauto 10.
  - injection E as <-.
    split; [|left; cbn [merge_latencies sim_threads]; rewrite (sum_of_insert _ _ _ _ _ Hk);
             unfold rank; cbn [snd]; lia].
    eapply thread_moves; [exact Hok|exact Hk|apply Hok|by eauto|by right|exact Hth|].
    rewrite length_app. cbn. lia.
Qed.

Lemma sim_terminates s : sim_ok s -> Acc sim_next s.
Proof.
  apply (Acc_rank sim_next turns_to sim_ok ranks sim_engine).
  - intros s1 Hok. exact (turns_terminate _ (tl_ok _ _ (so_live _ Hok))).
  - intros s1 s2 Hok Hn. destruct (sim_turn _ _ Hok Hn) as [Hok' Hless].
    split; [done|]. split; [|done]. apply sum_of_nonneg, rank_nonneg.
Qed.

(** * When no thread can go on *)

Lemma sim_rest s :
  sim_ok s -> (forall k, runSimulation k s = None) ->
  Forall (fun c => ended c = true) (ts_calls (sim_engine s)) /\
  Forall (fun p => p.2 = Finished) (sim_threads s).
Proof.
  intros Hok Hno.
  assert (Forall (fun c => ended c = true) (ts_calls (sim_engine s))) as Hend.
  { apply progress; [apply Hok|]. intros j. destruct (take_turn j (sim_engine s)) as [ts|] eqn:E; [|done].
    destruct (call_turn _ _ _ (so_live _ Hok) E) as (_ & (c & Hj & He) & _).
    destruct (so_calls _ Hok _ _ Hj He) as (k & th & i & start & Hk).
    specialize (Hno k). unfold runSimulation in Hno. rewrite Hk, Hj, E in Hno. by destruct c. }
  split; [exact Hend|]. apply Forall_lookup_2. intros k [th at_] Hk.
  pose proof (Forall_lookup_1 _ _ _ _ (so_threads _ Hok) Hk) as Hth.
  specialize (Hno k). unfold runSimulation in Hno. rewrite Hk in Hno.
  destruct at_ as [i|i start j| |]; [by case_match| |done|done]. exfalso.
  destruct Hth as (_ & _ & c & o & Hj & Ho). rewrite Hj in Hno.
  pose proof (Forall_lookup_1 _ _ _ _ Hend Hj) as He. by destruct c.
Qed.

(** The latencies that are merged when all threads have finished. *)
Lemma sim_collected s :
  sim_ok s -> Forall (fun p => p.2 = Finished) (sim_threads s) ->
  Z.of_nat (length (allLatencies s)) = NUM_ORDERS.
Proof.
  intros [_ _ Hth Hn Hm] Hfin. rewrite Hm. clear Hm.
  assert (sum_of merged (sim_threads s) = Z.of_nat (length (sim_threads s)) * ORDERS_PER_THREAD)
    as ->.
  { clear Hn. revert Hth Hfin. generalize (ts_calls (sim_engine s)) as calls.
    induction (sim_threads s) as [|[th at_] l IH]; intros calls Hth Hfin; [done|].
    apply Forall_cons in Hth as [Hp Hth]. apply Forall_cons in Hfin as [Hat Hfin].
    cbn in Hat. subst at_. specialize (IH _ Hth Hfin). unfold thread_ok in Hp. cbn in Hp.
    unfold sum_of in *. cbn. rewrite IH. lia. }
  rewrite Hn. reflexivity.
Qed.

(** Nobody holds a lock when all calls have ended. *)
Lemma rest_unlocked (ts : Threads SimRisk unit) sym :
  locks_ok ts -> Forall (fun c => ended c = true) (ts_calls ts) ->
  lock_held sym (ts_shared ts) = false.
Proof.
  intros Hok Hend. destruct (lock_held sym (ts_shared ts)) eqn:Hh; [|done].
  destruct (sum_of_pos (holds exclusive sym) (ts_calls ts)) as (j & d & Hj & Hd).
  { rewrite (lk_excl _ Hok), Hh. done. }
  pose proof (Forall_lookup_1 _ _ _ _ Hend Hj) as He. by destruct d.
Qed.

Lemma rest_snapshot sym depth (w : SimWorld) (ts : Threads SimRisk unit) :
  locks_ok ts -> Forall (fun c => ended c = true) (ts_calls ts) ->
  exists snap, (getSnapshot sym depth ((sh_state (ts_shared ts)).1, w)).1 = Ret snap.
Proof.
  intros Hok Hend. pose proof (rest_unlocked ts sym Hok Hend) as Hh. unfold lock_held in Hh.
  destruct (sh_state (ts_shared ts)) as [e w']. unfold getSnapshot, cbind, engine_get. cbn in *.
  destruct (books_ e !! sym); [|by eexists]. destruct (locks_ e !! sym) as [[]|]; [done|by eexists..].
Qed.

Lemma sim_start_ok t : sim_ok (sim_start t).
Proof.
  split; [|done| |done|done].
  - apply (live_time t (threads_start quiet_state)). split; [|apply quiet_live|done|done].
    apply threads_start_ok, quiet_start.
  - apply Forall_replicate. split; [|done]. by vm_compute.
Qed.

Lemma sim_reach_ok s s' : sim_ok s -> rtc (fun a b => sim_next b a) s s' -> sim_ok s'.
Proof. intros Hok Hr. induction Hr; [done|]. apply IHHr. by eapply sim_turn. Qed.

(** A run can always be carried on to its end. *)
Lemma sim_finishes s :
  sim_ok s -> exists s', rtc (fun a b => sim_next b a) s s' /\ forall k, runSimulation k s' = None.
Proof.
  intros Hok. pose proof (sim_terminates s Hok) as Hacc. revert Hok.
  induction Hacc as [s _ IH]. intros Hok.
  destruct (decide (Exists (fun k => is_Some (runSimulation k s)) (seq 0 (Z.to_nat NUM_THREADS))))
    as [Hex|Hno].
  - apply Exists_exists in Hex as (k & _ & [s1 E]). assert (sim_next s1 s) as Hn by (by exists k).
    destruct (IH s1 Hn (proj1 (sim_turn _ _ Hok Hn))) as (s' & Hr & Hend).
    exists s'. split; [by eapply rtc_l|done].
  - exists s. split; [done|]. intros k. destruct (runSimulation k s) as [s1|] eqn:E; [|done].
    destruct Hno. apply Exists_exists. exists k. split; [|by rewrite E].
    apply elem_of_seq. split; [lia|]. rewrite <- (so_count _ Hok).
    unfold runSimulation in E. destruct (sim_threads s !! k) eqn:Hk; [|done].
    by apply lookup_lt_Some in Hk.
Qed.

Lemma report_complete startTime s :
  sim_ok s -> (forall k, runSimulation k s = None) ->
  exists rep lines, simulation_report startTime s = Ret rep /\ report_lines rep = Some lines /\
    values_ok (allLatencies s) (report_values rep).
Proof.
  intros Hok Hno. destruct (sim_rest _ Hok Hno) as [Hend Hfin].
  pose proof (report_values_ok _ (sim_collected _ Hok Hfin)) as Hv. cbv zeta in Hv.
  unfold simulation_report. unfold steadyClock. rewrite read_env_run. cbn [obind].
  destruct (rest_snapshot "AAPL" 5 (advance (fun t => (steady_now t, S t)) (sh_state (ts_shared (sim_engine s))).2)
    (sim_engine s) (to_locks _ (tl_ok _ _ (so_live _ Hok))) Hend) as [snap Hs].
  rewrite Hs. cbn [obind]. eexists. pose proof Hv as (vs & Evs & _).
  destruct vs as [|v1 [|v2 [|v3 [|v4 [|v5 [|v6 [|]]]]]]]; try discriminate Evs.
  injection Evs as E1 E2 E3 E4 E5 E6. eexists. split; [reflexivity|]. split; [|exact Hv].
  unfold report_lines. cbn [rep_min rep_p50 rep_p95 rep_p99 rep_p999 rep_max].
  rewrite E1, E2, E3, E4, E5, E6. reflexivity.
Qed.

(** The load test runs to completion, taking the constants of OrderGenerator.v.  Whatever the random draws and the clocks, and
    however the four threads and their calls on the engine are interleaved, there is no
    deadlock and no endless run; a run that cannot go on, and there is one, has all four
    threads finished, no order having thrown or blocked; one latency per order is
    collected, 100,000 in all, and the report is printed: the minimum, the four
    percentiles and the maximum exist, are values that were measured, and do not
    decrease. *)
Theorem load_test_completes t :
  let start := sim_start (S t) in
  Acc sim_next start /\
  (exists s, rtc (fun a b => sim_next b a) start s /\ forall k, runSimulation k s = None) /\
  forall s, rtc (fun a b => sim_next b a) start s -> (forall k, runSimulation k s = None) ->
    Forall (fun p => p.2 = Finished) (sim_threads s) /\
    Forall returned_call (ts_calls (sim_engine s)) /\
    Z.of_nat (length (allLatencies s)) = NUM_ORDERS /\
    exists rep lines, simulation_report (steady_now t) s = Ret rep /\
      report_lines rep = Some lines /\ values_ok (allLatencies s) (report_values rep).
Proof.
  intros start. pose proof (sim_start_ok (S t)) as Hok.
  split; [by apply sim_terminates|]. split; [by apply sim_finishes|].
  intros s Hr Hno. pose proof (sim_reach_ok _ _ Hok Hr) as Hs.
  destruct (sim_rest _ Hs Hno) as [Hend Hfin]. split_and!.
  - exact Hfin.
  - apply Forall_lookup_2. intros j c Hj.
    split; [exact (Forall_lookup_1 _ _ _ _ Hend Hj)|].
    exact (Forall_lookup_1 _ _ _ _ (tl_calls _ _ (so_live _ Hs)) Hj).
  - by apply sim_collected.
  - by apply report_complete.
Qed.
End LoadTest.

Lemma load_test_completes_witness :
  exists s, rtc (fun a b => @sim_next demo_env demo_random b a) (sim_start 1) s /\
    Z.of_nat (length (allLatencies s)) = 100000.
Proof.
  destruct (@load_test_completes demo_env demo_random demo_random_laws 0) as (_ & (s & Hr & Hno) & Hend).
  exists s. split; [exact Hr|]. destruct (Hend s Hr Hno) as (_ & _ & Hl & _). exact Hl.
Defined.
