(* ===== verification/Main.v ===== *)
(** The entry point (src/main.cpp): the configuration from the environment variables and
    the server that [main] starts.  The signal handler only clears a flag that nothing
    reads, so it does not appear in the state. *)

From Stdlib Require Import ZArith Lia.
From stdpp Require Import base numbers gmap strings list pretty.
From S2P Require Import Prelude Text Model OrderBook Events Json CircuitBreaker RiskEngine RedisPositionCache MatchingEngine Wiring System RateLimiter JwtTokenService HttpServer.

Local Open Scope Z_scope.
Local Open Scope cpp_scope.

(** What [std::getenv] finds. *)
Definition getEnv (environ : gmap string string) (key defaultVal : string) : string :=
  match environ !! key with Some val => val | None => defaultVal end.

Record Config := mkConfig {
  dbUrl : string;
  redisHost : string;
  redisPort : Z;
  httpPort : Z
}.

(** A port that is not a number in the range of [int] ends the program with an
    exception. *)
Definition read_config (environ : gmap string string) : outcome Config :=
  let dbUrl := getEnv environ "TITANX_DB_URL"
    "host=localhost port=5432 dbname=titanx user=titanx password=titanx" in
  let redisHost := getEnv environ "TITANX_REDIS_HOST" "localhost" in
  let! redisPort := stoi (getEnv environ "TITANX_REDIS_PORT" "6379") in
  let! httpPort := stoi (getEnv environ "TITANX_HTTP_PORT" "8081") in
  Ret (mkConfig dbUrl redisHost redisPort httpPort).

(** [static_cast<uint16_t>(httpPort)]. *)
Definition server_port (c : Config) : Z := httpPort c mod 2 ^ 16.

(** The state of the server when [main] starts it, and the port it listens on;
    [connected] tells whether Redis was reachable. *)
Definition main_start `{Env} `{RedisServer} `{JsonPrinter} (environ : gmap string string)
    (connected : bool) (t : nat) : outcome (HttpState * Z) :=
  let! c := read_config environ in
  Ret (http_state connected t, server_port c).

(** A valid port number is used as it is; without one the server listens on 8081. *)
Lemma main_start_port `{Env} `{RedisServer} `{JsonPrinter} environ connected t port :
  0 <= port < 2 ^ 16 ->
  environ !! "TITANX_REDIS_PORT" = None ->
  environ !! "TITANX_HTTP_PORT" = Some (pretty port) \/
    (environ !! "TITANX_HTTP_PORT" = None /\ port = 8081) ->
  main_start environ connected t = Ret (http_state connected t, port).
Proof.
  intros Hp Hr Hh. unfold main_start, read_config, getEnv. rewrite Hr.
  change (stoi "6379") with (@Ret Z 6379). cbn [obind].
  assert (stoi match environ !! "TITANX_HTTP_PORT" with Some val => val | None => "8081" end
          = Ret port) as ->.
  { destruct Hh as [->|[-> ->]]; [|vm_compute; reflexivity].
    apply stoi_pretty. unfold int32. lia. }
  cbn [obind]. unfold server_port. cbn [httpPort]. by rewrite Z.mod_small by lia.
Qed.

(** Larger numbers are cut to sixteen bits. *)
Example port_truncated :
  option_map server_port
    (match read_config {[ "TITANX_HTTP_PORT" := "70000" ]} with Ret c => Some c | _ => None end)
  = Some 4464.
Proof. vm_compute. reflexivity. Qed.
