(* ===== verification/Shutdown.v ===== *)
(** The end of the program (src/main.cpp): what [main] does when the server has stopped, and
    the destructors of its local variables, together with the writer thread of the
    event store. *)

From Stdlib Require Import ZArith Lia.
From stdpp Require Import base numbers gmap strings list relations.
From S2P Require Import Prelude Model Events Json Fixtures RedisPositionCache EventStore.

Local Open Scope Z_scope.

(** Where [main] is. *)
Inductive MainPc :=
| M_Serving                    (* server.start() *)
| M_CloseStore                 (* eventStore.close() *)
| M_CloseRedis                 (* redisCache.close() *)
| M_DestroyRedis               (* ~RedisPositionCache() *)
| M_DestroyStore               (* ~EventStore() *)
| M_Exit.

Record MainState := mkMain {
  m_store : EventStore;
  m_redis : RedisPositionCache;
  m_pc : MainPc
}.

(** A call of [close] after the thread was joined: [writerThread_] is not joinable any
    more. *)
Definition close_again (s : EventStore) : EventStore :=
  let s := notify_one (mkStore (queue_ s) false (conn_ s) (writer s) (closer s) (notifies s)
                         (env_t s) (db_calls s) (appended s) (processed s)) in
  mkStore (queue_ s) (running_ s) false (writer s) (closer s) (notifies s) (env_t s) (db_calls s)
    (appended s) (processed s).

(** One step of [main]; [None] when it waits, the program has ended or was terminated.  The
    server returns when its threads have, so that no [append] is under way. *)
Definition main_next (m : MainState) : option MainState :=
  let to pc := Some (mkMain (m_store m) (m_redis m) pc) in
  if terminated (m_store m) then None else
  match m_pc m with
  | M_Serving => match notifies (m_store m) with O => to M_CloseStore | S _ => None end
  | M_CloseStore =>
      match closer (m_store m) with
      | C_Done => to M_CloseRedis
      | _ =>
          match close_next (m_store m) with
          | Some s => Some (mkMain s (m_redis m) M_CloseStore)
          | None => None
          end
      end
  | M_CloseRedis => Some (mkMain (m_store m) (redis_close (m_redis m)) M_DestroyRedis)
  | M_DestroyRedis => Some (mkMain (m_store m) (redis_close (m_redis m)) M_DestroyStore)
  | M_DestroyStore => Some (mkMain (close_again (m_store m)) (m_redis m) M_Exit)
  | M_Exit => None
  end.

Section Shutdown.
Context `{Env} `{JsonPrinter}.

(** Requests append while the server runs; they also use the cache, whose commands are not
    followed here. *)
Inductive main_step : MainState -> MainState -> Prop :=
| main_push ev m s : m_pc m = M_Serving -> append_push ev (m_store m) = Some s ->
    main_step m (mkMain s (m_redis m) (m_pc m))
| main_notify m s : append_notify (m_store m) = Some s ->
    main_step m (mkMain s (m_redis m) (m_pc m))
| main_writer db m s : writer_next db (m_store m) = Some s ->
    main_step m (mkMain s (m_redis m) (m_pc m))
| main_wakeup m s : spurious_wakeup (m_store m) = Some s ->
    main_step m (mkMain s (m_redis m) (m_pc m))
| main_main m m' : main_next m = Some m' -> main_step m m'.

Definition main_begin (db redis : bool) (t : nat) : MainState :=
  mkMain (EventStore_new db t) (RedisPositionCache_new redis) M_Serving.

(** * The invariant *)

Definition closed (pc : MainPc) : bool :=
  match pc with M_Serving | M_CloseStore => false | _ => true end.

Definition redis_closed (pc : MainPc) : bool :=
  match pc with M_DestroyRedis | M_DestroyStore | M_Exit => true | _ => false end.

Record main_ok (db : bool) (m : MainState) : Prop := {
  mo_store : store_ok db (m_store m);
  mo_serving : m_pc m = M_Serving -> closer (m_store m) = C_Idle /\ running_ (m_store m) = true;
  mo_running : running_ (m_store m) = false <-> closer (m_store m) <> C_Idle;
  mo_closed : closed (m_pc m) = true -> closer (m_store m) = C_Done;
  mo_joined : closer (m_store m) = C_Done -> writer (m_store m) = W_Done /\ conn_ (m_store m) = false;
  mo_drained : writer (m_store m) = W_Done -> queue_ (m_store m) = [];
  mo_quiet : m_pc m <> M_Serving -> notifies (m_store m) = O;
  mo_redis : redis_closed (m_pc m) = true -> ctx_ (m_redis m) = false
}.

(** What the threads other than [main] leave alone. *)
Record others_kept (s s' : EventStore) : Prop := {
  ok_running : running_ s' = running_ s;
  ok_closer : closer s' = closer s;
  ok_done : writer s = W_Done -> writer s' = W_Done /\ conn_ s' = conn_ s /\ queue_ s' = queue_ s;
  ok_end : writer s' = W_Done -> writer s <> W_Done -> queue_ s' = [];
  ok_notifies : notifies s = O -> notifies s' = O
}.

Lemma writer_done (s : EventStore) : writer s = W_Done \/ writer s <> W_Done.
Proof. destruct (writer s); auto. Qed.

(** Closing a closed store again changes nothing. *)
Lemma closed_store (s : EventStore) :
  writer s = W_Done /\ conn_ s = false -> running_ s = false -> close_again s = s.
Proof.
  destruct s. cbn. intros [-> ->] ->. reflexivity.
Qed.

Lemma others_keep c s s' m :
  others_kept s s' -> store_ok c s' -> main_ok c m -> s = m_store m ->
  main_ok c (mkMain s' (m_redis m) (m_pc m)).
Proof.
  intros [Hr Hc Hd He Hn] Hs' [_ H1 H2 H3 H4 H5 H6 H7] ->.
  split; cbn; rewrite ?Hr, ?Hc; auto.
  - intros Hdone. destruct (H4 Hdone) as [Hw Hconn]. destruct (Hd Hw) as (? & -> & _). auto.
  - intros Hw. destruct (writer_done (m_store m)) as [Hw'|Hw']; [|auto].
    destruct (Hd Hw') as (_ & _ & ->). auto.
Qed.

Lemma writer_kept db s s' : writer_next db s = Some s' -> others_kept s s'.
Proof.
  unfold writer_next, write_event. intros E.
  destruct (writer s) as [| | | | | | |ev| | | | |] eqn:Hw, (queue_ s) as [|e q] eqn:Hq; try discriminate E;
    try (destruct (writeToDb _ db s) as [[[]|what|] s1] eqn:Ed; [..|done];
         destruct (writeToDb_facts _ _ _ _ _ Ed) as [[] _]);
    injection E as <-; split; cbn; rewrite ?Hw, ?Hq; repeat case_match; cbn; intros; congruence.
Qed.

Lemma wakeup_kept s s' : spurious_wakeup s = Some s' -> others_kept s s'.
Proof.
  unfold spurious_wakeup. destruct (writer s) eqn:Hw; try done. intros [= <-].
  split; cbn; rewrite ?Hw; done.
Qed.

Lemma notify_kept s s' : append_notify s = Some s' -> others_kept s s'.
Proof.
  unfold append_notify. destruct (notifies s) as [|n] eqn:En; [done|].
  destruct (terminated s); [done|]. intros [= <-]. unfold notify_one. cbn. destruct (writer s) eqn:Hw; split; cbn; rewrite ?Hw; done || congruence.
Qed.

Lemma push_main c ev m s :
  m_pc m = M_Serving -> append_push ev (m_store m) = Some s -> main_ok c m ->
  main_ok c (mkMain s (m_redis m) (m_pc m)).
Proof.
  intros Hpc E Hok. pose proof (append_push_ok _ _ _ _ E (mo_store _ _ Hok)) as Hs.
  destruct (mo_serving _ _ Hok Hpc) as [Hc Hr]. pose proof (so_final _ _ (mo_store _ _ Hok)) as Hf.
  unfold append_push in E. destruct (writer_holds _ || _); [done|]. injection E as <-.
  split; cbn; rewrite ?Hpc; try done.
  - rewrite Hc, Hr. by split.
  - by rewrite Hc.
  - intros Hw. rewrite Hw, Hr in Hf. by discriminate Hf.
Qed.

Lemma notify_one_same (s : EventStore) :
  running_ (notify_one s) = running_ s /\ queue_ (notify_one s) = queue_ s /\
  notifies (notify_one s) = notifies s /\ (writer (notify_one s) = W_Done -> writer s = W_Done).
Proof. unfold notify_one. by destruct (writer s) eqn:Hw; cbn; rewrite ?Hw. Qed.

Lemma close_main c m s :
  m_pc m = M_CloseStore -> close_next (m_store m) = Some s -> main_ok c m ->
  main_ok c (mkMain s (m_redis m) M_CloseStore).
Proof.
  intros Hpc E Hok. pose proof (close_next_ok _ _ _ E (mo_store _ _ Hok)) as Hs.
  destruct Hok as [_ H1 H2 H3 H4 H5 H6 H7]. rewrite Hpc in *. unfold close_next in E.
  destruct (terminated (m_store m)); [done|].
  destruct (closer (m_store m)) eqn:Hc; [| |destruct (writer (m_store m)) eqn:Hw|]; try discriminate E;
    injection E as <-; (split; cbn; try exact Hs; try discriminate; rewrite ?Hw; auto).
  - done.
  - split; [done|]. intros _. by apply H2.
  - destruct (notify_one_same (m_store m)) as (_ & -> & _ & Hw). auto.
  - destruct (notify_one_same (m_store m)) as (_ & _ & -> & _). auto.
  - split; [done|]. intros _. by apply H2.
Qed.

Lemma main_step_ok c m m' : main_step m m' -> main_ok c m -> main_ok c m'.
Proof.
  intros Hstep Hok. destruct Hstep as [ev m s Hpc E|m s E|db m s E|m s E|m m' E].
  - by eapply push_main.
  - eapply others_keep; [by apply notify_kept|by eapply append_notify_ok, mo_store|done|done].
  - eapply others_keep; [by eapply writer_kept|by eapply writer_next_ok, mo_store|done|done].
  - eapply others_keep; [by eapply wakeup_kept|by eapply wakeup_ok, mo_store|done|done].
  - unfold main_next in E. destruct (terminated (m_store m)); [done|]. pose proof Hok as [Hs H1 H2 H3 H4 H5 H6 H7]. destruct (m_pc m) eqn:Hpc.
    + destruct (notifies (m_store m)) eqn:Hn; [|done]. injection E as <-. by split.
    + destruct (closer (m_store m)) eqn:Hc;
        [destruct (close_next (m_store m)) as [s|] eqn:Ec; [|done]; injection E as <-;
         by eapply close_main..|].
      injection E as <-. split; cbn; rewrite ?Hc; try done; auto.
    + injection E as <-. split; cbn; try done; auto. intros _. unfold redis_close. by case_match.
    + injection E as <-. split; cbn; try done; auto. intros _. unfold redis_close. by case_match.
    + injection E as <-. rewrite (closed_store (m_store m)); [by split; cbn; auto|..]; auto.
      * apply H2. rewrite H3 by done. done.
    + done.
Qed.

Lemma main_steps_ok c m m' : rtc main_step m m' -> main_ok c m -> main_ok c m'.
Proof. induction 1; eauto using main_step_ok. Qed.

Lemma main_begin_ok db redis t : main_ok db (main_begin db redis t).
Proof. split; try done. apply EventStore_new_ok. Qed.

(** C37: an orderly end loses nothing.  However the requests, the writer thread and [main]
    are interleaved and whatever the database answers: when [main] has returned, every
    event that was appended has been handled by [writeToDb], in order; the writer thread
    has ended, both connections are closed, and the second [close] of the destructors
    found nothing left to do. *)
Theorem shutdown_loses_nothing db redis t m :
  rtc main_step (main_begin db redis t) m -> m_pc m = M_Exit ->
  processed (m_store m) = appended (m_store m) /\
  writer (m_store m) = W_Done /\ conn_ (m_store m) = false /\ ctx_ (m_redis m) = false /\
  close_again (m_store m) = m_store m /\ redis_close (m_redis m) = m_redis m.
Proof.
  intros Hrun Hpc. destruct (main_steps_ok _ _ _ Hrun (main_begin_ok db redis t)) as [Hs _ H2 H3 H4 H5 _ H7].
  rewrite Hpc in *. specialize (H3 eq_refl). destruct (H4 H3) as [Hw Hc]. specialize (H7 eq_refl).
  split_and!; try done.
  - rewrite (so_fifo _ _ Hs), Hw, (H5 Hw). cbn. by rewrite app_nil_r.
  - apply closed_store; [done|]. apply H2. by rewrite H3.
  - unfold redis_close. by rewrite H7.
Qed.
End Shutdown.

(** * Witness *)

Section ConcreteShutdown.
#[local] Existing Instance demo_env.
#[local] Existing Instance demo_json.

(** Who moves next: a request, the writer, [main]. *)
Inductive shutdown_turn := S_push (ev : OrderEvent) | S_notify | S_writer (db : DbAnswer) | S_main.

Definition shutdown_take (turn : shutdown_turn) (m : MainState) : option MainState :=
  let store o := option_map (fun s => mkMain s (m_redis m) (m_pc m)) o in
  match turn with
  | S_push ev => match m_pc m with M_Serving => store (append_push ev (m_store m)) | _ => None end
  | S_notify => store (append_notify (m_store m))
  | S_writer db => store (writer_next db (m_store m))
  | S_main => main_next m
  end.

Fixpoint shutdown_run (turns : list shutdown_turn) (m : MainState) : option MainState :=
  match turns with
  | [] => Some m
  | turn :: turns => m' ← shutdown_take turn m; shutdown_run turns m'
  end.

Lemma shutdown_run_steps turns m m' : shutdown_run turns m = Some m' -> rtc main_step m m'.
Proof.
  revert m. induction turns as [|turn turns IH]; intros m E; [by injection E as ->|].
  cbn in E. destruct (shutdown_take turn m) as [m1|] eqn:Et; [|done].
  eapply rtc_l; [|by apply IH]. unfold shutdown_take in Et.
  destruct turn as [ev| |db|]; cbn in Et.
  - destruct (m_pc m) eqn:Hpc; try discriminate Et. rewrite <- Hpc in Et.
    destruct (append_push ev (m_store m)) eqn:Es; [|done]. injection Et as <-. by eapply main_push.
  - destruct (append_notify (m_store m)) eqn:Es; [|done]. injection Et as <-. by apply main_notify.
  - destruct (writer_next db (m_store m)) eqn:Es; [|done]. injection Et as <-. by eapply main_writer.
  - by apply main_main.
Qed.

(** One event, then the end of the program. *)
Definition demo_shutdown : list shutdown_turn :=
  [S_push (demo_event "e1"); S_notify; S_main; S_main; S_main] ++ replicate 4 (S_writer db_ok)
  ++ replicate 5 S_main.

Lemma shutdown_loses_nothing_witness :
  exists m, shutdown_run demo_shutdown (main_begin true true 0) = Some m /\ m_pc m = M_Exit /\
    processed (m_store m) = [demo_event "e1"] /\ conn_ (m_store m) = false.
Proof.
  eexists. split; [vm_compute; reflexivity|]. split; [reflexivity|].
  edestruct (shutdown_loses_nothing true true 0) as (Hp & _ & Hc & _);
    [apply (shutdown_run_steps demo_shutdown); vm_compute; reflexivity|reflexivity|].
  split; [exact Hp|exact Hc].
Defined.
End ConcreteShutdown.
